(** * Object pools over Go synchronisation primitives

    A shallow embedding of [golang_primitives/helpers.go] (ring buffer,
    single-segment pools, sharded pools) and of the read/write-lock ring
    buffer pool of the earlier revision of that file, followed by the
    properties of the pools that the design document states.

    Conventions of the embedding:
    - a Go [int] / [int64] is a [Z]; every addition and subtraction of the
      source goes through [wrap], the 64-bit two's complement wrap-around;
    - a [*testObject] is an address into a heap of [testObject] records, or
      [nil]; the allocator extends the heap, the cleaner and the sharded
      [Get] write through the pointer;
    - a call that does not return normally is an [outcome] other than [Ok]:
      [Panic] for a run-time panic (index out of range, nil dereference,
      negative [make] length, division by zero) and [Blocked] for a call
      that does not return: the goroutine parks with nobody to wake it (send
      on a full channel, [Lock] of a held mutex, [cond.Wait]) or a retry
      loop keeps spinning;
    - a pool is a value threaded through its methods: [Get] and [Put] return
      the pool after the call. *)

From Stdlib Require Import ZArith String Lia.
From stdpp Require Import base option list.

Local Open Scope Z_scope.

(** ** Outcomes of a call *)

Inductive outcome (A : Type) : Type :=
| Ok (a : A)
| Panic
| Blocked.
Arguments Ok {A} a.
Arguments Panic {A}.
Arguments Blocked {A}.

Global Instance outcome_ret : MRet outcome := fun A a => Ok a.
Global Instance outcome_bind : MBind outcome := fun A B f m =>
  match m with
  | Ok a => f a
  | Panic => Panic
  | Blocked => Blocked
  end.

(** ** Machine integers *)

Definition int_min : Z := - 2 ^ 63.
Definition int_max : Z := 2 ^ 63 - 1.

Definition is_int (z : Z) : Prop := int_min <= z <= int_max.

Definition wrap (z : Z) : Z := (z + 2 ^ 63) mod 2 ^ 64 - 2 ^ 63.

Definition int_add (a b : Z) : Z := wrap (a + b).
Definition int_sub (a b : Z) : Z := wrap (a - b).

(** [a / b] and [a % b] truncate toward zero and panic on a zero divisor. *)
Definition int_quot (a b : Z) : outcome Z :=
  if b =? 0 then Panic else Ok (wrap (Z.quot a b)).
Definition int_rem (a b : Z) : outcome Z :=
  if b =? 0 then Panic else Ok (Z.rem a b).

(** ** Slices *)

(** [make([]T, n)]: [n] zero values; panics when [n] is negative. *)
Definition make_slice {T : Type} (z : T) (n : Z) : outcome (list T) :=
  if n <? 0 then Panic else Ok (replicate (Z.to_nat n) z).

(** The runtime's [make] has a second test, which [make_slice] and, below,
    [make_chan] and [make_slice_cap] leave out: it panics ([len out of
    range], [cap out of range], [makechan: size out of range]) when the
    elements would take more than [maxAlloc] bytes, [2^48] on a 64-bit
    machine, a channel's header included. The three definitions stand for
    [make] on the sizes that pass this test, as [make_max] pointer-sized
    elements, [2^47] bytes, do. Running out of memory is a fatal error of
    the process and no panic; as for every allocation of an object, the
    definitions take it that the memory is there. *)
Definition maxAlloc : Z := 2 ^ 48.
Definition make_max : Z := maxAlloc / 16.

(** [s[i]] *)
Definition index_slice {T : Type} (s : list T) (i : Z) : outcome T :=
  if (0 <=? i) && (i <? Z.of_nat (length s)) then
    match s !! Z.to_nat i with
    | Some x => Ok x
    | None => Panic
    end
  else Panic.

(** [s[i] = x] *)
Definition store_slice {T : Type} (s : list T) (i : Z) (x : T) : outcome (list T) :=
  if (0 <=? i) && (i <? Z.of_nat (length s)) then Ok (<[Z.to_nat i := x]> s)
  else Panic.

(** ** Objects and the heap *)

Record testObject : Type := {
  ID : Z;
  Data : string;
  shardIndex : Z
}.

(** A [*testObject]: [None] is [nil], [Some a] the object at address [a]. *)
Abbreviation ptr := (option nat).
Abbreviation nil_ptr := (@None nat).
Abbreviation heap := (list testObject).

(** The zero value of a type ([var zero T]). *)
Class GoZero (T : Type) := zero : T.
Global Instance ptr_zero : GoZero ptr := nil_ptr.

Definition deref (obj : ptr) (h : heap) : outcome testObject :=
  match obj with
  | None => Panic
  | Some a =>
      match h !! a with
      | Some o => Ok o
      | None => Panic
      end
  end.

Definition assign (obj : ptr) (f : testObject -> testObject) (h : heap) : outcome heap :=
  match obj with
  | None => Panic
  | Some a =>
      match h !! a with
      | Some o => Ok (<[a := f o]> h)
      | None => Panic
      end
  end.

(** [obj.ID = v], [obj.Data = v], [obj.shardIndex = v] *)
Definition set_ID (v : Z) (o : testObject) : testObject :=
  {| ID := v; Data := Data o; shardIndex := shardIndex o |}.
Definition set_Data (v : string) (o : testObject) : testObject :=
  {| ID := ID o; Data := v; shardIndex := shardIndex o |}.
Definition set_shardIndex (v : Z) (o : testObject) : testObject :=
  {| ID := ID o; Data := Data o; shardIndex := v |}.

(** [func() *testObject]: returns a pointer, may allocate. *)
Abbreviation Allocator := (heap -> ptr * heap).
(** [func(obj *testObject)]: writes through the pointer. *)
Abbreviation Cleaner := (ptr -> heap -> outcome heap).

(** [&testObject{...}]: a new object at the next free address. *)
Definition new_object (o : testObject) : Allocator :=
  fun h => (Some (length h), h ++ [o]).

Definition testAllocator : Allocator :=
  new_object {| ID := 0; Data := "test"; shardIndex := -1 |}.

Definition testCleaner : Cleaner := fun obj h =>
  h1 ← assign obj (set_ID 0) h;
  h2 ← assign obj (set_Data "") h1;
  assign obj (set_shardIndex (-1)) h2.

(** The number of objects ever allocated: what an allocation counter
    wrapped around the allocator reads. *)
Definition allocations (h : heap) : nat := length h.

(** An allocator that, like [testAllocator], returns a newly allocated
    object on every call. *)
Definition fresh_allocator (alloc : Allocator) : Prop :=
  forall h, exists o, alloc h = (Some (length h), h ++ [o]).

(** [obj] points to an object of the heap. *)
Definition valid (obj : ptr) (h : heap) : Prop :=
  exists a, obj = Some a /\ (a < length h)%nat.

(** ** Ring buffer *)

Module RingBuffer.

Record t (T : Type) : Type := {
  buffer : list T;
  head : Z;
  tail : Z;
  size : Z;
  capacity : Z
}.
Arguments buffer {T} _.
Arguments head {T} _.
Arguments tail {T} _.
Arguments size {T} _.
Arguments capacity {T} _.

Section Ops.
Context {T : Type} `{GoZero T}.

Definition NewRingBuffer (capacity : Z) : outcome (t T) :=
  buf ← make_slice zero capacity;
  Ok {| buffer := buf; capacity := capacity; size := 0; head := 0; tail := 0 |}.

Definition Push (rb : t T) (item : T) : outcome (bool * t T) :=
  if size rb >=? capacity rb then Ok (false, rb)
  else
    buf ← store_slice (buffer rb) (tail rb) item;
    tl ← int_rem (int_add (tail rb) 1) (capacity rb);
    Ok (true, {| buffer := buf; head := head rb; tail := tl;
                 size := int_add (size rb) 1; capacity := capacity rb |}).

Definition Pop (rb : t T) : outcome (T * bool * t T) :=
  if size rb <=? 0 then Ok (zero, false, rb)
  else
    item ← index_slice (buffer rb) (head rb);
    hd ← int_rem (int_add (head rb) 1) (capacity rb);
    Ok (item, true, {| buffer := buffer rb; head := hd; tail := tail rb;
                       size := int_sub (size rb) 1; capacity := capacity rb |}).

Definition IsEmpty (rb : t T) : bool := size rb =? 0.
Definition IsFull (rb : t T) : bool := size rb =? capacity rb.
Definition Size (rb : t T) : Z := size rb.

(** A client's calls, and what each call returned. *)
Inductive call : Type :=
| CallPush (item : T)
| CallPop.

Inductive ret : Type :=
| RetPush (ok : bool)
| RetPop (item : T) (ok : bool).

Definition exec (rb : t T) (c : call) : outcome (ret * t T) :=
  match c with
  | CallPush item => '(ok, rb') ← Push rb item; Ok (RetPush ok, rb')
  | CallPop => '(item, ok, rb') ← Pop rb; Ok (RetPop item ok, rb')
  end.

Fixpoint run (cs : list call) (rb : t T) : outcome (list ret * t T) :=
  match cs with
  | [] => Ok ([], rb)
  | c :: cs' =>
      '(r, rb1) ← exec rb c;
      '(rs, rb2) ← run cs' rb1;
      Ok (r :: rs, rb2)
  end.

(** The items held, oldest first: [n] slots read from [start], indices
    taken modulo the length of the backing array. *)
Fixpoint slots (buf : list T) (start n : nat) : list T :=
  match n with
  | O => []
  | S n' =>
      match buf !! start with
      | Some x => x :: slots buf (S start mod length buf) n'
      | None => []
      end
  end.

Definition contents (rb : t T) : list T :=
  slots (buffer rb) (Z.to_nat (head rb)) (Z.to_nat (size rb)).

(** Representation invariant. With [capacity = 0] there is no valid
    index: [head] and [tail] stay at 0 and are never used. *)
Definition wf (rb : t T) : Prop :=
  Z.of_nat (length (buffer rb)) = capacity rb /\
  capacity rb <= int_max /\
  0 <= size rb <= capacity rb /\
  (capacity rb = 0 /\ head rb = 0 /\ tail rb = 0 \/
   0 <= head rb < capacity rb /\
   tail rb = (head rb + size rb) mod capacity rb).

End Ops.
End RingBuffer.

(** ** Locks, loops, channels *)

(** A [sync.Mutex], or a [sync.RWMutex] used through [Lock]/[Unlock] only.
    [Lock] of a held lock parks the caller; [Unlock] of a free lock is a
    fatal error. *)
Inductive Mutex : Type := Unlocked | Locked.

Definition Lock (mu : Mutex) : outcome Mutex :=
  match mu with
  | Unlocked => Ok Locked
  | Locked => Blocked
  end.

Definition Unlock (mu : Mutex) : outcome Mutex :=
  match mu with
  | Locked => Ok Unlocked
  | Unlocked => Panic
  end.

(** [for i := range n { body }], the state threaded through the iterations. *)
Fixpoint for_range_from {S : Type} (i : Z) (n : nat)
    (body : Z -> S -> outcome S) (s : S) : outcome S :=
  match n with
  | O => Ok s
  | S n' => s1 ← body i s; for_range_from (i + 1) n' body s1
  end.

Definition for_range {S : Type} (n : Z) (body : Z -> S -> outcome S) (s : S) : outcome S :=
  for_range_from 0 (Z.to_nat n) body s.

(** A buffered channel: the queue of values sent and not yet received. *)
Record chan (T : Type) : Type := {
  queue : list T;
  chan_cap : Z
}.
Arguments queue {T} _.
Arguments chan_cap {T} _.

(** [make(chan T, n)] *)
Definition make_chan {T : Type} (n : Z) : outcome (chan T) :=
  if n <? 0 then Panic else Ok {| queue := []; chan_cap := n |}.

(** [c <- x]: parks while the buffer is full. *)
Definition send {T : Type} (c : chan T) (x : T) : outcome (chan T) :=
  if Z.of_nat (length (queue c)) <? chan_cap c
  then Ok {| queue := queue c ++ [x]; chan_cap := chan_cap c |}
  else Blocked.

(** The receive case of a [select] with a [default]. *)
Definition try_recv {T : Type} (c : chan T) : option (T * chan T) :=
  match queue c with
  | [] => None
  | x :: q => Some (x, {| queue := q; chan_cap := chan_cap c |})
  end.

(** A slice with spare capacity: [make([]T, 0, n)], [append], [s[:n]]. *)
Record slice (T : Type) : Type := {
  elems : list T;
  slice_cap : Z
}.
Arguments elems {T} _.
Arguments slice_cap {T} _.

Definition len {T : Type} (s : slice T) : Z := Z.of_nat (length (elems s)).

Definition make_slice_cap {T : Type} (n : Z) : outcome (slice T) :=
  if n <? 0 then Panic else Ok {| elems := []; slice_cap := n |}.

(** [append(s, x)]. Within capacity the backing array is reused; beyond it
    the runtime picks a larger one (here: doubled), a case the pools never
    reach, every [append] of theirs being within capacity. *)
Definition append {T : Type} (s : slice T) (x : T) : slice T :=
  {| elems := elems s ++ [x];
     slice_cap := if len s <? slice_cap s then slice_cap s
                  else Z.max (len s + 1) (2 * slice_cap s) |}.

(** [s[:n]] *)
Definition reslice {T : Type} (s : slice T) (n : Z) : outcome (slice T) :=
  if (0 <=? n) && (n <=? slice_cap s)
  then Ok {| elems := take (Z.to_nat n) (elems s); slice_cap := slice_cap s |}
  else Panic.

(** ** Mutex-protected ring buffer pool *)

Module MutexRingBufferPool.

Record t : Type := {
  ringBuffer : RingBuffer.t ptr;
  mu : Mutex;
  allocator : Allocator;
  cleaner : Cleaner
}.

Definition with_state (p : t) (rb : RingBuffer.t ptr) (m : Mutex) : t :=
  {| ringBuffer := rb; mu := m; allocator := allocator p; cleaner := cleaner p |}.

Definition Get (p : t) (h : heap) : outcome (ptr * t * heap) :=
  m ← Lock (mu p);
  '(obj, ok, rb) ← RingBuffer.Pop (ringBuffer p);
  if (ok : bool) then
    m' ← Unlock m;
    Ok (obj, with_state p rb m', h)
  else
    let '(fresh, h') := allocator p h in
    m' ← Unlock m;
    Ok (fresh, with_state p rb m', h').

Definition Put (p : t) (obj : ptr) : outcome t :=
  m ← Lock (mu p);
  '(_, rb) ← RingBuffer.Push (ringBuffer p) obj;
  m' ← Unlock m;
  Ok (with_state p rb m').

(** Objects resident in the pool. *)
Definition occupancy (p : t) : Z := RingBuffer.Size (ringBuffer p).

(** Representation invariant between two calls, and the resident objects in
    arrival order (oldest first). *)
Definition wf (p : t) : Prop := RingBuffer.wf (ringBuffer p) /\ mu p = Unlocked.
Definition resident (p : t) : list ptr := RingBuffer.contents (ringBuffer p).
Definition capacity (p : t) : Z := RingBuffer.capacity (ringBuffer p).

End MutexRingBufferPool.

(** The pre-population loop of the ring buffer pools:
    [for range capacity { pool.ringBuffer.Push(allocator()) }]. *)
Definition prepopulate_ring (capacity : Z) (allocator : Allocator)
    (rb : RingBuffer.t ptr) (h : heap) : outcome (RingBuffer.t ptr * heap) :=
  for_range capacity
    (fun _ (st : RingBuffer.t ptr * heap) =>
       let '(rb, h) := st in
       let '(obj, h') := allocator h in
       '(_, rb') ← RingBuffer.Push rb obj;
       Ok (rb', h'))
    (rb, h).

Definition NewMutexRingBufferPool (capacity : Z) (allocator : Allocator)
    (cleaner : Cleaner) (h : heap) : outcome (MutexRingBufferPool.t * heap) :=
  rb ← RingBuffer.NewRingBuffer capacity;
  '(rb', h') ← prepopulate_ring capacity allocator rb h;
  Ok ({| MutexRingBufferPool.ringBuffer := rb';
         MutexRingBufferPool.mu := Unlocked;
         MutexRingBufferPool.allocator := allocator;
         MutexRingBufferPool.cleaner := cleaner |}, h').

(** ** RWMutex-protected ring buffer pool (earlier revision of the file) *)

Module RWMutexRingBufferPool.

Record t : Type := {
  ringBuffer : RingBuffer.t ptr;
  mu : Mutex;
  allocator : Allocator;
  cleaner : Cleaner
}.

Definition with_state (p : t) (rb : RingBuffer.t ptr) (m : Mutex) : t :=
  {| ringBuffer := rb; mu := m; allocator := allocator p; cleaner := cleaner p |}.

Definition Get (p : t) (h : heap) : outcome (ptr * t * heap) :=
  m ← Lock (mu p);
  '(obj, ok, rb) ← RingBuffer.Pop (ringBuffer p);
  if (ok : bool) then
    m' ← Unlock m;
    Ok (obj, with_state p rb m', h)
  else
    let '(fresh, h') := allocator p h in
    m' ← Unlock m;
    Ok (fresh, with_state p rb m', h').

Definition Put (p : t) (obj : ptr) : outcome t :=
  m ← Lock (mu p);
  '(_, rb) ← RingBuffer.Push (ringBuffer p) obj;
  m' ← Unlock m;
  Ok (with_state p rb m').

Definition occupancy (p : t) : Z := RingBuffer.Size (ringBuffer p).

(** Representation invariant between two calls, and the resident objects in
    arrival order (oldest first). *)
Definition wf (p : t) : Prop := RingBuffer.wf (ringBuffer p) /\ mu p = Unlocked.
Definition resident (p : t) : list ptr := RingBuffer.contents (ringBuffer p).
Definition capacity (p : t) : Z := RingBuffer.capacity (ringBuffer p).

End RWMutexRingBufferPool.

Definition NewRWMutexRingBufferPool (capacity : Z) (allocator : Allocator)
    (cleaner : Cleaner) (h : heap) : outcome (RWMutexRingBufferPool.t * heap) :=
  rb ← RingBuffer.NewRingBuffer capacity;
  '(rb', h') ← prepopulate_ring capacity allocator rb h;
  Ok ({| RWMutexRingBufferPool.ringBuffer := rb';
         RWMutexRingBufferPool.mu := Unlocked;
         RWMutexRingBufferPool.allocator := allocator;
         RWMutexRingBufferPool.cleaner := cleaner |}, h').

(** ** Channel-based pool *)

Module ChannelBasedPool.

Record t : Type := {
  objects : chan ptr;
  allocator : Allocator;
  cleaner : Cleaner
}.

Definition with_objects (p : t) (c : chan ptr) : t :=
  {| objects := c; allocator := allocator p; cleaner := cleaner p |}.

Definition Get (p : t) (h : heap) : outcome (ptr * t * heap) :=
  match try_recv (objects p) with
  | Some (obj, c) => Ok (obj, with_objects p c, h)
  | None => let '(obj, h') := allocator p h in Ok (obj, p, h')
  end.

Definition Put (p : t) (obj : ptr) (h : heap) : outcome (t * heap) :=
  h' ← cleaner p obj h;
  c ← send (objects p) obj;
  Ok (with_objects p c, h').

Definition occupancy (p : t) : Z := Z.of_nat (length (queue (objects p))).

(** Representation invariant, and the resident objects in arrival order
    (oldest first). *)
Definition wf (p : t) : Prop :=
  Z.of_nat (length (queue (objects p))) <= chan_cap (objects p).
Definition resident (p : t) : list ptr := queue (objects p).
Definition capacity (p : t) : Z := chan_cap (objects p).

End ChannelBasedPool.

Definition NewChannelBasedPool (capacity : Z) (allocator : Allocator)
    (cleaner : Cleaner) (h : heap) : outcome (ChannelBasedPool.t * heap) :=
  c ← make_chan capacity;
  '(c', h') ← for_range capacity
                (fun _ (st : chan ptr * heap) =>
                   let '(c, h) := st in
                   let '(obj, h') := allocator h in
                   c' ← send c obj;
                   Ok (c', h'))
                (c, h);
  Ok ({| ChannelBasedPool.objects := c';
         ChannelBasedPool.allocator := allocator;
         ChannelBasedPool.cleaner := cleaner |}, h').

(** ** Mutex-protected slice pool *)

Module MutexBasedPool.

Record t : Type := {
  objects : slice ptr;
  mu : Mutex;
  allocator : Allocator;
  cleaner : Cleaner
}.

Definition with_state (p : t) (s : slice ptr) (m : Mutex) : t :=
  {| objects := s; mu := m; allocator := allocator p; cleaner := cleaner p |}.

Definition Get (p : t) (h : heap) : outcome (ptr * t * heap) :=
  m ← Lock (mu p);
  if len (objects p) =? 0 then
    let '(obj, h') := allocator p h in
    m' ← Unlock m;
    Ok (obj, with_state p (objects p) m', h')
  else
    obj ← index_slice (elems (objects p)) (int_sub (len (objects p)) 1);
    s ← reslice (objects p) (int_sub (len (objects p)) 1);
    m' ← Unlock m;
    Ok (obj, with_state p s m', h).

Definition Put (p : t) (obj : ptr) : outcome t :=
  m ← Lock (mu p);
  let s := if len (objects p) <? slice_cap (objects p)
           then append (objects p) obj else objects p in
  m' ← Unlock m;
  Ok (with_state p s m').

Definition occupancy (p : t) : Z := len (objects p).

(** Representation invariant between two calls, and the resident objects in
    arrival order (oldest first). *)
Definition wf (p : t) : Prop :=
  len (objects p) <= slice_cap (objects p) <= int_max /\ mu p = Unlocked.
Definition resident (p : t) : list ptr := elems (objects p).
Definition capacity (p : t) : Z := slice_cap (objects p).

End MutexBasedPool.

Definition NewMutexBasedPool (capacity : Z) (allocator : Allocator)
    (cleaner : Cleaner) (h : heap) : outcome (MutexBasedPool.t * heap) :=
  s ← make_slice_cap capacity;
  '(s', h') ← for_range capacity
                (fun _ (st : slice ptr * heap) =>
                   let '(s, h) := st in
                   let '(obj, h') := allocator h in
                   Ok (append s obj, h'))
                (s, h);
  Ok ({| MutexBasedPool.objects := s';
         MutexBasedPool.mu := Unlocked;
         MutexBasedPool.allocator := allocator;
         MutexBasedPool.cleaner := cleaner |}, h').

(** ** Atomic-index pool *)

Module AtomicBasedPool.

Record t : Type := {
  objects : list ptr;
  index : Z;
  capacity : Z;
  allocator : Allocator;
  cleaner : Cleaner
}.

Definition with_index (p : t) (i : Z) : t :=
  {| objects := objects p; index := i; capacity := capacity p;
     allocator := allocator p; cleaner := cleaner p |}.

Definition with_objects (p : t) (objs : list ptr) : t :=
  {| objects := objs; index := index p; capacity := capacity p;
     allocator := allocator p; cleaner := cleaner p |}.

(** The [atomic.Int64] operations on [p.index]. *)
Definition Load (p : t) : Z := index p.
Definition Store (p : t) (v : Z) : t := with_index p v.
Definition CompareAndSwap (p : t) (old new : Z) : bool * t :=
  if index p =? old then (true, with_index p new) else (false, p).

(** [Get] and [Put] run by one goroutine with no other goroutine between
    its atomic operations. [fuel] bounds the iterations of the [for] loop;
    a loop that has not exited by then is reported as [Blocked]. *)
Fixpoint Get_loop (fuel : nat) (p : t) (h : heap) : outcome (ptr * t * heap) :=
  match fuel with
  | O => Blocked
  | S fuel' =>
      let idx := Load p in
      if idx <=? 0 then
        let '(fresh, h') := allocator p h in Ok (fresh, p, h')
      else
        let '(swapped, p') := CompareAndSwap p idx (int_sub idx 1) in
        if swapped then
          obj ← index_slice (objects p') (int_sub idx 1);
          Ok (obj, p', h)
        else Get_loop fuel' p' h
  end.

Fixpoint Put_loop (fuel : nat) (p : t) (obj : ptr) : outcome t :=
  match fuel with
  | O => Blocked
  | S fuel' =>
      let idx := Load p in
      if idx >=? capacity p then Ok p
      else
        let '(swapped, p') := CompareAndSwap p idx (int_add idx 1) in
        if swapped then
          objs ← store_slice (objects p') idx obj;
          Ok (with_objects p' objs)
        else Put_loop fuel' p' obj
  end.

(** One iteration is all a lone goroutine needs: its compare-and-swap
    finds the value it has just loaded ([abp_Get_loop_fuel] and
    [abp_Put_loop_fuel] below: more fuel changes nothing). *)
Definition Get (p : t) (h : heap) : outcome (ptr * t * heap) := Get_loop 1 p h.
Definition Put (p : t) (obj : ptr) : outcome t := Put_loop 1 p obj.

Definition occupancy (p : t) : Z := index p.

(** *** Interleaved execution

    A goroutine inside [Get] or [Put] is at one of the atomic operations of
    the method; other goroutines may run between any two of them. *)
Inductive pc : Type :=
| GetLoad                        (* idx := p.index.Load() *)
| GetCAS (idx : Z)               (* p.index.CompareAndSwap(idx, idx-1) *)
| GetSlot (idx : Z)              (* return p.objects[idx-1] *)
| PutLoad (obj : ptr)            (* idx := p.index.Load() *)
| PutCAS (obj : ptr) (idx : Z)   (* p.index.CompareAndSwap(idx, idx+1) *)
| PutSlot (obj : ptr) (idx : Z)  (* p.objects[idx] = obj *)
| GetDone (obj : ptr)            (* Get returned obj *)
| PutDone                        (* Put returned *)
| Crashed.                       (* panicked *)

Definition step (th : pc) (p : t) (h : heap) : pc * t * heap :=
  match th with
  | GetLoad =>
      let idx := Load p in
      if idx <=? 0 then
        let '(fresh, h') := allocator p h in (GetDone fresh, p, h')
      else (GetCAS idx, p, h)
  | GetCAS idx =>
      let '(swapped, p') := CompareAndSwap p idx (int_sub idx 1) in
      if swapped then (GetSlot idx, p', h) else (GetLoad, p', h)
  | GetSlot idx =>
      match index_slice (objects p) (int_sub idx 1) with
      | Ok obj => (GetDone obj, p, h)
      | _ => (Crashed, p, h)
      end
  | PutLoad obj =>
      let idx := Load p in
      if idx >=? capacity p then (PutDone, p, h) else (PutCAS obj idx, p, h)
  | PutCAS obj idx =>
      let '(swapped, p') := CompareAndSwap p idx (int_add idx 1) in
      if swapped then (PutSlot obj idx, p', h) else (PutLoad obj, p', h)
  | PutSlot obj idx =>
      match store_slice (objects p) idx obj with
      | Ok objs => (PutDone, with_objects p objs, h)
      | _ => (Crashed, p, h)
      end
  | GetDone _ | PutDone | Crashed => (th, p, h)
  end.

(** The pool, the heap, and the goroutines currently inside a call. *)
Record config : Type := {
  pool : t;
  mem : heap;
  threads : list pc
}.

(** What happens next: a goroutine calls [Get] or [Put], or the scheduler
    lets goroutine [i] perform its next atomic operation. *)
Inductive event : Type :=
| CallGet
| CallPut (obj : ptr)
| Sched (i : nat).

Definition fire (c : config) (e : event) : config :=
  match e with
  | CallGet =>
      {| pool := pool c; mem := mem c; threads := threads c ++ [GetLoad] |}
  | CallPut obj =>
      {| pool := pool c; mem := mem c; threads := threads c ++ [PutLoad obj] |}
  | Sched i =>
      match threads c !! i with
      | Some th =>
          let '(th', p', h') := step th (pool c) (mem c) in
          {| pool := p'; mem := h'; threads := <[i := th']> (threads c) |}
      | None => c
      end
  end.

Definition interleave (es : list event) (c : config) : config :=
  fold_left fire es c.

(** Running a single goroutine until its call returns. *)
Fixpoint solo (fuel : nat) (th : pc) (p : t) (h : heap) : pc * t * heap :=
  match fuel with
  | O => (th, p, h)
  | S fuel' => let '(th', p', h') := step th p h in solo fuel' th' p' h'
  end.

(** What is known of a goroutine's local [idx] at each point of a call: it
    passed the test that precedes the compare-and-swap. *)
Definition pc_ok (p : t) (th : pc) : Prop :=
  match th with
  | GetCAS idx | GetSlot idx => 0 < idx <= capacity p
  | PutCAS _ idx | PutSlot _ idx => 0 <= idx < capacity p
  | Crashed => False
  | GetLoad | PutLoad _ | GetDone _ | PutDone => True
  end.

(** Representation invariant, and the resident objects in arrival order
    (oldest first): the slots below the fill index. *)
Definition wf (p : t) : Prop :=
  Z.of_nat (length (objects p)) = capacity p /\
  0 <= index p <= capacity p /\ capacity p <= int_max.
Definition resident (p : t) : list ptr := take (Z.to_nat (index p)) (objects p).

End AtomicBasedPool.

Definition NewAtomicBasedPool (capacity : Z) (allocator : Allocator)
    (cleaner : Cleaner) (h : heap) : outcome (AtomicBasedPool.t * heap) :=
  objs ← make_slice nil_ptr capacity;
  '(objs', h') ← for_range capacity
                   (fun i (st : list ptr * heap) =>
                      let '(objs, h) := st in
                      let '(obj, h') := allocator h in
                      objs' ← store_slice objs i obj;
                      Ok (objs', h'))
                   (objs, h);
  Ok (AtomicBasedPool.Store
        {| AtomicBasedPool.objects := objs';
           AtomicBasedPool.index := 0;
           AtomicBasedPool.capacity := capacity;
           AtomicBasedPool.allocator := allocator;
           AtomicBasedPool.cleaner := cleaner |}
        capacity, h').

(** ** Condition-variable pools

    With a single goroutine nobody can signal: a [cond.Wait] never returns,
    and [cond.Signal] finds no waiter. *)

Module CondBasedPool.

Record t : Type := {
  objects : slice ptr;
  mu : Mutex;
  allocator : Allocator;
  cleaner : Cleaner
}.

Definition with_state (p : t) (s : slice ptr) (m : Mutex) : t :=
  {| objects := s; mu := m; allocator := allocator p; cleaner := cleaner p |}.

Definition Get (p : t) : outcome (ptr * t) :=
  m ← Lock (mu p);
  if len (objects p) =? 0 then Blocked
  else
    obj ← index_slice (elems (objects p)) (int_sub (len (objects p)) 1);
    s ← reslice (objects p) (int_sub (len (objects p)) 1);
    m' ← Unlock m;
    Ok (obj, with_state p s m').

Definition Put (p : t) (obj : ptr) : outcome t :=
  m ← Lock (mu p);
  let s := if len (objects p) <? slice_cap (objects p)
           then append (objects p) obj else objects p in
  m' ← Unlock m;
  Ok (with_state p s m').

Definition occupancy (p : t) : Z := len (objects p).

(** Representation invariant between two calls, and the resident objects in
    arrival order (oldest first). *)
Definition wf (p : t) : Prop :=
  len (objects p) <= slice_cap (objects p) <= int_max /\ mu p = Unlocked.
Definition resident (p : t) : list ptr := elems (objects p).
Definition capacity (p : t) : Z := slice_cap (objects p).

End CondBasedPool.

Definition NewCondBasedPool (capacity : Z) (allocator : Allocator)
    (cleaner : Cleaner) (h : heap) : outcome (CondBasedPool.t * heap) :=
  s ← make_slice_cap capacity;
  '(s', h') ← for_range capacity
                (fun _ (st : slice ptr * heap) =>
                   let '(s, h) := st in
                   let '(obj, h') := allocator h in
                   Ok (append s obj, h'))
                (s, h);
  Ok ({| CondBasedPool.objects := s';
         CondBasedPool.mu := Unlocked;
         CondBasedPool.allocator := allocator;
         CondBasedPool.cleaner := cleaner |}, h').

Module RingBufferCondPool.

Record t : Type := {
  ringBuffer : RingBuffer.t ptr;
  mu : Mutex;
  allocator : Allocator;
  cleaner : Cleaner
}.

Definition with_state (p : t) (rb : RingBuffer.t ptr) (m : Mutex) : t :=
  {| ringBuffer := rb; mu := m; allocator := allocator p; cleaner := cleaner p |}.

Definition Get (p : t) : outcome (ptr * t) :=
  m ← Lock (mu p);
  if RingBuffer.IsEmpty (ringBuffer p) then Blocked
  else
    '(obj, _, rb) ← RingBuffer.Pop (ringBuffer p);
    m' ← Unlock m;
    Ok (obj, with_state p rb m').

Definition Put (p : t) (obj : ptr) : outcome t :=
  m ← Lock (mu p);
  if negb (RingBuffer.IsFull (ringBuffer p)) then
    '(_, rb) ← RingBuffer.Push (ringBuffer p) obj;
    m' ← Unlock m;
    Ok (with_state p rb m')
  else
    m' ← Unlock m;
    Ok (with_state p (ringBuffer p) m').

Definition occupancy (p : t) : Z := RingBuffer.Size (ringBuffer p).

(** Representation invariant between two calls, and the resident objects in
    arrival order (oldest first). *)
Definition wf (p : t) : Prop := RingBuffer.wf (ringBuffer p) /\ mu p = Unlocked.
Definition resident (p : t) : list ptr := RingBuffer.contents (ringBuffer p).
Definition capacity (p : t) : Z := RingBuffer.capacity (ringBuffer p).

End RingBufferCondPool.

Definition NewRingBufferCondPool (capacity : Z) (allocator : Allocator)
    (cleaner : Cleaner) (h : heap) : outcome (RingBufferCondPool.t * heap) :=
  rb ← RingBuffer.NewRingBuffer capacity;
  '(rb', h') ← prepopulate_ring capacity allocator rb h;
  Ok ({| RingBufferCondPool.ringBuffer := rb';
         RingBufferCondPool.mu := Unlocked;
         RingBufferCondPool.allocator := allocator;
         RingBufferCondPool.cleaner := cleaner |}, h').

(** ** Sharded pools

    [shards] holds the sub-pools themselves: every [shards[i]] is assigned a
    distinct pool by the constructor loop and never reassigned. [procPin] is
    the value [runtimeProcPin()] returns to the caller, the id of the logical
    processor it runs on; [gomaxprocs] is [runtime.GOMAXPROCS(0)]. *)

(** [if numShards <= 0 { numShards = runtime.GOMAXPROCS(0) }] *)
Definition resolve_numShards (gomaxprocs numShards : Z) : Z :=
  if numShards <=? 0 then gomaxprocs else numShards.

(** [shards := make([]*P, numShards)], which panics on a negative count,
    and [for i := range numShards { shards[i] = newShard(...) }]: the
    slots are filled in order, which appends the new shard to those built
    so far. *)
Definition build_shards {P : Type} (numShards : Z)
    (newShard : heap -> outcome (P * heap)) (h : heap) : outcome (list P * heap) :=
  if numShards <? 0 then Panic
  else
    for_range numShards
      (fun _ (st : list P * heap) =>
         let '(shards, h) := st in
         '(shard, h') ← newShard h;
         Ok (shards ++ [shard], h'))
      ([], h).

Module ShardedMutexRingBufferPool.

Record t : Type := { shards : list MutexRingBufferPool.t }.

Definition Get (p : t) (procPin : Z) (h : heap) : outcome (ptr * t * heap) :=
  let shardIndex := procPin in
  shard ← index_slice (shards p) shardIndex;
  '(obj, shard', h1) ← MutexRingBufferPool.Get shard h;
  h2 ← assign obj (set_shardIndex shardIndex) h1;
  Ok (obj, {| shards := <[Z.to_nat shardIndex := shard']> (shards p) |}, h2).

Definition Put (p : t) (obj : ptr) (h : heap) : outcome t :=
  o ← deref obj h;
  shard ← index_slice (shards p) (shardIndex o);
  shard' ← MutexRingBufferPool.Put shard obj;
  Ok {| shards := <[Z.to_nat (shardIndex o) := shard']> (shards p) |}.

(** Between two calls, with heap [h]: every shard is well formed, allocates
    new objects, and holds pointers to objects of [h]. *)
Definition wf (p : t) (h : heap) : Prop :=
  Forall (fun s =>
            MutexRingBufferPool.wf s /\
            fresh_allocator (MutexRingBufferPool.allocator s) /\
            Forall (fun obj => valid obj h) (MutexRingBufferPool.resident s))
         (shards p).

(** The sum of the shards' capacities. *)
Definition total_capacity (p : t) : Z :=
  foldr Z.add 0 (MutexRingBufferPool.capacity <$> shards p).

End ShardedMutexRingBufferPool.

Definition NewShardedMutexRingBufferPool (gomaxprocs : Z) (capacity numShards : Z)
    (allocator : Allocator) (cleaner : Cleaner) (h : heap)
    : outcome (ShardedMutexRingBufferPool.t * heap) :=
  let numShards := resolve_numShards gomaxprocs numShards in
  q ← int_quot capacity numShards;
  let shardCapacity := Z.max q 1 in
  '(shards, h') ← build_shards numShards
                    (NewMutexRingBufferPool shardCapacity allocator cleaner) h;
  Ok ({| ShardedMutexRingBufferPool.shards := shards |}, h').

Module ShardedChannelBasedPool.

Record t : Type := { shards : list ChannelBasedPool.t }.

Definition Get (p : t) (procPin : Z) (h : heap) : outcome (ptr * t * heap) :=
  let shardIndex := procPin in
  shard ← index_slice (shards p) shardIndex;
  '(obj, shard', h1) ← ChannelBasedPool.Get shard h;
  h2 ← assign obj (set_shardIndex shardIndex) h1;
  Ok (obj, {| shards := <[Z.to_nat shardIndex := shard']> (shards p) |}, h2).

Definition Put (p : t) (obj : ptr) (h : heap) : outcome (t * heap) :=
  o ← deref obj h;
  let shardIndex := shardIndex o in
  if (shardIndex >=? 0) && (shardIndex <? Z.of_nat (length (shards p))) then
    shard ← index_slice (shards p) shardIndex;
    '(shard', h') ← ChannelBasedPool.Put shard obj h;
    Ok ({| shards := <[Z.to_nat shardIndex := shard']> (shards p) |}, h')
  else Ok (p, h).

(** Between two calls, with heap [h]: every shard is well formed, allocates
    new objects, and holds pointers to objects of [h]. *)
Definition wf (p : t) (h : heap) : Prop :=
  Forall (fun s =>
            ChannelBasedPool.wf s /\
            fresh_allocator (ChannelBasedPool.allocator s) /\
            Forall (fun obj => valid obj h) (ChannelBasedPool.resident s))
         (shards p).

(** The sum of the shards' capacities. *)
Definition total_capacity (p : t) : Z :=
  foldr Z.add 0 (ChannelBasedPool.capacity <$> shards p).

End ShardedChannelBasedPool.

Definition NewShardedChannelBasedPool (gomaxprocs : Z) (capacity numShards : Z)
    (allocator : Allocator) (cleaner : Cleaner) (h : heap)
    : outcome (ShardedChannelBasedPool.t * heap) :=
  let numShards := resolve_numShards gomaxprocs numShards in
  q ← int_quot capacity numShards;
  let shardCapacity := if q <? 1 then 1 else q in
  '(shards, h') ← build_shards numShards
                    (NewChannelBasedPool shardCapacity allocator cleaner) h;
  Ok ({| ShardedChannelBasedPool.shards := shards |}, h').

Module ShardedAtomicBasedPool.

Record t : Type := { shards : list AtomicBasedPool.t }.

Definition Get (p : t) (procPin : Z) (h : heap) : outcome (ptr * t * heap) :=
  let shardIndex := procPin in
  shard ← index_slice (shards p) shardIndex;
  '(obj, shard', h1) ← AtomicBasedPool.Get shard h;
  h2 ← assign obj (set_shardIndex shardIndex) h1;
  Ok (obj, {| shards := <[Z.to_nat shardIndex := shard']> (shards p) |}, h2).

Definition Put (p : t) (obj : ptr) (h : heap) : outcome t :=
  o ← deref obj h;
  shard ← index_slice (shards p) (shardIndex o);
  shard' ← AtomicBasedPool.Put shard obj;
  Ok {| shards := <[Z.to_nat (shardIndex o) := shard']> (shards p) |}.

(** Between two calls, with heap [h]: every shard is well formed, allocates
    new objects, and holds pointers to objects of [h]. *)
Definition wf (p : t) (h : heap) : Prop :=
  Forall (fun s =>
            AtomicBasedPool.wf s /\
            fresh_allocator (AtomicBasedPool.allocator s) /\
            Forall (fun obj => valid obj h) (AtomicBasedPool.resident s))
         (shards p).

(** The sum of the shards' capacities. *)
Definition total_capacity (p : t) : Z :=
  foldr Z.add 0 (AtomicBasedPool.capacity <$> shards p).

End ShardedAtomicBasedPool.

Definition NewShardedAtomicBasedPool (gomaxprocs : Z) (capacity numShards : Z)
    (allocator : Allocator) (cleaner : Cleaner) (h : heap)
    : outcome (ShardedAtomicBasedPool.t * heap) :=
  let numShards := resolve_numShards gomaxprocs numShards in
  q ← int_quot capacity numShards;
  let shardCapacity := Z.max q 1 in
  '(shards, h') ← build_shards numShards
                    (NewAtomicBasedPool shardCapacity allocator cleaner) h;
  Ok ({| ShardedAtomicBasedPool.shards := shards |}, h').

(** ** Vocabulary of the statements *)

(** [n] consecutive calls of the allocator: the pointers returned, in order,
    and the heap afterwards. *)
Fixpoint alloc_n (alloc : Allocator) (n : nat) (h : heap) : list ptr * heap :=
  match n with
  | O => ([], h)
  | S n' =>
      let '(obj, h1) := alloc h in
      let '(objs, h2) := alloc_n alloc n' h1 in
      (obj :: objs, h2)
  end.

(** [n] consecutive [Get] calls with no [Put] in between: the objects
    returned, in order. *)
Fixpoint get_n {P : Type} (get : P -> heap -> outcome (ptr * P * heap))
    (n : nat) (p : P) (h : heap) : outcome (list ptr * P * heap) :=
  match n with
  | O => Ok ([], p, h)
  | S n' =>
      '(obj, p1, h1) ← get p h;
      '(objs, p2, h2) ← get_n get n' p1 h1;
      Ok (obj :: objs, p2, h2)
  end.

(** [Put(Get())], and [n] repetitions of it. *)
Definition round_trip {P : Type} (get : P -> heap -> outcome (ptr * P * heap))
    (put : P -> ptr -> heap -> outcome (P * heap))
    (st : P * heap) : outcome (P * heap) :=
  '(obj, p1, h1) ← get st.1 st.2;
  put p1 obj h1.

Definition round_trips {P : Type} (get : P -> heap -> outcome (ptr * P * heap))
    (put : P -> ptr -> heap -> outcome (P * heap))
    (n : nat) (st : P * heap) : outcome (P * heap) :=
  for_range_from 0 n (fun _ => round_trip get put) st.

(** A [Put] that leaves the heap alone, and a [Get] that does, in the shape
    the definitions above take. *)
Definition put_pure {P : Type} (put : P -> ptr -> outcome P)
    (p : P) (obj : ptr) (h : heap) : outcome (P * heap) :=
  p' ← put p obj; Ok (p', h).

Definition get_pure {P : Type} (get : P -> outcome (ptr * P))
    (p : P) (h : heap) : outcome (ptr * P * heap) :=
  '(obj, p') ← get p; Ok (obj, p', h).

(** ** Sample pools

    Pools of capacity 2 after construction with [testAllocator] on the empty
    heap and two [Get] calls: both objects are checked out, the pool is
    empty. *)

Definition sample_heap : heap :=
  [ {| ID := 0; Data := "test"; shardIndex := -1 |};
    {| ID := 0; Data := "test"; shardIndex := -1 |} ].

Definition drained_ring : RingBuffer.t ptr :=
  {| RingBuffer.buffer := [Some 0%nat; Some 1%nat];
     RingBuffer.head := 0; RingBuffer.tail := 0;
     RingBuffer.size := 0; RingBuffer.capacity := 2 |}.

Definition drained_mutex_ring : MutexRingBufferPool.t :=
  {| MutexRingBufferPool.ringBuffer := drained_ring;
     MutexRingBufferPool.mu := Unlocked;
     MutexRingBufferPool.allocator := testAllocator;
     MutexRingBufferPool.cleaner := testCleaner |}.

Definition drained_rwmutex_ring : RWMutexRingBufferPool.t :=
  {| RWMutexRingBufferPool.ringBuffer := drained_ring;
     RWMutexRingBufferPool.mu := Unlocked;
     RWMutexRingBufferPool.allocator := testAllocator;
     RWMutexRingBufferPool.cleaner := testCleaner |}.

Definition drained_mutex_slice : MutexBasedPool.t :=
  {| MutexBasedPool.objects := {| elems := []; slice_cap := 2 |};
     MutexBasedPool.mu := Unlocked;
     MutexBasedPool.allocator := testAllocator;
     MutexBasedPool.cleaner := testCleaner |}.

Definition drained_channel : ChannelBasedPool.t :=
  {| ChannelBasedPool.objects := {| queue := []; chan_cap := 2 |};
     ChannelBasedPool.allocator := testAllocator;
     ChannelBasedPool.cleaner := testCleaner |}.

Definition drained_atomic : AtomicBasedPool.t :=
  {| AtomicBasedPool.objects := [Some 0%nat; Some 1%nat];
     AtomicBasedPool.index := 0;
     AtomicBasedPool.capacity := 2;
     AtomicBasedPool.allocator := testAllocator;
     AtomicBasedPool.cleaner := testCleaner |}.

(** Pools of capacity 3 holding the objects at addresses 0 and 1, put in that
    order; the object at address 2 is checked out. *)

Definition stocked_heap : heap :=
  [ {| ID := 0; Data := "test"; shardIndex := -1 |};
    {| ID := 0; Data := "test"; shardIndex := -1 |};
    {| ID := 7; Data := "in use"; shardIndex := -1 |} ].

Definition stocked_ring : RingBuffer.t ptr :=
  {| RingBuffer.buffer := [Some 0%nat; Some 1%nat; Some 2%nat];
     RingBuffer.head := 0; RingBuffer.tail := 2;
     RingBuffer.size := 2; RingBuffer.capacity := 3 |}.

Definition stocked_mutex_ring : MutexRingBufferPool.t :=
  {| MutexRingBufferPool.ringBuffer := stocked_ring;
     MutexRingBufferPool.mu := Unlocked;
     MutexRingBufferPool.allocator := testAllocator;
     MutexRingBufferPool.cleaner := testCleaner |}.

Definition stocked_rwmutex_ring : RWMutexRingBufferPool.t :=
  {| RWMutexRingBufferPool.ringBuffer := stocked_ring;
     RWMutexRingBufferPool.mu := Unlocked;
     RWMutexRingBufferPool.allocator := testAllocator;
     RWMutexRingBufferPool.cleaner := testCleaner |}.

Definition stocked_mutex_slice : MutexBasedPool.t :=
  {| MutexBasedPool.objects := {| elems := [Some 0%nat; Some 1%nat]; slice_cap := 3 |};
     MutexBasedPool.mu := Unlocked;
     MutexBasedPool.allocator := testAllocator;
     MutexBasedPool.cleaner := testCleaner |}.

Definition stocked_channel : ChannelBasedPool.t :=
  {| ChannelBasedPool.objects := {| queue := [Some 0%nat; Some 1%nat]; chan_cap := 3 |};
     ChannelBasedPool.allocator := testAllocator;
     ChannelBasedPool.cleaner := testCleaner |}.

Definition stocked_atomic : AtomicBasedPool.t :=
  {| AtomicBasedPool.objects := [Some 0%nat; Some 1%nat; Some 2%nat];
     AtomicBasedPool.index := 2;
     AtomicBasedPool.capacity := 3;
     AtomicBasedPool.allocator := testAllocator;
     AtomicBasedPool.cleaner := testCleaner |}.

(** [stocked_heap] after [testCleaner] has reset the object at address 2. *)
Definition cleaned_heap : heap :=
  [ {| ID := 0; Data := "test"; shardIndex := -1 |};
    {| ID := 0; Data := "test"; shardIndex := -1 |};
    {| ID := 0; Data := ""; shardIndex := -1 |} ].

Definition stocked_cond_slice : CondBasedPool.t :=
  {| CondBasedPool.objects := {| elems := [Some 0%nat; Some 1%nat]; slice_cap := 3 |};
     CondBasedPool.mu := Unlocked;
     CondBasedPool.allocator := testAllocator;
     CondBasedPool.cleaner := testCleaner |}.

Definition stocked_cond_ring : RingBufferCondPool.t :=
  {| RingBufferCondPool.ringBuffer := stocked_ring;
     RingBufferCondPool.mu := Unlocked;
     RingBufferCondPool.allocator := testAllocator;
     RingBufferCondPool.cleaner := testCleaner |}.

(** Sharded pools as [NewSharded...Pool gomaxprocs 4 2 testAllocator
    testCleaner []] returns them: two shards of capacity 2, four objects. *)

Definition fresh_heap : heap :=
  [ {| ID := 0; Data := "test"; shardIndex := -1 |};
    {| ID := 0; Data := "test"; shardIndex := -1 |};
    {| ID := 0; Data := "test"; shardIndex := -1 |};
    {| ID := 0; Data := "test"; shardIndex := -1 |} ].

Definition full_ring (a b : nat) : RingBuffer.t ptr :=
  {| RingBuffer.buffer := [Some a; Some b];
     RingBuffer.head := 0; RingBuffer.tail := 0;
     RingBuffer.size := 2; RingBuffer.capacity := 2 |}.

Definition fresh_sharded_mutex_ring : ShardedMutexRingBufferPool.t :=
  {| ShardedMutexRingBufferPool.shards :=
       [ {| MutexRingBufferPool.ringBuffer := full_ring 0 1;
            MutexRingBufferPool.mu := Unlocked;
            MutexRingBufferPool.allocator := testAllocator;
            MutexRingBufferPool.cleaner := testCleaner |};
         {| MutexRingBufferPool.ringBuffer := full_ring 2 3;
            MutexRingBufferPool.mu := Unlocked;
            MutexRingBufferPool.allocator := testAllocator;
            MutexRingBufferPool.cleaner := testCleaner |} ] |}.

Definition fresh_sharded_channel : ShardedChannelBasedPool.t :=
  {| ShardedChannelBasedPool.shards :=
       [ {| ChannelBasedPool.objects :=
              {| queue := [Some 0%nat; Some 1%nat]; chan_cap := 2 |};
            ChannelBasedPool.allocator := testAllocator;
            ChannelBasedPool.cleaner := testCleaner |};
         {| ChannelBasedPool.objects :=
              {| queue := [Some 2%nat; Some 3%nat]; chan_cap := 2 |};
            ChannelBasedPool.allocator := testAllocator;
            ChannelBasedPool.cleaner := testCleaner |} ] |}.

Definition fresh_sharded_atomic : ShardedAtomicBasedPool.t :=
  {| ShardedAtomicBasedPool.shards :=
       [ {| AtomicBasedPool.objects := [Some 0%nat; Some 1%nat];
            AtomicBasedPool.index := 2;
            AtomicBasedPool.capacity := 2;
            AtomicBasedPool.allocator := testAllocator;
            AtomicBasedPool.cleaner := testCleaner |};
         {| AtomicBasedPool.objects := [Some 2%nat; Some 3%nat];
            AtomicBasedPool.index := 2;
            AtomicBasedPool.capacity := 2;
            AtomicBasedPool.allocator := testAllocator;
            AtomicBasedPool.cleaner := testCleaner |} ] |}.

(** ** Sharded condition-variable pools

    Both types shard [RingBufferCondPool]; their methods are the same text. *)

Module ShardedCondBasedPool.

Record t : Type := { shards : list RingBufferCondPool.t }.

Definition Get (p : t) (procPin : Z) (h : heap) : outcome (ptr * t * heap) :=
  let shardIndex := procPin in
  shard ← index_slice (shards p) shardIndex;
  '(obj, shard') ← RingBufferCondPool.Get shard;
  h' ← assign obj (set_shardIndex shardIndex) h;
  Ok (obj, {| shards := <[Z.to_nat shardIndex := shard']> (shards p) |}, h').

Definition Put (p : t) (obj : ptr) (h : heap) : outcome t :=
  o ← deref obj h;
  shard ← index_slice (shards p) (shardIndex o);
  shard' ← RingBufferCondPool.Put shard obj;
  Ok {| shards := <[Z.to_nat (shardIndex o) := shard']> (shards p) |}.

End ShardedCondBasedPool.

Definition NewShardedCondBasedPool (gomaxprocs : Z) (capacity numShards : Z)
    (allocator : Allocator) (cleaner : Cleaner) (h : heap)
    : outcome (ShardedCondBasedPool.t * heap) :=
  let numShards := resolve_numShards gomaxprocs numShards in
  q ← int_quot capacity numShards;
  let shardCapacity := if q <? 1 then 1 else q in
  '(shards, h') ← build_shards numShards
                    (NewRingBufferCondPool shardCapacity allocator cleaner) h;
  Ok ({| ShardedCondBasedPool.shards := shards |}, h').

Module ShardedRingBufferCondPool.

Record t : Type := { shards : list RingBufferCondPool.t }.

Definition Get (p : t) (procPin : Z) (h : heap) : outcome (ptr * t * heap) :=
  let shardIndex := procPin in
  shard ← index_slice (shards p) shardIndex;
  '(obj, shard') ← RingBufferCondPool.Get shard;
  h' ← assign obj (set_shardIndex shardIndex) h;
  Ok (obj, {| shards := <[Z.to_nat shardIndex := shard']> (shards p) |}, h').

Definition Put (p : t) (obj : ptr) (h : heap) : outcome t :=
  o ← deref obj h;
  shard ← index_slice (shards p) (shardIndex o);
  shard' ← RingBufferCondPool.Put shard obj;
  Ok {| shards := <[Z.to_nat (shardIndex o) := shard']> (shards p) |}.

End ShardedRingBufferCondPool.

Definition NewShardedRingBufferCondPool (gomaxprocs : Z) (capacity numShards : Z)
    (allocator : Allocator) (cleaner : Cleaner) (h : heap)
    : outcome (ShardedRingBufferCondPool.t * heap) :=
  let numShards := resolve_numShards gomaxprocs numShards in
  q ← int_quot capacity numShards;
  let shardCapacity := if q <? 1 then 1 else q in
  '(shards, h') ← build_shards numShards
                    (NewRingBufferCondPool shardCapacity allocator cleaner) h;
  Ok ({| ShardedRingBufferCondPool.shards := shards |}, h').

(** ** Sharded pool keyed by a stack address

    [addr] is [uintptr(unsafe.Pointer(&dummy))], the address of the local
    variable of the [getShard] call: a 64-bit unsigned value chosen by the
    runtime. [int(addr>>12)] reinterprets the shifted value as an [int]. *)

Module ShardedGoroutineIDPool.

Record t : Type := {
  shards : list MutexRingBufferPool.t;
  numShards : Z
}.

Definition is_uintptr (addr : Z) : Prop := 0 <= addr < 2 ^ 64.

(** [id := int(addr>>12) & (p.numShards - 1)] *)
Definition shard_id (p : t) (addr : Z) : Z :=
  Z.land (wrap (Z.shiftr addr 12)) (int_sub (numShards p) 1).

(** The shard returned is [p.shards[id]]: its slot and its state. *)
Definition getShard (p : t) (addr : Z) : outcome (Z * MutexRingBufferPool.t) :=
  let id := shard_id p addr in
  shard ← index_slice (shards p) id;
  Ok (id, shard).

Definition with_shard (p : t) (id : Z) (shard : MutexRingBufferPool.t) : t :=
  {| shards := <[Z.to_nat id := shard]> (shards p); numShards := numShards p |}.

Definition Get (p : t) (addr : Z) (h : heap) : outcome (ptr * t * heap) :=
  '(id, shard) ← getShard p addr;
  '(obj, shard', h') ← MutexRingBufferPool.Get shard h;
  Ok (obj, with_shard p id shard', h').

Definition Put (p : t) (addr : Z) (obj : ptr) : outcome t :=
  '(id, shard) ← getShard p addr;
  shard' ← MutexRingBufferPool.Put shard obj;
  Ok (with_shard p id shard').

(** Between two calls: as many shards as [numShards] says, each well
    formed. *)
Definition wf (p : t) : Prop :=
  Z.of_nat (length (shards p)) = numShards p /\
  Forall MutexRingBufferPool.wf (shards p).

End ShardedGoroutineIDPool.

Definition NewShardedGoroutineIDPool (gomaxprocs : Z) (capacity numShards : Z)
    (allocator : Allocator) (cleaner : Cleaner) (h : heap)
    : outcome (ShardedGoroutineIDPool.t * heap) :=
  let numShards := resolve_numShards gomaxprocs numShards in
  q ← int_quot capacity numShards;
  let shardCapacity := Z.max q 1 in
  '(shards, h') ← build_shards numShards
                    (NewMutexRingBufferPool shardCapacity allocator cleaner) h;
  Ok ({| ShardedGoroutineIDPool.shards := shards;
         ShardedGoroutineIDPool.numShards := numShards |}, h').

(** ** Pools of the earlier revision of the file

    There [Put] of the slice and atomic pools starts with
    [if p.cleaner != nil { p.cleaner(obj) }], and the atomic pool keeps its
    fill index in a plain [int64] field that the constructor leaves at its
    zero value. A cleaner that may be [nil] is an [option]. *)

Module Earlier.

(** [if p.cleaner != nil { p.cleaner(obj) }] *)
Definition clean_if_set (cleaner : option Cleaner) (obj : ptr) (h : heap) : outcome heap :=
  match cleaner with
  | Some clean => clean obj h
  | None => Ok h
  end.

Module RWMutexBasedPool.

Record t : Type := {
  objects : slice ptr;
  mu : Mutex;
  allocator : Allocator;
  cleaner : option Cleaner
}.

Definition with_state (p : t) (s : slice ptr) (m : Mutex) : t :=
  {| objects := s; mu := m; allocator := allocator p; cleaner := cleaner p |}.

Definition Get (p : t) (h : heap) : outcome (ptr * t * heap) :=
  m ← Lock (mu p);
  if len (objects p) =? 0 then
    let '(obj, h') := allocator p h in
    m' ← Unlock m;
    Ok (obj, with_state p (objects p) m', h')
  else
    obj ← index_slice (elems (objects p)) (int_sub (len (objects p)) 1);
    s ← reslice (objects p) (int_sub (len (objects p)) 1);
    m' ← Unlock m;
    Ok (obj, with_state p s m', h).

Definition Put (p : t) (obj : ptr) (h : heap) : outcome (t * heap) :=
  h' ← clean_if_set (cleaner p) obj h;
  m ← Lock (mu p);
  let s := if len (objects p) <? slice_cap (objects p)
           then append (objects p) obj else objects p in
  m' ← Unlock m;
  Ok (with_state p s m', h').

Definition wf (p : t) : Prop :=
  len (objects p) <= slice_cap (objects p) <= int_max /\ mu p = Unlocked.
Definition resident (p : t) : list ptr := elems (objects p).
Definition capacity (p : t) : Z := slice_cap (objects p).

End RWMutexBasedPool.

Definition NewRWMutexBasedPool (capacity : Z) (allocator : Allocator)
    (cleaner : option Cleaner) (h : heap) : outcome (RWMutexBasedPool.t * heap) :=
  s ← make_slice_cap capacity;
  '(s', h') ← for_range capacity
                (fun _ (st : slice ptr * heap) =>
                   let '(s, h) := st in
                   let '(obj, h') := allocator h in
                   Ok (append s obj, h'))
                (s, h);
  Ok ({| RWMutexBasedPool.objects := s';
         RWMutexBasedPool.mu := Unlocked;
         RWMutexBasedPool.allocator := allocator;
         RWMutexBasedPool.cleaner := cleaner |}, h').

Module AtomicBasedPool.

Record t : Type := {
  objects : list ptr;
  index : Z;
  capacity : Z;
  allocator : Allocator;
  cleaner : option Cleaner
}.

Definition with_index (p : t) (i : Z) : t :=
  {| objects := objects p; index := i; capacity := capacity p;
     allocator := allocator p; cleaner := cleaner p |}.

Definition with_objects (p : t) (objs : list ptr) : t :=
  {| objects := objs; index := index p; capacity := capacity p;
     allocator := allocator p; cleaner := cleaner p |}.

(** [atomic.LoadInt64(&p.index)] and
    [atomic.CompareAndSwapInt64(&p.index, old, new)] *)
Definition LoadInt64 (p : t) : Z := index p.
Definition CompareAndSwapInt64 (p : t) (old new : Z) : bool * t :=
  if index p =? old then (true, with_index p new) else (false, p).

(** One goroutine, nobody between its atomic operations; [fuel] bounds the
    iterations of the [for] loop. *)
Fixpoint Get_loop (fuel : nat) (p : t) (h : heap) : outcome (ptr * t * heap) :=
  match fuel with
  | O => Blocked
  | S fuel' =>
      let idx := LoadInt64 p in
      if idx <=? 0 then
        let '(fresh, h') := allocator p h in Ok (fresh, p, h')
      else
        let newIdx := int_sub idx 1 in
        let '(swapped, p') := CompareAndSwapInt64 p idx newIdx in
        if swapped then
          obj ← index_slice (objects p') newIdx;
          Ok (obj, p', h)
        else Get_loop fuel' p' h
  end.

Fixpoint Put_loop (fuel : nat) (p : t) (obj : ptr) : outcome t :=
  match fuel with
  | O => Blocked
  | S fuel' =>
      let idx := LoadInt64 p in
      if idx >=? capacity p then Ok p
      else
        let newIdx := int_add idx 1 in
        let '(swapped, p') := CompareAndSwapInt64 p idx newIdx in
        if swapped then
          objs ← store_slice (objects p') idx obj;
          Ok (with_objects p' objs)
        else Put_loop fuel' p' obj
  end.

Definition Get (p : t) (h : heap) : outcome (ptr * t * heap) := Get_loop 1 p h.

Definition Put (p : t) (obj : ptr) (h : heap) : outcome (t * heap) :=
  h' ← clean_if_set (cleaner p) obj h;
  p' ← Put_loop 1 p obj;
  Ok (p', h').

End AtomicBasedPool.

Definition NewAtomicBasedPool (capacity : Z) (allocator : Allocator)
    (cleaner : option Cleaner) (h : heap) : outcome (AtomicBasedPool.t * heap) :=
  objs ← make_slice nil_ptr capacity;
  '(objs', h') ← for_range capacity
                   (fun i (st : list ptr * heap) =>
                      let '(objs, h) := st in
                      let '(obj, h') := allocator h in
                      objs' ← store_slice objs i obj;
                      Ok (objs', h'))
                   (objs, h);
  Ok ({| AtomicBasedPool.objects := objs';
         AtomicBasedPool.index := 0;
         AtomicBasedPool.capacity := capacity;
         AtomicBasedPool.allocator := allocator;
         AtomicBasedPool.cleaner := cleaner |}, h').

End Earlier.

(** ** A bounded first-in first-out queue

    What a ring buffer is meant to be, as a list (oldest first) with a
    bound on its length; the reference for the ring buffer's [Push] and
    [Pop]. *)

Module BoundedQueue.
Section Model.
Context {T : Type} `{GoZero T}.

Definition push (bound : Z) (q : list T) (item : T) : bool * list T :=
  if Z.of_nat (length q) <? bound then (true, q ++ [item]) else (false, q).

Definition pop (q : list T) : T * bool * list T :=
  match q with
  | [] => (zero, false, [])
  | item :: q' => (item, true, q')
  end.

Definition exec (bound : Z) (q : list T) (c : RingBuffer.call)
    : RingBuffer.ret * list T :=
  match c with
  | RingBuffer.CallPush item =>
      let '(ok, q') := push bound q item in (RingBuffer.RetPush ok, q')
  | RingBuffer.CallPop =>
      let '(item, ok, q') := pop q in (RingBuffer.RetPop item ok, q')
  end.

Fixpoint run (bound : Z) (cs : list RingBuffer.call) (q : list T)
    : list RingBuffer.ret * list T :=
  match cs with
  | [] => ([], q)
  | c :: cs' =>
      let '(r, q1) := exec bound q c in
      let '(rs, q2) := run bound cs' q1 in
      (r :: rs, q2)
  end.

End Model.
End BoundedQueue.

(** ** Clients of a pool *)

(** A client's calls on one pool, and the run of a list of them: the
    objects the [Get] calls returned, in order. *)
Inductive pool_call : Type :=
| DoGet
| DoPut (obj : ptr).

Fixpoint run_calls {P : Type} (get : P -> heap -> outcome (ptr * P * heap))
    (put : P -> ptr -> heap -> outcome (P * heap))
    (cs : list pool_call) (p : P) (h : heap) : outcome (list ptr * P * heap) :=
  match cs with
  | [] => Ok ([], p, h)
  | DoGet :: cs' =>
      '(obj, p1, h1) ← get p h;
      '(objs, p2, h2) ← run_calls get put cs' p1 h1;
      Ok (obj :: objs, p2, h2)
  | DoPut obj :: cs' =>
      '(p1, h1) ← put p obj h;
      run_calls get put cs' p1 h1
  end.

(** The number of [Get] calls in a list of calls. *)
Fixpoint gets (cs : list pool_call) : nat :=
  match cs with
  | [] => O
  | DoGet :: cs' => S (gets cs')
  | DoPut _ :: cs' => gets cs'
  end.

(** Condition-variable pools of capacity 2 with both objects checked out. *)

Definition drained_cond_slice : CondBasedPool.t :=
  {| CondBasedPool.objects := {| elems := []; slice_cap := 2 |};
     CondBasedPool.mu := Unlocked;
     CondBasedPool.allocator := testAllocator;
     CondBasedPool.cleaner := testCleaner |}.

Definition drained_cond_ring : RingBufferCondPool.t :=
  {| RingBufferCondPool.ringBuffer := drained_ring;
     RingBufferCondPool.mu := Unlocked;
     RingBufferCondPool.allocator := testAllocator;
     RingBufferCondPool.cleaner := testCleaner |}.

(** ** Shards as built

    What a shard is right after its constructor returned, [k] its
    capacity and [h] the heap: well formed, full of pointers into [h]. *)
Definition mrb_built (alloc : Allocator) (k : Z) (s : MutexRingBufferPool.t) (h : heap) : Prop :=
  MutexRingBufferPool.wf s /\ MutexRingBufferPool.allocator s = alloc /\
  Forall (fun obj => valid obj h) (MutexRingBufferPool.resident s) /\
  MutexRingBufferPool.capacity s = k /\
  Z.of_nat (length (MutexRingBufferPool.resident s)) = k.

Definition chan_built (alloc : Allocator) (k : Z) (s : ChannelBasedPool.t) (h : heap) : Prop :=
  ChannelBasedPool.wf s /\ ChannelBasedPool.allocator s = alloc /\
  Forall (fun obj => valid obj h) (ChannelBasedPool.resident s) /\
  ChannelBasedPool.capacity s = k /\
  Z.of_nat (length (ChannelBasedPool.resident s)) = k.

Definition abp_built (alloc : Allocator) (k : Z) (s : AtomicBasedPool.t) (h : heap) : Prop :=
  AtomicBasedPool.wf s /\ AtomicBasedPool.allocator s = alloc /\
  Forall (fun obj => valid obj h) (AtomicBasedPool.resident s) /\
  AtomicBasedPool.capacity s = k /\
  Z.of_nat (length (AtomicBasedPool.resident s)) = k.

Definition rbc_built (alloc : Allocator) (k : Z) (s : RingBufferCondPool.t) (h : heap) : Prop :=
  RingBufferCondPool.wf s /\ RingBufferCondPool.allocator s = alloc /\
  Forall (fun obj => valid obj h) (RingBufferCondPool.resident s) /\
  RingBufferCondPool.capacity s = k /\
  Z.of_nat (length (RingBufferCondPool.resident s)) = k.

(** The second shard of each of the sharded sample pools above. *)

Definition second_mutex_ring_shard : MutexRingBufferPool.t :=
  {| MutexRingBufferPool.ringBuffer := full_ring 2 3;
     MutexRingBufferPool.mu := Unlocked;
     MutexRingBufferPool.allocator := testAllocator;
     MutexRingBufferPool.cleaner := testCleaner |}.

Definition second_channel_shard : ChannelBasedPool.t :=
  {| ChannelBasedPool.objects :=
       {| queue := [Some 2%nat; Some 3%nat]; chan_cap := 2 |};
     ChannelBasedPool.allocator := testAllocator;
     ChannelBasedPool.cleaner := testCleaner |}.

Definition second_atomic_shard : AtomicBasedPool.t :=
  {| AtomicBasedPool.objects := [Some 2%nat; Some 3%nat];
     AtomicBasedPool.index := 2;
     AtomicBasedPool.capacity := 2;
     AtomicBasedPool.allocator := testAllocator;
     AtomicBasedPool.cleaner := testCleaner |}.

(** Sharded pools of two shards of capacity 2 after two [Get] calls on
    processor 0: the first shard is empty, the second still full. *)

Definition second_cond_ring_shard : RingBufferCondPool.t :=
  {| RingBufferCondPool.ringBuffer := full_ring 2 3;
     RingBufferCondPool.mu := Unlocked;
     RingBufferCondPool.allocator := testAllocator;
     RingBufferCondPool.cleaner := testCleaner |}.

Definition lopsided_sharded_mutex_ring : ShardedMutexRingBufferPool.t :=
  {| ShardedMutexRingBufferPool.shards :=
       [drained_mutex_ring; second_mutex_ring_shard] |}.

Definition lopsided_sharded_channel : ShardedChannelBasedPool.t :=
  {| ShardedChannelBasedPool.shards := [drained_channel; second_channel_shard] |}.

Definition lopsided_sharded_atomic : ShardedAtomicBasedPool.t :=
  {| ShardedAtomicBasedPool.shards := [drained_atomic; second_atomic_shard] |}.

Definition lopsided_sharded_cond : ShardedCondBasedPool.t :=
  {| ShardedCondBasedPool.shards := [drained_cond_ring; second_cond_ring_shard] |}.

Definition lopsided_sharded_ring_cond : ShardedRingBufferCondPool.t :=
  {| ShardedRingBufferCondPool.shards := [drained_cond_ring; second_cond_ring_shard] |}.

(** A stack-address sharded pool of three shards of capacity 2, the second
    one full, the others empty. *)

Definition three_shard_pool : ShardedGoroutineIDPool.t :=
  {| ShardedGoroutineIDPool.shards :=
       [drained_mutex_ring; second_mutex_ring_shard; drained_mutex_ring];
     ShardedGoroutineIDPool.numShards := 3 |}.

(** The earlier revision's read/write-mutex slice pool of capacity 3 holding
    the objects at addresses 0 and 1. *)

Definition stocked_rwmutex_slice : Earlier.RWMutexBasedPool.t :=
  {| Earlier.RWMutexBasedPool.objects :=
       {| elems := [Some 0%nat; Some 1%nat]; slice_cap := 3 |};
     Earlier.RWMutexBasedPool.mu := Unlocked;
     Earlier.RWMutexBasedPool.allocator := testAllocator;
     Earlier.RWMutexBasedPool.cleaner := Some testCleaner |}.

(** ** Clients of a sharded pool *)

(** A client's calls on a sharded pool: [Get] from the processor it runs
    on, or [Put] of the [k]-th of the objects it has obtained so far,
    whether or not it has put that object before. A [Put] of an object not
    yet obtained is no call at all. *)
Inductive client_call : Type :=
| ClientGet (procPin : Z)
| ClientPut (k : nat).

Fixpoint run_client {P : Type} (get : P -> Z -> heap -> outcome (ptr * P * heap))
    (put : P -> ptr -> heap -> outcome P)
    (cs : list client_call) (p : P) (h : heap) (got : list ptr)
    : outcome (list ptr * P * heap) :=
  match cs with
  | [] => Ok (got, p, h)
  | ClientGet procPin :: cs' =>
      '(obj, p1, h1) ← get p procPin h;
      run_client get put cs' p1 h1 (got ++ [obj])
  | ClientPut k :: cs' =>
      match got !! k with
      | Some obj => p1 ← put p obj h; run_client get put cs' p1 h got
      | None => run_client get put cs' p h got
      end
  end.

(** Every [Get] of the calls is made on a processor below [n]. *)
Definition procs_below (n : Z) (cs : list client_call) : Prop :=
  Forall (fun c => match c with
                   | ClientGet procPin => 0 <= procPin < n
                   | ClientPut _ => True
                   end) cs.

(** [obj] points to an object whose [shardIndex] is one of [n] shards. *)
Definition stamped (n : Z) (h : heap) (obj : ptr) : Prop :=
  exists o, deref obj h = Ok o /\ 0 <= shardIndex o < n.

(** A stack-address sharded pool of two shards: the first holds two objects
    and has room for a third, the second is full. *)

Definition two_shard_pool : ShardedGoroutineIDPool.t :=
  {| ShardedGoroutineIDPool.shards := [stocked_mutex_ring; second_mutex_ring_shard];
     ShardedGoroutineIDPool.numShards := 2 |}.

(** ** The benchmark loop

    [for pb.Next() { obj := pool.Get(); pool.Put(obj) }] as one goroutine
    runs it. On a single-segment pool it is [round_trips]. On a sharded pool
    the processor the goroutine runs on may differ from one [Get] to the
    next: [procPins] lists it, iteration by iteration. *)

Fixpoint pinned_round_trips {P : Type}
    (get : P -> Z -> heap -> outcome (ptr * P * heap))
    (put : P -> ptr -> heap -> outcome (P * heap))
    (procPins : list Z) (st : P * heap) : outcome (P * heap) :=
  match procPins with
  | [] => Ok st
  | procPin :: rest =>
      st' ← round_trip (fun p h => get p procPin h) put st;
      pinned_round_trips get put rest st'
  end.

(** A [Put] that reads the heap and leaves it alone, in the shape the
    definitions above take. *)
Definition put_read {P : Type} (put : P -> ptr -> heap -> outcome P)
    (p : P) (obj : ptr) (h : heap) : outcome (P * heap) :=
  p' ← put p obj h; Ok (p', h).

(** ** Goroutines inside the atomic pool's Get *)

(** What a goroutine inside or back from [Get] has claimed: the object its
    call returned, or the object in the slot whose index its
    compare-and-swap has won. [objs] is the pool's slice. *)
Definition holds (objs : list ptr) (th : AtomicBasedPool.pc) : list ptr :=
  match th with
  | AtomicBasedPool.GetSlot idx =>
      match objs !! Z.to_nat (idx - 1) with
      | Some obj => [obj]
      | None => []
      end
  | AtomicBasedPool.GetDone obj => [obj]
  | _ => []
  end.

(** The objects the finished [Get] calls returned. *)
Definition returned (ths : list AtomicBasedPool.pc) : list ptr :=
  ths ≫= (fun th => match th with
                     | AtomicBasedPool.GetDone obj => [obj]
                     | _ => []
                     end).

(** No goroutine calls [Put]. *)
Definition gets_only (es : list AtomicBasedPool.event) : Prop :=
  Forall (fun e => match e with
                   | AtomicBasedPool.CallPut _ => False
                   | _ => True
                   end) es.

(** A goroutine that is not inside [Put]. *)
Definition in_get (th : AtomicBasedPool.pc) : Prop :=
  match th with
  | AtomicBasedPool.PutLoad _ | AtomicBasedPool.PutCAS _ _
  | AtomicBasedPool.PutSlot _ _ | AtomicBasedPool.PutDone => False
  | _ => True
  end.

(** An object a [Get] may have claimed when the fill index is [index] and
    the heap [h]: one in a slot at or above the fill index, or one
    allocated after the pool was built on heap [h0]. *)
Definition claimable (objs : list ptr) (h0 : heap) (index : Z) (h : heap)
    (x : ptr) : Prop :=
  x ∈ drop (Z.to_nat index) objs \/
  exists a, x = Some a /\ (length h0 <= a < length h)%nat.

(** While only [Get] calls run on a pool whose slice is [objs], built on
    heap [h0]: the slice stays as it is, the objects claimed are pairwise
    distinct, and each of them is claimable. *)
Definition gets_inv (alloc : Allocator) (objs : list ptr) (h0 : heap)
    (c : AtomicBasedPool.config) : Prop :=
  AtomicBasedPool.wf (AtomicBasedPool.pool c) /\
  AtomicBasedPool.objects (AtomicBasedPool.pool c) = objs /\
  AtomicBasedPool.allocator (AtomicBasedPool.pool c) = alloc /\
  Forall (fun th => AtomicBasedPool.pc_ok (AtomicBasedPool.pool c) th /\ in_get th)
         (AtomicBasedPool.threads c) /\
  NoDup (AtomicBasedPool.threads c ≫= holds objs) /\
  Forall (claimable objs h0 (AtomicBasedPool.index (AtomicBasedPool.pool c))
            (AtomicBasedPool.mem c))
         (AtomicBasedPool.threads c ≫= holds objs) /\
  (length h0 <= length (AtomicBasedPool.mem c))%nat.

(** * Properties *)

(** ** Arithmetic and outcome helpers *)

Lemma wrap_id (z : Z) : is_int z -> wrap z = z.
Proof.
  unfold is_int, int_min, int_max, wrap. intros Hz.
  rewrite Z.mod_small by lia. lia.
Qed.

Lemma int_add_small (a b : Z) : is_int (a + b) -> int_add a b = a + b.
Proof. apply wrap_id. Qed.

Lemma int_sub_small (a b : Z) : is_int (a - b) -> int_sub a b = a - b.
Proof. apply wrap_id. Qed.

Lemma int_max_pos : 0 < int_max.
Proof. reflexivity. Qed.

Lemma int_min_neg : int_min < 0.
Proof. reflexivity. Qed.

Lemma int_rem_pos (a b : Z) : 0 <= a -> 0 < b -> int_rem a b = Ok (a mod b).
Proof.
  intros Ha Hb. unfold int_rem.
  destruct (Z.eqb_spec b 0); [lia|].
  by rewrite Z.rem_mod_nonneg.
Qed.

Lemma index_slice_Ok {T : Type} (s : list T) (i : Z) (x : T) :
  index_slice s i = Ok x <-> 0 <= i /\ s !! Z.to_nat i = Some x.
Proof.
  unfold index_slice. split.
  - destruct (Z.leb_spec 0 i), (Z.ltb_spec i (Z.of_nat (length s))); simpl; try done.
    destruct (s !! Z.to_nat i); [|done]. intros [= ->]. done.
  - intros [Hi Hx]. pose proof (lookup_lt_Some _ _ _ Hx) as Hlt.
    destruct (Z.leb_spec 0 i), (Z.ltb_spec i (Z.of_nat (length s))); simpl; try lia.
    by rewrite Hx.
Qed.

Lemma store_slice_Ok {T : Type} (s : list T) (i : Z) (x : T) :
  0 <= i < Z.of_nat (length s) -> store_slice s i x = Ok (<[Z.to_nat i := x]> s).
Proof.
  intros Hi. unfold store_slice.
  destruct (Z.leb_spec 0 i), (Z.ltb_spec i (Z.of_nat (length s))); simpl; done || lia.
Qed.

Lemma store_slice_out {T : Type} (s : list T) (i : Z) (x : T) :
  ~ 0 <= i < Z.of_nat (length s) -> store_slice s i x = Panic.
Proof.
  intros Hi. unfold store_slice.
  destruct (Z.leb_spec 0 i), (Z.ltb_spec i (Z.of_nat (length s))); simpl; done || lia.
Qed.

Lemma index_slice_out {T : Type} (s : list T) (i : Z) :
  ~ 0 <= i < Z.of_nat (length s) -> index_slice s i = Panic.
Proof.
  intros Hi. unfold index_slice.
  destruct (Z.leb_spec 0 i), (Z.ltb_spec i (Z.of_nat (length s))); simpl; done || lia.
Qed.

Lemma index_slice_in {T : Type} (s : list T) (i : Z) :
  0 <= i < Z.of_nat (length s) ->
  exists x, s !! Z.to_nat i = Some x /\ index_slice s i = Ok x.
Proof.
  intros Hi. destruct (lookup_lt_is_Some_2 s (Z.to_nat i)) as [x Hx]; [lia|].
  exists x. split; [done|]. apply index_slice_Ok. split; [lia|done].
Qed.

Lemma make_slice_Ok {T : Type} (z : T) (n : Z) :
  0 <= n -> make_slice z n = Ok (replicate (Z.to_nat n) z).
Proof.
  intros Hn. unfold make_slice. destruct (Z.ltb_spec n 0); done || lia.
Qed.

Lemma mod_wrap_once (a m : nat) :
  (a < 2 * m -> a mod m = if a <? m then a else a - m)%nat.
Proof.
  intros Ha. destruct (Nat.ltb_spec a m) as [Hlt|Hge].
  - by apply Nat.mod_small.
  - replace a with ((a - m) + 1 * m)%nat at 1 by lia.
    rewrite Nat.Div0.mod_add. apply Nat.mod_small. lia.
Qed.

(** ** The ring buffer *)

Module RingBufferFacts.
Import RingBuffer.

Section Facts.
Context {T : Type} `{GoZero T}.
Implicit Types (rb : RingBuffer.t T) (x : T).

Lemma wf_tail rb : wf rb -> 0 < capacity rb -> 0 <= tail rb < capacity rb.
Proof.
  intros (_ & _ & _ & [[? _]|[_ ->]]) Hc; [lia|].
  by apply Z.mod_pos_bound.
Qed.

Lemma NewRingBuffer_Ok (c : Z) :
  0 <= c ->
  NewRingBuffer c =
    Ok {| buffer := replicate (Z.to_nat c) zero; head := 0; tail := 0;
          size := 0; capacity := c |}.
Proof. intros Hc. unfold NewRingBuffer. by rewrite make_slice_Ok. Qed.

Lemma NewRingBuffer_neg (c : Z) : c < 0 -> NewRingBuffer (T:=T) c = Panic.
Proof.
  intros Hc. unfold NewRingBuffer, make_slice.
  destruct (Z.ltb_spec c 0); done || lia.
Qed.

Lemma NewRingBuffer_wf (c : Z) rb :
  c <= int_max -> NewRingBuffer c = Ok rb -> wf rb.
Proof.
  intros Hmax Hnew. destruct (Z.lt_ge_cases c 0) as [Hneg|Hpos].
  - by rewrite NewRingBuffer_neg in Hnew.
  - rewrite NewRingBuffer_Ok in Hnew by done. injection Hnew as <-.
    unfold wf; simpl. rewrite length_replicate.
    repeat split; try lia.
    destruct (Z.eq_dec c 0); [left; lia | right].
    split; [lia|]. rewrite Z.mod_small; lia.
Qed.

Lemma Push_full rb x : capacity rb <= size rb -> Push rb x = Ok (false, rb).
Proof.
  intros Hfull. unfold Push.
  destruct (Z.geb_spec (size rb) (capacity rb)); done || lia.
Qed.

Lemma Push_room rb x :
  wf rb -> size rb < capacity rb ->
  Push rb x =
    Ok (true, {| buffer := <[Z.to_nat (tail rb) := x]> (buffer rb);
                 head := head rb;
                 tail := (tail rb + 1) mod capacity rb;
                 size := size rb + 1;
                 capacity := capacity rb |}).
Proof.
  intros Hwf Hroom. pose proof Hwf as (Hlen & Hmax & Hsz & _).
  pose proof (wf_tail rb Hwf ltac:(lia)) as Htl.
  pose proof int_min_neg.
  unfold Push. destruct (Z.geb_spec (size rb) (capacity rb)); [lia|].
  rewrite store_slice_Ok by lia. simpl.
  rewrite !int_add_small by (unfold is_int; lia).
  rewrite int_rem_pos by lia. done.
Qed.

Lemma Pop_empty rb : size rb <= 0 -> Pop rb = Ok (zero, false, rb).
Proof.
  intros Hemp. unfold Pop. destruct (Z.leb_spec (size rb) 0); done || lia.
Qed.

Lemma Pop_item rb :
  wf rb -> 0 < size rb ->
  exists item,
    buffer rb !! Z.to_nat (head rb) = Some item /\
    Pop rb =
      Ok (item, true, {| buffer := buffer rb;
                         head := (head rb + 1) mod capacity rb;
                         tail := tail rb;
                         size := size rb - 1;
                         capacity := capacity rb |}).
Proof.
  intros (Hlen & Hmax & Hsz & [[? _]|[Hhd Htl]]) Hne; [lia|].
  pose proof int_min_neg.
  destruct (lookup_lt_is_Some_2 (buffer rb) (Z.to_nat (head rb))) as [item Hitem];
    [lia|].
  exists item. split; [done|].
  unfold Pop. destruct (Z.leb_spec (size rb) 0); [lia|].
  assert (index_slice (buffer rb) (head rb) = Ok item) as ->
    by (apply index_slice_Ok; split; [lia|done]).
  simpl. rewrite int_add_small, int_sub_small by (unfold is_int; lia).
  rewrite int_rem_pos by lia. done.
Qed.

Lemma Push_wf rb x b rb' : wf rb -> Push rb x = Ok (b, rb') -> wf rb'.
Proof.
  intros Hwf Hpush. destruct (Z.lt_ge_cases (size rb) (capacity rb)) as [Hroom|Hfull].
  - rewrite Push_room in Hpush by done. injection Hpush as <- <-.
    destruct Hwf as (Hlen & Hmax & Hsz & [[? _]|[Hhd Heq]]); [lia|].
    unfold wf; simpl. rewrite length_insert.
    repeat split; try lia. right. split; [done|].
    rewrite Heq, Z.add_mod_idemp_l by lia. f_equal. lia.
  - rewrite Push_full in Hpush by lia. by injection Hpush as <- <-.
Qed.

Lemma Pop_wf rb x b rb' : wf rb -> Pop rb = Ok (x, b, rb') -> wf rb'.
Proof.
  intros Hwf Hpop. destruct (Z.lt_ge_cases 0 (size rb)) as [Hne|Hemp].
  - destruct (Pop_item rb Hwf Hne) as (item & _ & Heq).
    rewrite Heq in Hpop. injection Hpop as <- <- <-.
    destruct Hwf as (Hlen & Hmax & Hsz & [[? _]|[Hhd Htl]]); [lia|].
    unfold wf; simpl. repeat split; try lia. right.
    split; [apply Z.mod_pos_bound; lia|].
    rewrite Z.add_mod_idemp_l by lia. rewrite Htl. f_equal. lia.
  - rewrite Pop_empty in Hpop by lia. by injection Hpop as <- <- <-.
Qed.

Lemma Push_total rb x :
  wf rb ->
  exists b rb',
    Push rb x = Ok (b, rb') /\ wf rb' /\ capacity rb' = capacity rb /\
    (b = false <-> size rb = capacity rb) /\ (b = false -> rb' = rb).
Proof.
  intros Hwf. pose proof Hwf as (_ & _ & Hsz & _).
  destruct (Z.lt_ge_cases (size rb) (capacity rb)) as [Hroom|Hfull].
  - pose proof (Push_room rb x Hwf Hroom) as Heq.
    eexists _, _. split; [exact Heq|].
    split; [by eapply Push_wf|]. simpl.
    split; [done|]. split; [split|]; intros; (done || lia).
  - exists false, rb. rewrite Push_full by lia.
    do 3 (split; [done|]). split; [split|]; intros; (done || lia).
Qed.

Lemma Pop_total rb :
  wf rb ->
  exists x b rb',
    Pop rb = Ok (x, b, rb') /\ wf rb' /\ capacity rb' = capacity rb /\
    (b = false <-> size rb = 0) /\ (b = false -> x = zero).
Proof.
  intros Hwf. pose proof Hwf as (_ & _ & Hsz & _).
  destruct (Z.lt_ge_cases 0 (size rb)) as [Hne|Hemp].
  - destruct (Pop_item rb Hwf Hne) as (item & _ & Heq).
    eexists _, _, _. split; [exact Heq|].
    split; [by eapply Pop_wf|]. simpl.
    split; [done|]. split; [split|]; intros; (done || lia).
  - exists zero, false, rb. rewrite Pop_empty by lia.
    do 3 (split; [done|]). split; [split|]; intros; (done || lia).
Qed.

Lemma run_total (cs : list call) rb :
  wf rb ->
  exists rets rb',
    run cs rb = Ok (rets, rb') /\ wf rb' /\ capacity rb' = capacity rb.
Proof.
  revert rb. induction cs as [|c cs IH]; intros rb Hwf.
  - by exists [], rb.
  - assert (exists r rb1, exec rb c = Ok (r, rb1) /\ wf rb1 /\
                          capacity rb1 = capacity rb) as (r & rb1 & Hex & Hwf1 & Hc1).
    { destruct c as [x|]; simpl.
      - destruct (Push_total rb x Hwf) as (b & rb' & -> & ? & ? & _).
        by eexists _, _.
      - destruct (Pop_total rb Hwf) as (x & b & rb' & -> & ? & ? & _).
        by eexists _, _. }
    destruct (IH rb1 Hwf1) as (rets & rb2 & Hrun & Hwf2 & Hc2).
    exists (r :: rets), rb2. simpl. rewrite Hex. simpl. rewrite Hrun. simpl.
    split; [done|]. split; [done|]. congruence.
Qed.

(** *** The items held, as a queue *)

Lemma slots_length (buf : list T) (start n : nat) :
  (0 < length buf)%nat -> (start < length buf)%nat ->
  length (slots buf start n) = n.
Proof.
  intros Hpos. revert start. induction n as [|n IH]; intros start Hs; [done|].
  cbn [slots]. destruct (lookup_lt_is_Some_2 buf start Hs) as [y ->].
  cbn [length]. rewrite IH; [done|]. by apply Nat.mod_upper_bound, Nat.neq_0_lt_0.
Qed.

Lemma slots_insert_end (buf : list T) (start n : nat) x :
  (start < length buf)%nat -> (n < length buf)%nat ->
  slots (<[((start + n) mod length buf)%nat := x]> buf) start (S n) =
  slots buf start n ++ [x].
Proof.
  revert start. induction n as [|n IH]; intros start Hs Hn.
  - cbn [slots]. rewrite Nat.add_0_r, Nat.mod_small by done.
    by rewrite list_lookup_insert_eq.
  - assert (((start + S n) mod length buf)%nat <> start) as Hne.
    { rewrite mod_wrap_once by lia.
      destruct (Nat.ltb_spec (start + S n) (length buf)); lia. }
    destruct (lookup_lt_is_Some_2 buf start Hs) as [y Hy].
    change (slots buf start (S n)) with
      (match buf !! start with
       | Some x => x :: slots buf (S start mod length buf) n
       | None => []
       end).
    rewrite Hy. remember (S n) as k eqn:Hk. cbn [slots].
    rewrite list_lookup_insert_ne, Hy, length_insert by done. subst k.
    cbn [app]. f_equal.
    rewrite <- IH; [|apply Nat.mod_upper_bound; lia|lia].
    rewrite Nat.Div0.add_mod_idemp_l.
    by replace (S start + n)%nat with (start + S n)%nat by lia.
Qed.

Lemma contents_length rb : wf rb -> Z.of_nat (length (contents rb)) = size rb.
Proof.
  intros (Hlen & Hmax & Hsz & [(? & ? & ?)|[Hhd Htl]]).
  - unfold contents. replace (size rb) with 0 by lia. done.
  - unfold contents. rewrite slots_length; lia.
Qed.

Lemma contents_Push rb x :
  wf rb -> size rb < capacity rb ->
  exists rb',
    Push rb x = Ok (true, rb') /\ contents rb' = contents rb ++ [x] /\
    size rb' = size rb + 1.
Proof.
  intros Hwf Hroom. eexists. split; [by apply Push_room|]. split; [|done].
  destruct Hwf as (Hlen & Hmax & Hsz & [[? _]|[Hhd Htl]]); [lia|].
  unfold contents; simpl.
  replace (Z.to_nat (size rb + 1)) with (S (Z.to_nat (size rb))) by lia.
  replace (Z.to_nat (tail rb))
    with ((Z.to_nat (head rb) + Z.to_nat (size rb)) mod length (buffer rb))%nat.
  - apply slots_insert_end; lia.
  - rewrite Htl, Z2Nat.inj_mod, Z2Nat.inj_add by lia.
    f_equal. lia.
Qed.

Lemma contents_Pop rb :
  wf rb -> 0 < size rb ->
  exists item rb',
    Pop rb = Ok (item, true, rb') /\ contents rb = item :: contents rb' /\
    size rb' = size rb - 1.
Proof.
  intros Hwf Hne. destruct (Pop_item rb Hwf Hne) as (item & Hitem & Heq).
  eexists _, _. split; [exact Heq|]. split; [|done].
  destruct Hwf as (Hlen & Hmax & Hsz & [[? _]|[Hhd Htl]]); [lia|].
  unfold contents; simpl.
  replace (Z.to_nat (size rb)) with (S (Z.to_nat (size rb - 1))) by lia.
  cbn [slots]. rewrite Hitem. do 2 f_equal.
  rewrite Z2Nat.inj_mod, Z2Nat.inj_add by lia.
  replace (Z.to_nat (capacity rb)) with (length (buffer rb)) by lia.
  f_equal. lia.
Qed.

Lemma contents_empty rb : wf rb -> size rb = 0 -> contents rb = [].
Proof. intros _ Hz. unfold contents. by rewrite Hz. Qed.

End Facts.

(** C4. Starting from [NewRingBuffer c], after any sequence of [Push] and
    [Pop] calls: [0 <= size <= capacity], and [head] and [tail] are indices
    of the backing array (whenever it has any, i.e. [capacity > 0]); the
    next [Push] returns [false] exactly when [size = capacity], and then
    leaves the buffer as it is; the next [Pop] returns [false] exactly when
    [size = 0], and then returns the zero value. No call panics. *)
Theorem push_pop_invariant {T : Type} `{GoZero T} (c : Z) (cs : list (call (T:=T))) :
  0 <= c <= int_max ->
  exists rb0 rets rb,
    NewRingBuffer c = Ok rb0 /\ run cs rb0 = Ok (rets, rb) /\
    capacity rb = c /\
    0 <= size rb <= capacity rb /\
    (0 < capacity rb ->
     0 <= head rb < capacity rb /\ 0 <= tail rb < capacity rb) /\
    (forall x, exists ok rb',
        Push rb x = Ok (ok, rb') /\
        (ok = false <-> size rb = capacity rb) /\
        (ok = false -> rb' = rb)) /\
    (exists x ok rb',
        Pop rb = Ok (x, ok, rb') /\
        (ok = false <-> size rb = 0) /\
        (ok = false -> x = zero)).
Proof.
  intros [Hc0 Hcmax].
  pose proof (NewRingBuffer_Ok (T:=T) c Hc0) as Hnew.
  pose proof (NewRingBuffer_wf c _ Hcmax Hnew) as Hwf0.
  destruct (run_total cs _ Hwf0) as (rets & rb & Hrun & Hwf & Hcap).
  eexists _, rets, rb. split; [exact Hnew|]. split; [exact Hrun|].
  split; [done|].
  pose proof Hwf as (_ & _ & Hsz & Hidx). split; [done|].
  split.
  { intros Hpos. split; [|by apply wf_tail].
    destruct Hidx as [[? _]|[? _]]; [lia|done]. }
  split.
  - intros x. destruct (Push_total rb x Hwf) as (b & rb' & ? & _ & _ & ? & ?).
    by exists b, rb'.
  - destruct (Pop_total rb Hwf) as (x & b & rb' & ? & _ & _ & ? & ?).
    by exists x, b, rb'.
Qed.

Lemma push_pop_invariant_witness :
  exists rb0 rets rb,
    NewRingBuffer 2 = Ok rb0 /\
    run [CallPush (Some 7%nat); CallPush (Some 8%nat); CallPush (Some 9%nat);
         CallPop; CallPop; CallPop] rb0 = Ok (rets, rb) /\
    capacity rb = 2 /\
    0 <= size rb <= capacity rb /\
    (0 < capacity rb ->
     0 <= head rb < capacity rb /\ 0 <= tail rb < capacity rb) /\
    (forall x, exists ok rb',
        Push rb x = Ok (ok, rb') /\
        (ok = false <-> size rb = capacity rb) /\
        (ok = false -> rb' = rb)) /\
    (exists x ok rb',
        Pop rb = Ok (x, ok, rb') /\
        (ok = false <-> size rb = 0) /\
        (ok = false -> x = zero)).
Proof. apply (push_pop_invariant (T:=ptr) 2). unfold int_max. lia. Defined.

End RingBufferFacts.

(** ** The ring buffer as a bounded queue *)

Module RingBufferQueue.
Import RingBuffer RingBufferFacts.

Section Queue.
Context {T : Type} `{GoZero T}.
Implicit Types (rb : RingBuffer.t T) (x : T).

Lemma Pop_spec rb x (l : list T) :
  wf rb -> contents rb = x :: l ->
  exists rb',
    Pop rb = Ok (x, true, rb') /\ wf rb' /\ contents rb' = l /\
    capacity rb' = capacity rb.
Proof.
  intros Hwf Hc. pose proof (contents_length rb Hwf) as Hlen.
  rewrite Hc in Hlen. cbn [length] in Hlen.
  destruct (contents_Pop rb Hwf ltac:(lia)) as (item & rb' & Hpop & Hc' & _).
  rewrite Hc in Hc'. injection Hc' as -> ->.
  exists rb'. split; [done|]. split; [by eapply Pop_wf|]. split; [done|].
  destruct (Pop_item rb Hwf ltac:(lia)) as (item' & _ & Heq).
  rewrite Heq in Hpop. by injection Hpop as _ <-.
Qed.

Lemma Pop_spec_empty rb :
  wf rb -> contents rb = [] -> Pop rb = Ok (zero, false, rb).
Proof.
  intros Hwf Hc. pose proof (contents_length rb Hwf) as Hlen.
  rewrite Hc in Hlen. apply Pop_empty. simpl in Hlen. lia.
Qed.

Lemma Push_spec rb x :
  wf rb -> Z.of_nat (length (contents rb)) < capacity rb ->
  exists rb',
    Push rb x = Ok (true, rb') /\ wf rb' /\ contents rb' = contents rb ++ [x] /\
    capacity rb' = capacity rb.
Proof.
  intros Hwf Hroom. rewrite contents_length in Hroom by done.
  destruct (contents_Push rb x Hwf Hroom) as (rb' & Hpush & Hc & _).
  exists rb'. split; [done|]. split; [by eapply Push_wf|]. split; [done|].
  rewrite Push_room in Hpush by done. by injection Hpush as <-.
Qed.

Lemma Push_spec_full rb x :
  wf rb -> capacity rb <= Z.of_nat (length (contents rb)) ->
  Push rb x = Ok (false, rb).
Proof.
  intros Hwf Hfull. rewrite contents_length in Hfull by done.
  by apply Push_full.
Qed.

End Queue.

(** The pre-population loop pushes what the allocator returns, in order. *)
Lemma prepopulate_ring_from (alloc : Allocator) (n : nat) (i : Z)
    (rb : RingBuffer.t ptr) (h : heap) :
  wf rb -> Z.of_nat (length (contents rb)) + Z.of_nat n <= capacity rb ->
  exists rb',
    for_range_from i n
      (fun _ (st : RingBuffer.t ptr * heap) =>
         let '(rb, h) := st in
         let '(obj, h') := alloc h in
         '(_, rb') ← Push rb obj;
         Ok (rb', h'))
      (rb, h) = Ok (rb', (alloc_n alloc n h).2) /\
    wf rb' /\ contents rb' = contents rb ++ (alloc_n alloc n h).1 /\
    capacity rb' = capacity rb.
Proof.
  revert i rb h. induction n as [|n IH]; intros i rb h Hwf Hroom.
  - exists rb. simpl. by rewrite app_nil_r.
  - cbn [for_range_from alloc_n]. destruct (alloc h) as [obj h1].
    destruct (Push_spec rb obj Hwf ltac:(lia)) as (rb1 & -> & Hwf1 & Hc1 & Hcap1).
    cbn [mbind outcome_bind].
    destruct (IH (i + 1) rb1 h1 Hwf1) as (rb' & -> & Hwf' & Hc' & Hcap').
    { rewrite Hc1, length_app, Hcap1. simpl. lia. }
    exists rb'. destruct (alloc_n alloc n h1) as [objs h2]. simpl in *.
    split; [done|]. split; [done|]. split; [|congruence].
    by rewrite Hc', Hc1, <- app_assoc.
Qed.

Lemma prepopulate_ring_ok (alloc : Allocator) (c : Z) (h : heap) :
  0 <= c <= int_max ->
  exists rb0 rb,
    NewRingBuffer c = Ok rb0 /\
    prepopulate_ring c alloc rb0 h = Ok (rb, (alloc_n alloc (Z.to_nat c) h).2) /\
    wf rb /\ contents rb = (alloc_n alloc (Z.to_nat c) h).1 /\ capacity rb = c.
Proof.
  intros [Hc0 Hcmax]. eexists. rewrite NewRingBuffer_Ok by done.
  pose proof (NewRingBuffer_wf (T:=ptr) c _ Hcmax (NewRingBuffer_Ok c Hc0)) as Hwf0.
  unfold prepopulate_ring, for_range.
  set (rb0 := {| buffer := replicate (Z.to_nat c) zero; head := 0; tail := 0;
                 size := 0; capacity := c |}) in *.
  assert (contents rb0 = []) as Hempty by done.
  destruct (prepopulate_ring_from alloc (Z.to_nat c) 0 rb0 h Hwf0)
    as (rb & -> & Hwf & Hc & Hcap).
  - rewrite Hempty. simpl. lia.
  - exists rb. by rewrite Hempty in Hc.
Qed.

End RingBufferQueue.

(** ** Facts shared by all single-segment pools

    [next p] lists the resident objects in the order [Get] hands them out;
    the hypotheses are what each variant's [Get] and [Put] are shown to
    satisfy further down. *)

Section Segment.
Context {P : Type}.
Variable get : P -> heap -> outcome (ptr * P * heap).
Variable put : P -> ptr -> heap -> outcome (P * heap).
Variable wf : P -> Prop.
Variable next : P -> list ptr.
Variable cap : P -> Z.
Variable alloc : P -> Allocator.

Hypothesis get_next : forall p h x l,
  wf p -> next p = x :: l ->
  exists p', get p h = Ok (x, p', h) /\ wf p' /\ next p' = l /\
             cap p' = cap p /\ alloc p' = alloc p.

Hypothesis get_empty : forall p h,
  wf p -> next p = [] -> get p h = Ok ((alloc p h).1, p, (alloc p h).2).

Hypothesis put_room : forall p x h,
  wf p -> Z.of_nat (length (next p)) < cap p ->
  exists p', put p x h = Ok (p', h) /\ wf p' /\
             length (next p') = S (length (next p)) /\
             cap p' = cap p /\ alloc p' = alloc p.

Hypothesis put_full : forall p x h,
  wf p -> cap p <= Z.of_nat (length (next p)) -> put p x h = Ok (p, h).

Lemma segment_drain (k : nat) (p : P) (h : heap) :
  wf p -> (k <= length (next p))%nat ->
  exists p',
    get_n get k p h = Ok (take k (next p), p', h) /\ wf p' /\
    next p' = drop k (next p) /\ cap p' = cap p /\ alloc p' = alloc p.
Proof.
  revert p. induction k as [|k IH]; intros p Hwf Hk.
  - exists p. simpl. by rewrite take_0, drop_0.
  - destruct (next p) as [|x l] eqn:Hnext; [simpl in Hk; lia|].
    destruct (get_next p h x l Hwf Hnext) as (p1 & Hget & Hwf1 & Hn1 & Hc1 & Ha1).
    destruct (IH p1 Hwf1) as (p' & Hrest & Hwf' & Hn' & Hc' & Ha').
    { rewrite Hn1. simpl in Hk. lia. }
    exists p'. cbn [get_n]. rewrite Hget. cbn [mbind outcome_bind].
    rewrite Hrest. cbn [mbind outcome_bind]. rewrite Hn1 in Hrest, Hn'. simpl.
    rewrite Hn1. repeat split; congruence.
Qed.

Lemma segment_get_total (p : P) (h : heap) :
  wf p ->
  exists x p' h',
    get p h = Ok (x, p', h') /\ wf p' /\
    (next p = [] -> (x, h') = alloc p h /\ p' = p).
Proof.
  intros Hwf. destruct (next p) as [|x l] eqn:Hnext.
  - exists (alloc p h).1, p, (alloc p h).2. rewrite get_empty by done.
    split; [done|]. split; [done|]. intros _. by destruct (alloc p h).
  - destruct (get_next p h x l Hwf Hnext) as (p' & Hget & Hwf' & _).
    exists x, p', h. by rewrite Hget.
Qed.

Lemma segment_round_trip (p : P) (h : heap) :
  wf p -> Z.of_nat (length (next p)) = cap p ->
  exists p' h',
    round_trip get put (p, h) = Ok (p', h') /\ wf p' /\
    length (next p') = length (next p) /\ cap p' = cap p.
Proof.
  intros Hwf Hfull. unfold round_trip. cbn [fst snd].
  destruct (next p) as [|x l] eqn:Hnext.
  - rewrite get_empty by done. cbn [mbind outcome_bind].
    exists p, (alloc p h).2. rewrite put_full; [|done|rewrite Hnext; simpl in *; lia].
    by rewrite Hnext.
  - destruct (get_next p h x l Hwf Hnext) as (p1 & -> & Hwf1 & Hn1 & Hc1 & _).
    cbn [mbind outcome_bind].
    destruct (put_room p1 x h Hwf1) as (p2 & -> & Hwf2 & Hn2 & Hc2 & _).
    { rewrite Hn1, Hc1. simpl in Hfull. lia. }
    exists p2, h. split; [done|]. split; [done|].
    rewrite Hn2, Hn1. split; [done|congruence].
Qed.

Lemma segment_round_trips (n : nat) (i : Z) (p : P) (h : heap) :
  wf p -> Z.of_nat (length (next p)) = cap p ->
  exists p' h',
    for_range_from i n (fun _ => round_trip get put) (p, h) = Ok (p', h') /\
    wf p' /\ length (next p') = length (next p) /\ cap p' = cap p.
Proof.
  revert i p h. induction n as [|n IH]; intros i p h Hwf Hfull.
  - by exists p, h.
  - destruct (segment_round_trip p h Hwf Hfull) as (p1 & h1 & Hrt & Hwf1 & Hn1 & Hc1).
    destruct (IH (i + 1) p1 h1 Hwf1) as (p' & h' & Hrest & Hwf' & Hn' & Hc').
    { by rewrite Hn1, Hc1. }
    exists p', h'. cbn [for_range_from]. rewrite Hrt. cbn [mbind outcome_bind].
    rewrite Hrest. repeat split; congruence.
Qed.

End Segment.

(** ** Allocation *)

Lemma alloc_n_length (alloc : Allocator) (n : nat) (h : heap) :
  length (alloc_n alloc n h).1 = n.
Proof.
  revert h. induction n as [|n IH]; intros h; [done|].
  simpl. destruct (alloc h) as [obj h1]. specialize (IH h1).
  destruct (alloc_n alloc n h1). simpl in *. by rewrite IH.
Qed.

Lemma alloc_n_fresh (alloc : Allocator) (n : nat) (h : heap) :
  fresh_allocator alloc ->
  (alloc_n alloc n h).1 = Some <$> seq (length h) n /\
  length (alloc_n alloc n h).2 = (length h + n)%nat.
Proof.
  intros Hfresh. revert h. induction n as [|n IH]; intros h.
  - simpl. split; [done|lia].
  - simpl. destruct (Hfresh h) as [o ->].
    specialize (IH (h ++ [o])). destruct (alloc_n alloc n (h ++ [o])) as [objs h2].
    destruct IH as [Hobjs Hlen]. simpl in *. subst objs.
    rewrite length_app in *. simpl in *.
    rewrite Nat.add_1_r. split; [done|lia].
Qed.

Lemma alloc_n_NoDup (alloc : Allocator) (n : nat) (h : heap) :
  fresh_allocator alloc -> NoDup (alloc_n alloc n h).1.
Proof.
  intros Hfresh. rewrite (proj1 (alloc_n_fresh alloc n h Hfresh)).
  apply (NoDup_fmap_2 _). apply NoDup_seq.
Qed.

Lemma testAllocator_fresh : fresh_allocator testAllocator.
Proof. intros h. by eexists. Qed.

(** ** Mutex-protected ring buffer pool *)

Module MutexRingBufferPoolFacts.

Lemma mrb_eta (p : MutexRingBufferPool.t) :
  MutexRingBufferPool.mu p = Unlocked -> MutexRingBufferPool.with_state p (MutexRingBufferPool.ringBuffer p) Unlocked = p.
Proof. destruct p; simpl. by intros ->. Qed.

Lemma mrb_Get_next (p : MutexRingBufferPool.t) (h : heap) (x : ptr) (l : list ptr) :
  MutexRingBufferPool.wf p -> MutexRingBufferPool.resident p = x :: l ->
  exists p',
    MutexRingBufferPool.Get p h = Ok (x, p', h) /\ MutexRingBufferPool.wf p' /\ MutexRingBufferPool.resident p' = l /\
    MutexRingBufferPool.capacity p' = MutexRingBufferPool.capacity p /\ MutexRingBufferPool.allocator p' = MutexRingBufferPool.allocator p.
Proof.
  intros [Hrb Hmu] Hres.
  destruct (RingBufferQueue.Pop_spec _ x l Hrb Hres) as (rb' & Hpop & Hwf' & Hc' & Hcap').
  exists (MutexRingBufferPool.with_state p rb' Unlocked).
  unfold MutexRingBufferPool.Get. rewrite Hmu. simpl. rewrite Hpop. simpl.
  split; [done|]. split; [by split|]. split; [exact Hc'|]. split; [exact Hcap'|done].
Qed.

Lemma mrb_Get_empty (p : MutexRingBufferPool.t) (h : heap) :
  MutexRingBufferPool.wf p -> MutexRingBufferPool.resident p = [] ->
  MutexRingBufferPool.Get p h = Ok ((MutexRingBufferPool.allocator p h).1, p, (MutexRingBufferPool.allocator p h).2).
Proof.
  intros [Hrb Hmu] Hres. unfold MutexRingBufferPool.Get. rewrite Hmu. simpl.
  rewrite RingBufferQueue.Pop_spec_empty by done. simpl.
  destruct (MutexRingBufferPool.allocator p h). simpl. by rewrite mrb_eta.
Qed.

Lemma mrb_Put_room (p : MutexRingBufferPool.t) (x : ptr) :
  MutexRingBufferPool.wf p -> Z.of_nat (length (MutexRingBufferPool.resident p)) < MutexRingBufferPool.capacity p ->
  exists p',
    MutexRingBufferPool.Put p x = Ok p' /\ MutexRingBufferPool.wf p' /\
    MutexRingBufferPool.resident p' = MutexRingBufferPool.resident p ++ [x] /\
    MutexRingBufferPool.capacity p' = MutexRingBufferPool.capacity p /\ MutexRingBufferPool.allocator p' = MutexRingBufferPool.allocator p.
Proof.
  intros [Hrb Hmu] Hroom.
  destruct (RingBufferQueue.Push_spec _ x Hrb Hroom) as (rb' & Hpush & Hwf' & Hc' & Hcap').
  exists (MutexRingBufferPool.with_state p rb' Unlocked).
  unfold MutexRingBufferPool.Put. rewrite Hmu. simpl. rewrite Hpush. simpl.
  split; [done|]. split; [by split|]. split; [exact Hc'|]. split; [exact Hcap'|done].
Qed.

Lemma mrb_Put_full (p : MutexRingBufferPool.t) (x : ptr) :
  MutexRingBufferPool.wf p -> MutexRingBufferPool.capacity p <= Z.of_nat (length (MutexRingBufferPool.resident p)) ->
  MutexRingBufferPool.Put p x = Ok p.
Proof.
  intros [Hrb Hmu] Hfull. unfold MutexRingBufferPool.Put. rewrite Hmu. simpl.
  rewrite RingBufferQueue.Push_spec_full by done. simpl. by rewrite mrb_eta.
Qed.

Lemma mrb_New (c : Z) (alloc : Allocator) (clean : Cleaner) (h : heap) :
  0 <= c <= int_max ->
  exists p,
    NewMutexRingBufferPool c alloc clean h = Ok (p, (alloc_n alloc (Z.to_nat c) h).2) /\
    MutexRingBufferPool.wf p /\ MutexRingBufferPool.resident p = (alloc_n alloc (Z.to_nat c) h).1 /\
    MutexRingBufferPool.capacity p = c /\ MutexRingBufferPool.allocator p = alloc /\ MutexRingBufferPool.cleaner p = clean.
Proof.
  intros Hc.
  destruct (RingBufferQueue.prepopulate_ring_ok alloc c h Hc)
    as (rb0 & rb & Hnew & Hpre & Hwf & Hres & Hcap).
  eexists. unfold NewMutexRingBufferPool. rewrite Hnew. simpl. rewrite Hpre. simpl.
  split; [done|]. split; [by split|]. split; [exact Hres|]. split; [exact Hcap|done].
Qed.

Lemma mrb_occupancy (p : MutexRingBufferPool.t) :
  MutexRingBufferPool.wf p -> MutexRingBufferPool.occupancy p = Z.of_nat (length (MutexRingBufferPool.resident p)).
Proof.
  intros [Hrb _]. symmetry. by apply RingBufferFacts.contents_length.
Qed.

(** [Put] in the shape of the shared facts. *)
Lemma mrb_put_room_length (p : MutexRingBufferPool.t) (x : ptr) (h : heap) :
  MutexRingBufferPool.wf p -> Z.of_nat (length (MutexRingBufferPool.resident p)) < MutexRingBufferPool.capacity p ->
  exists p',
    put_pure MutexRingBufferPool.Put p x h = Ok (p', h) /\ MutexRingBufferPool.wf p' /\
    length (MutexRingBufferPool.resident p') = S (length (MutexRingBufferPool.resident p)) /\
    MutexRingBufferPool.capacity p' = MutexRingBufferPool.capacity p /\ MutexRingBufferPool.allocator p' = MutexRingBufferPool.allocator p.
Proof.
  intros Hwf Hroom.
  destruct (mrb_Put_room p x Hwf Hroom) as (p' & Hput & Hwf' & Hres & Hcap & Hal).
  exists p'. unfold put_pure. rewrite Hput. simpl.
  rewrite Hres, length_app. simpl.
  split; [done|]. split; [done|]. split; [lia|done].
Qed.

Lemma mrb_put_full_pure (p : MutexRingBufferPool.t) (x : ptr) (h : heap) :
  MutexRingBufferPool.wf p -> MutexRingBufferPool.capacity p <= Z.of_nat (length (MutexRingBufferPool.resident p)) ->
  put_pure MutexRingBufferPool.Put p x h = Ok (p, h).
Proof.
  intros Hwf Hfull. unfold put_pure. by rewrite mrb_Put_full.
Qed.

End MutexRingBufferPoolFacts.

(** ** RWMutex-protected ring buffer pool *)

Module RWMutexRingBufferPoolFacts.

Lemma rwm_eta (p : RWMutexRingBufferPool.t) :
  RWMutexRingBufferPool.mu p = Unlocked -> RWMutexRingBufferPool.with_state p (RWMutexRingBufferPool.ringBuffer p) Unlocked = p.
Proof. destruct p; simpl. by intros ->. Qed.

Lemma rwm_Get_next (p : RWMutexRingBufferPool.t) (h : heap) (x : ptr) (l : list ptr) :
  RWMutexRingBufferPool.wf p -> RWMutexRingBufferPool.resident p = x :: l ->
  exists p',
    RWMutexRingBufferPool.Get p h = Ok (x, p', h) /\ RWMutexRingBufferPool.wf p' /\ RWMutexRingBufferPool.resident p' = l /\
    RWMutexRingBufferPool.capacity p' = RWMutexRingBufferPool.capacity p /\ RWMutexRingBufferPool.allocator p' = RWMutexRingBufferPool.allocator p.
Proof.
  intros [Hrb Hmu] Hres.
  destruct (RingBufferQueue.Pop_spec _ x l Hrb Hres) as (rb' & Hpop & Hwf' & Hc' & Hcap').
  exists (RWMutexRingBufferPool.with_state p rb' Unlocked).
  unfold RWMutexRingBufferPool.Get. rewrite Hmu. simpl. rewrite Hpop. simpl.
  split; [done|]. split; [by split|]. split; [exact Hc'|]. split; [exact Hcap'|done].
Qed.

Lemma rwm_Get_empty (p : RWMutexRingBufferPool.t) (h : heap) :
  RWMutexRingBufferPool.wf p -> RWMutexRingBufferPool.resident p = [] ->
  RWMutexRingBufferPool.Get p h = Ok ((RWMutexRingBufferPool.allocator p h).1, p, (RWMutexRingBufferPool.allocator p h).2).
Proof.
  intros [Hrb Hmu] Hres. unfold RWMutexRingBufferPool.Get. rewrite Hmu. simpl.
  rewrite RingBufferQueue.Pop_spec_empty by done. simpl.
  destruct (RWMutexRingBufferPool.allocator p h). simpl. by rewrite rwm_eta.
Qed.

Lemma rwm_Put_room (p : RWMutexRingBufferPool.t) (x : ptr) :
  RWMutexRingBufferPool.wf p -> Z.of_nat (length (RWMutexRingBufferPool.resident p)) < RWMutexRingBufferPool.capacity p ->
  exists p',
    RWMutexRingBufferPool.Put p x = Ok p' /\ RWMutexRingBufferPool.wf p' /\
    RWMutexRingBufferPool.resident p' = RWMutexRingBufferPool.resident p ++ [x] /\
    RWMutexRingBufferPool.capacity p' = RWMutexRingBufferPool.capacity p /\ RWMutexRingBufferPool.allocator p' = RWMutexRingBufferPool.allocator p.
Proof.
  intros [Hrb Hmu] Hroom.
  destruct (RingBufferQueue.Push_spec _ x Hrb Hroom) as (rb' & Hpush & Hwf' & Hc' & Hcap').
  exists (RWMutexRingBufferPool.with_state p rb' Unlocked).
  unfold RWMutexRingBufferPool.Put. rewrite Hmu. simpl. rewrite Hpush. simpl.
  split; [done|]. split; [by split|]. split; [exact Hc'|]. split; [exact Hcap'|done].
Qed.

Lemma rwm_Put_full (p : RWMutexRingBufferPool.t) (x : ptr) :
  RWMutexRingBufferPool.wf p -> RWMutexRingBufferPool.capacity p <= Z.of_nat (length (RWMutexRingBufferPool.resident p)) ->
  RWMutexRingBufferPool.Put p x = Ok p.
Proof.
  intros [Hrb Hmu] Hfull. unfold RWMutexRingBufferPool.Put. rewrite Hmu. simpl.
  rewrite RingBufferQueue.Push_spec_full by done. simpl. by rewrite rwm_eta.
Qed.

Lemma rwm_New (c : Z) (alloc : Allocator) (clean : Cleaner) (h : heap) :
  0 <= c <= int_max ->
  exists p,
    NewRWMutexRingBufferPool c alloc clean h = Ok (p, (alloc_n alloc (Z.to_nat c) h).2) /\
    RWMutexRingBufferPool.wf p /\ RWMutexRingBufferPool.resident p = (alloc_n alloc (Z.to_nat c) h).1 /\
    RWMutexRingBufferPool.capacity p = c /\ RWMutexRingBufferPool.allocator p = alloc /\ RWMutexRingBufferPool.cleaner p = clean.
Proof.
  intros Hc.
  destruct (RingBufferQueue.prepopulate_ring_ok alloc c h Hc)
    as (rb0 & rb & Hnew & Hpre & Hwf & Hres & Hcap).
  eexists. unfold NewRWMutexRingBufferPool. rewrite Hnew. simpl. rewrite Hpre. simpl.
  split; [done|]. split; [by split|]. split; [exact Hres|]. split; [exact Hcap|done].
Qed.

Lemma rwm_occupancy (p : RWMutexRingBufferPool.t) :
  RWMutexRingBufferPool.wf p -> RWMutexRingBufferPool.occupancy p = Z.of_nat (length (RWMutexRingBufferPool.resident p)).
Proof.
  intros [Hrb _]. symmetry. by apply RingBufferFacts.contents_length.
Qed.

(** [Put] in the shape of the shared facts. *)
Lemma rwm_put_room_length (p : RWMutexRingBufferPool.t) (x : ptr) (h : heap) :
  RWMutexRingBufferPool.wf p -> Z.of_nat (length (RWMutexRingBufferPool.resident p)) < RWMutexRingBufferPool.capacity p ->
  exists p',
    put_pure RWMutexRingBufferPool.Put p x h = Ok (p', h) /\ RWMutexRingBufferPool.wf p' /\
    length (RWMutexRingBufferPool.resident p') = S (length (RWMutexRingBufferPool.resident p)) /\
    RWMutexRingBufferPool.capacity p' = RWMutexRingBufferPool.capacity p /\ RWMutexRingBufferPool.allocator p' = RWMutexRingBufferPool.allocator p.
Proof.
  intros Hwf Hroom.
  destruct (rwm_Put_room p x Hwf Hroom) as (p' & Hput & Hwf' & Hres & Hcap & Hal).
  exists p'. unfold put_pure. rewrite Hput. simpl.
  rewrite Hres, length_app. simpl.
  split; [done|]. split; [done|]. split; [lia|done].
Qed.

Lemma rwm_put_full_pure (p : RWMutexRingBufferPool.t) (x : ptr) (h : heap) :
  RWMutexRingBufferPool.wf p -> RWMutexRingBufferPool.capacity p <= Z.of_nat (length (RWMutexRingBufferPool.resident p)) ->
  put_pure RWMutexRingBufferPool.Put p x h = Ok (p, h).
Proof.
  intros Hwf Hfull. unfold put_pure. by rewrite rwm_Put_full.
Qed.

End RWMutexRingBufferPoolFacts.

(** ** Mutex-protected slice pool *)

Module MutexBasedPoolFacts.

Lemma mbp_eta (p : MutexBasedPool.t) :
  MutexBasedPool.mu p = Unlocked -> MutexBasedPool.with_state p (MutexBasedPool.objects p) Unlocked = p.
Proof. destruct p; simpl. by intros ->. Qed.

Lemma mbp_top (p : MutexBasedPool.t) (x : ptr) (l : list ptr) :
  MutexBasedPool.wf p -> MutexBasedPool.resident p = l ++ [x] ->
  (len (MutexBasedPool.objects p) =? 0) = false /\
  int_sub (len (MutexBasedPool.objects p)) 1 = Z.of_nat (length l) /\
  index_slice (elems (MutexBasedPool.objects p)) (Z.of_nat (length l)) = Ok x /\
  reslice (MutexBasedPool.objects p) (Z.of_nat (length l)) =
    Ok {| elems := l; slice_cap := slice_cap (MutexBasedPool.objects p) |}.
Proof.
  intros [[Hlen Hcap] _] Hres. unfold MutexBasedPool.resident in Hres.
  unfold len in *. rewrite Hres in *. rewrite length_app in *. simpl in *.
  pose proof int_min_neg.
  split; [by apply Z.eqb_neq; lia|].
  split; [rewrite int_sub_small; unfold is_int; lia|].
  split.
  - apply index_slice_Ok. split; [lia|].
    rewrite Nat2Z.id. by rewrite list_lookup_middle.
  - unfold reslice.
    destruct (Z.leb_spec 0 (Z.of_nat (length l))); [|lia].
    destruct (Z.leb_spec (Z.of_nat (length l)) (slice_cap (MutexBasedPool.objects p))); [|lia].
    simpl. rewrite Hres, Nat2Z.id. by rewrite take_app_length.
Qed.

Lemma mbp_Get_next (p : MutexBasedPool.t) (h : heap) (x : ptr) (l : list ptr) :
  MutexBasedPool.wf p -> MutexBasedPool.resident p = l ++ [x] ->
  exists p',
    MutexBasedPool.Get p h = Ok (x, p', h) /\ MutexBasedPool.wf p' /\ MutexBasedPool.resident p' = l /\
    MutexBasedPool.capacity p' = MutexBasedPool.capacity p /\ MutexBasedPool.allocator p' = MutexBasedPool.allocator p.
Proof.
  intros Hwf Hres. destruct (mbp_top p x l Hwf Hres) as (Hne & Hsub & Hidx & Hre).
  destruct Hwf as [[Hlen Hcap] Hmu].
  eexists. unfold MutexBasedPool.Get. rewrite Hmu. simpl. rewrite Hne, Hsub, Hidx. simpl.
  rewrite Hre. simpl. split; [done|].
  unfold MutexBasedPool.wf, MutexBasedPool.resident, MutexBasedPool.capacity, len in *. simpl.
  unfold MutexBasedPool.resident in Hres. rewrite Hres, length_app in Hlen. simpl in Hlen.
  repeat split; (done || lia).
Qed.

Lemma mbp_Get_empty (p : MutexBasedPool.t) (h : heap) :
  MutexBasedPool.wf p -> MutexBasedPool.resident p = [] ->
  MutexBasedPool.Get p h = Ok ((MutexBasedPool.allocator p h).1, p, (MutexBasedPool.allocator p h).2).
Proof.
  intros [_ Hmu] Hres. unfold MutexBasedPool.Get, len. unfold MutexBasedPool.resident in Hres.
  rewrite Hmu, Hres. simpl. destruct (MutexBasedPool.allocator p h). simpl.
  by rewrite mbp_eta.
Qed.

Lemma mbp_get_next_rev (p : MutexBasedPool.t) (h : heap) (x : ptr) (l : list ptr) :
  MutexBasedPool.wf p -> rev (MutexBasedPool.resident p) = x :: l ->
  exists p',
    MutexBasedPool.Get p h = Ok (x, p', h) /\ MutexBasedPool.wf p' /\ rev (MutexBasedPool.resident p') = l /\
    MutexBasedPool.capacity p' = MutexBasedPool.capacity p /\ MutexBasedPool.allocator p' = MutexBasedPool.allocator p.
Proof.
  intros Hwf Hrev. apply (f_equal (@rev ptr)) in Hrev.
  rewrite rev_involutive in Hrev. simpl in Hrev.
  destruct (mbp_Get_next p h x (rev l) Hwf Hrev) as (p' & ? & ? & Hres & ? & ?).
  exists p'. rewrite Hres, rev_involutive. done.
Qed.

Lemma mbp_get_empty_rev (p : MutexBasedPool.t) (h : heap) :
  MutexBasedPool.wf p -> rev (MutexBasedPool.resident p) = [] ->
  MutexBasedPool.Get p h = Ok ((MutexBasedPool.allocator p h).1, p, (MutexBasedPool.allocator p h).2).
Proof.
  intros Hwf Hrev. apply mbp_Get_empty; [done|].
  destruct (MutexBasedPool.resident p) as [|y l]; [done|].
  simpl in Hrev. by destruct (rev l).
Qed.

Lemma mbp_Put_room (p : MutexBasedPool.t) (x : ptr) :
  MutexBasedPool.wf p -> Z.of_nat (length (MutexBasedPool.resident p)) < MutexBasedPool.capacity p ->
  exists p',
    MutexBasedPool.Put p x = Ok p' /\ MutexBasedPool.wf p' /\
    MutexBasedPool.resident p' = MutexBasedPool.resident p ++ [x] /\
    MutexBasedPool.capacity p' = MutexBasedPool.capacity p /\ MutexBasedPool.allocator p' = MutexBasedPool.allocator p.
Proof.
  intros [[Hlen Hcap] Hmu] Hroom. eexists. unfold MutexBasedPool.Put. rewrite Hmu. simpl.
  unfold MutexBasedPool.resident, MutexBasedPool.capacity, MutexBasedPool.wf, len in *.
  destruct (Z.ltb_spec (Z.of_nat (length (elems (MutexBasedPool.objects p))))
              (slice_cap (MutexBasedPool.objects p))) as [_|?]; [|lia].
  split; [done|]. unfold append, len. simpl.
  destruct (Z.ltb_spec (Z.of_nat (length (elems (MutexBasedPool.objects p))))
              (slice_cap (MutexBasedPool.objects p))) as [_|?]; [|lia].
  rewrite length_app. simpl. repeat split; (done || lia).
Qed.

Lemma mbp_Put_full (p : MutexBasedPool.t) (x : ptr) :
  MutexBasedPool.wf p -> MutexBasedPool.capacity p <= Z.of_nat (length (MutexBasedPool.resident p)) ->
  MutexBasedPool.Put p x = Ok p.
Proof.
  intros [_ Hmu] Hfull. unfold MutexBasedPool.Put. rewrite Hmu. simpl.
  unfold MutexBasedPool.resident, MutexBasedPool.capacity, len in *.
  destruct (Z.ltb_spec (Z.of_nat (length (elems (MutexBasedPool.objects p))))
              (slice_cap (MutexBasedPool.objects p))) as [?|_]; [lia|].
  by rewrite mbp_eta.
Qed.

Lemma mbp_fill (alloc : Allocator) (n : nat) (i : Z) (s : slice ptr) (h : heap) :
  len s + Z.of_nat n <= slice_cap s ->
  for_range_from i n
    (fun _ (st : slice ptr * heap) =>
       let '(s, h) := st in
       let '(obj, h') := alloc h in
       Ok (append s obj, h'))
    (s, h)
  = Ok ({| elems := elems s ++ (alloc_n alloc n h).1; slice_cap := slice_cap s |},
        (alloc_n alloc n h).2).
Proof.
  revert i s h. induction n as [|n IH]; intros i s h Hroom.
  - simpl. rewrite app_nil_r. by destruct s.
  - cbn [for_range_from alloc_n]. destruct (alloc h) as [obj h1].
    cbn [mbind outcome_bind]. rewrite IH.
    + destruct (alloc_n alloc n h1) as [objs h2]. unfold append. simpl.
      destruct (Z.ltb_spec (len s) (slice_cap s)); [|lia].
      by rewrite <- app_assoc.
    + unfold append, len in *. simpl. rewrite length_app. simpl.
      destruct (Z.ltb_spec (Z.of_nat (length (elems s))) (slice_cap s)); lia.
Qed.

Lemma mbp_New (c : Z) (alloc : Allocator) (clean : Cleaner) (h : heap) :
  0 <= c <= int_max ->
  exists p,
    NewMutexBasedPool c alloc clean h = Ok (p, (alloc_n alloc (Z.to_nat c) h).2) /\
    MutexBasedPool.wf p /\ MutexBasedPool.resident p = (alloc_n alloc (Z.to_nat c) h).1 /\
    MutexBasedPool.capacity p = c /\ MutexBasedPool.allocator p = alloc /\ MutexBasedPool.cleaner p = clean.
Proof.
  intros [Hc0 Hcmax]. eexists. unfold NewMutexBasedPool, make_slice_cap, for_range.
  destruct (Z.ltb_spec c 0); [lia|]. simpl.
  rewrite mbp_fill by (unfold len; simpl; lia). simpl.
  split; [done|].
  unfold MutexBasedPool.wf, MutexBasedPool.resident, MutexBasedPool.capacity, len. simpl.
  rewrite alloc_n_length. repeat split; (done || lia).
Qed.

Lemma mbp_occupancy (p : MutexBasedPool.t) :
  MutexBasedPool.occupancy p = Z.of_nat (length (MutexBasedPool.resident p)).
Proof. done. Qed.

End MutexBasedPoolFacts.

(** ** Condition-variable slice pool *)

Module CondBasedPoolFacts.

Lemma cbp_eta (p : CondBasedPool.t) :
  CondBasedPool.mu p = Unlocked -> CondBasedPool.with_state p (CondBasedPool.objects p) Unlocked = p.
Proof. destruct p; simpl. by intros ->. Qed.

Lemma cbp_top (p : CondBasedPool.t) (x : ptr) (l : list ptr) :
  CondBasedPool.wf p -> CondBasedPool.resident p = l ++ [x] ->
  (len (CondBasedPool.objects p) =? 0) = false /\
  int_sub (len (CondBasedPool.objects p)) 1 = Z.of_nat (length l) /\
  index_slice (elems (CondBasedPool.objects p)) (Z.of_nat (length l)) = Ok x /\
  reslice (CondBasedPool.objects p) (Z.of_nat (length l)) =
    Ok {| elems := l; slice_cap := slice_cap (CondBasedPool.objects p) |}.
Proof.
  intros [[Hlen Hcap] _] Hres. unfold CondBasedPool.resident in Hres.
  unfold len in *. rewrite Hres in *. rewrite length_app in *. simpl in *.
  pose proof int_min_neg.
  split; [by apply Z.eqb_neq; lia|].
  split; [rewrite int_sub_small; unfold is_int; lia|].
  split.
  - apply index_slice_Ok. split; [lia|].
    rewrite Nat2Z.id. by rewrite list_lookup_middle.
  - unfold reslice.
    destruct (Z.leb_spec 0 (Z.of_nat (length l))); [|lia].
    destruct (Z.leb_spec (Z.of_nat (length l)) (slice_cap (CondBasedPool.objects p))); [|lia].
    simpl. rewrite Hres, Nat2Z.id. by rewrite take_app_length.
Qed.

Lemma cbp_Get_next (p : CondBasedPool.t) (x : ptr) (l : list ptr) :
  CondBasedPool.wf p -> CondBasedPool.resident p = l ++ [x] ->
  exists p',
    CondBasedPool.Get p = Ok (x, p') /\ CondBasedPool.wf p' /\ CondBasedPool.resident p' = l /\
    CondBasedPool.capacity p' = CondBasedPool.capacity p /\ CondBasedPool.allocator p' = CondBasedPool.allocator p.
Proof.
  intros Hwf Hres. destruct (cbp_top p x l Hwf Hres) as (Hne & Hsub & Hidx & Hre).
  destruct Hwf as [[Hlen Hcap] Hmu].
  eexists. unfold CondBasedPool.Get. rewrite Hmu. simpl. rewrite Hne, Hsub, Hidx. simpl.
  rewrite Hre. simpl. split; [done|].
  unfold CondBasedPool.wf, CondBasedPool.resident, CondBasedPool.capacity, len in *. simpl.
  unfold CondBasedPool.resident in Hres. rewrite Hres, length_app in Hlen. simpl in Hlen.
  repeat split; (done || lia).
Qed.

Lemma cbp_Get_empty (p : CondBasedPool.t) :
  CondBasedPool.wf p -> CondBasedPool.resident p = [] -> CondBasedPool.Get p = Blocked.
Proof.
  intros [_ Hmu] Hres. unfold CondBasedPool.Get, len. unfold CondBasedPool.resident in Hres.
  by rewrite Hmu, Hres.
Qed.

Lemma cbp_get_next_rev (p : CondBasedPool.t) (h : heap) (x : ptr) (l : list ptr) :
  CondBasedPool.wf p -> rev (CondBasedPool.resident p) = x :: l ->
  exists p',
    get_pure CondBasedPool.Get p h = Ok (x, p', h) /\ CondBasedPool.wf p' /\
    rev (CondBasedPool.resident p') = l /\
    CondBasedPool.capacity p' = CondBasedPool.capacity p /\ CondBasedPool.allocator p' = CondBasedPool.allocator p.
Proof.
  intros Hwf Hrev. apply (f_equal (@rev ptr)) in Hrev.
  rewrite rev_involutive in Hrev. simpl in Hrev.
  destruct (cbp_Get_next p x (rev l) Hwf Hrev) as (p' & Hget & ? & Hres & ? & ?).
  exists p'. unfold get_pure. rewrite Hget, Hres, rev_involutive. done.
Qed.

Lemma cbp_Put_room (p : CondBasedPool.t) (x : ptr) :
  CondBasedPool.wf p -> Z.of_nat (length (CondBasedPool.resident p)) < CondBasedPool.capacity p ->
  exists p',
    CondBasedPool.Put p x = Ok p' /\ CondBasedPool.wf p' /\
    CondBasedPool.resident p' = CondBasedPool.resident p ++ [x] /\
    CondBasedPool.capacity p' = CondBasedPool.capacity p /\ CondBasedPool.allocator p' = CondBasedPool.allocator p.
Proof.
  intros [[Hlen Hcap] Hmu] Hroom. eexists. unfold CondBasedPool.Put. rewrite Hmu. simpl.
  unfold CondBasedPool.resident, CondBasedPool.capacity, CondBasedPool.wf, len in *.
  destruct (Z.ltb_spec (Z.of_nat (length (elems (CondBasedPool.objects p))))
              (slice_cap (CondBasedPool.objects p))) as [_|?]; [|lia].
  split; [done|]. unfold append, len. simpl.
  destruct (Z.ltb_spec (Z.of_nat (length (elems (CondBasedPool.objects p))))
              (slice_cap (CondBasedPool.objects p))) as [_|?]; [|lia].
  rewrite length_app. simpl. repeat split; (done || lia).
Qed.

Lemma cbp_Put_full (p : CondBasedPool.t) (x : ptr) :
  CondBasedPool.wf p -> CondBasedPool.capacity p <= Z.of_nat (length (CondBasedPool.resident p)) ->
  CondBasedPool.Put p x = Ok p.
Proof.
  intros [_ Hmu] Hfull. unfold CondBasedPool.Put. rewrite Hmu. simpl.
  unfold CondBasedPool.resident, CondBasedPool.capacity, len in *.
  destruct (Z.ltb_spec (Z.of_nat (length (elems (CondBasedPool.objects p))))
              (slice_cap (CondBasedPool.objects p))) as [?|_]; [lia|].
  by rewrite cbp_eta.
Qed.

Lemma cbp_fill (alloc : Allocator) (n : nat) (i : Z) (s : slice ptr) (h : heap) :
  len s + Z.of_nat n <= slice_cap s ->
  for_range_from i n
    (fun _ (st : slice ptr * heap) =>
       let '(s, h) := st in
       let '(obj, h') := alloc h in
       Ok (append s obj, h'))
    (s, h)
  = Ok ({| elems := elems s ++ (alloc_n alloc n h).1; slice_cap := slice_cap s |},
        (alloc_n alloc n h).2).
Proof.
  revert i s h. induction n as [|n IH]; intros i s h Hroom.
  - simpl. rewrite app_nil_r. by destruct s.
  - cbn [for_range_from alloc_n]. destruct (alloc h) as [obj h1].
    cbn [mbind outcome_bind]. rewrite IH.
    + destruct (alloc_n alloc n h1) as [objs h2]. unfold append. simpl.
      destruct (Z.ltb_spec (len s) (slice_cap s)); [|lia].
      by rewrite <- app_assoc.
    + unfold append, len in *. simpl. rewrite length_app. simpl.
      destruct (Z.ltb_spec (Z.of_nat (length (elems s))) (slice_cap s)); lia.
Qed.

Lemma cbp_New (c : Z) (alloc : Allocator) (clean : Cleaner) (h : heap) :
  0 <= c <= int_max ->
  exists p,
    NewCondBasedPool c alloc clean h = Ok (p, (alloc_n alloc (Z.to_nat c) h).2) /\
    CondBasedPool.wf p /\ CondBasedPool.resident p = (alloc_n alloc (Z.to_nat c) h).1 /\
    CondBasedPool.capacity p = c /\ CondBasedPool.allocator p = alloc /\ CondBasedPool.cleaner p = clean.
Proof.
  intros [Hc0 Hcmax]. eexists. unfold NewCondBasedPool, make_slice_cap, for_range.
  destruct (Z.ltb_spec c 0); [lia|]. simpl.
  rewrite cbp_fill by (unfold len; simpl; lia). simpl.
  split; [done|].
  unfold CondBasedPool.wf, CondBasedPool.resident, CondBasedPool.capacity, len. simpl.
  rewrite alloc_n_length. repeat split; (done || lia).
Qed.

Lemma cbp_occupancy (p : CondBasedPool.t) :
  CondBasedPool.occupancy p = Z.of_nat (length (CondBasedPool.resident p)).
Proof. done. Qed.

End CondBasedPoolFacts.

(** ** Condition-variable ring buffer pool *)

Module RingBufferCondPoolFacts.

Lemma rbc_eta (p : RingBufferCondPool.t) :
  RingBufferCondPool.mu p = Unlocked ->
  RingBufferCondPool.with_state p (RingBufferCondPool.ringBuffer p) Unlocked = p.
Proof. destruct p; simpl. by intros ->. Qed.

Lemma rbc_Get_next (p : RingBufferCondPool.t) (x : ptr) (l : list ptr) :
  RingBufferCondPool.wf p -> RingBufferCondPool.resident p = x :: l ->
  exists p',
    RingBufferCondPool.Get p = Ok (x, p') /\ RingBufferCondPool.wf p' /\
    RingBufferCondPool.resident p' = l /\
    RingBufferCondPool.capacity p' = RingBufferCondPool.capacity p /\
    RingBufferCondPool.allocator p' = RingBufferCondPool.allocator p.
Proof.
  intros [Hrb Hmu] Hres.
  destruct (RingBufferQueue.Pop_spec _ x l Hrb Hres) as (rb' & Hpop & Hwf' & Hc' & Hcap').
  pose proof (RingBufferFacts.contents_length _ Hrb) as Hlen.
  unfold RingBufferCondPool.resident in Hres. rewrite Hres in Hlen. simpl in Hlen.
  exists (RingBufferCondPool.with_state p rb' Unlocked).
  unfold RingBufferCondPool.Get, RingBuffer.IsEmpty. rewrite Hmu. simpl.
  destruct (Z.eqb_spec (RingBuffer.size (RingBufferCondPool.ringBuffer p)) 0); [lia|].
  rewrite Hpop. simpl.
  split; [done|]. split; [by split|]. split; [exact Hc'|]. split; [exact Hcap'|done].
Qed.

Lemma rbc_Get_empty (p : RingBufferCondPool.t) :
  RingBufferCondPool.wf p -> RingBufferCondPool.resident p = [] ->
  RingBufferCondPool.Get p = Blocked.
Proof.
  intros [Hrb Hmu] Hres.
  pose proof (RingBufferFacts.contents_length _ Hrb) as Hlen.
  unfold RingBufferCondPool.resident in Hres. rewrite Hres in Hlen. simpl in Hlen.
  unfold RingBufferCondPool.Get, RingBuffer.IsEmpty. rewrite Hmu. simpl.
  by destruct (Z.eqb_spec (RingBuffer.size (RingBufferCondPool.ringBuffer p)) 0); [|lia].
Qed.

Lemma rbc_get_next_pure (p : RingBufferCondPool.t) (h : heap) (x : ptr) (l : list ptr) :
  RingBufferCondPool.wf p -> RingBufferCondPool.resident p = x :: l ->
  exists p',
    get_pure RingBufferCondPool.Get p h = Ok (x, p', h) /\
    RingBufferCondPool.wf p' /\ RingBufferCondPool.resident p' = l /\
    RingBufferCondPool.capacity p' = RingBufferCondPool.capacity p /\
    RingBufferCondPool.allocator p' = RingBufferCondPool.allocator p.
Proof.
  intros Hwf Hres. destruct (rbc_Get_next p x l Hwf Hres) as (p' & Hget & ?).
  exists p'. unfold get_pure. by rewrite Hget.
Qed.

Lemma rbc_Put_room (p : RingBufferCondPool.t) (x : ptr) :
  RingBufferCondPool.wf p ->
  Z.of_nat (length (RingBufferCondPool.resident p)) < RingBufferCondPool.capacity p ->
  exists p',
    RingBufferCondPool.Put p x = Ok p' /\ RingBufferCondPool.wf p' /\
    RingBufferCondPool.resident p' = RingBufferCondPool.resident p ++ [x] /\
    RingBufferCondPool.capacity p' = RingBufferCondPool.capacity p /\
    RingBufferCondPool.allocator p' = RingBufferCondPool.allocator p.
Proof.
  intros [Hrb Hmu] Hroom.
  destruct (RingBufferQueue.Push_spec _ x Hrb Hroom) as (rb' & Hpush & Hwf' & Hc' & Hcap').
  pose proof (RingBufferFacts.contents_length _ Hrb) as Hlen.
  unfold RingBufferCondPool.resident, RingBufferCondPool.capacity in Hroom.
  exists (RingBufferCondPool.with_state p rb' Unlocked).
  unfold RingBufferCondPool.Put, RingBuffer.IsFull. rewrite Hmu. simpl.
  destruct (Z.eqb_spec (RingBuffer.size (RingBufferCondPool.ringBuffer p))
              (RingBuffer.capacity (RingBufferCondPool.ringBuffer p))); [lia|].
  simpl. rewrite Hpush. simpl.
  split; [done|]. split; [by split|]. split; [exact Hc'|]. split; [exact Hcap'|done].
Qed.

Lemma rbc_Put_full (p : RingBufferCondPool.t) (x : ptr) :
  RingBufferCondPool.wf p ->
  RingBufferCondPool.capacity p <= Z.of_nat (length (RingBufferCondPool.resident p)) ->
  RingBufferCondPool.Put p x = Ok p.
Proof.
  intros [Hrb Hmu] Hfull.
  pose proof (RingBufferFacts.contents_length _ Hrb) as Hlen.
  pose proof Hrb as (_ & _ & Hsz & _).
  unfold RingBufferCondPool.resident, RingBufferCondPool.capacity in Hfull.
  unfold RingBufferCondPool.Put, RingBuffer.IsFull. rewrite Hmu. simpl.
  destruct (Z.eqb_spec (RingBuffer.size (RingBufferCondPool.ringBuffer p))
              (RingBuffer.capacity (RingBufferCondPool.ringBuffer p))); [|lia].
  simpl. by rewrite rbc_eta.
Qed.

Lemma rbc_New (c : Z) (alloc : Allocator) (clean : Cleaner) (h : heap) :
  0 <= c <= int_max ->
  exists p,
    NewRingBufferCondPool c alloc clean h
      = Ok (p, (alloc_n alloc (Z.to_nat c) h).2) /\
    RingBufferCondPool.wf p /\
    RingBufferCondPool.resident p = (alloc_n alloc (Z.to_nat c) h).1 /\
    RingBufferCondPool.capacity p = c /\
    RingBufferCondPool.allocator p = alloc /\ RingBufferCondPool.cleaner p = clean.
Proof.
  intros Hc.
  destruct (RingBufferQueue.prepopulate_ring_ok alloc c h Hc)
    as (rb0 & rb & Hnew & Hpre & Hwf & Hres & Hcap).
  eexists. unfold NewRingBufferCondPool. rewrite Hnew. simpl. rewrite Hpre. simpl.
  split; [done|]. split; [by split|]. split; [exact Hres|]. split; [exact Hcap|done].
Qed.

End RingBufferCondPoolFacts.

(** ** Channel-based pool *)

Module ChannelBasedPoolFacts.

Lemma send_room {T : Type} (c : chan T) (x : T) :
  Z.of_nat (length (queue c)) < chan_cap c ->
  send c x = Ok {| queue := queue c ++ [x]; chan_cap := chan_cap c |}.
Proof.
  intros Hroom. unfold send.
  by destruct (Z.ltb_spec (Z.of_nat (length (queue c))) (chan_cap c)); [|lia].
Qed.

Lemma send_full {T : Type} (c : chan T) (x : T) :
  chan_cap c <= Z.of_nat (length (queue c)) -> send c x = Blocked.
Proof.
  intros Hfull. unfold send.
  by destruct (Z.ltb_spec (Z.of_nat (length (queue c))) (chan_cap c)); [lia|].
Qed.

Lemma chan_Get_next (p : ChannelBasedPool.t) (h : heap) (x : ptr) (l : list ptr) :
  ChannelBasedPool.wf p -> ChannelBasedPool.resident p = x :: l ->
  exists p',
    ChannelBasedPool.Get p h = Ok (x, p', h) /\ ChannelBasedPool.wf p' /\
    ChannelBasedPool.resident p' = l /\
    ChannelBasedPool.capacity p' = ChannelBasedPool.capacity p /\
    ChannelBasedPool.allocator p' = ChannelBasedPool.allocator p.
Proof.
  intros Hwf Hres. eexists.
  unfold ChannelBasedPool.Get, try_recv.
  unfold ChannelBasedPool.wf, ChannelBasedPool.resident in *. rewrite Hres in *.
  split; [done|]. unfold ChannelBasedPool.capacity. simpl in *.
  repeat split; (done || lia).
Qed.

Lemma chan_Get_empty (p : ChannelBasedPool.t) (h : heap) :
  ChannelBasedPool.wf p -> ChannelBasedPool.resident p = [] ->
  ChannelBasedPool.Get p h
    = Ok ((ChannelBasedPool.allocator p h).1, p, (ChannelBasedPool.allocator p h).2).
Proof.
  intros _ Hres. unfold ChannelBasedPool.Get, try_recv.
  unfold ChannelBasedPool.resident in Hres. rewrite Hres.
  by destruct (ChannelBasedPool.allocator p h).
Qed.

Lemma chan_Put_room (p : ChannelBasedPool.t) (x : ptr) (h h' : heap) :
  ChannelBasedPool.wf p ->
  Z.of_nat (length (ChannelBasedPool.resident p)) < ChannelBasedPool.capacity p ->
  ChannelBasedPool.cleaner p x h = Ok h' ->
  exists p',
    ChannelBasedPool.Put p x h = Ok (p', h') /\ ChannelBasedPool.wf p' /\
    ChannelBasedPool.resident p' = ChannelBasedPool.resident p ++ [x] /\
    ChannelBasedPool.capacity p' = ChannelBasedPool.capacity p /\
    ChannelBasedPool.allocator p' = ChannelBasedPool.allocator p /\
    ChannelBasedPool.cleaner p' = ChannelBasedPool.cleaner p.
Proof.
  intros Hwf Hroom Hclean. eexists.
  unfold ChannelBasedPool.Put, send. rewrite Hclean. simpl.
  unfold ChannelBasedPool.wf, ChannelBasedPool.resident, ChannelBasedPool.capacity in *.
  destruct (Z.ltb_spec (Z.of_nat (length (queue (ChannelBasedPool.objects p))))
              (chan_cap (ChannelBasedPool.objects p))); [|lia].
  simpl. split; [done|]. simpl. rewrite length_app. simpl.
  repeat split; (done || lia).
Qed.

Lemma chan_Put_full (p : ChannelBasedPool.t) (x : ptr) (h h' : heap) :
  ChannelBasedPool.capacity p <= Z.of_nat (length (ChannelBasedPool.resident p)) ->
  ChannelBasedPool.cleaner p x h = Ok h' ->
  ChannelBasedPool.Put p x h = Blocked.
Proof.
  intros Hfull Hclean. unfold ChannelBasedPool.Put, send. rewrite Hclean. simpl.
  unfold ChannelBasedPool.resident, ChannelBasedPool.capacity in *.
  by destruct (Z.ltb_spec (Z.of_nat (length (queue (ChannelBasedPool.objects p))))
                 (chan_cap (ChannelBasedPool.objects p))); [lia|].
Qed.

Lemma chan_fill (alloc : Allocator) (n : nat) (i : Z) (c : chan ptr) (h : heap) :
  Z.of_nat (length (queue c)) + Z.of_nat n <= chan_cap c ->
  for_range_from i n
    (fun _ (st : chan ptr * heap) =>
       let '(c, h) := st in
       let '(obj, h') := alloc h in
       c' ← send c obj;
       Ok (c', h'))
    (c, h)
  = Ok ({| queue := queue c ++ (alloc_n alloc n h).1; chan_cap := chan_cap c |},
        (alloc_n alloc n h).2).
Proof.
  revert i c h. induction n as [|n IH]; intros i c h Hroom.
  - simpl. rewrite app_nil_r. by destruct c.
  - cbn [for_range_from alloc_n]. destruct (alloc h) as [obj h1].
    rewrite send_room by lia. cbn [mbind outcome_bind]. rewrite IH.
    + destruct (alloc_n alloc n h1) as [objs h2]. simpl. by rewrite <- app_assoc.
    + simpl. rewrite length_app. simpl. lia.
Qed.

Lemma chan_New (c : Z) (alloc : Allocator) (clean : Cleaner) (h : heap) :
  0 <= c ->
  exists p,
    NewChannelBasedPool c alloc clean h = Ok (p, (alloc_n alloc (Z.to_nat c) h).2) /\
    ChannelBasedPool.wf p /\
    ChannelBasedPool.resident p = (alloc_n alloc (Z.to_nat c) h).1 /\
    ChannelBasedPool.capacity p = c /\
    ChannelBasedPool.allocator p = alloc /\ ChannelBasedPool.cleaner p = clean.
Proof.
  intros Hc0. eexists. unfold NewChannelBasedPool, make_chan, for_range.
  destruct (Z.ltb_spec c 0); [lia|]. simpl.
  rewrite chan_fill by (simpl; lia). simpl.
  split; [done|].
  unfold ChannelBasedPool.wf, ChannelBasedPool.resident, ChannelBasedPool.capacity.
  simpl. rewrite alloc_n_length. repeat split; (done || lia).
Qed.

End ChannelBasedPoolFacts.

(** ** Atomic-index pool *)

Module AtomicBasedPoolFacts.
Import AtomicBasedPool.

Lemma abp_CAS_same (p : t) (new : Z) :
  CompareAndSwap p (index p) new = (true, with_index p new).
Proof. unfold CompareAndSwap. by rewrite Z.eqb_refl. Qed.

Lemma abp_Get_loop_fuel (n : nat) (p : t) (h : heap) :
  Get_loop (S n) p h = Get p h.
Proof. unfold Get. cbn [Get_loop]. unfold Load. by rewrite abp_CAS_same. Qed.

Lemma abp_Put_loop_fuel (n : nat) (p : t) (obj : ptr) :
  Put_loop (S n) p obj = Put p obj.
Proof. unfold Put. cbn [Put_loop]. unfold Load. by rewrite abp_CAS_same. Qed.

Lemma abp_Get_alloc (p : t) (h : heap) :
  index p <= 0 -> Get p h = Ok ((allocator p h).1, p, (allocator p h).2).
Proof.
  intros Hidx. unfold Get, Get_loop, Load.
  destruct (Z.leb_spec (index p) 0); [|lia]. by destruct (allocator p h).
Qed.

Lemma abp_Get_slot (p : t) (h : heap) :
  wf p -> 0 < index p ->
  exists obj,
    objects p !! Z.to_nat (index p - 1) = Some obj /\
    Get p h = Ok (obj, with_index p (index p - 1), h).
Proof.
  intros (Hlen & Hidx & Hmax) Hpos. pose proof int_min_neg.
  destruct (lookup_lt_is_Some_2 (objects p) (Z.to_nat (index p - 1))) as [obj Hobj];
    [lia|].
  exists obj. split; [done|].
  unfold Get, Get_loop, Load. destruct (Z.leb_spec (index p) 0); [lia|].
  rewrite abp_CAS_same. rewrite int_sub_small by (unfold is_int; lia).
  assert (index_slice (objects (with_index p (index p - 1))) (index p - 1) = Ok obj)
    as -> by (apply index_slice_Ok; split; [lia|done]).
  done.
Qed.

Lemma abp_Put_drop (p : t) (obj : ptr) : capacity p <= index p -> Put p obj = Ok p.
Proof.
  intros Hfull. unfold Put, Put_loop, Load.
  by destruct (Z.geb_spec (index p) (capacity p)); [|lia].
Qed.

Lemma abp_Put_slot (p : t) (obj : ptr) :
  wf p -> index p < capacity p ->
  Put p obj =
    Ok (with_objects (with_index p (index p + 1))
          (<[Z.to_nat (index p) := obj]> (objects p))).
Proof.
  intros (Hlen & Hidx & Hmax) Hroom. pose proof int_min_neg.
  unfold Put, Put_loop, Load. destruct (Z.geb_spec (index p) (capacity p)); [lia|].
  rewrite abp_CAS_same. rewrite int_add_small by (unfold is_int; lia).
  cbn [objects with_index]. by rewrite store_slice_Ok by lia.
Qed.

Lemma abp_resident_length (p : t) :
  wf p -> Z.of_nat (length (resident p)) = index p.
Proof.
  intros (Hlen & Hidx & Hmax). unfold resident. rewrite length_take. lia.
Qed.

Lemma abp_Get_next (p : t) (h : heap) (x : ptr) (l : list ptr) :
  wf p -> resident p = l ++ [x] ->
  exists p',
    Get p h = Ok (x, p', h) /\ wf p' /\ resident p' = l /\
    capacity p' = capacity p /\ allocator p' = allocator p.
Proof.
  intros Hwf Hres. pose proof (abp_resident_length p Hwf) as Hrl.
  rewrite Hres, length_app in Hrl. simpl in Hrl.
  destruct (abp_Get_slot p h Hwf ltac:(lia)) as (obj & Hobj & Hget).
  assert (obj = x) as ->.
  { unfold resident in Hres.
    assert (take (Z.to_nat (index p)) (objects p) !! Z.to_nat (index p - 1) = Some obj)
      as Htk by (rewrite lookup_take_lt by lia; done).
    rewrite Hres in Htk.
    replace (Z.to_nat (index p - 1)) with (length l) in Htk by lia.
    rewrite list_lookup_middle in Htk by done. by injection Htk. }
  eexists. split; [exact Hget|].
  destruct Hwf as (Hlen & Hidx & Hmax).
  split; [unfold wf; simpl; lia|]. split; [|done].
  unfold resident in *. simpl.
  replace (Z.to_nat (index p - 1)) with (length l) by lia.
  transitivity (take (length l) (take (Z.to_nat (index p)) (objects p))).
  - rewrite take_take. f_equal. lia.
  - rewrite Hres. apply take_app_length.
Qed.

Lemma abp_Get_empty (p : t) (h : heap) :
  wf p -> resident p = [] ->
  Get p h = Ok ((allocator p h).1, p, (allocator p h).2).
Proof.
  intros Hwf Hres. pose proof (abp_resident_length p Hwf) as Hrl.
  rewrite Hres in Hrl. apply abp_Get_alloc. simpl in Hrl. lia.
Qed.

Lemma abp_Put_room (p : t) (x : ptr) :
  wf p -> Z.of_nat (length (resident p)) < capacity p ->
  exists p',
    Put p x = Ok p' /\ wf p' /\ resident p' = resident p ++ [x] /\
    capacity p' = capacity p /\ allocator p' = allocator p.
Proof.
  intros Hwf Hroom. rewrite abp_resident_length in Hroom by done.
  eexists. split; [by apply abp_Put_slot|].
  destruct Hwf as (Hlen & Hidx & Hmax).
  split; [unfold wf; simpl; rewrite length_insert; lia|]. split; [|done].
  unfold resident. simpl.
  replace (Z.to_nat (index p + 1)) with (S (Z.to_nat (index p))) by lia.
  rewrite (take_S_r _ _ x) by (apply list_lookup_insert_eq; lia).
  by rewrite take_insert_ge.
Qed.

Lemma abp_Put_full (p : t) (x : ptr) :
  wf p -> capacity p <= Z.of_nat (length (resident p)) -> Put p x = Ok p.
Proof.
  intros Hwf Hfull. rewrite abp_resident_length in Hfull by done.
  by apply abp_Put_drop.
Qed.

Lemma abp_get_next_rev (p : t) (h : heap) (x : ptr) (l : list ptr) :
  wf p -> rev (resident p) = x :: l ->
  exists p',
    Get p h = Ok (x, p', h) /\ wf p' /\ rev (resident p') = l /\
    capacity p' = capacity p /\ allocator p' = allocator p.
Proof.
  intros Hwf Hrev. apply (f_equal (@rev ptr)) in Hrev.
  rewrite rev_involutive in Hrev. simpl in Hrev.
  destruct (abp_Get_next p h x (rev l) Hwf Hrev) as (p' & ? & ? & Hres & ? & ?).
  exists p'. rewrite Hres, rev_involutive. done.
Qed.

Lemma abp_get_empty_rev (p : t) (h : heap) :
  wf p -> rev (resident p) = [] ->
  Get p h = Ok ((allocator p h).1, p, (allocator p h).2).
Proof.
  intros Hwf Hrev. apply abp_Get_empty; [done|].
  destruct (resident p) as [|y l]; [done|].
  simpl in Hrev. by destruct (rev l).
Qed.

Lemma abp_put_room_length (p : t) (x : ptr) (h : heap) :
  wf p -> Z.of_nat (length (rev (resident p))) < capacity p ->
  exists p',
    put_pure Put p x h = Ok (p', h) /\ wf p' /\
    length (rev (resident p')) = S (length (rev (resident p))) /\
    capacity p' = capacity p /\ allocator p' = allocator p.
Proof.
  intros Hwf Hroom. rewrite length_rev in Hroom.
  destruct (abp_Put_room p x Hwf Hroom) as (p' & Hput & Hwf' & Hres & Hcap & Hal).
  exists p'. unfold put_pure. rewrite Hput. simpl.
  rewrite !length_rev, Hres, length_app. simpl.
  split; [done|]. split; [done|]. split; [lia|done].
Qed.

Lemma abp_put_full_pure (p : t) (x : ptr) (h : heap) :
  wf p -> capacity p <= Z.of_nat (length (rev (resident p))) ->
  put_pure Put p x h = Ok (p, h).
Proof.
  intros Hwf Hfull. rewrite length_rev in Hfull.
  unfold put_pure. by rewrite abp_Put_full.
Qed.

(** The pre-population loop fills the slots in order. *)
Lemma abp_fill (alloc : Allocator) (n k : nat) (objs : list ptr) (h : heap) :
  (k + n <= length objs)%nat ->
  for_range_from (Z.of_nat k) n
    (fun i (st : list ptr * heap) =>
       let '(objs, h) := st in
       let '(obj, h') := alloc h in
       objs' ← store_slice objs i obj;
       Ok (objs', h'))
    (objs, h)
  = Ok (take k objs ++ (alloc_n alloc n h).1 ++ drop (k + n) objs,
        (alloc_n alloc n h).2).
Proof.
  revert k objs h. induction n as [|n IH]; intros k objs h Hlen.
  - simpl. by rewrite Nat.add_0_r, take_drop.
  - cbn [for_range_from alloc_n]. destruct (alloc h) as [obj h1].
    rewrite store_slice_Ok by lia. cbn [mbind outcome_bind].
    replace (Z.of_nat k + 1) with (Z.of_nat (S k)) by lia.
    rewrite Nat2Z.id, IH by (rewrite length_insert; lia).
    destruct (alloc_n alloc n h1) as [objs' h2]. simpl. f_equal. f_equal.
    rewrite (take_S_r _ _ obj) by (apply list_lookup_insert_eq; lia).
    rewrite take_insert_ge by lia. rewrite drop_insert_lt by lia.
    rewrite <- app_assoc. simpl.
    by replace (k + S n)%nat with (S (k + n)) by lia.
Qed.

Lemma abp_New (c : Z) (alloc : Allocator) (clean : Cleaner) (h : heap) :
  0 <= c <= int_max ->
  exists p,
    NewAtomicBasedPool c alloc clean h = Ok (p, (alloc_n alloc (Z.to_nat c) h).2) /\
    wf p /\ resident p = (alloc_n alloc (Z.to_nat c) h).1 /\
    capacity p = c /\ allocator p = alloc /\ cleaner p = clean /\ index p = c.
Proof.
  intros [Hc0 Hcmax]. eexists. unfold NewAtomicBasedPool, for_range.
  rewrite make_slice_Ok by done. cbn [mbind outcome_bind].
  rewrite (abp_fill alloc (Z.to_nat c) 0) by (rewrite length_replicate; lia).
  cbn [mbind outcome_bind]. split; [done|].
  pose proof (alloc_n_length alloc (Z.to_nat c) h) as Hal.
  rewrite drop_ge by (rewrite length_replicate; lia).
  rewrite take_0, app_nil_r. simpl.
  unfold wf, resident. simpl. rewrite Hal.
  split; [lia|]. split; [|done].
  apply take_ge. lia.
Qed.

(** *** Interleaved execution *)

Lemma abp_pc_ok_cap (p p' : t) (th : pc) :
  capacity p' = capacity p -> pc_ok p th -> pc_ok p' th.
Proof. intros Hc. destruct th; simpl; by rewrite ?Hc. Qed.

Lemma abp_step_ok (th : pc) (p : t) (h : heap) :
  wf p -> pc_ok p th ->
  wf (step th p h).1.2 /\ pc_ok (step th p h).1.2 (step th p h).1.1 /\
  capacity (step th p h).1.2 = capacity p.
Proof.
  intros (Hlen & Hidx & Hmax) Hth. pose proof int_min_neg.
  destruct th as [|idx|idx|obj|obj idx|obj idx|obj| |]; cbn [step pc_ok] in *.
  - unfold Load. destruct (Z.leb_spec (index p) 0).
    + destruct (allocator p h). unfold wf. simpl. repeat split; (done || lia).
    + unfold wf. simpl. repeat split; (done || lia).
  - unfold CompareAndSwap. destruct (Z.eqb_spec (index p) idx) as [Heq|_].
    + rewrite int_sub_small by (unfold is_int; lia).
      unfold wf. simpl. repeat split; (done || lia).
    + unfold wf. simpl. repeat split; (done || lia).
  - rewrite int_sub_small by (unfold is_int; lia).
    destruct (index_slice_in (objects p) (idx - 1) ltac:(lia)) as (x & _ & ->).
    unfold wf. simpl. repeat split; (done || lia).
  - unfold Load. destruct (Z.geb_spec (index p) (capacity p)).
    + unfold wf. simpl. repeat split; (done || lia).
    + unfold wf. simpl. repeat split; (done || lia).
  - unfold CompareAndSwap. destruct (Z.eqb_spec (index p) idx) as [Heq|_].
    + rewrite int_add_small by (unfold is_int; lia).
      unfold wf. simpl. repeat split; (done || lia).
    + unfold wf. simpl. repeat split; (done || lia).
  - rewrite store_slice_Ok by lia. unfold wf. simpl. rewrite length_insert.
    repeat split; (done || lia).
  - unfold wf. simpl. repeat split; (done || lia).
  - unfold wf. simpl. repeat split; (done || lia).
  - done.
Qed.

Lemma abp_fire_ok (c : config) (e : event) :
  wf (pool c) -> Forall (pc_ok (pool c)) (threads c) ->
  wf (pool (fire c e)) /\ Forall (pc_ok (pool (fire c e))) (threads (fire c e)) /\
  capacity (pool (fire c e)) = capacity (pool c).
Proof.
  intros Hwf Hths. destruct e as [|obj|i]; cbn [fire].
  - simpl. split; [done|]. split; [|done].
    apply Forall_app. split; [done|]. by apply Forall_singleton.
  - simpl. split; [done|]. split; [|done].
    apply Forall_app. split; [done|]. by apply Forall_singleton.
  - destruct (threads c !! i) as [th|] eqn:Hth; [|done].
    pose proof (abp_step_ok th (pool c) (mem c) Hwf
                  (proj1 (Forall_lookup _ _) Hths i th Hth)) as (Hwf' & Hpc' & Hcap').
    destruct (step th (pool c) (mem c)) as [[th' p'] h']. simpl in *.
    split; [done|]. split; [|done].
    apply Forall_insert; [|done].
    eapply Forall_impl; [exact Hths|]. intros th0. by apply abp_pc_ok_cap.
Qed.

Lemma abp_interleave_ok (es : list event) (c : config) :
  wf (pool c) -> Forall (pc_ok (pool c)) (threads c) ->
  wf (pool (interleave es c)) /\
  Forall (pc_ok (pool (interleave es c))) (threads (interleave es c)) /\
  capacity (pool (interleave es c)) = capacity (pool c).
Proof.
  revert c. induction es as [|e es IH]; intros c Hwf Hths; [done|].
  destruct (abp_fire_ok c e Hwf Hths) as (Hwf1 & Hths1 & Hcap1).
  destruct (IH (fire c e) Hwf1 Hths1) as (Hwf' & Hths' & Hcap').
  unfold interleave in *. simpl. split; [done|]. split; [done|]. congruence.
Qed.

Lemma abp_solo_done (fuel : nat) (th : pc) (p : t) (h : heap) :
  step th p h = (th, p, h) -> solo fuel th p h = (th, p, h).
Proof. intros Hst. induction fuel as [|fuel IH]; [done|]. simpl. by rewrite Hst. Qed.

Lemma abp_solo_Get (fuel : nat) (p : t) (h : heap) :
  wf p ->
  exists x p' h',
    Get p h = Ok (x, p', h') /\ solo (3 + fuel) GetLoad p h = (GetDone x, p', h').
Proof.
  intros Hwf. destruct (Z.le_gt_cases (index p) 0) as [Hemp|Hpos].
  - rewrite abp_Get_alloc by done. eexists _, _, _. split; [done|].
    cbn [solo Nat.add step]. unfold Load.
    destruct (Z.leb_spec (index p) 0); [|lia].
    destruct (allocator p h). simpl. by rewrite abp_solo_done.
  - destruct (abp_Get_slot p h Hwf ltac:(lia)) as (x & Hx & ->).
    eexists _, _, _. split; [done|].
    destruct Hwf as (Hlen & Hidx & Hmax). pose proof int_min_neg.
    cbn [solo Nat.add step]. unfold Load.
    destruct (Z.leb_spec (index p) 0); [lia|]. cbn [step].
    rewrite abp_CAS_same. cbn [step].
    rewrite int_sub_small by (unfold is_int; lia).
    assert (index_slice (objects (with_index p (index p - 1))) (index p - 1) = Ok x)
      as -> by (apply index_slice_Ok; split; [lia|done]).
    by rewrite abp_solo_done.
Qed.

Lemma abp_solo_Put (fuel : nat) (p : t) (obj : ptr) (h : heap) :
  wf p ->
  exists p',
    Put p obj = Ok p' /\ solo (3 + fuel) (PutLoad obj) p h = (PutDone, p', h).
Proof.
  intros Hwf. destruct (Z.le_gt_cases (capacity p) (index p)) as [Hfull|Hroom].
  - rewrite abp_Put_drop by done. eexists. split; [done|].
    cbn [solo Nat.add step]. unfold Load.
    destruct (Z.geb_spec (index p) (capacity p)); [|lia].
    cbn [step]. by rewrite abp_solo_done.
  - rewrite abp_Put_slot by (done || lia). eexists. split; [done|].
    destruct Hwf as (Hlen & Hidx & Hmax). pose proof int_min_neg.
    cbn [solo Nat.add step]. unfold Load.
    destruct (Z.geb_spec (index p) (capacity p)); [lia|]. cbn [step].
    rewrite abp_CAS_same. cbn [step].
    rewrite int_add_small by (unfold is_int; lia).
    cbn [objects with_index]. rewrite store_slice_Ok by lia.
    by rewrite abp_solo_done.
Qed.

(** *** One atomic operation at a time

    What each atomic operation of [Get] and [Put] does to the pool,
    whichever goroutines ran before it. A compare-and-swap that finds the
    index changed since the load leaves everything as it is and sends the
    goroutine back to its load: the [for] loop of the method. *)

Lemma abp_GetLoad_alloc (p : t) (h : heap) :
  index p <= 0 ->
  step GetLoad p h = (GetDone (allocator p h).1, p, (allocator p h).2).
Proof.
  intros Hemp. unfold step, Load. destruct (Z.leb_spec (index p) 0); [|lia].
  by destruct (allocator p h).
Qed.

Lemma abp_GetLoad_cas (p : t) (h : heap) :
  0 < index p -> step GetLoad p h = (GetCAS (index p), p, h).
Proof.
  intros Hpos. unfold step, Load. by destruct (Z.leb_spec (index p) 0); [lia|].
Qed.

Lemma abp_GetCAS_won (p : t) (idx : Z) (h : heap) :
  index p = idx -> is_int (idx - 1) ->
  step (GetCAS idx) p h = (GetSlot idx, with_index p (idx - 1), h).
Proof.
  intros <- Hint. unfold step. by rewrite abp_CAS_same, int_sub_small.
Qed.

Lemma abp_GetCAS_lost (p : t) (idx : Z) (h : heap) :
  index p <> idx -> step (GetCAS idx) p h = (GetLoad, p, h).
Proof.
  intros Hne. unfold step, CompareAndSwap. by destruct (Z.eqb_spec (index p) idx).
Qed.

Lemma abp_GetSlot_read (p : t) (idx : Z) (x : ptr) (h : heap) :
  0 < idx -> is_int (idx - 1) -> objects p !! Z.to_nat (idx - 1) = Some x ->
  step (GetSlot idx) p h = (GetDone x, p, h).
Proof.
  intros Hpos Hint Hx. unfold step. rewrite int_sub_small by done.
  assert (0 <= idx - 1) as Hge by lia.
  by rewrite (proj2 (index_slice_Ok _ _ _) (conj Hge Hx)).
Qed.

Lemma abp_PutLoad_drop (p : t) (o : ptr) (h : heap) :
  capacity p <= index p -> step (PutLoad o) p h = (PutDone, p, h).
Proof.
  intros Hfull. unfold step, Load.
  by destruct (Z.geb_spec (index p) (capacity p)); [|lia].
Qed.

Lemma abp_PutLoad_cas (p : t) (o : ptr) (h : heap) :
  index p < capacity p -> step (PutLoad o) p h = (PutCAS o (index p), p, h).
Proof.
  intros Hroom. unfold step, Load.
  by destruct (Z.geb_spec (index p) (capacity p)); [lia|].
Qed.

Lemma abp_PutCAS_won (p : t) (o : ptr) (idx : Z) (h : heap) :
  index p = idx -> is_int (idx + 1) ->
  step (PutCAS o idx) p h = (PutSlot o idx, with_index p (idx + 1), h).
Proof.
  intros <- Hint. unfold step. by rewrite abp_CAS_same, int_add_small.
Qed.

Lemma abp_PutCAS_lost (p : t) (o : ptr) (idx : Z) (h : heap) :
  index p <> idx -> step (PutCAS o idx) p h = (PutLoad o, p, h).
Proof.
  intros Hne. unfold step, CompareAndSwap. by destruct (Z.eqb_spec (index p) idx).
Qed.

Lemma abp_PutSlot_write (p : t) (o : ptr) (idx : Z) (h : heap) :
  0 <= idx < Z.of_nat (length (objects p)) ->
  step (PutSlot o idx) p h
    = (PutDone, with_objects p (<[Z.to_nat idx := o]> (objects p)), h).
Proof. intros Hidx. unfold step. by rewrite store_slice_Ok. Qed.

Lemma abp_GetDone_stays (x : ptr) (p : t) (h : heap) :
  step (GetDone x) p h = (GetDone x, p, h).
Proof. done. Qed.

Lemma abp_PutDone_stays (p : t) (h : heap) : step PutDone p h = (PutDone, p, h).
Proof. done. Qed.

(** A goroutine that is left alone finishes its call within four of its
    own operations: at worst a lost compare-and-swap, then a load, a
    compare-and-swap that succeeds and the slot access. *)
Lemma abp_solo_finishes (th : pc) (p : t) (h : heap) :
  wf p -> pc_ok p th ->
  exists th' p' h',
    solo 4 th p h = (th', p', h') /\ wf p' /\
    (th' = PutDone \/ exists x, th' = GetDone x).
Proof.
  intros Hwf Hth. pose proof Hwf as (Hlen & Hidx & Hmax).
  pose proof int_min_neg as Hmin.
  assert (forall q hq, wf q ->
            exists th' q' h', solo 3 GetLoad q hq = (th', q', h') /\ wf q' /\
                              (th' = PutDone \/ exists x, th' = GetDone x)) as Hget.
  { intros q hq Hq. destruct (abp_solo_Get 0 q hq Hq) as (x & q' & h' & HG & Hsolo).
    exists (GetDone x), q', h'. split; [exact Hsolo|]. split; [|right; by exists x].
    destruct (Z.le_gt_cases (index q) 0) as [Hemp|Hpos].
    - rewrite abp_Get_alloc in HG by done. by injection HG as _ <- _.
    - destruct (abp_Get_slot q hq Hq ltac:(lia)) as (y & _ & HG').
      rewrite HG' in HG. injection HG as _ <- _.
      destruct Hq as (? & ? & ?). unfold wf. simpl. lia. }
  assert (forall o q hq, wf q ->
            exists th' q' h', solo 3 (PutLoad o) q hq = (th', q', h') /\ wf q' /\
                              (th' = PutDone \/ exists x, th' = GetDone x)) as Hput.
  { intros o q hq Hq. destruct (abp_solo_Put 0 q o hq Hq) as (q' & HP & Hsolo).
    exists PutDone, q', hq. split; [exact Hsolo|]. split; [|by left].
    destruct (Z.le_gt_cases (capacity q) (index q)) as [Hfull|Hroom].
    - rewrite abp_Put_drop in HP by done. by injection HP as <-.
    - rewrite abp_Put_slot in HP by (done || lia). injection HP as <-.
      destruct Hq as (? & ? & ?). unfold wf. simpl. rewrite length_insert. lia. }
  destruct th as [|idx|idx|o|o idx|o idx|x| |]; cbn [pc_ok] in Hth.
  - destruct (Hget p h Hwf) as (th' & p' & h' & Hs & Hw & Hd).
    exists th', p', h'. split; [|by split].
    change (solo 4 GetLoad p h) with
      (let '(th1, p1, h1) := step GetLoad p h in solo 3 th1 p1 h1).
    change (solo 3 GetLoad p h) with
      (let '(th1, p1, h1) := step GetLoad p h in solo 2 th1 p1 h1) in Hs.
    destruct (step GetLoad p h) as [[th1 p1] h1] eqn:Hst.
    destruct (Z.le_gt_cases (index p) 0) as [Hemp|Hpos].
    + rewrite abp_GetLoad_alloc in Hst by done. injection Hst as <- <- <-.
      rewrite abp_solo_done in Hs by done. by rewrite abp_solo_done.
    + rewrite abp_GetLoad_cas in Hst by done. injection Hst as <- <- <-.
      cbn [solo] in Hs |- *.
      rewrite abp_GetCAS_won in Hs |- * by (done || unfold is_int; lia).
      destruct (index_slice_in (objects p) (index p - 1) ltac:(lia)) as (y & Hy & _).
      rewrite (abp_GetSlot_read _ (index p) y) in Hs |- *
        by (done || lia || unfold is_int; lia).
      done.
  - destruct (Z.eq_dec (index p) idx) as [Heq|Hne].
    + destruct (index_slice_in (objects p) (idx - 1) ltac:(lia)) as (y & Hy & _).
      eexists _, _, _. cbn [solo].
      rewrite abp_GetCAS_won by (done || unfold is_int; lia).
      rewrite (abp_GetSlot_read _ idx y) by (done || lia || unfold is_int; lia).
      split; [done|]. split; [|right; by eexists].
      unfold wf. simpl. lia.
    + destruct (Hget p h Hwf) as (th' & p' & h' & Hs & Hw & Hd).
      exists th', p', h'. split; [|by split].
      change (solo 4 (GetCAS idx) p h) with
        (let '(th1, p1, h1) := step (GetCAS idx) p h in solo 3 th1 p1 h1).
      by rewrite abp_GetCAS_lost.
  - destruct (index_slice_in (objects p) (idx - 1) ltac:(lia)) as (y & Hy & _).
    eexists _, _, _. cbn [solo].
    rewrite (abp_GetSlot_read _ idx y) by (done || lia || unfold is_int; lia).
    split; [done|]. split; [done|]. right. by eexists.
  - destruct (Hput o p h Hwf) as (th' & p' & h' & Hs & Hw & Hd).
    exists th', p', h'. split; [|by split].
    change (solo 4 (PutLoad o) p h) with
      (let '(th1, p1, h1) := step (PutLoad o) p h in solo 3 th1 p1 h1).
    change (solo 3 (PutLoad o) p h) with
      (let '(th1, p1, h1) := step (PutLoad o) p h in solo 2 th1 p1 h1) in Hs.
    destruct (step (PutLoad o) p h) as [[th1 p1] h1] eqn:Hst.
    destruct (Z.le_gt_cases (capacity p) (index p)) as [Hfull|Hroom].
    + rewrite abp_PutLoad_drop in Hst by done. injection Hst as <- <- <-.
      rewrite abp_solo_done in Hs by done. by rewrite abp_solo_done.
    + rewrite abp_PutLoad_cas in Hst by done. injection Hst as <- <- <-.
      cbn [solo] in Hs |- *.
      rewrite abp_PutCAS_won in Hs |- * by (done || unfold is_int; lia).
      rewrite abp_PutSlot_write in Hs |- * by (simpl; lia).
      done.
  - destruct (Z.eq_dec (index p) idx) as [Heq|Hne].
    + eexists _, _, _. cbn [solo].
      rewrite abp_PutCAS_won by (done || unfold is_int; lia).
      rewrite abp_PutSlot_write by (simpl; lia).
      split; [done|]. split; [|by left].
      unfold wf. simpl. rewrite length_insert. lia.
    + destruct (Hput o p h Hwf) as (th' & p' & h' & Hs & Hw & Hd).
      exists th', p', h'. split; [|by split].
      change (solo 4 (PutCAS o idx) p h) with
        (let '(th1, p1, h1) := step (PutCAS o idx) p h in solo 3 th1 p1 h1).
      by rewrite abp_PutCAS_lost.
  - eexists _, _, _. cbn [solo]. rewrite abp_PutSlot_write by lia.
    split; [done|]. split; [|by left].
    unfold wf. simpl. rewrite length_insert. lia.
  - exists (GetDone x), p, h. split; [by apply abp_solo_done|]. split; [done|].
    right. by eexists.
  - exists PutDone, p, h. split; [by apply abp_solo_done|]. split; [done|]. by left.
  - done.
Qed.

(** No operation replaces the allocator the pool was built with. *)
Lemma abp_step_allocator (th : pc) (p : t) (h : heap) :
  allocator (step th p h).1.2 = allocator p.
Proof.
  destruct th as [|idx|idx|o|o idx|o idx|x| |]; cbn [step]; try done.
  - unfold Load. destruct (index p <=? 0); [|done]. by destruct (allocator p h).
  - unfold CompareAndSwap. by destruct (index p =? idx).
  - by destruct (index_slice (objects p) (int_sub idx 1)).
  - unfold Load. by destruct (index p >=? capacity p).
  - unfold CompareAndSwap. by destruct (index p =? idx).
  - by destruct (store_slice (objects p) idx o).
Qed.

Lemma abp_interleave_allocator (es : list event) (c : config) :
  allocator (pool (interleave es c)) = allocator (pool c).
Proof.
  revert c. induction es as [|e es IH]; intros c; [done|].
  unfold interleave in *. cbn [fold_left]. rewrite IH.
  destruct e as [|o|i]; cbn [fire]; try done.
  destruct (threads c !! i) as [th|]; [|done].
  pose proof (abp_step_allocator th (pool c) (mem c)) as Hst.
  by destruct (step th (pool c) (mem c)) as [[th' p'] h'].
Qed.

(** Two goroutines that load the same index: the compare-and-swap of the
    second is lost, and its loop starts over with the index the first one
    left. *)
Lemma abp_two_gets (p : t) (h : heap) :
  wf p -> 0 < index p ->
  exists x cfg,
    objects p !! Z.to_nat (index p - 1) = Some x /\
    interleave [CallGet; CallGet; Sched 0; Sched 1; Sched 0; Sched 1;
                Sched 1; Sched 1; Sched 1; Sched 0]
      {| pool := p; mem := h; threads := [] |} = cfg /\
    index (pool cfg) = Z.max (index p - 2) 0 /\
    objects (pool cfg) = objects p /\
    (1 < index p ->
     exists y,
       objects p !! Z.to_nat (index p - 2) = Some y /\
       threads cfg = [GetDone x; GetDone y] /\ mem cfg = h) /\
    (index p = 1 ->
     threads cfg = [GetDone x; GetDone (allocator p h).1] /\
     mem cfg = (allocator p h).2).
Proof.
  intros Hwf Hpos. pose proof Hwf as (Hlen & Hidx & Hmax).
  pose proof int_min_neg as Hmin.
  destruct (index_slice_in (objects p) (index p - 1) ltac:(lia)) as (x & Hx & _).
  exists x. eexists. split; [exact Hx|]. split; [reflexivity|].
  unfold interleave.
  cbn [fold_left fire threads pool mem app lookup list_lookup].
  rewrite abp_GetLoad_cas by done.
  cbn [threads pool mem insert list_insert lookup list_lookup].
  rewrite abp_GetLoad_cas by done.
  cbn [threads pool mem insert list_insert lookup list_lookup].
  rewrite abp_GetCAS_won by (done || unfold is_int; lia).
  cbn [threads pool mem insert list_insert lookup list_lookup].
  set (p1 := with_index p (index p - 1)).
  assert (index p1 = index p - 1) as Hi1 by done.
  rewrite (abp_GetCAS_lost p1) by lia.
  cbn [threads pool mem insert list_insert lookup list_lookup].
  destruct (Z.le_gt_cases (index p) 1) as [Hone|Hmore].
  - rewrite (abp_GetLoad_alloc p1) by lia.
    cbn [threads pool mem insert list_insert lookup list_lookup].
    rewrite abp_GetDone_stays.
    cbn [threads pool mem insert list_insert lookup list_lookup].
    rewrite abp_GetDone_stays.
    cbn [threads pool mem insert list_insert lookup list_lookup].
    rewrite (abp_GetSlot_read p1 (index p) x) by (done || unfold is_int; lia).
    cbn [threads pool mem insert list_insert lookup list_lookup].
    split; [rewrite Hi1; lia|]. split; [done|]. split; [lia|]. by intros _.
  - rewrite (abp_GetLoad_cas p1) by lia.
    cbn [threads pool mem insert list_insert lookup list_lookup].
    rewrite (abp_GetCAS_won p1) by (done || rewrite Hi1; unfold is_int; lia).
    cbn [threads pool mem insert list_insert lookup list_lookup].
    set (p2 := with_index p1 (index p1 - 1)).
    destruct (index_slice_in (objects p) (index p - 2) ltac:(lia)) as (y & Hy & _).
    rewrite (abp_GetSlot_read p2 (index p1) y);
      [|lia|rewrite Hi1; unfold is_int; lia
       |rewrite Hi1; by replace (index p - 1 - 1) with (index p - 2) by lia].
    cbn [threads pool mem insert list_insert lookup list_lookup].
    rewrite (abp_GetSlot_read p2 (index p) x) by (done || unfold is_int; lia).
    cbn [threads pool mem insert list_insert lookup list_lookup].
    split; [simpl; lia|]. split; [done|]. split; [|lia].
    intros _. by exists y.
Qed.

Lemma abp_two_puts (p : t) (o1 o2 : ptr) (h : heap) :
  wf p -> index p < capacity p ->
  exists cfg,
    interleave [CallPut o1; CallPut o2; Sched 0; Sched 1; Sched 0; Sched 1;
                Sched 1; Sched 1; Sched 1; Sched 0]
      {| pool := p; mem := h; threads := [] |} = cfg /\
    threads cfg = [PutDone; PutDone] /\ mem cfg = h /\
    index (pool cfg) = Z.min (index p + 2) (capacity p) /\
    (index p + 1 < capacity p ->
     objects (pool cfg)
       = <[Z.to_nat (index p) := o1]> (<[Z.to_nat (index p + 1) := o2]> (objects p))) /\
    (index p + 1 = capacity p ->
     objects (pool cfg) = <[Z.to_nat (index p) := o1]> (objects p)).
Proof.
  intros Hwf Hroom. pose proof Hwf as (Hlen & Hidx & Hmax).
  pose proof int_min_neg as Hmin.
  eexists. split; [reflexivity|].
  unfold interleave.
  cbn [fold_left fire threads pool mem app lookup list_lookup].
  rewrite abp_PutLoad_cas by done.
  cbn [threads pool mem insert list_insert lookup list_lookup].
  rewrite abp_PutLoad_cas by done.
  cbn [threads pool mem insert list_insert lookup list_lookup].
  rewrite abp_PutCAS_won by (done || unfold is_int; lia).
  cbn [threads pool mem insert list_insert lookup list_lookup].
  set (p1 := with_index p (index p + 1)).
  assert (index p1 = index p + 1) as Hi1 by done.
  rewrite (abp_PutCAS_lost p1) by lia.
  cbn [threads pool mem insert list_insert lookup list_lookup].
  destruct (Z.le_gt_cases (capacity p) (index p + 1)) as [Hlast|Hmore].
  - rewrite (abp_PutLoad_drop p1) by (simpl; lia).
    cbn [threads pool mem insert list_insert lookup list_lookup].
    rewrite abp_PutDone_stays.
    cbn [threads pool mem insert list_insert lookup list_lookup].
    rewrite abp_PutDone_stays.
    cbn [threads pool mem insert list_insert lookup list_lookup].
    rewrite (abp_PutSlot_write p1) by (simpl; lia).
    cbn [threads pool mem insert list_insert lookup list_lookup].
    split; [done|]. split; [done|]. split; [simpl; lia|]. split; [lia|]. by intros _.
  - rewrite (abp_PutLoad_cas p1) by (simpl; lia).
    cbn [threads pool mem insert list_insert lookup list_lookup].
    rewrite (abp_PutCAS_won p1) by (done || rewrite Hi1; unfold is_int; lia).
    cbn [threads pool mem insert list_insert lookup list_lookup].
    set (p2 := with_index p1 (index p1 + 1)).
    rewrite (abp_PutSlot_write p2) by (simpl; lia).
    cbn [threads pool mem insert list_insert lookup list_lookup].
    rewrite abp_PutSlot_write by (simpl; rewrite length_insert; lia).
    cbn [threads pool mem insert list_insert lookup list_lookup].
    split; [done|]. split; [done|]. split; [simpl; lia|]. split; [|lia].
    intros _. cbn [objects with_objects]. by rewrite Hi1.
Qed.

(** C5. The atomic pool's fill index stays in [[0, capacity]] under every
    interleaving of [Get] and [Put] calls by any number of goroutines, and no
    slot access is out of range. In every state such an interleaving
    reaches, each goroutine's next atomic operation is the one the loops
    prescribe. [Get]: the load returns from the call with the allocator's
    object when the index is [<= 0] and otherwise goes on to the
    compare-and-swap with the value loaded; a compare-and-swap that still
    finds that value decrements the index and goes on to read the slot at
    the decremented index, which the call returns, while one that finds the
    index changed by another goroutine touches nothing and starts the loop
    over at the load. [Put]: the load returns, dropping the object, when
    the index is [>= capacity]; a compare-and-swap that succeeds increments
    the index and goes on to store the object at the index loaded, one
    that is lost starts over. A goroutine left alone finishes within four
    operations of its own, from the load within three, with the result of
    the sequential [Get] and [Put]. Last, two goroutines that load the same
    index: the second loses its compare-and-swap, loads again and takes
    the slot below (or allocates, when the first took the last object);
    for [Put], it stores in the slot above (or drops its object, when the
    first filled the pool). *)
Theorem abp_fill_index (c : Z) (alloc : Allocator) (clean : Cleaner) (h : heap)
    (es : list event) (p : t) (hp : heap) (obj obj2 : ptr) (fuel : nat) :
  0 <= c <= int_max -> wf p ->
  (exists p0 h0,
      NewAtomicBasedPool c alloc clean h = Ok (p0, h0) /\
      let cfg := interleave es {| pool := p0; mem := h0; threads := [] |} in
      0 <= index (pool cfg) <= c /\ capacity (pool cfg) = c /\
      allocator (pool cfg) = alloc /\ (Crashed ∉ threads cfg) /\
      forall i th, threads cfg !! i = Some th ->
        match th with
        | GetLoad =>
            (index (pool cfg) <= 0 ->
             step GetLoad (pool cfg) (mem cfg)
               = (GetDone (allocator (pool cfg) (mem cfg)).1, pool cfg,
                  (allocator (pool cfg) (mem cfg)).2)) /\
            (0 < index (pool cfg) ->
             step GetLoad (pool cfg) (mem cfg)
               = (GetCAS (index (pool cfg)), pool cfg, mem cfg))
        | GetCAS idx =>
            0 < idx <= c /\
            (index (pool cfg) = idx ->
             step (GetCAS idx) (pool cfg) (mem cfg)
               = (GetSlot idx, with_index (pool cfg) (idx - 1), mem cfg)) /\
            (index (pool cfg) <> idx ->
             step (GetCAS idx) (pool cfg) (mem cfg) = (GetLoad, pool cfg, mem cfg))
        | GetSlot idx =>
            0 < idx <= c /\
            exists x,
              objects (pool cfg) !! Z.to_nat (idx - 1) = Some x /\
              step (GetSlot idx) (pool cfg) (mem cfg) = (GetDone x, pool cfg, mem cfg)
        | PutLoad o =>
            (c <= index (pool cfg) ->
             step (PutLoad o) (pool cfg) (mem cfg) = (PutDone, pool cfg, mem cfg)) /\
            (index (pool cfg) < c ->
             step (PutLoad o) (pool cfg) (mem cfg)
               = (PutCAS o (index (pool cfg)), pool cfg, mem cfg))
        | PutCAS o idx =>
            0 <= idx < c /\
            (index (pool cfg) = idx ->
             step (PutCAS o idx) (pool cfg) (mem cfg)
               = (PutSlot o idx, with_index (pool cfg) (idx + 1), mem cfg)) /\
            (index (pool cfg) <> idx ->
             step (PutCAS o idx) (pool cfg) (mem cfg) = (PutLoad o, pool cfg, mem cfg))
        | PutSlot o idx =>
            0 <= idx < c /\
            step (PutSlot o idx) (pool cfg) (mem cfg)
              = (PutDone,
                 with_objects (pool cfg) (<[Z.to_nat idx := o]> (objects (pool cfg))),
                 mem cfg)
        | GetDone _ | PutDone =>
            step th (pool cfg) (mem cfg) = (th, pool cfg, mem cfg)
        | Crashed => False
        end /\
        exists th' p' h',
          solo 4 th (pool cfg) (mem cfg) = (th', p', h') /\
          (th' = PutDone \/ exists x, th' = GetDone x)) /\
  (index p <= 0 ->
   Get_loop (S fuel) p hp = Ok ((allocator p hp).1, p, (allocator p hp).2)) /\
  (0 < index p ->
   exists x,
     objects p !! Z.to_nat (index p - 1) = Some x /\
     Get_loop (S fuel) p hp = Ok (x, with_index p (index p - 1), hp)) /\
  (capacity p <= index p -> Put_loop (S fuel) p obj = Ok p) /\
  (index p < capacity p ->
   Put_loop (S fuel) p obj =
     Ok (with_objects (with_index p (index p + 1))
           (<[Z.to_nat (index p) := obj]> (objects p)))) /\
  (exists x p' h',
      Get_loop (S fuel) p hp = Ok (x, p', h') /\
      solo (3 + fuel) GetLoad p hp = (GetDone x, p', h')) /\
  (exists p',
      Put_loop (S fuel) p obj = Ok p' /\
      solo (3 + fuel) (PutLoad obj) p hp = (PutDone, p', hp)) /\
  (0 < index p ->
   exists x cfg,
     objects p !! Z.to_nat (index p - 1) = Some x /\
     interleave [CallGet; CallGet; Sched 0; Sched 1; Sched 0; Sched 1;
                 Sched 1; Sched 1; Sched 1; Sched 0]
       {| pool := p; mem := hp; threads := [] |} = cfg /\
     index (pool cfg) = Z.max (index p - 2) 0 /\
     objects (pool cfg) = objects p /\
     (1 < index p ->
      exists y,
        objects p !! Z.to_nat (index p - 2) = Some y /\
        threads cfg = [GetDone x; GetDone y] /\ mem cfg = hp) /\
     (index p = 1 ->
      threads cfg = [GetDone x; GetDone (allocator p hp).1] /\
      mem cfg = (allocator p hp).2)) /\
  (index p < capacity p ->
   exists cfg,
     interleave [CallPut obj; CallPut obj2; Sched 0; Sched 1; Sched 0; Sched 1;
                 Sched 1; Sched 1; Sched 1; Sched 0]
       {| pool := p; mem := hp; threads := [] |} = cfg /\
     threads cfg = [PutDone; PutDone] /\ mem cfg = hp /\
     index (pool cfg) = Z.min (index p + 2) (capacity p) /\
     (index p + 1 < capacity p ->
      objects (pool cfg)
        = <[Z.to_nat (index p) := obj]>
            (<[Z.to_nat (index p + 1) := obj2]> (objects p))) /\
     (index p + 1 = capacity p ->
      objects (pool cfg) = <[Z.to_nat (index p) := obj]> (objects p))).
Proof.
  intros Hc Hwf. rewrite abp_Get_loop_fuel, abp_Put_loop_fuel.
  split; [|split; [|split; [|split; [|split; [|split; [|split; [|split]]]]]]].
  - destruct (abp_New c alloc clean h Hc) as (p0 & Hnew & Hwf0 & _ & Hcap0 & Hal0 & _).
    exists p0, (alloc_n alloc (Z.to_nat c) h).2. split; [done|]. intros cfg.
    destruct (abp_interleave_ok es {| pool := p0; mem := (alloc_n alloc (Z.to_nat c) h).2;
                                      threads := [] |} Hwf0 (Forall_nil_2 _))
      as (Hwf' & Hths & Hcap).
    fold cfg in Hwf', Hths, Hcap. cbn [pool] in Hcap. rewrite Hcap0 in Hcap.
    pose proof Hwf' as (Hlen & Hidx & Hmax). rewrite Hcap in Hlen, Hidx, Hmax.
    pose proof int_min_neg as Hmin.
    split; [done|]. split; [done|]. split.
    { unfold cfg. by rewrite abp_interleave_allocator. }
    split.
    { intros Hin. by apply (proj1 (Forall_forall _ _) Hths) in Hin. }
    intros i th Hth.
    pose proof (proj1 (Forall_lookup _ _) Hths i th Hth) as Hpc.
    split.
    + destruct th as [|idx|idx|o|o idx|o idx|x| |]; cbn [pc_ok] in Hpc;
        rewrite ?Hcap in Hpc.
      * split; [apply abp_GetLoad_alloc|apply abp_GetLoad_cas].
      * split; [done|]. split.
        -- intros Heq. apply abp_GetCAS_won; [done|unfold is_int; lia].
        -- apply abp_GetCAS_lost.
      * split; [done|].
        destruct (index_slice_in (objects (pool cfg)) (idx - 1) ltac:(lia))
          as (x & Hx & _).
        exists x. split; [done|].
        apply abp_GetSlot_read; [lia|unfold is_int; lia|done].
      * split.
        -- intros Hfull. apply abp_PutLoad_drop. by rewrite Hcap.
        -- intros Hroom. apply abp_PutLoad_cas. by rewrite Hcap.
      * split; [done|]. split.
        -- intros Heq. apply abp_PutCAS_won; [done|unfold is_int; lia].
        -- apply abp_PutCAS_lost.
      * split; [done|]. apply abp_PutSlot_write. lia.
      * done.
      * done.
      * done.
    + destruct (abp_solo_finishes th (pool cfg) (mem cfg) Hwf' Hpc)
        as (th' & p' & h' & Hsolo & _ & Hdone).
      by exists th', p', h'.
  - intros Hemp. by apply abp_Get_alloc.
  - intros Hpos. by apply abp_Get_slot.
  - intros Hfull. by apply abp_Put_drop.
  - intros Hroom. by apply abp_Put_slot.
  - by apply abp_solo_Get.
  - by apply abp_solo_Put.
  - intros Hpos. by apply abp_two_gets.
  - intros Hroom. by apply abp_two_puts.
Qed.

Lemma abp_fill_index_witness :
  let p := {| objects := [Some 0%nat; Some 1%nat]; index := 1; capacity := 2;
              allocator := testAllocator; cleaner := testCleaner |} in
  let hp := [ {| ID := 0; Data := "test"; shardIndex := -1 |};
              {| ID := 0; Data := "test"; shardIndex := -1 |} ] in
  let es := [CallGet; CallPut (Some 5%nat); CallGet; Sched 0; Sched 2; Sched 1;
             Sched 0; Sched 2; Sched 1; Sched 1; Sched 2; Sched 0] in
  let fuel := 0%nat in
  let obj := Some 0%nat in
  let obj2 := Some 1%nat in
  (exists p0 h0,
      NewAtomicBasedPool 2 testAllocator testCleaner [] = Ok (p0, h0) /\
      let cfg := interleave es {| pool := p0; mem := h0; threads := [] |} in
      0 <= index (pool cfg) <= 2 /\ capacity (pool cfg) = 2 /\
      allocator (pool cfg) = testAllocator /\ (Crashed ∉ threads cfg) /\
      forall i th, threads cfg !! i = Some th ->
        match th with
        | GetLoad =>
            (index (pool cfg) <= 0 ->
             step GetLoad (pool cfg) (mem cfg)
               = (GetDone (allocator (pool cfg) (mem cfg)).1, pool cfg,
                  (allocator (pool cfg) (mem cfg)).2)) /\
            (0 < index (pool cfg) ->
             step GetLoad (pool cfg) (mem cfg)
               = (GetCAS (index (pool cfg)), pool cfg, mem cfg))
        | GetCAS idx =>
            0 < idx <= 2 /\
            (index (pool cfg) = idx ->
             step (GetCAS idx) (pool cfg) (mem cfg)
               = (GetSlot idx, with_index (pool cfg) (idx - 1), mem cfg)) /\
            (index (pool cfg) <> idx ->
             step (GetCAS idx) (pool cfg) (mem cfg) = (GetLoad, pool cfg, mem cfg))
        | GetSlot idx =>
            0 < idx <= 2 /\
            exists x,
              objects (pool cfg) !! Z.to_nat (idx - 1) = Some x /\
              step (GetSlot idx) (pool cfg) (mem cfg) = (GetDone x, pool cfg, mem cfg)
        | PutLoad o =>
            (2 <= index (pool cfg) ->
             step (PutLoad o) (pool cfg) (mem cfg) = (PutDone, pool cfg, mem cfg)) /\
            (index (pool cfg) < 2 ->
             step (PutLoad o) (pool cfg) (mem cfg)
               = (PutCAS o (index (pool cfg)), pool cfg, mem cfg))
        | PutCAS o idx =>
            0 <= idx < 2 /\
            (index (pool cfg) = idx ->
             step (PutCAS o idx) (pool cfg) (mem cfg)
               = (PutSlot o idx, with_index (pool cfg) (idx + 1), mem cfg)) /\
            (index (pool cfg) <> idx ->
             step (PutCAS o idx) (pool cfg) (mem cfg) = (PutLoad o, pool cfg, mem cfg))
        | PutSlot o idx =>
            0 <= idx < 2 /\
            step (PutSlot o idx) (pool cfg) (mem cfg)
              = (PutDone,
                 with_objects (pool cfg) (<[Z.to_nat idx := o]> (objects (pool cfg))),
                 mem cfg)
        | GetDone _ | PutDone =>
            step th (pool cfg) (mem cfg) = (th, pool cfg, mem cfg)
        | Crashed => False
        end /\
        exists th' p' h',
          solo 4 th (pool cfg) (mem cfg) = (th', p', h') /\
          (th' = PutDone \/ exists x, th' = GetDone x)) /\
  (index p <= 0 ->
   Get_loop (S fuel) p hp = Ok ((allocator p hp).1, p, (allocator p hp).2)) /\
  (0 < index p ->
   exists x,
     objects p !! Z.to_nat (index p - 1) = Some x /\
     Get_loop (S fuel) p hp = Ok (x, with_index p (index p - 1), hp)) /\
  (capacity p <= index p -> Put_loop (S fuel) p obj = Ok p) /\
  (index p < capacity p ->
   Put_loop (S fuel) p obj =
     Ok (with_objects (with_index p (index p + 1))
           (<[Z.to_nat (index p) := obj]> (objects p)))) /\
  (exists x p' h',
      Get_loop (S fuel) p hp = Ok (x, p', h') /\
      solo (3 + fuel) GetLoad p hp = (GetDone x, p', h')) /\
  (exists p',
      Put_loop (S fuel) p obj = Ok p' /\
      solo (3 + fuel) (PutLoad obj) p hp = (PutDone, p', hp)) /\
  (0 < index p ->
   exists x cfg,
     objects p !! Z.to_nat (index p - 1) = Some x /\
     interleave [CallGet; CallGet; Sched 0; Sched 1; Sched 0; Sched 1;
                 Sched 1; Sched 1; Sched 1; Sched 0]
       {| pool := p; mem := hp; threads := [] |} = cfg /\
     index (pool cfg) = Z.max (index p - 2) 0 /\
     objects (pool cfg) = objects p /\
     (1 < index p ->
      exists y,
        objects p !! Z.to_nat (index p - 2) = Some y /\
        threads cfg = [GetDone x; GetDone y] /\ mem cfg = hp) /\
     (index p = 1 ->
      threads cfg = [GetDone x; GetDone (allocator p hp).1] /\
      mem cfg = (allocator p hp).2)) /\
  (index p < capacity p ->
   exists cfg,
     interleave [CallPut obj; CallPut obj2; Sched 0; Sched 1; Sched 0; Sched 1;
                 Sched 1; Sched 1; Sched 1; Sched 0]
       {| pool := p; mem := hp; threads := [] |} = cfg /\
     threads cfg = [PutDone; PutDone] /\ mem cfg = hp /\
     index (pool cfg) = Z.min (index p + 2) (capacity p) /\
     (index p + 1 < capacity p ->
      objects (pool cfg)
        = <[Z.to_nat (index p) := obj]>
            (<[Z.to_nat (index p + 1) := obj2]> (objects p))) /\
     (index p + 1 = capacity p ->
      objects (pool cfg) = <[Z.to_nat (index p) := obj]> (objects p))).
Proof.
  intros p hp es fuel obj obj2.
  apply (abp_fill_index 2 testAllocator testCleaner [] es p hp obj obj2 fuel).
  - unfold int_max. lia.
  - unfold wf, int_max. simpl. lia.
Defined.

End AtomicBasedPoolFacts.

(** ** Get on the non-blocking variants *)

Lemma length_zero_nil {A : Type} (l : list A) : Z.of_nat (length l) = 0 -> l = [].
Proof. destruct l; [done|]. simpl. lia. Qed.

(** What [Get] of a single-segment pool hands out, [next p] listing the
    residents in the order [Get] takes them: the first of them, which leaves
    the pool, or on an empty pool what the allocator returns. *)
Section SegmentObject.
Context {P : Type}.
Variable get : P -> heap -> outcome (ptr * P * heap).
Variable wf : P -> Prop.
Variable next : P -> list ptr.
Variable cap : P -> Z.
Variable alloc : P -> Allocator.

Hypothesis get_next : forall p h x l,
  wf p -> next p = x :: l ->
  exists p', get p h = Ok (x, p', h) /\ wf p' /\ next p' = l /\
             cap p' = cap p /\ alloc p' = alloc p.

Hypothesis get_empty : forall p h,
  wf p -> next p = [] -> get p h = Ok ((alloc p h).1, p, (alloc p h).2).

Lemma segment_get_object (p : P) (h : heap) :
  wf p ->
  exists x p' h',
    get p h = Ok (x, p', h') /\ wf p' /\
    (next p = [] -> (x, h') = alloc p h /\ p' = p) /\
    (forall y l, next p = y :: l -> x = y /\ next p' = l /\ h' = h) /\
    (fresh_allocator (alloc p) -> Forall (fun obj => valid obj h) (next p) ->
     valid x h' /\
     (next p = [] -> ~ valid x h /\ allocations h' = S (allocations h))).
Proof.
  intros Hwf. destruct (next p) as [|y l] eqn:Hnext.
  - rewrite get_empty by done.
    eexists _, _, _. split; [done|]. split; [done|].
    split; [intros _; by destruct (alloc p h)|]. split; [done|].
    intros Hfresh _. destruct (Hfresh h) as [o ->]. cbn [fst snd]. split.
    { exists (length h). split; [done|]. rewrite length_app. simpl. lia. }
    intros _. split.
    + intros (a & [= <-] & Ha). lia.
    + unfold allocations. rewrite length_app. simpl. lia.
  - destruct (get_next p h y l Hwf Hnext) as (p' & Hget & Hwf' & Hn' & _).
    exists y, p', h. split; [done|]. split; [done|]. split; [done|].
    split; [by intros y' l' [= <- <-]|].
    intros _ Hvalid. split; [|done]. by apply Forall_cons in Hvalid as [? _].
Qed.

End SegmentObject.

(** C3. On each of the five non-blocking single-segment variants (mutex
    ring buffer, read/write-mutex ring buffer, mutex slice, channel, atomic
    index) [Get] returns an object: it neither panics nor blocks, and the
    pool it leaves is again well formed. On an empty pool the object and the
    heap are exactly what the pool's allocator produces, and the pool is
    unchanged. On a pool that holds objects [Get] returns one of them
    without allocating, the oldest for the ring buffers and the channel, the
    newest for the slice and the atomic index, and that object has left the
    pool. What [Get] returns points to an object of the heap as long as the
    pool holds objects only (no [nil] was put) and the allocator returns a
    new object on each call; on an empty pool the object is then one that
    was not there before. *)
Theorem get_returns_object
    (p1 : MutexRingBufferPool.t) (p2 : RWMutexRingBufferPool.t)
    (p3 : MutexBasedPool.t) (p4 : ChannelBasedPool.t) (p5 : AtomicBasedPool.t)
    (h : heap) :
  MutexRingBufferPool.wf p1 -> RWMutexRingBufferPool.wf p2 ->
  MutexBasedPool.wf p3 -> ChannelBasedPool.wf p4 -> AtomicBasedPool.wf p5 ->
  (exists x p' h',
      MutexRingBufferPool.Get p1 h = Ok (x, p', h') /\ MutexRingBufferPool.wf p' /\
      (MutexRingBufferPool.occupancy p1 = 0 ->
       (x, h') = MutexRingBufferPool.allocator p1 h /\ p' = p1) /\
      (0 < MutexRingBufferPool.occupancy p1 ->
       exists l,
         MutexRingBufferPool.resident p1 = x :: l /\ MutexRingBufferPool.resident p' = l /\ h' = h /\
         MutexRingBufferPool.occupancy p' = MutexRingBufferPool.occupancy p1 - 1) /\
      (fresh_allocator (MutexRingBufferPool.allocator p1) ->
       Forall (fun obj => valid obj h) (MutexRingBufferPool.resident p1) ->
       valid x h' /\
       (MutexRingBufferPool.occupancy p1 = 0 ->
        ~ valid x h /\ allocations h' = S (allocations h)))) /\
  (exists x p' h',
      RWMutexRingBufferPool.Get p2 h = Ok (x, p', h') /\ RWMutexRingBufferPool.wf p' /\
      (RWMutexRingBufferPool.occupancy p2 = 0 ->
       (x, h') = RWMutexRingBufferPool.allocator p2 h /\ p' = p2) /\
      (0 < RWMutexRingBufferPool.occupancy p2 ->
       exists l,
         RWMutexRingBufferPool.resident p2 = x :: l /\ RWMutexRingBufferPool.resident p' = l /\ h' = h /\
         RWMutexRingBufferPool.occupancy p' = RWMutexRingBufferPool.occupancy p2 - 1) /\
      (fresh_allocator (RWMutexRingBufferPool.allocator p2) ->
       Forall (fun obj => valid obj h) (RWMutexRingBufferPool.resident p2) ->
       valid x h' /\
       (RWMutexRingBufferPool.occupancy p2 = 0 ->
        ~ valid x h /\ allocations h' = S (allocations h)))) /\
  (exists x p' h',
      MutexBasedPool.Get p3 h = Ok (x, p', h') /\ MutexBasedPool.wf p' /\
      (MutexBasedPool.occupancy p3 = 0 ->
       (x, h') = MutexBasedPool.allocator p3 h /\ p' = p3) /\
      (0 < MutexBasedPool.occupancy p3 ->
       exists l,
         MutexBasedPool.resident p3 = l ++ [x] /\ MutexBasedPool.resident p' = l /\ h' = h /\
         MutexBasedPool.occupancy p' = MutexBasedPool.occupancy p3 - 1) /\
      (fresh_allocator (MutexBasedPool.allocator p3) ->
       Forall (fun obj => valid obj h) (MutexBasedPool.resident p3) ->
       valid x h' /\
       (MutexBasedPool.occupancy p3 = 0 ->
        ~ valid x h /\ allocations h' = S (allocations h)))) /\
  (exists x p' h',
      ChannelBasedPool.Get p4 h = Ok (x, p', h') /\ ChannelBasedPool.wf p' /\
      (ChannelBasedPool.occupancy p4 = 0 ->
       (x, h') = ChannelBasedPool.allocator p4 h /\ p' = p4) /\
      (0 < ChannelBasedPool.occupancy p4 ->
       exists l,
         ChannelBasedPool.resident p4 = x :: l /\ ChannelBasedPool.resident p' = l /\ h' = h /\
         ChannelBasedPool.occupancy p' = ChannelBasedPool.occupancy p4 - 1) /\
      (fresh_allocator (ChannelBasedPool.allocator p4) ->
       Forall (fun obj => valid obj h) (ChannelBasedPool.resident p4) ->
       valid x h' /\
       (ChannelBasedPool.occupancy p4 = 0 ->
        ~ valid x h /\ allocations h' = S (allocations h)))) /\
  (exists x p' h',
      AtomicBasedPool.Get p5 h = Ok (x, p', h') /\ AtomicBasedPool.wf p' /\
      (AtomicBasedPool.occupancy p5 = 0 ->
       (x, h') = AtomicBasedPool.allocator p5 h /\ p' = p5) /\
      (0 < AtomicBasedPool.occupancy p5 ->
       exists l,
         AtomicBasedPool.resident p5 = l ++ [x] /\ AtomicBasedPool.resident p' = l /\ h' = h /\
         AtomicBasedPool.occupancy p' = AtomicBasedPool.occupancy p5 - 1) /\
      (fresh_allocator (AtomicBasedPool.allocator p5) ->
       Forall (fun obj => valid obj h) (AtomicBasedPool.resident p5) ->
       valid x h' /\
       (AtomicBasedPool.occupancy p5 = 0 ->
        ~ valid x h /\ allocations h' = S (allocations h)))).
Proof.
  intros Hwf1 Hwf2 Hwf3 Hwf4 Hwf5.
  split; [|split; [|split; [|split]]].
  - destruct (segment_get_object _ _ _ _ _
                MutexRingBufferPoolFacts.mrb_Get_next
                MutexRingBufferPoolFacts.mrb_Get_empty p1 h Hwf1)
      as (x & p' & h' & Hget & Hwf' & Hemp & Hnext & Hobj).
    exists x, p', h'. split; [done|]. split; [done|].
    rewrite (MutexRingBufferPoolFacts.mrb_occupancy p1) by done.
    rewrite (MutexRingBufferPoolFacts.mrb_occupancy p') by done.
    split; [|split].
    + intros Hocc. apply Hemp. by apply length_zero_nil.
    + intros Hocc.
      destruct (MutexRingBufferPool.resident p1) as [|y l] eqn:Hres; [simpl in Hocc; lia|].
      destruct (Hnext y l eq_refl) as (-> & Hl & ->).
      exists l. rewrite Hl. simpl. repeat split; (done || lia).
    + intros Hfresh Hvalid. destruct (Hobj Hfresh Hvalid) as [Hx Hnew].
      split; [done|]. intros Hocc. apply Hnew. by apply length_zero_nil.
  - destruct (segment_get_object _ _ _ _ _
                RWMutexRingBufferPoolFacts.rwm_Get_next
                RWMutexRingBufferPoolFacts.rwm_Get_empty p2 h Hwf2)
      as (x & p' & h' & Hget & Hwf' & Hemp & Hnext & Hobj).
    exists x, p', h'. split; [done|]. split; [done|].
    rewrite (RWMutexRingBufferPoolFacts.rwm_occupancy p2) by done.
    rewrite (RWMutexRingBufferPoolFacts.rwm_occupancy p') by done.
    split; [|split].
    + intros Hocc. apply Hemp. by apply length_zero_nil.
    + intros Hocc.
      destruct (RWMutexRingBufferPool.resident p2) as [|y l] eqn:Hres; [simpl in Hocc; lia|].
      destruct (Hnext y l eq_refl) as (-> & Hl & ->).
      exists l. rewrite Hl. simpl. repeat split; (done || lia).
    + intros Hfresh Hvalid. destruct (Hobj Hfresh Hvalid) as [Hx Hnew].
      split; [done|]. intros Hocc. apply Hnew. by apply length_zero_nil.
  - destruct (segment_get_object _ _ (fun p => rev (MutexBasedPool.resident p)) _ _
                MutexBasedPoolFacts.mbp_get_next_rev
                MutexBasedPoolFacts.mbp_get_empty_rev p3 h Hwf3)
      as (x & p' & h' & Hget & Hwf' & Hemp & Hnext & Hobj).
    exists x, p', h'. split; [done|]. split; [done|].
    rewrite !MutexBasedPoolFacts.mbp_occupancy.
    split; [|split].
    + intros Hocc. apply Hemp. by rewrite (length_zero_nil _ Hocc).
    + intros Hocc.
      destruct (rev (MutexBasedPool.resident p3)) as [|y l] eqn:Hrev.
      { apply (f_equal (@length ptr)) in Hrev. rewrite length_rev in Hrev.
        simpl in Hrev. lia. }
      destruct (Hnext y l eq_refl) as (-> & Hl & ->).
      apply (f_equal (@rev ptr)) in Hrev, Hl. rewrite rev_involutive in Hrev, Hl.
      simpl in Hrev. exists (rev l). rewrite Hl, Hrev, length_app. simpl.
      repeat split; (done || lia).
    + intros Hfresh Hvalid. destruct (Hobj Hfresh (List.Forall_rev Hvalid)) as [Hx Hnew].
      split; [done|]. intros Hocc. apply Hnew. by rewrite (length_zero_nil _ Hocc).
  - destruct (segment_get_object _ _ _ _ _
                ChannelBasedPoolFacts.chan_Get_next
                ChannelBasedPoolFacts.chan_Get_empty p4 h Hwf4)
      as (x & p' & h' & Hget & Hwf' & Hemp & Hnext & Hobj).
    exists x, p', h'. split; [done|]. split; [done|].
    change (ChannelBasedPool.occupancy p4)
      with (Z.of_nat (length (ChannelBasedPool.resident p4))).
    change (ChannelBasedPool.occupancy p')
      with (Z.of_nat (length (ChannelBasedPool.resident p'))).
    split; [|split].
    + intros Hocc. apply Hemp. by apply length_zero_nil.
    + intros Hocc.
      destruct (ChannelBasedPool.resident p4) as [|y l] eqn:Hres; [simpl in Hocc; lia|].
      destruct (Hnext y l eq_refl) as (-> & Hl & ->).
      exists l. rewrite Hl. simpl. repeat split; (done || lia).
    + intros Hfresh Hvalid. destruct (Hobj Hfresh Hvalid) as [Hx Hnew].
      split; [done|]. intros Hocc. apply Hnew. by apply length_zero_nil.
  - destruct (segment_get_object _ _ (fun p => rev (AtomicBasedPool.resident p)) _ _
                AtomicBasedPoolFacts.abp_get_next_rev
                AtomicBasedPoolFacts.abp_get_empty_rev p5 h Hwf5)
      as (x & p' & h' & Hget & Hwf' & Hemp & Hnext & Hobj).
    exists x, p', h'. split; [done|]. split; [done|].
    unfold AtomicBasedPool.occupancy.
    rewrite <- (AtomicBasedPoolFacts.abp_resident_length p5) by done.
    rewrite <- (AtomicBasedPoolFacts.abp_resident_length p') by done.
    split; [|split].
    + intros Hocc. apply Hemp. by rewrite (length_zero_nil _ Hocc).
    + intros Hocc.
      destruct (rev (AtomicBasedPool.resident p5)) as [|y l] eqn:Hrev.
      { apply (f_equal (@length ptr)) in Hrev. rewrite length_rev in Hrev.
        simpl in Hrev. lia. }
      destruct (Hnext y l eq_refl) as (-> & Hl & ->).
      apply (f_equal (@rev ptr)) in Hrev, Hl. rewrite rev_involutive in Hrev, Hl.
      simpl in Hrev. exists (rev l). rewrite Hl, Hrev, length_app. simpl.
      repeat split; (done || lia).
    + intros Hfresh Hvalid. destruct (Hobj Hfresh (List.Forall_rev Hvalid)) as [Hx Hnew].
      split; [done|]. intros Hocc. apply Hnew. by rewrite (length_zero_nil _ Hocc).
Qed.

Lemma drained_ring_wf : RingBuffer.wf drained_ring.
Proof.
  unfold RingBuffer.wf, int_max. simpl.
  split; [reflexivity|]. split; [lia|]. split; [lia|].
  right. split; [lia|reflexivity].
Qed.

Lemma get_returns_object_witness :
  ((MutexRingBufferPool.wf drained_mutex_ring /\ RWMutexRingBufferPool.wf drained_rwmutex_ring /\
  MutexBasedPool.wf drained_mutex_slice /\ ChannelBasedPool.wf drained_channel /\ AtomicBasedPool.wf drained_atomic /\
  fresh_allocator (MutexRingBufferPool.allocator drained_mutex_ring) /\
  fresh_allocator (RWMutexRingBufferPool.allocator drained_rwmutex_ring) /\
  fresh_allocator (MutexBasedPool.allocator drained_mutex_slice) /\
  fresh_allocator (ChannelBasedPool.allocator drained_channel) /\
  fresh_allocator (AtomicBasedPool.allocator drained_atomic) /\
  Forall (fun obj => valid obj sample_heap) (MutexRingBufferPool.resident drained_mutex_ring) /\
  Forall (fun obj => valid obj sample_heap) (RWMutexRingBufferPool.resident drained_rwmutex_ring) /\
  Forall (fun obj => valid obj sample_heap) (MutexBasedPool.resident drained_mutex_slice) /\
  Forall (fun obj => valid obj sample_heap) (ChannelBasedPool.resident drained_channel) /\
  Forall (fun obj => valid obj sample_heap) (AtomicBasedPool.resident drained_atomic)) /\
  (exists x p' h',
      MutexRingBufferPool.Get drained_mutex_ring sample_heap = Ok (x, p', h') /\ MutexRingBufferPool.wf p' /\
      (MutexRingBufferPool.occupancy drained_mutex_ring = 0 ->
       (x, h') = MutexRingBufferPool.allocator drained_mutex_ring sample_heap /\ p' = drained_mutex_ring) /\
      (0 < MutexRingBufferPool.occupancy drained_mutex_ring ->
       exists l,
         MutexRingBufferPool.resident drained_mutex_ring = x :: l /\ MutexRingBufferPool.resident p' = l /\ h' = sample_heap /\
         MutexRingBufferPool.occupancy p' = MutexRingBufferPool.occupancy drained_mutex_ring - 1) /\
      (fresh_allocator (MutexRingBufferPool.allocator drained_mutex_ring) ->
       Forall (fun obj => valid obj sample_heap) (MutexRingBufferPool.resident drained_mutex_ring) ->
       valid x h' /\
       (MutexRingBufferPool.occupancy drained_mutex_ring = 0 ->
        ~ valid x sample_heap /\ allocations h' = S (allocations sample_heap)))) /\
  (exists x p' h',
      RWMutexRingBufferPool.Get drained_rwmutex_ring sample_heap = Ok (x, p', h') /\ RWMutexRingBufferPool.wf p' /\
      (RWMutexRingBufferPool.occupancy drained_rwmutex_ring = 0 ->
       (x, h') = RWMutexRingBufferPool.allocator drained_rwmutex_ring sample_heap /\ p' = drained_rwmutex_ring) /\
      (0 < RWMutexRingBufferPool.occupancy drained_rwmutex_ring ->
       exists l,
         RWMutexRingBufferPool.resident drained_rwmutex_ring = x :: l /\ RWMutexRingBufferPool.resident p' = l /\ h' = sample_heap /\
         RWMutexRingBufferPool.occupancy p' = RWMutexRingBufferPool.occupancy drained_rwmutex_ring - 1) /\
      (fresh_allocator (RWMutexRingBufferPool.allocator drained_rwmutex_ring) ->
       Forall (fun obj => valid obj sample_heap) (RWMutexRingBufferPool.resident drained_rwmutex_ring) ->
       valid x h' /\
       (RWMutexRingBufferPool.occupancy drained_rwmutex_ring = 0 ->
        ~ valid x sample_heap /\ allocations h' = S (allocations sample_heap)))) /\
  (exists x p' h',
      MutexBasedPool.Get drained_mutex_slice sample_heap = Ok (x, p', h') /\ MutexBasedPool.wf p' /\
      (MutexBasedPool.occupancy drained_mutex_slice = 0 ->
       (x, h') = MutexBasedPool.allocator drained_mutex_slice sample_heap /\ p' = drained_mutex_slice) /\
      (0 < MutexBasedPool.occupancy drained_mutex_slice ->
       exists l,
         MutexBasedPool.resident drained_mutex_slice = l ++ [x] /\ MutexBasedPool.resident p' = l /\ h' = sample_heap /\
         MutexBasedPool.occupancy p' = MutexBasedPool.occupancy drained_mutex_slice - 1) /\
      (fresh_allocator (MutexBasedPool.allocator drained_mutex_slice) ->
       Forall (fun obj => valid obj sample_heap) (MutexBasedPool.resident drained_mutex_slice) ->
       valid x h' /\
       (MutexBasedPool.occupancy drained_mutex_slice = 0 ->
        ~ valid x sample_heap /\ allocations h' = S (allocations sample_heap)))) /\
  (exists x p' h',
      ChannelBasedPool.Get drained_channel sample_heap = Ok (x, p', h') /\ ChannelBasedPool.wf p' /\
      (ChannelBasedPool.occupancy drained_channel = 0 ->
       (x, h') = ChannelBasedPool.allocator drained_channel sample_heap /\ p' = drained_channel) /\
      (0 < ChannelBasedPool.occupancy drained_channel ->
       exists l,
         ChannelBasedPool.resident drained_channel = x :: l /\ ChannelBasedPool.resident p' = l /\ h' = sample_heap /\
         ChannelBasedPool.occupancy p' = ChannelBasedPool.occupancy drained_channel - 1) /\
      (fresh_allocator (ChannelBasedPool.allocator drained_channel) ->
       Forall (fun obj => valid obj sample_heap) (ChannelBasedPool.resident drained_channel) ->
       valid x h' /\
       (ChannelBasedPool.occupancy drained_channel = 0 ->
        ~ valid x sample_heap /\ allocations h' = S (allocations sample_heap)))) /\
  (exists x p' h',
      AtomicBasedPool.Get drained_atomic sample_heap = Ok (x, p', h') /\ AtomicBasedPool.wf p' /\
      (AtomicBasedPool.occupancy drained_atomic = 0 ->
       (x, h') = AtomicBasedPool.allocator drained_atomic sample_heap /\ p' = drained_atomic) /\
      (0 < AtomicBasedPool.occupancy drained_atomic ->
       exists l,
         AtomicBasedPool.resident drained_atomic = l ++ [x] /\ AtomicBasedPool.resident p' = l /\ h' = sample_heap /\
         AtomicBasedPool.occupancy p' = AtomicBasedPool.occupancy drained_atomic - 1) /\
      (fresh_allocator (AtomicBasedPool.allocator drained_atomic) ->
       Forall (fun obj => valid obj sample_heap) (AtomicBasedPool.resident drained_atomic) ->
       valid x h' /\
       (AtomicBasedPool.occupancy drained_atomic = 0 ->
        ~ valid x sample_heap /\ allocations h' = S (allocations sample_heap))))) /\
  ((MutexRingBufferPool.wf stocked_mutex_ring /\ RWMutexRingBufferPool.wf stocked_rwmutex_ring /\
  MutexBasedPool.wf stocked_mutex_slice /\ ChannelBasedPool.wf stocked_channel /\ AtomicBasedPool.wf stocked_atomic /\
  fresh_allocator (MutexRingBufferPool.allocator stocked_mutex_ring) /\
  fresh_allocator (RWMutexRingBufferPool.allocator stocked_rwmutex_ring) /\
  fresh_allocator (MutexBasedPool.allocator stocked_mutex_slice) /\
  fresh_allocator (ChannelBasedPool.allocator stocked_channel) /\
  fresh_allocator (AtomicBasedPool.allocator stocked_atomic) /\
  Forall (fun obj => valid obj stocked_heap) (MutexRingBufferPool.resident stocked_mutex_ring) /\
  Forall (fun obj => valid obj stocked_heap) (RWMutexRingBufferPool.resident stocked_rwmutex_ring) /\
  Forall (fun obj => valid obj stocked_heap) (MutexBasedPool.resident stocked_mutex_slice) /\
  Forall (fun obj => valid obj stocked_heap) (ChannelBasedPool.resident stocked_channel) /\
  Forall (fun obj => valid obj stocked_heap) (AtomicBasedPool.resident stocked_atomic)) /\
  (exists x p' h',
      MutexRingBufferPool.Get stocked_mutex_ring stocked_heap = Ok (x, p', h') /\ MutexRingBufferPool.wf p' /\
      (MutexRingBufferPool.occupancy stocked_mutex_ring = 0 ->
       (x, h') = MutexRingBufferPool.allocator stocked_mutex_ring stocked_heap /\ p' = stocked_mutex_ring) /\
      (0 < MutexRingBufferPool.occupancy stocked_mutex_ring ->
       exists l,
         MutexRingBufferPool.resident stocked_mutex_ring = x :: l /\ MutexRingBufferPool.resident p' = l /\ h' = stocked_heap /\
         MutexRingBufferPool.occupancy p' = MutexRingBufferPool.occupancy stocked_mutex_ring - 1) /\
      (fresh_allocator (MutexRingBufferPool.allocator stocked_mutex_ring) ->
       Forall (fun obj => valid obj stocked_heap) (MutexRingBufferPool.resident stocked_mutex_ring) ->
       valid x h' /\
       (MutexRingBufferPool.occupancy stocked_mutex_ring = 0 ->
        ~ valid x stocked_heap /\ allocations h' = S (allocations stocked_heap)))) /\
  (exists x p' h',
      RWMutexRingBufferPool.Get stocked_rwmutex_ring stocked_heap = Ok (x, p', h') /\ RWMutexRingBufferPool.wf p' /\
      (RWMutexRingBufferPool.occupancy stocked_rwmutex_ring = 0 ->
       (x, h') = RWMutexRingBufferPool.allocator stocked_rwmutex_ring stocked_heap /\ p' = stocked_rwmutex_ring) /\
      (0 < RWMutexRingBufferPool.occupancy stocked_rwmutex_ring ->
       exists l,
         RWMutexRingBufferPool.resident stocked_rwmutex_ring = x :: l /\ RWMutexRingBufferPool.resident p' = l /\ h' = stocked_heap /\
         RWMutexRingBufferPool.occupancy p' = RWMutexRingBufferPool.occupancy stocked_rwmutex_ring - 1) /\
      (fresh_allocator (RWMutexRingBufferPool.allocator stocked_rwmutex_ring) ->
       Forall (fun obj => valid obj stocked_heap) (RWMutexRingBufferPool.resident stocked_rwmutex_ring) ->
       valid x h' /\
       (RWMutexRingBufferPool.occupancy stocked_rwmutex_ring = 0 ->
        ~ valid x stocked_heap /\ allocations h' = S (allocations stocked_heap)))) /\
  (exists x p' h',
      MutexBasedPool.Get stocked_mutex_slice stocked_heap = Ok (x, p', h') /\ MutexBasedPool.wf p' /\
      (MutexBasedPool.occupancy stocked_mutex_slice = 0 ->
       (x, h') = MutexBasedPool.allocator stocked_mutex_slice stocked_heap /\ p' = stocked_mutex_slice) /\
      (0 < MutexBasedPool.occupancy stocked_mutex_slice ->
       exists l,
         MutexBasedPool.resident stocked_mutex_slice = l ++ [x] /\ MutexBasedPool.resident p' = l /\ h' = stocked_heap /\
         MutexBasedPool.occupancy p' = MutexBasedPool.occupancy stocked_mutex_slice - 1) /\
      (fresh_allocator (MutexBasedPool.allocator stocked_mutex_slice) ->
       Forall (fun obj => valid obj stocked_heap) (MutexBasedPool.resident stocked_mutex_slice) ->
       valid x h' /\
       (MutexBasedPool.occupancy stocked_mutex_slice = 0 ->
        ~ valid x stocked_heap /\ allocations h' = S (allocations stocked_heap)))) /\
  (exists x p' h',
      ChannelBasedPool.Get stocked_channel stocked_heap = Ok (x, p', h') /\ ChannelBasedPool.wf p' /\
      (ChannelBasedPool.occupancy stocked_channel = 0 ->
       (x, h') = ChannelBasedPool.allocator stocked_channel stocked_heap /\ p' = stocked_channel) /\
      (0 < ChannelBasedPool.occupancy stocked_channel ->
       exists l,
         ChannelBasedPool.resident stocked_channel = x :: l /\ ChannelBasedPool.resident p' = l /\ h' = stocked_heap /\
         ChannelBasedPool.occupancy p' = ChannelBasedPool.occupancy stocked_channel - 1) /\
      (fresh_allocator (ChannelBasedPool.allocator stocked_channel) ->
       Forall (fun obj => valid obj stocked_heap) (ChannelBasedPool.resident stocked_channel) ->
       valid x h' /\
       (ChannelBasedPool.occupancy stocked_channel = 0 ->
        ~ valid x stocked_heap /\ allocations h' = S (allocations stocked_heap)))) /\
  (exists x p' h',
      AtomicBasedPool.Get stocked_atomic stocked_heap = Ok (x, p', h') /\ AtomicBasedPool.wf p' /\
      (AtomicBasedPool.occupancy stocked_atomic = 0 ->
       (x, h') = AtomicBasedPool.allocator stocked_atomic stocked_heap /\ p' = stocked_atomic) /\
      (0 < AtomicBasedPool.occupancy stocked_atomic ->
       exists l,
         AtomicBasedPool.resident stocked_atomic = l ++ [x] /\ AtomicBasedPool.resident p' = l /\ h' = stocked_heap /\
         AtomicBasedPool.occupancy p' = AtomicBasedPool.occupancy stocked_atomic - 1) /\
      (fresh_allocator (AtomicBasedPool.allocator stocked_atomic) ->
       Forall (fun obj => valid obj stocked_heap) (AtomicBasedPool.resident stocked_atomic) ->
       valid x h' /\
       (AtomicBasedPool.occupancy stocked_atomic = 0 ->
        ~ valid x stocked_heap /\ allocations h' = S (allocations stocked_heap))))).
Proof.
  pose proof testAllocator_fresh as Hfresh.
  assert (RingBuffer.wf stocked_ring) as Hring.
  { unfold RingBuffer.wf, int_max. simpl.
    split; [reflexivity|]. split; [lia|]. split; [lia|].
    right. split; [lia|reflexivity]. }
  assert (MutexRingBufferPool.wf drained_mutex_ring) as H1
    by (split; [exact drained_ring_wf|reflexivity]).
  assert (RWMutexRingBufferPool.wf drained_rwmutex_ring) as H2
    by (split; [exact drained_ring_wf|reflexivity]).
  assert (MutexBasedPool.wf drained_mutex_slice) as H3
    by (unfold MutexBasedPool.wf, len, int_max; simpl; split; [lia|reflexivity]).
  assert (ChannelBasedPool.wf drained_channel) as H4
    by (unfold ChannelBasedPool.wf; simpl; lia).
  assert (AtomicBasedPool.wf drained_atomic) as H5
    by (unfold AtomicBasedPool.wf, int_max; simpl; lia).
  assert (MutexRingBufferPool.wf stocked_mutex_ring) as S1
    by (split; [exact Hring|reflexivity]).
  assert (RWMutexRingBufferPool.wf stocked_rwmutex_ring) as S2
    by (split; [exact Hring|reflexivity]).
  assert (MutexBasedPool.wf stocked_mutex_slice) as S3
    by (unfold MutexBasedPool.wf, len, int_max; simpl; split; [lia|reflexivity]).
  assert (ChannelBasedPool.wf stocked_channel) as S4
    by (unfold ChannelBasedPool.wf; simpl; lia).
  assert (AtomicBasedPool.wf stocked_atomic) as S5
    by (unfold AtomicBasedPool.wf, int_max; simpl; lia).
  assert (Forall (fun obj => valid obj sample_heap) []) as Vnil by apply Forall_nil_2.
  assert (Forall (fun obj => valid obj stocked_heap) [Some 0%nat; Some 1%nat]) as Vtwo.
  { apply Forall_cons_2; [exists 0%nat; split; [reflexivity|simpl; lia]|].
    apply Forall_cons_2; [exists 1%nat; split; [reflexivity|simpl; lia]|].
    apply Forall_nil_2. }
  split.
  - split; [repeat (split; [done|]); done|].
    exact (get_returns_object drained_mutex_ring drained_rwmutex_ring
             drained_mutex_slice drained_channel drained_atomic sample_heap
             H1 H2 H3 H4 H5).
  - split; [repeat (split; [done|]); done|].
    exact (get_returns_object stocked_mutex_ring stocked_rwmutex_ring
             stocked_mutex_slice stocked_channel stocked_atomic stocked_heap
             S1 S2 S3 S4 S5).
Defined.

(** ** Round trips *)

(** C7. On a freshly constructed mutex ring buffer pool, read/write-mutex
    ring buffer pool or atomic pool of capacity [c], any number [n] of
    [Put(Get())] repetitions by a single goroutine returns normally and leaves
    the occupancy where the constructor put it, at [c]. *)
Theorem round_trips_keep_occupancy (c : Z) (alloc : Allocator) (clean : Cleaner)
    (h : heap) (n : nat) :
  0 <= c <= int_max ->
  (exists p0 h0 p' h',
      NewMutexRingBufferPool c alloc clean h = Ok (p0, h0) /\
      round_trips MutexRingBufferPool.Get (put_pure MutexRingBufferPool.Put) n (p0, h0)
        = Ok (p', h') /\
      MutexRingBufferPool.occupancy p' = MutexRingBufferPool.occupancy p0 /\
      MutexRingBufferPool.occupancy p0 = c) /\
  (exists p0 h0 p' h',
      NewRWMutexRingBufferPool c alloc clean h = Ok (p0, h0) /\
      round_trips RWMutexRingBufferPool.Get (put_pure RWMutexRingBufferPool.Put) n (p0, h0)
        = Ok (p', h') /\
      RWMutexRingBufferPool.occupancy p' = RWMutexRingBufferPool.occupancy p0 /\
      RWMutexRingBufferPool.occupancy p0 = c) /\
  (exists p0 h0 p' h',
      NewAtomicBasedPool c alloc clean h = Ok (p0, h0) /\
      round_trips AtomicBasedPool.Get (put_pure AtomicBasedPool.Put) n (p0, h0)
        = Ok (p', h') /\
      AtomicBasedPool.occupancy p' = AtomicBasedPool.occupancy p0 /\
      AtomicBasedPool.occupancy p0 = c).
Proof.
  intros Hc. pose proof (alloc_n_length alloc (Z.to_nat c) h) as Hal.
  split; [|split].
  - destruct (MutexRingBufferPoolFacts.mrb_New c alloc clean h Hc)
      as (p0 & Hnew & Hwf & Hres & Hcap & _).
    assert (Z.of_nat (length (MutexRingBufferPool.resident p0))
            = MutexRingBufferPool.capacity p0) as Hfull
      by (rewrite Hres, Hal, Hcap; lia).
    destruct (segment_round_trips _ _ _ _ _ _
                MutexRingBufferPoolFacts.mrb_Get_next
                MutexRingBufferPoolFacts.mrb_Get_empty
                MutexRingBufferPoolFacts.mrb_put_room_length
                MutexRingBufferPoolFacts.mrb_put_full_pure
                n 0 p0 (alloc_n alloc (Z.to_nat c) h).2 Hwf Hfull)
      as (p' & h' & Hrt & Hwf' & Hlen' & _).
    exists p0, (alloc_n alloc (Z.to_nat c) h).2, p', h'.
    split; [done|]. split; [exact Hrt|].
    rewrite !MutexRingBufferPoolFacts.mrb_occupancy by done.
    split; [by rewrite Hlen'|]. rewrite Hres, Hal. lia.
  - destruct (RWMutexRingBufferPoolFacts.rwm_New c alloc clean h Hc)
      as (p0 & Hnew & Hwf & Hres & Hcap & _).
    assert (Z.of_nat (length (RWMutexRingBufferPool.resident p0))
            = RWMutexRingBufferPool.capacity p0) as Hfull
      by (rewrite Hres, Hal, Hcap; lia).
    destruct (segment_round_trips _ _ _ _ _ _
                RWMutexRingBufferPoolFacts.rwm_Get_next
                RWMutexRingBufferPoolFacts.rwm_Get_empty
                RWMutexRingBufferPoolFacts.rwm_put_room_length
                RWMutexRingBufferPoolFacts.rwm_put_full_pure
                n 0 p0 (alloc_n alloc (Z.to_nat c) h).2 Hwf Hfull)
      as (p' & h' & Hrt & Hwf' & Hlen' & _).
    exists p0, (alloc_n alloc (Z.to_nat c) h).2, p', h'.
    split; [done|]. split; [exact Hrt|].
    rewrite !RWMutexRingBufferPoolFacts.rwm_occupancy by done.
    split; [by rewrite Hlen'|]. rewrite Hres, Hal. lia.
  - destruct (AtomicBasedPoolFacts.abp_New c alloc clean h Hc)
      as (p0 & Hnew & Hwf & Hres & Hcap & _ & _ & Hidx).
    assert (Z.of_nat (length (rev (AtomicBasedPool.resident p0)))
            = AtomicBasedPool.capacity p0) as Hfull
      by (rewrite length_rev, Hres, Hal, Hcap; lia).
    destruct (segment_round_trips _ _ _ (fun p => rev (AtomicBasedPool.resident p)) _ _
                AtomicBasedPoolFacts.abp_get_next_rev
                AtomicBasedPoolFacts.abp_get_empty_rev
                AtomicBasedPoolFacts.abp_put_room_length
                AtomicBasedPoolFacts.abp_put_full_pure
                n 0 p0 (alloc_n alloc (Z.to_nat c) h).2 Hwf Hfull)
      as (p' & h' & Hrt & Hwf' & Hlen' & _).
    exists p0, (alloc_n alloc (Z.to_nat c) h).2, p', h'.
    split; [done|]. split; [exact Hrt|].
    unfold AtomicBasedPool.occupancy. split; [|done].
    rewrite <- !AtomicBasedPoolFacts.abp_resident_length by done.
    rewrite !length_rev in Hlen'. by rewrite Hlen'.
Qed.

Lemma round_trips_keep_occupancy_witness :
  0 <= 3 <= int_max /\
  (exists p0 h0 p' h',
      NewMutexRingBufferPool 3 testAllocator testCleaner [] = Ok (p0, h0) /\
      round_trips MutexRingBufferPool.Get (put_pure MutexRingBufferPool.Put) 5 (p0, h0)
        = Ok (p', h') /\
      MutexRingBufferPool.occupancy p' = MutexRingBufferPool.occupancy p0 /\
      MutexRingBufferPool.occupancy p0 = 3) /\
  (exists p0 h0 p' h',
      NewRWMutexRingBufferPool 3 testAllocator testCleaner [] = Ok (p0, h0) /\
      round_trips RWMutexRingBufferPool.Get (put_pure RWMutexRingBufferPool.Put) 5 (p0, h0)
        = Ok (p', h') /\
      RWMutexRingBufferPool.occupancy p' = RWMutexRingBufferPool.occupancy p0 /\
      RWMutexRingBufferPool.occupancy p0 = 3) /\
  (exists p0 h0 p' h',
      NewAtomicBasedPool 3 testAllocator testCleaner [] = Ok (p0, h0) /\
      round_trips AtomicBasedPool.Get (put_pure AtomicBasedPool.Put) 5 (p0, h0)
        = Ok (p', h') /\
      AtomicBasedPool.occupancy p' = AtomicBasedPool.occupancy p0 /\
      AtomicBasedPool.occupancy p0 = 3).
Proof.
  assert (0 <= 3 <= int_max) as Hc by (unfold int_max; lia).
  split; [exact Hc|].
  exact (round_trips_keep_occupancy 3 testAllocator testCleaner [] 5 Hc).
Defined.

(** ** Draining a fresh pool *)

Lemma NoDup_rev_2 {A : Type} (l : list A) : NoDup l -> NoDup (rev l).
Proof. intros Hl. apply NoDup_ListNoDup, NoDup_rev. by apply NoDup_ListNoDup. Qed.

Section FreshDrain.
Context {P : Type}.
Variable get : P -> heap -> outcome (ptr * P * heap).
Variable wf : P -> Prop.
Variable next : P -> list ptr.
Variable cap : P -> Z.
Variable alloc : P -> Allocator.

Hypothesis get_next : forall p h x l,
  wf p -> next p = x :: l ->
  exists p', get p h = Ok (x, p', h) /\ wf p' /\ next p' = l /\
             cap p' = cap p /\ alloc p' = alloc p.

(** As many [Get] calls as there are resident objects return them all and
    leave the heap alone. *)
Lemma fresh_drain (p0 : P) (h0 : heap) (objs : list ptr) (n : nat) :
  wf p0 -> next p0 = objs \/ next p0 = rev objs -> NoDup objs -> length objs = n ->
  exists got p',
    get_n get n p0 h0 = Ok (got, p', h0) /\ length got = n /\ NoDup got /\
    (got = objs \/ got = rev objs) /\ next p' = [].
Proof.
  intros Hwf Hnext Hnd Hlen.
  assert (length (next p0) = n) as Hn
    by (destruct Hnext as [->| ->]; [done|by rewrite length_rev]).
  destruct (segment_drain get wf next cap alloc get_next n p0 h0 Hwf ltac:(lia))
    as (p' & Hget & _ & Hrest & _).
  rewrite take_ge in Hget by lia. rewrite drop_ge in Hrest by lia.
  exists (next p0), p'. split; [done|]. split; [done|].
  split; [|done].
  destruct Hnext as [->| ->]; [done|by apply NoDup_rev_2].
Qed.

End FreshDrain.

(** C8, as the code has it. Each single-segment variant, constructed with
    capacity [c] and an allocator that returns a newly allocated object on
    every call, calls the allocator [c] times; [c] consecutive [Get] calls on
    the fresh pool then return [c] pairwise distinct objects -- the
    pre-populated ones -- and leave the heap as the constructor left it, so
    the allocator is not called again. *)
Theorem fresh_pool_gets (c : Z) (alloc : Allocator) (clean : Cleaner) (h : heap) :
  0 <= c <= int_max -> fresh_allocator alloc ->
  (exists p0 h0 got p',
      NewMutexRingBufferPool c alloc clean h = Ok (p0, h0) /\
      allocations h0 = (allocations h + Z.to_nat c)%nat /\
      get_n MutexRingBufferPool.Get (Z.to_nat c) p0 h0 = Ok (got, p', h0) /\
      length got = Z.to_nat c /\ NoDup got) /\
  (exists p0 h0 got p',
      NewRWMutexRingBufferPool c alloc clean h = Ok (p0, h0) /\
      allocations h0 = (allocations h + Z.to_nat c)%nat /\
      get_n RWMutexRingBufferPool.Get (Z.to_nat c) p0 h0 = Ok (got, p', h0) /\
      length got = Z.to_nat c /\ NoDup got) /\
  (exists p0 h0 got p',
      NewChannelBasedPool c alloc clean h = Ok (p0, h0) /\
      allocations h0 = (allocations h + Z.to_nat c)%nat /\
      get_n ChannelBasedPool.Get (Z.to_nat c) p0 h0 = Ok (got, p', h0) /\
      length got = Z.to_nat c /\ NoDup got) /\
  (exists p0 h0 got p',
      NewMutexBasedPool c alloc clean h = Ok (p0, h0) /\
      allocations h0 = (allocations h + Z.to_nat c)%nat /\
      get_n MutexBasedPool.Get (Z.to_nat c) p0 h0 = Ok (got, p', h0) /\
      length got = Z.to_nat c /\ NoDup got) /\
  (exists p0 h0 got p',
      NewAtomicBasedPool c alloc clean h = Ok (p0, h0) /\
      allocations h0 = (allocations h + Z.to_nat c)%nat /\
      get_n AtomicBasedPool.Get (Z.to_nat c) p0 h0 = Ok (got, p', h0) /\
      length got = Z.to_nat c /\ NoDup got) /\
  (exists p0 h0 got p',
      NewCondBasedPool c alloc clean h = Ok (p0, h0) /\
      allocations h0 = (allocations h + Z.to_nat c)%nat /\
      get_n (get_pure CondBasedPool.Get) (Z.to_nat c) p0 h0 = Ok (got, p', h0) /\
      length got = Z.to_nat c /\ NoDup got) /\
  (exists p0 h0 got p',
      NewRingBufferCondPool c alloc clean h = Ok (p0, h0) /\
      allocations h0 = (allocations h + Z.to_nat c)%nat /\
      get_n (get_pure RingBufferCondPool.Get) (Z.to_nat c) p0 h0 = Ok (got, p', h0) /\
      length got = Z.to_nat c /\ NoDup got).
Proof.
  intros Hc Hfresh.
  pose proof (alloc_n_length alloc (Z.to_nat c) h) as Hal.
  pose proof (alloc_n_NoDup alloc (Z.to_nat c) h Hfresh) as Hnd.
  pose proof (proj2 (alloc_n_fresh alloc (Z.to_nat c) h Hfresh)) as Hheap.
  split; [|split; [|split; [|split; [|split; [|split]]]]].
  - destruct (MutexRingBufferPoolFacts.mrb_New c alloc clean h Hc)
      as (p0 & Hnew & Hwf & Hres & _).
    destruct (fresh_drain _ _ _ _ _ MutexRingBufferPoolFacts.mrb_Get_next
                p0 (alloc_n alloc (Z.to_nat c) h).2 _ _ Hwf (or_introl Hres) Hnd Hal)
      as (got & p' & Hget & Hlen & Hgot & _).
    by exists p0, (alloc_n alloc (Z.to_nat c) h).2, got, p'.
  - destruct (RWMutexRingBufferPoolFacts.rwm_New c alloc clean h Hc)
      as (p0 & Hnew & Hwf & Hres & _).
    destruct (fresh_drain _ _ _ _ _ RWMutexRingBufferPoolFacts.rwm_Get_next
                p0 (alloc_n alloc (Z.to_nat c) h).2 _ _ Hwf (or_introl Hres) Hnd Hal)
      as (got & p' & Hget & Hlen & Hgot & _).
    by exists p0, (alloc_n alloc (Z.to_nat c) h).2, got, p'.
  - destruct (ChannelBasedPoolFacts.chan_New c alloc clean h (proj1 Hc))
      as (p0 & Hnew & Hwf & Hres & _).
    destruct (fresh_drain _ _ _ _ _ ChannelBasedPoolFacts.chan_Get_next
                p0 (alloc_n alloc (Z.to_nat c) h).2 _ _ Hwf (or_introl Hres) Hnd Hal)
      as (got & p' & Hget & Hlen & Hgot & _).
    by exists p0, (alloc_n alloc (Z.to_nat c) h).2, got, p'.
  - destruct (MutexBasedPoolFacts.mbp_New c alloc clean h Hc)
      as (p0 & Hnew & Hwf & Hres & _).
    destruct (fresh_drain _ _ (fun p => rev (MutexBasedPool.resident p)) _ _
                MutexBasedPoolFacts.mbp_get_next_rev
                p0 (alloc_n alloc (Z.to_nat c) h).2 _ _ Hwf
                (or_intror (f_equal (@rev ptr) Hres)) Hnd Hal)
      as (got & p' & Hget & Hlen & Hgot & _).
    by exists p0, (alloc_n alloc (Z.to_nat c) h).2, got, p'.
  - destruct (AtomicBasedPoolFacts.abp_New c alloc clean h Hc)
      as (p0 & Hnew & Hwf & Hres & _).
    destruct (fresh_drain _ _ (fun p => rev (AtomicBasedPool.resident p)) _ _
                AtomicBasedPoolFacts.abp_get_next_rev
                p0 (alloc_n alloc (Z.to_nat c) h).2 _ _ Hwf
                (or_intror (f_equal (@rev ptr) Hres)) Hnd Hal)
      as (got & p' & Hget & Hlen & Hgot & _).
    by exists p0, (alloc_n alloc (Z.to_nat c) h).2, got, p'.
  - destruct (CondBasedPoolFacts.cbp_New c alloc clean h Hc)
      as (p0 & Hnew & Hwf & Hres & _).
    destruct (fresh_drain _ _ (fun p => rev (CondBasedPool.resident p)) _ _
                (fun p h => CondBasedPoolFacts.cbp_get_next_rev p h)
                p0 (alloc_n alloc (Z.to_nat c) h).2 _ _ Hwf
                (or_intror (f_equal (@rev ptr) Hres)) Hnd Hal)
      as (got & p' & Hget & Hlen & Hgot & _).
    by exists p0, (alloc_n alloc (Z.to_nat c) h).2, got, p'.
  - destruct (RingBufferCondPoolFacts.rbc_New c alloc clean h Hc)
      as (p0 & Hnew & Hwf & Hres & _).
    destruct (fresh_drain _ _ _ _ _ RingBufferCondPoolFacts.rbc_get_next_pure
                p0 (alloc_n alloc (Z.to_nat c) h).2 _ _ Hwf (or_introl Hres) Hnd Hal)
      as (got & p' & Hget & Hlen & Hgot & _).
    by exists p0, (alloc_n alloc (Z.to_nat c) h).2, got, p'.
Qed.

Lemma fresh_pool_gets_witness :
  (0 <= 3 <= int_max /\ fresh_allocator testAllocator) /\

  (exists p0 h0 got p',
      NewMutexRingBufferPool 3 testAllocator testCleaner [] = Ok (p0, h0) /\
      allocations h0 = (allocations [] + Z.to_nat 3)%nat /\
      get_n MutexRingBufferPool.Get (Z.to_nat 3) p0 h0 = Ok (got, p', h0) /\
      length got = Z.to_nat 3 /\ NoDup got) /\
  (exists p0 h0 got p',
      NewRWMutexRingBufferPool 3 testAllocator testCleaner [] = Ok (p0, h0) /\
      allocations h0 = (allocations [] + Z.to_nat 3)%nat /\
      get_n RWMutexRingBufferPool.Get (Z.to_nat 3) p0 h0 = Ok (got, p', h0) /\
      length got = Z.to_nat 3 /\ NoDup got) /\
  (exists p0 h0 got p',
      NewChannelBasedPool 3 testAllocator testCleaner [] = Ok (p0, h0) /\
      allocations h0 = (allocations [] + Z.to_nat 3)%nat /\
      get_n ChannelBasedPool.Get (Z.to_nat 3) p0 h0 = Ok (got, p', h0) /\
      length got = Z.to_nat 3 /\ NoDup got) /\
  (exists p0 h0 got p',
      NewMutexBasedPool 3 testAllocator testCleaner [] = Ok (p0, h0) /\
      allocations h0 = (allocations [] + Z.to_nat 3)%nat /\
      get_n MutexBasedPool.Get (Z.to_nat 3) p0 h0 = Ok (got, p', h0) /\
      length got = Z.to_nat 3 /\ NoDup got) /\
  (exists p0 h0 got p',
      NewAtomicBasedPool 3 testAllocator testCleaner [] = Ok (p0, h0) /\
      allocations h0 = (allocations [] + Z.to_nat 3)%nat /\
      get_n AtomicBasedPool.Get (Z.to_nat 3) p0 h0 = Ok (got, p', h0) /\
      length got = Z.to_nat 3 /\ NoDup got) /\
  (exists p0 h0 got p',
      NewCondBasedPool 3 testAllocator testCleaner [] = Ok (p0, h0) /\
      allocations h0 = (allocations [] + Z.to_nat 3)%nat /\
      get_n (get_pure CondBasedPool.Get) (Z.to_nat 3) p0 h0 = Ok (got, p', h0) /\
      length got = Z.to_nat 3 /\ NoDup got) /\
  (exists p0 h0 got p',
      NewRingBufferCondPool 3 testAllocator testCleaner [] = Ok (p0, h0) /\
      allocations h0 = (allocations [] + Z.to_nat 3)%nat /\
      get_n (get_pure RingBufferCondPool.Get) (Z.to_nat 3) p0 h0 = Ok (got, p', h0) /\
      length got = Z.to_nat 3 /\ NoDup got).
Proof.
  assert (0 <= 3 <= int_max) as Hc by (unfold int_max; lia).
  split; [split; [exact Hc|exact testAllocator_fresh]|].
  exact (fresh_pool_gets 3 testAllocator testCleaner [] Hc testAllocator_fresh).
Defined.

(** C8 as stated fails on the sharded pools: with capacity 4 and 2 shards the
    constructor pre-populates 2 objects per shard, and four consecutive [Get]
    calls from processor 0 take the 2 objects of shard 0 and then call the
    allocator twice. *)
Lemma sharded_gets_allocate :
  exists p0 h0 got p' h',
    NewShardedAtomicBasedPool 8 4 2 testAllocator testCleaner [] = Ok (p0, h0) /\
    allocations h0 = 4%nat /\
    get_n (fun p h => ShardedAtomicBasedPool.Get p 0 h) 4 p0 h0 = Ok (got, p', h') /\
    got = [Some 1%nat; Some 0%nat; Some 4%nat; Some 5%nat] /\
    allocations h' = 6%nat.
Proof.
  eexists _, _, _, _, _.
  split; [vm_compute; reflexivity|].
  split; [reflexivity|].
  split; [vm_compute; reflexivity|].
  split; reflexivity.
Qed.

(** ** Order of the objects handed out *)

Lemma lifo_rest {A : Type} (l l' : list A) (k : nat) :
  (k <= length l)%nat -> rev l' = drop k (rev l) -> l' = take (length l - k) l.
Proof.
  intros Hk Hrev. apply (f_equal (@rev A)) in Hrev. rewrite rev_involutive in Hrev.
  rewrite Hrev, (firstn_skipn_rev (length l - k) l). do 2 f_equal. lia.
Qed.

(** C9. [resident p] lists the objects held by a segment in their order of
    arrival: the constructor stores the pre-populated objects in allocation
    order, and a [Put] that finds room adds its object at the end. [k]
    consecutive [Get] calls on a segment holding at least [k] objects return
    the [k] oldest, oldest first, on the ring buffer and channel variants
    (first in, first out), and the [k] newest, newest first, on the atomic
    and slice variants (last in, first out). *)
Theorem segment_order
    (p1 : MutexRingBufferPool.t) (p2 : ChannelBasedPool.t)
    (p3 : AtomicBasedPool.t) (p4 : MutexBasedPool.t)
    (x : ptr) (h hx : heap) (k : nat)
    (c : Z) (alloc : Allocator) (clean : Cleaner) :
  MutexRingBufferPool.wf p1 -> ChannelBasedPool.wf p2 ->
  AtomicBasedPool.wf p3 -> MutexBasedPool.wf p4 ->
  ChannelBasedPool.cleaner p2 x h = Ok hx ->
  0 <= c <= int_max ->
  ((exists p0 h0,
       NewMutexRingBufferPool c alloc clean h = Ok (p0, h0) /\
       MutexRingBufferPool.resident p0 = (alloc_n alloc (Z.to_nat c) h).1) /\
   (Z.of_nat (length (MutexRingBufferPool.resident p1)) < MutexRingBufferPool.capacity p1 ->
    exists p',
      MutexRingBufferPool.Put p1 x = Ok p' /\
      MutexRingBufferPool.resident p' = MutexRingBufferPool.resident p1 ++ [x]) /\
   ((k <= length (MutexRingBufferPool.resident p1))%nat ->
    exists p',
      get_n MutexRingBufferPool.Get k p1 h
        = Ok (take k (MutexRingBufferPool.resident p1), p', h) /\
      MutexRingBufferPool.resident p' = drop k (MutexRingBufferPool.resident p1))) /\
  ((exists p0 h0,
       NewChannelBasedPool c alloc clean h = Ok (p0, h0) /\
       ChannelBasedPool.resident p0 = (alloc_n alloc (Z.to_nat c) h).1) /\
   (Z.of_nat (length (ChannelBasedPool.resident p2)) < ChannelBasedPool.capacity p2 ->
    exists p',
      ChannelBasedPool.Put p2 x h = Ok (p', hx) /\
      ChannelBasedPool.resident p' = ChannelBasedPool.resident p2 ++ [x]) /\
   ((k <= length (ChannelBasedPool.resident p2))%nat ->
    exists p',
      get_n ChannelBasedPool.Get k p2 h
        = Ok (take k (ChannelBasedPool.resident p2), p', h) /\
      ChannelBasedPool.resident p' = drop k (ChannelBasedPool.resident p2))) /\
  ((exists p0 h0,
       NewAtomicBasedPool c alloc clean h = Ok (p0, h0) /\
       AtomicBasedPool.resident p0 = (alloc_n alloc (Z.to_nat c) h).1) /\
   (Z.of_nat (length (AtomicBasedPool.resident p3)) < AtomicBasedPool.capacity p3 ->
    exists p',
      AtomicBasedPool.Put p3 x = Ok p' /\
      AtomicBasedPool.resident p' = AtomicBasedPool.resident p3 ++ [x]) /\
   ((k <= length (AtomicBasedPool.resident p3))%nat ->
    exists p',
      get_n AtomicBasedPool.Get k p3 h
        = Ok (take k (rev (AtomicBasedPool.resident p3)), p', h) /\
      AtomicBasedPool.resident p'
        = take (length (AtomicBasedPool.resident p3) - k) (AtomicBasedPool.resident p3))) /\
  ((exists p0 h0,
       NewMutexBasedPool c alloc clean h = Ok (p0, h0) /\
       MutexBasedPool.resident p0 = (alloc_n alloc (Z.to_nat c) h).1) /\
   (Z.of_nat (length (MutexBasedPool.resident p4)) < MutexBasedPool.capacity p4 ->
    exists p',
      MutexBasedPool.Put p4 x = Ok p' /\
      MutexBasedPool.resident p' = MutexBasedPool.resident p4 ++ [x]) /\
   ((k <= length (MutexBasedPool.resident p4))%nat ->
    exists p',
      get_n MutexBasedPool.Get k p4 h
        = Ok (take k (rev (MutexBasedPool.resident p4)), p', h) /\
      MutexBasedPool.resident p'
        = take (length (MutexBasedPool.resident p4) - k) (MutexBasedPool.resident p4))).
Proof.
  intros Hwf1 Hwf2 Hwf3 Hwf4 Hclean Hc.
  split; [|split; [|split]]; (split; [|split]).
  - destruct (MutexRingBufferPoolFacts.mrb_New c alloc clean h Hc)
      as (p0 & Hnew & _ & Hres & _). by eexists _, _.
  - intros Hroom.
    destruct (MutexRingBufferPoolFacts.mrb_Put_room p1 x Hwf1 Hroom)
      as (p' & Hput & _ & Hres & _). by exists p'.
  - intros Hk.
    destruct (segment_drain _ _ _ _ _ MutexRingBufferPoolFacts.mrb_Get_next
                k p1 h Hwf1 Hk) as (p' & Hget & _ & Hres & _).
    by exists p'.
  - destruct (ChannelBasedPoolFacts.chan_New c alloc clean h (proj1 Hc))
      as (p0 & Hnew & _ & Hres & _). by eexists _, _.
  - intros Hroom.
    destruct (ChannelBasedPoolFacts.chan_Put_room p2 x h hx Hwf2 Hroom Hclean)
      as (p' & Hput & _ & Hres & _). by exists p'.
  - intros Hk.
    destruct (segment_drain _ _ _ _ _ ChannelBasedPoolFacts.chan_Get_next
                k p2 h Hwf2 Hk) as (p' & Hget & _ & Hres & _).
    by exists p'.
  - destruct (AtomicBasedPoolFacts.abp_New c alloc clean h Hc)
      as (p0 & Hnew & _ & Hres & _). by eexists _, _.
  - intros Hroom.
    destruct (AtomicBasedPoolFacts.abp_Put_room p3 x Hwf3 Hroom)
      as (p' & Hput & _ & Hres & _). by exists p'.
  - intros Hk.
    destruct (segment_drain _ _ (fun p => rev (AtomicBasedPool.resident p)) _ _
                AtomicBasedPoolFacts.abp_get_next_rev k p3 h Hwf3
                ltac:(cbv beta; by rewrite length_rev)) as (p' & Hget & _ & Hres & _).
    exists p'. split; [done|]. by apply lifo_rest.
  - destruct (MutexBasedPoolFacts.mbp_New c alloc clean h Hc)
      as (p0 & Hnew & _ & Hres & _). by eexists _, _.
  - intros Hroom.
    destruct (MutexBasedPoolFacts.mbp_Put_room p4 x Hwf4 Hroom)
      as (p' & Hput & _ & Hres & _). by exists p'.
  - intros Hk.
    destruct (segment_drain _ _ (fun p => rev (MutexBasedPool.resident p)) _ _
                MutexBasedPoolFacts.mbp_get_next_rev k p4 h Hwf4
                ltac:(cbv beta; by rewrite length_rev)) as (p' & Hget & _ & Hres & _).
    exists p'. split; [done|]. by apply lifo_rest.
Qed.

Lemma stocked_ring_wf : RingBuffer.wf stocked_ring.
Proof.
  unfold RingBuffer.wf, int_max. simpl.
  split; [reflexivity|]. split; [lia|]. split; [lia|].
  right. split; [lia|reflexivity].
Qed.

Lemma stocked_pools_wf :
  MutexRingBufferPool.wf stocked_mutex_ring /\
  RWMutexRingBufferPool.wf stocked_rwmutex_ring /\
  ChannelBasedPool.wf stocked_channel /\
  AtomicBasedPool.wf stocked_atomic /\
  MutexBasedPool.wf stocked_mutex_slice.
Proof.
  split; [split; [exact stocked_ring_wf|reflexivity]|].
  split; [split; [exact stocked_ring_wf|reflexivity]|].
  split; [unfold ChannelBasedPool.wf; simpl; lia|].
  split; [unfold AtomicBasedPool.wf, int_max; simpl; lia|].
  unfold MutexBasedPool.wf, len, int_max; simpl. split; [lia|reflexivity].
Qed.

Lemma segment_order_witness :
  (MutexRingBufferPool.wf stocked_mutex_ring /\
   ChannelBasedPool.wf stocked_channel /\
   AtomicBasedPool.wf stocked_atomic /\
   MutexBasedPool.wf stocked_mutex_slice /\
   ChannelBasedPool.cleaner stocked_channel (Some 2%nat) stocked_heap = Ok cleaned_heap /\
   0 <= 3 <= int_max) /\

  ((exists p0 h0,
       NewMutexRingBufferPool 3 testAllocator testCleaner stocked_heap = Ok (p0, h0) /\
       MutexRingBufferPool.resident p0 = (alloc_n testAllocator (Z.to_nat 3) stocked_heap).1) /\
   (Z.of_nat (length (MutexRingBufferPool.resident stocked_mutex_ring)) < MutexRingBufferPool.capacity stocked_mutex_ring ->
    exists p',
      MutexRingBufferPool.Put stocked_mutex_ring (Some 2%nat) = Ok p' /\
      MutexRingBufferPool.resident p' = MutexRingBufferPool.resident stocked_mutex_ring ++ [(Some 2%nat)]) /\
   ((2%nat <= length (MutexRingBufferPool.resident stocked_mutex_ring))%nat ->
    exists p',
      get_n MutexRingBufferPool.Get 2%nat stocked_mutex_ring stocked_heap
        = Ok (take 2%nat (MutexRingBufferPool.resident stocked_mutex_ring), p', stocked_heap) /\
      MutexRingBufferPool.resident p' = drop 2%nat (MutexRingBufferPool.resident stocked_mutex_ring))) /\
  ((exists p0 h0,
       NewChannelBasedPool 3 testAllocator testCleaner stocked_heap = Ok (p0, h0) /\
       ChannelBasedPool.resident p0 = (alloc_n testAllocator (Z.to_nat 3) stocked_heap).1) /\
   (Z.of_nat (length (ChannelBasedPool.resident stocked_channel)) < ChannelBasedPool.capacity stocked_channel ->
    exists p',
      ChannelBasedPool.Put stocked_channel (Some 2%nat) stocked_heap = Ok (p', cleaned_heap) /\
      ChannelBasedPool.resident p' = ChannelBasedPool.resident stocked_channel ++ [(Some 2%nat)]) /\
   ((2%nat <= length (ChannelBasedPool.resident stocked_channel))%nat ->
    exists p',
      get_n ChannelBasedPool.Get 2%nat stocked_channel stocked_heap
        = Ok (take 2%nat (ChannelBasedPool.resident stocked_channel), p', stocked_heap) /\
      ChannelBasedPool.resident p' = drop 2%nat (ChannelBasedPool.resident stocked_channel))) /\
  ((exists p0 h0,
       NewAtomicBasedPool 3 testAllocator testCleaner stocked_heap = Ok (p0, h0) /\
       AtomicBasedPool.resident p0 = (alloc_n testAllocator (Z.to_nat 3) stocked_heap).1) /\
   (Z.of_nat (length (AtomicBasedPool.resident stocked_atomic)) < AtomicBasedPool.capacity stocked_atomic ->
    exists p',
      AtomicBasedPool.Put stocked_atomic (Some 2%nat) = Ok p' /\
      AtomicBasedPool.resident p' = AtomicBasedPool.resident stocked_atomic ++ [(Some 2%nat)]) /\
   ((2%nat <= length (AtomicBasedPool.resident stocked_atomic))%nat ->
    exists p',
      get_n AtomicBasedPool.Get 2%nat stocked_atomic stocked_heap
        = Ok (take 2%nat (rev (AtomicBasedPool.resident stocked_atomic)), p', stocked_heap) /\
      AtomicBasedPool.resident p'
        = take (length (AtomicBasedPool.resident stocked_atomic) - 2%nat) (AtomicBasedPool.resident stocked_atomic))) /\
  ((exists p0 h0,
       NewMutexBasedPool 3 testAllocator testCleaner stocked_heap = Ok (p0, h0) /\
       MutexBasedPool.resident p0 = (alloc_n testAllocator (Z.to_nat 3) stocked_heap).1) /\
   (Z.of_nat (length (MutexBasedPool.resident stocked_mutex_slice)) < MutexBasedPool.capacity stocked_mutex_slice ->
    exists p',
      MutexBasedPool.Put stocked_mutex_slice (Some 2%nat) = Ok p' /\
      MutexBasedPool.resident p' = MutexBasedPool.resident stocked_mutex_slice ++ [(Some 2%nat)]) /\
   ((2%nat <= length (MutexBasedPool.resident stocked_mutex_slice))%nat ->
    exists p',
      get_n MutexBasedPool.Get 2%nat stocked_mutex_slice stocked_heap
        = Ok (take 2%nat (rev (MutexBasedPool.resident stocked_mutex_slice)), p', stocked_heap) /\
      MutexBasedPool.resident p'
        = take (length (MutexBasedPool.resident stocked_mutex_slice) - 2%nat) (MutexBasedPool.resident stocked_mutex_slice))).
Proof.
  destruct stocked_pools_wf as (H1 & _ & H2 & H3 & H4).
  assert (ChannelBasedPool.cleaner stocked_channel (Some 2%nat) stocked_heap
          = Ok cleaned_heap) as Hclean by reflexivity.
  assert (0 <= 3 <= int_max) as Hc by (unfold int_max; lia).
  split; [done|].
  exact (segment_order stocked_mutex_ring stocked_channel stocked_atomic
           stocked_mutex_slice (Some 2%nat) stocked_heap cleaned_heap 2
           3 testAllocator testCleaner H1 H2 H3 H4 Hclean Hc).
Defined.

(** ** Put *)

(** C2, as the code has it. On the mutex ring buffer, read/write-mutex ring
    buffer, mutex slice, atomic and both condition-variable variants, [Put]
    returns the object to the pool when there is room -- it becomes the
    newest resident -- and on a segment at capacity returns with the segment
    unchanged, the object discarded. The channel variant applies the cleaner
    first: a cleaner panic is the panic of [Put]; after the cleaner the object
    is sent on the channel, which makes it the newest resident when there is
    room and parks the caller when the channel is at capacity. *)
Theorem put_returns_or_drops
    (p1 : MutexRingBufferPool.t) (p2 : RWMutexRingBufferPool.t)
    (p3 : MutexBasedPool.t) (p4 : AtomicBasedPool.t)
    (p5 : CondBasedPool.t) (p6 : RingBufferCondPool.t)
    (p7 : ChannelBasedPool.t) (obj : ptr) (h : heap) :
  MutexRingBufferPool.wf p1 -> RWMutexRingBufferPool.wf p2 ->
  MutexBasedPool.wf p3 -> AtomicBasedPool.wf p4 ->
  CondBasedPool.wf p5 -> RingBufferCondPool.wf p6 ->
  ChannelBasedPool.wf p7 ->
  ((Z.of_nat (length (MutexRingBufferPool.resident p1)) < MutexRingBufferPool.capacity p1 ->
    exists p',
      MutexRingBufferPool.Put p1 obj = Ok p' /\ MutexRingBufferPool.wf p' /\
      MutexRingBufferPool.resident p' = MutexRingBufferPool.resident p1 ++ [obj]) /\
   (MutexRingBufferPool.capacity p1 <= Z.of_nat (length (MutexRingBufferPool.resident p1)) ->
    MutexRingBufferPool.Put p1 obj = Ok p1)) /\
  ((Z.of_nat (length (RWMutexRingBufferPool.resident p2)) < RWMutexRingBufferPool.capacity p2 ->
    exists p',
      RWMutexRingBufferPool.Put p2 obj = Ok p' /\ RWMutexRingBufferPool.wf p' /\
      RWMutexRingBufferPool.resident p' = RWMutexRingBufferPool.resident p2 ++ [obj]) /\
   (RWMutexRingBufferPool.capacity p2 <= Z.of_nat (length (RWMutexRingBufferPool.resident p2)) ->
    RWMutexRingBufferPool.Put p2 obj = Ok p2)) /\
  ((Z.of_nat (length (MutexBasedPool.resident p3)) < MutexBasedPool.capacity p3 ->
    exists p',
      MutexBasedPool.Put p3 obj = Ok p' /\ MutexBasedPool.wf p' /\
      MutexBasedPool.resident p' = MutexBasedPool.resident p3 ++ [obj]) /\
   (MutexBasedPool.capacity p3 <= Z.of_nat (length (MutexBasedPool.resident p3)) ->
    MutexBasedPool.Put p3 obj = Ok p3)) /\
  ((Z.of_nat (length (AtomicBasedPool.resident p4)) < AtomicBasedPool.capacity p4 ->
    exists p',
      AtomicBasedPool.Put p4 obj = Ok p' /\ AtomicBasedPool.wf p' /\
      AtomicBasedPool.resident p' = AtomicBasedPool.resident p4 ++ [obj]) /\
   (AtomicBasedPool.capacity p4 <= Z.of_nat (length (AtomicBasedPool.resident p4)) ->
    AtomicBasedPool.Put p4 obj = Ok p4)) /\
  ((Z.of_nat (length (CondBasedPool.resident p5)) < CondBasedPool.capacity p5 ->
    exists p',
      CondBasedPool.Put p5 obj = Ok p' /\ CondBasedPool.wf p' /\
      CondBasedPool.resident p' = CondBasedPool.resident p5 ++ [obj]) /\
   (CondBasedPool.capacity p5 <= Z.of_nat (length (CondBasedPool.resident p5)) ->
    CondBasedPool.Put p5 obj = Ok p5)) /\
  ((Z.of_nat (length (RingBufferCondPool.resident p6)) < RingBufferCondPool.capacity p6 ->
    exists p',
      RingBufferCondPool.Put p6 obj = Ok p' /\ RingBufferCondPool.wf p' /\
      RingBufferCondPool.resident p' = RingBufferCondPool.resident p6 ++ [obj]) /\
   (RingBufferCondPool.capacity p6 <= Z.of_nat (length (RingBufferCondPool.resident p6)) ->
    RingBufferCondPool.Put p6 obj = Ok p6)) /\
  ((ChannelBasedPool.cleaner p7 obj h = Panic -> ChannelBasedPool.Put p7 obj h = Panic) /\
   (forall h',
       ChannelBasedPool.cleaner p7 obj h = Ok h' ->
       (Z.of_nat (length (ChannelBasedPool.resident p7)) < ChannelBasedPool.capacity p7 ->
        exists p',
          ChannelBasedPool.Put p7 obj h = Ok (p', h') /\ ChannelBasedPool.wf p' /\
          ChannelBasedPool.resident p' = ChannelBasedPool.resident p7 ++ [obj]) /\
       (ChannelBasedPool.capacity p7 <= Z.of_nat (length (ChannelBasedPool.resident p7)) ->
        ChannelBasedPool.Put p7 obj h = Blocked))).
Proof.
  intros Hp1 Hp2 Hp3 Hp4 Hp5 Hp6 Hp7.
  split; [|split; [|split; [|split; [|split; [|split]]]]].
  - split.
    + intros Hroom.
      destruct (MutexRingBufferPoolFacts.mrb_Put_room p1 obj Hp1 Hroom) as (p' & Hput & Hwf' & Hres & _).
      by exists p'.
    + intros Hfull. by apply MutexRingBufferPoolFacts.mrb_Put_full.
  - split.
    + intros Hroom.
      destruct (RWMutexRingBufferPoolFacts.rwm_Put_room p2 obj Hp2 Hroom) as (p' & Hput & Hwf' & Hres & _).
      by exists p'.
    + intros Hfull. by apply RWMutexRingBufferPoolFacts.rwm_Put_full.
  - split.
    + intros Hroom.
      destruct (MutexBasedPoolFacts.mbp_Put_room p3 obj Hp3 Hroom) as (p' & Hput & Hwf' & Hres & _).
      by exists p'.
    + intros Hfull. by apply MutexBasedPoolFacts.mbp_Put_full.
  - split.
    + intros Hroom.
      destruct (AtomicBasedPoolFacts.abp_Put_room p4 obj Hp4 Hroom) as (p' & Hput & Hwf' & Hres & _).
      by exists p'.
    + intros Hfull. by apply AtomicBasedPoolFacts.abp_Put_full.
  - split.
    + intros Hroom.
      destruct (CondBasedPoolFacts.cbp_Put_room p5 obj Hp5 Hroom) as (p' & Hput & Hwf' & Hres & _).
      by exists p'.
    + intros Hfull. by apply CondBasedPoolFacts.cbp_Put_full.
  - split.
    + intros Hroom.
      destruct (RingBufferCondPoolFacts.rbc_Put_room p6 obj Hp6 Hroom) as (p' & Hput & Hwf' & Hres & _).
      by exists p'.
    + intros Hfull. by apply RingBufferCondPoolFacts.rbc_Put_full.
  - split.
    + intros Hpanic. unfold ChannelBasedPool.Put. by rewrite Hpanic.
    + intros h' Hclean. split.
      * intros Hroom.
        destruct (ChannelBasedPoolFacts.chan_Put_room p7 obj h h' Hp7 Hroom Hclean)
          as (p' & Hput & Hwf' & Hres & _).
        by exists p'.
      * intros Hfull. by eapply ChannelBasedPoolFacts.chan_Put_full.
Qed.

Lemma stocked_cond_pools_wf :
  CondBasedPool.wf stocked_cond_slice /\ RingBufferCondPool.wf stocked_cond_ring.
Proof.
  split; [|split; [exact stocked_ring_wf|reflexivity]].
  unfold CondBasedPool.wf, len, int_max; simpl. split; [lia|reflexivity].
Qed.

Lemma put_returns_or_drops_witness :
  (MutexRingBufferPool.wf stocked_mutex_ring /\
   RWMutexRingBufferPool.wf stocked_rwmutex_ring /\
   MutexBasedPool.wf stocked_mutex_slice /\
   AtomicBasedPool.wf stocked_atomic /\
   CondBasedPool.wf stocked_cond_slice /\
   RingBufferCondPool.wf stocked_cond_ring /\
   ChannelBasedPool.wf stocked_channel) /\

  ((Z.of_nat (length (MutexRingBufferPool.resident stocked_mutex_ring)) < MutexRingBufferPool.capacity stocked_mutex_ring ->
    exists p',
      MutexRingBufferPool.Put stocked_mutex_ring (Some 2%nat) = Ok p' /\ MutexRingBufferPool.wf p' /\
      MutexRingBufferPool.resident p' = MutexRingBufferPool.resident stocked_mutex_ring ++ [(Some 2%nat)]) /\
   (MutexRingBufferPool.capacity stocked_mutex_ring <= Z.of_nat (length (MutexRingBufferPool.resident stocked_mutex_ring)) ->
    MutexRingBufferPool.Put stocked_mutex_ring (Some 2%nat) = Ok stocked_mutex_ring)) /\
  ((Z.of_nat (length (RWMutexRingBufferPool.resident stocked_rwmutex_ring)) < RWMutexRingBufferPool.capacity stocked_rwmutex_ring ->
    exists p',
      RWMutexRingBufferPool.Put stocked_rwmutex_ring (Some 2%nat) = Ok p' /\ RWMutexRingBufferPool.wf p' /\
      RWMutexRingBufferPool.resident p' = RWMutexRingBufferPool.resident stocked_rwmutex_ring ++ [(Some 2%nat)]) /\
   (RWMutexRingBufferPool.capacity stocked_rwmutex_ring <= Z.of_nat (length (RWMutexRingBufferPool.resident stocked_rwmutex_ring)) ->
    RWMutexRingBufferPool.Put stocked_rwmutex_ring (Some 2%nat) = Ok stocked_rwmutex_ring)) /\
  ((Z.of_nat (length (MutexBasedPool.resident stocked_mutex_slice)) < MutexBasedPool.capacity stocked_mutex_slice ->
    exists p',
      MutexBasedPool.Put stocked_mutex_slice (Some 2%nat) = Ok p' /\ MutexBasedPool.wf p' /\
      MutexBasedPool.resident p' = MutexBasedPool.resident stocked_mutex_slice ++ [(Some 2%nat)]) /\
   (MutexBasedPool.capacity stocked_mutex_slice <= Z.of_nat (length (MutexBasedPool.resident stocked_mutex_slice)) ->
    MutexBasedPool.Put stocked_mutex_slice (Some 2%nat) = Ok stocked_mutex_slice)) /\
  ((Z.of_nat (length (AtomicBasedPool.resident stocked_atomic)) < AtomicBasedPool.capacity stocked_atomic ->
    exists p',
      AtomicBasedPool.Put stocked_atomic (Some 2%nat) = Ok p' /\ AtomicBasedPool.wf p' /\
      AtomicBasedPool.resident p' = AtomicBasedPool.resident stocked_atomic ++ [(Some 2%nat)]) /\
   (AtomicBasedPool.capacity stocked_atomic <= Z.of_nat (length (AtomicBasedPool.resident stocked_atomic)) ->
    AtomicBasedPool.Put stocked_atomic (Some 2%nat) = Ok stocked_atomic)) /\
  ((Z.of_nat (length (CondBasedPool.resident stocked_cond_slice)) < CondBasedPool.capacity stocked_cond_slice ->
    exists p',
      CondBasedPool.Put stocked_cond_slice (Some 2%nat) = Ok p' /\ CondBasedPool.wf p' /\
      CondBasedPool.resident p' = CondBasedPool.resident stocked_cond_slice ++ [(Some 2%nat)]) /\
   (CondBasedPool.capacity stocked_cond_slice <= Z.of_nat (length (CondBasedPool.resident stocked_cond_slice)) ->
    CondBasedPool.Put stocked_cond_slice (Some 2%nat) = Ok stocked_cond_slice)) /\
  ((Z.of_nat (length (RingBufferCondPool.resident stocked_cond_ring)) < RingBufferCondPool.capacity stocked_cond_ring ->
    exists p',
      RingBufferCondPool.Put stocked_cond_ring (Some 2%nat) = Ok p' /\ RingBufferCondPool.wf p' /\
      RingBufferCondPool.resident p' = RingBufferCondPool.resident stocked_cond_ring ++ [(Some 2%nat)]) /\
   (RingBufferCondPool.capacity stocked_cond_ring <= Z.of_nat (length (RingBufferCondPool.resident stocked_cond_ring)) ->
    RingBufferCondPool.Put stocked_cond_ring (Some 2%nat) = Ok stocked_cond_ring)) /\
  ((ChannelBasedPool.cleaner stocked_channel (Some 2%nat) stocked_heap = Panic -> ChannelBasedPool.Put stocked_channel (Some 2%nat) stocked_heap = Panic) /\
   (forall h',
       ChannelBasedPool.cleaner stocked_channel (Some 2%nat) stocked_heap = Ok h' ->
       (Z.of_nat (length (ChannelBasedPool.resident stocked_channel)) < ChannelBasedPool.capacity stocked_channel ->
        exists p',
          ChannelBasedPool.Put stocked_channel (Some 2%nat) stocked_heap = Ok (p', h') /\ ChannelBasedPool.wf p' /\
          ChannelBasedPool.resident p' = ChannelBasedPool.resident stocked_channel ++ [(Some 2%nat)]) /\
       (ChannelBasedPool.capacity stocked_channel <= Z.of_nat (length (ChannelBasedPool.resident stocked_channel)) ->
        ChannelBasedPool.Put stocked_channel (Some 2%nat) stocked_heap = Blocked))).
Proof.
  destruct stocked_pools_wf as (H1 & H2 & H7 & H4 & H3).
  destruct stocked_cond_pools_wf as (H5 & H6).
  split; [done|].
  exact (put_returns_or_drops stocked_mutex_ring stocked_rwmutex_ring
           stocked_mutex_slice stocked_atomic stocked_cond_slice stocked_cond_ring
           stocked_channel (Some 2%nat) stocked_heap H1 H2 H3 H4 H5 H6 H7).
Defined.

(** C2 as stated fails in two places. A channel pool at capacity does not
    discard: [Put] parks the caller on the full channel. And the mutex ring
    buffer pool's [Put] stores the object as it is: the object at address 2,
    still holding [ID = 7], becomes resident, and the heap, which this [Put]
    never writes, differs from what [testCleaner] would have made of it. *)
Lemma put_blocks_or_skips_cleaner :
  (exists p0 h0 obj h1,
      NewChannelBasedPool 1 testAllocator testCleaner [] = Ok (p0, h0) /\
      testAllocator h0 = (obj, h1) /\
      ChannelBasedPool.occupancy p0 = ChannelBasedPool.capacity p0 /\
      ChannelBasedPool.Put p0 obj h1 = Blocked) /\
  (exists p',
      MutexRingBufferPool.Put stocked_mutex_ring (Some 2%nat) = Ok p' /\
      MutexRingBufferPool.resident p' = [Some 0%nat; Some 1%nat; Some 2%nat] /\
      deref (Some 2%nat) stocked_heap
        = Ok {| ID := 7; Data := "in use"; shardIndex := -1 |} /\
      MutexRingBufferPool.cleaner stocked_mutex_ring (Some 2%nat) stocked_heap
        = Ok cleaned_heap /\
      cleaned_heap <> stocked_heap).
Proof.
  split.
  - eexists _, _, _, _.
    split; [vm_compute; reflexivity|].
    split; [reflexivity|].
    split; reflexivity.
  - eexists. split; [reflexivity|]. split; [reflexivity|].
    split; [reflexivity|]. split; [reflexivity|]. discriminate.
Qed.

(** ** Sharded pools *)

Lemma build_shards_from {P : Type} (Q : P -> Prop)
    (newShard : heap -> outcome (P * heap)) (n : nat) (i : Z)
    (acc : list P) (h : heap) :
  (forall h, exists s h', newShard h = Ok (s, h') /\ Q s) ->
  Forall Q acc ->
  exists shards h',
    for_range_from i n
      (fun _ (st : list P * heap) =>
         let '(shards, h) := st in
         '(shard, h') ← newShard h;
         Ok (shards ++ [shard], h'))
      (acc, h) = Ok (shards, h') /\
    length shards = (length acc + n)%nat /\ Forall Q shards.
Proof.
  intros Hnew. revert i acc h. induction n as [|n IH]; intros i acc h Hacc.
  - exists acc, h. simpl. split; [done|]. split; [lia|done].
  - cbn [for_range_from]. destruct (Hnew h) as (s & h1 & -> & Hs).
    cbn [mbind outcome_bind].
    destruct (IH (i + 1) (acc ++ [s]) h1) as (shards & h' & -> & Hlen & Hall).
    { apply Forall_app. split; [done|]. by apply Forall_singleton. }
    exists shards, h'. split; [done|]. rewrite length_app in Hlen. simpl in Hlen.
    split; [lia|done].
Qed.

Lemma build_shards_ok {P : Type} (Q : P -> Prop)
    (newShard : heap -> outcome (P * heap)) (n : Z) (h : heap) :
  0 <= n ->
  (forall h, exists s h', newShard h = Ok (s, h') /\ Q s) ->
  exists shards h',
    build_shards n newShard h = Ok (shards, h') /\
    Z.of_nat (length shards) = n /\ Forall Q shards.
Proof.
  intros Hn Hnew. unfold build_shards, for_range.
  destruct (Z.ltb_spec n 0); [lia|].
  destruct (build_shards_from Q newShard (Z.to_nat n) 0 [] h Hnew (Forall_nil_2 _))
    as (shards & h' & Heq & Hlen & Hall).
  exists shards, h'. split; [done|]. simpl in Hlen. split; [lia|done].
Qed.

Lemma valid_mono (obj : ptr) (h h' : heap) :
  valid obj h -> (length h <= length h')%nat -> valid obj h'.
Proof. intros (a & -> & Ha) Hle. exists a. split; [done|lia]. Qed.

Lemma build_shards_heap_from {P : Type} (Q : P -> heap -> Prop)
    (newShard : heap -> outcome (P * heap)) (n : nat) (i : Z)
    (acc : list P) (h : heap) :
  (forall s h h', Q s h -> (length h <= length h')%nat -> Q s h') ->
  (forall h, exists s h',
      newShard h = Ok (s, h') /\ Q s h' /\ (length h <= length h')%nat) ->
  Forall (fun s => Q s h) acc ->
  exists shards h',
    for_range_from i n
      (fun _ (st : list P * heap) =>
         let '(shards, h) := st in
         '(shard, h') ← newShard h;
         Ok (shards ++ [shard], h'))
      (acc, h) = Ok (shards, h') /\
    length shards = (length acc + n)%nat /\ Forall (fun s => Q s h') shards.
Proof.
  intros Hmono Hnew. revert i acc h. induction n as [|n IH]; intros i acc h Hacc.
  - exists acc, h. simpl. split; [done|]. split; [lia|done].
  - cbn [for_range_from]. destruct (Hnew h) as (s & h1 & -> & Hs & Hle).
    cbn [mbind outcome_bind].
    destruct (IH (i + 1) (acc ++ [s]) h1) as (shards & h' & -> & Hlen & Hall).
    { apply Forall_app. split; [|by apply Forall_singleton].
      eapply Forall_impl; [exact Hacc|]. intros s0 Hs0. exact (Hmono s0 h h1 Hs0 Hle). }
    exists shards, h'. split; [done|]. rewrite length_app in Hlen. simpl in Hlen.
    split; [lia|done].
Qed.

Lemma build_shards_heap {P : Type} (Q : P -> heap -> Prop)
    (newShard : heap -> outcome (P * heap)) (n : Z) (h : heap) :
  0 <= n ->
  (forall s h h', Q s h -> (length h <= length h')%nat -> Q s h') ->
  (forall h, exists s h',
      newShard h = Ok (s, h') /\ Q s h' /\ (length h <= length h')%nat) ->
  exists shards h',
    build_shards n newShard h = Ok (shards, h') /\
    Z.of_nat (length shards) = n /\ Forall (fun s => Q s h') shards.
Proof.
  intros Hn Hmono Hnew. unfold build_shards, for_range.
  destruct (Z.ltb_spec n 0); [lia|].
  destruct (build_shards_heap_from Q newShard (Z.to_nat n) 0 [] h Hmono Hnew
              (Forall_nil_2 _)) as (shards & h' & Heq & Hlen & Hall).
  exists shards, h'. split; [done|]. simpl in Hlen. split; [lia|done].
Qed.

Lemma alloc_n_valid (alloc : Allocator) (n : nat) (h : heap) :
  fresh_allocator alloc ->
  Forall (fun obj => valid obj (alloc_n alloc n h).2) (alloc_n alloc n h).1 /\
  (length h <= length (alloc_n alloc n h).2)%nat.
Proof.
  intros Hfresh. destruct (alloc_n_fresh alloc n h Hfresh) as [-> Hlen].
  split; [|lia]. apply Forall_fmap, Forall_forall. intros a Ha.
  apply elem_of_seq in Ha. exists a. simpl. split; [done|lia].
Qed.

Lemma int_quot_pos (a b : Z) :
  is_int a -> 1 <= b -> int_quot a b = Ok (Z.quot a b) /\ is_int (Z.quot a b).
Proof.
  unfold is_int, int_min, int_max. intros Ha Hb.
  assert (- 2 ^ 63 <= a ÷ b <= 2 ^ 63 - 1) as Hq.
  { destruct (Z.le_gt_cases 0 a).
    - pose proof (Z.quot_pos a b ltac:(lia) ltac:(lia)).
      pose proof (Z.quot_le_upper_bound a b a ltac:(lia) ltac:(nia)). lia.
    - pose proof (Z.quot_opp_l a b ltac:(lia)) as Hopp.
      pose proof (Z.quot_pos (- a) b ltac:(lia) ltac:(lia)).
      pose proof (Z.quot_le_upper_bound (- a) b (- a) ltac:(lia) ltac:(nia)). lia. }
  unfold int_quot. destruct (Z.eqb_spec b 0); [lia|].
  split; [|done]. f_equal. apply wrap_id. unfold is_int, int_min, int_max. lia.
Qed.

Lemma sum_constant (c : Z) (l : list Z) :
  Forall (fun x => x = c) l -> foldr Z.add 0 l = Z.of_nat (length l) * c.
Proof.
  induction 1 as [|x l -> _ IH]; [done|].
  cbn [foldr length]. rewrite IH. lia.
Qed.

Lemma shard_capacity_bounds (C n : Z) :
  1 <= n -> n <= C -> n <= n * Z.max (C ÷ n) 1 <= C.
Proof.
  intros Hn HC.
  pose proof (Z.quot_rem' C n) as Hdiv.
  pose proof (Z.rem_bound_pos C n ltac:(lia) ltac:(lia)) as Hrem.
  assert (1 <= C ÷ n) by (apply Z.quot_le_lower_bound; lia).
  rewrite Z.max_l by lia. nia.
Qed.

(** C6. A sharded pool constructed with total capacity [C] and [numShards >= 1]
    shards has [numShards] segments, each constructed with capacity
    [max (C / numShards) 1], the division truncating; their capacities sum to
    [numShards * max (C / numShards) 1], which lies between [numShards] and
    [C] whenever [C >= numShards]. *)
Theorem shard_capacities (gomaxprocs C numShards : Z)
    (alloc : Allocator) (clean : Cleaner) (h : heap) :
  is_int C -> 1 <= numShards ->
  (exists p h',
      NewShardedMutexRingBufferPool gomaxprocs C numShards alloc clean h = Ok (p, h') /\
      Z.of_nat (length (ShardedMutexRingBufferPool.shards p)) = numShards /\
      Forall (fun s => MutexRingBufferPool.capacity s = Z.max (C ÷ numShards) 1) (ShardedMutexRingBufferPool.shards p) /\
      ShardedMutexRingBufferPool.total_capacity p = numShards * Z.max (C ÷ numShards) 1 /\
      (numShards <= C -> numShards <= ShardedMutexRingBufferPool.total_capacity p <= C)) /\
  (exists p h',
      NewShardedChannelBasedPool gomaxprocs C numShards alloc clean h = Ok (p, h') /\
      Z.of_nat (length (ShardedChannelBasedPool.shards p)) = numShards /\
      Forall (fun s => ChannelBasedPool.capacity s = Z.max (C ÷ numShards) 1) (ShardedChannelBasedPool.shards p) /\
      ShardedChannelBasedPool.total_capacity p = numShards * Z.max (C ÷ numShards) 1 /\
      (numShards <= C -> numShards <= ShardedChannelBasedPool.total_capacity p <= C)) /\
  (exists p h',
      NewShardedAtomicBasedPool gomaxprocs C numShards alloc clean h = Ok (p, h') /\
      Z.of_nat (length (ShardedAtomicBasedPool.shards p)) = numShards /\
      Forall (fun s => AtomicBasedPool.capacity s = Z.max (C ÷ numShards) 1) (ShardedAtomicBasedPool.shards p) /\
      ShardedAtomicBasedPool.total_capacity p = numShards * Z.max (C ÷ numShards) 1 /\
      (numShards <= C -> numShards <= ShardedAtomicBasedPool.total_capacity p <= C)).
Proof.
  intros HC Hn.
  destruct (int_quot_pos C numShards HC Hn) as [Hq Hqint].
  assert (0 <= Z.max (C ÷ numShards) 1 <= int_max) as Hcap
    by (unfold is_int, int_max in *; lia).
  split; [|split].
  - unfold NewShardedMutexRingBufferPool, resolve_numShards.
    destruct (Z.leb_spec numShards 0); [lia|]. rewrite Hq. cbn [mbind outcome_bind].
    destruct (build_shards_ok (fun s => MutexRingBufferPool.capacity s = Z.max (C ÷ numShards) 1)
                (NewMutexRingBufferPool (Z.max (C ÷ numShards) 1) alloc clean) numShards h
                ltac:(lia)) as (shards & h' & -> & Hlen & Hall).
    { intros h0. destruct (MutexRingBufferPoolFacts.mrb_New (Z.max (C ÷ numShards) 1) alloc clean h0 ltac:(lia))
        as (s & Hnew & _ & _ & Hcs & _). by eexists _, _. }
    exists {| ShardedMutexRingBufferPool.shards := shards |}, h'. cbn [mbind outcome_bind ShardedMutexRingBufferPool.shards].
    split; [done|]. split; [done|]. split; [done|].
    assert (ShardedMutexRingBufferPool.total_capacity {| ShardedMutexRingBufferPool.shards := shards |}
            = numShards * Z.max (C ÷ numShards) 1) as Htotal.
    { unfold ShardedMutexRingBufferPool.total_capacity. cbn [ShardedMutexRingBufferPool.shards].
      rewrite (sum_constant (Z.max (C ÷ numShards) 1)) by (by apply Forall_fmap).
      rewrite length_fmap. by rewrite Hlen. }
    split; [done|]. intros HnC. rewrite Htotal. by apply shard_capacity_bounds.
  - unfold NewShardedChannelBasedPool, resolve_numShards.
    destruct (Z.leb_spec numShards 0); [lia|]. rewrite Hq. cbn [mbind outcome_bind].
    replace (if C ÷ numShards <? 1 then 1 else C ÷ numShards) with (Z.max (C ÷ numShards) 1)
      by (destruct (Z.ltb_spec (C ÷ numShards) 1); lia).
    destruct (build_shards_ok (fun s => ChannelBasedPool.capacity s = Z.max (C ÷ numShards) 1)
                (NewChannelBasedPool (Z.max (C ÷ numShards) 1) alloc clean) numShards h
                ltac:(lia)) as (shards & h' & -> & Hlen & Hall).
    { intros h0. destruct (ChannelBasedPoolFacts.chan_New (Z.max (C ÷ numShards) 1) alloc clean h0 ltac:(lia))
        as (s & Hnew & _ & _ & Hcs & _). by eexists _, _. }
    exists {| ShardedChannelBasedPool.shards := shards |}, h'. cbn [mbind outcome_bind ShardedChannelBasedPool.shards].
    split; [done|]. split; [done|]. split; [done|].
    assert (ShardedChannelBasedPool.total_capacity {| ShardedChannelBasedPool.shards := shards |}
            = numShards * Z.max (C ÷ numShards) 1) as Htotal.
    { unfold ShardedChannelBasedPool.total_capacity. cbn [ShardedChannelBasedPool.shards].
      rewrite (sum_constant (Z.max (C ÷ numShards) 1)) by (by apply Forall_fmap).
      rewrite length_fmap. by rewrite Hlen. }
    split; [done|]. intros HnC. rewrite Htotal. by apply shard_capacity_bounds.
  - unfold NewShardedAtomicBasedPool, resolve_numShards.
    destruct (Z.leb_spec numShards 0); [lia|]. rewrite Hq. cbn [mbind outcome_bind].
    destruct (build_shards_ok (fun s => AtomicBasedPool.capacity s = Z.max (C ÷ numShards) 1)
                (NewAtomicBasedPool (Z.max (C ÷ numShards) 1) alloc clean) numShards h
                ltac:(lia)) as (shards & h' & -> & Hlen & Hall).
    { intros h0. destruct (AtomicBasedPoolFacts.abp_New (Z.max (C ÷ numShards) 1) alloc clean h0 ltac:(lia))
        as (s & Hnew & _ & _ & Hcs & _). by eexists _, _. }
    exists {| ShardedAtomicBasedPool.shards := shards |}, h'. cbn [mbind outcome_bind ShardedAtomicBasedPool.shards].
    split; [done|]. split; [done|]. split; [done|].
    assert (ShardedAtomicBasedPool.total_capacity {| ShardedAtomicBasedPool.shards := shards |}
            = numShards * Z.max (C ÷ numShards) 1) as Htotal.
    { unfold ShardedAtomicBasedPool.total_capacity. cbn [ShardedAtomicBasedPool.shards].
      rewrite (sum_constant (Z.max (C ÷ numShards) 1)) by (by apply Forall_fmap).
      rewrite length_fmap. by rewrite Hlen. }
    split; [done|]. intros HnC. rewrite Htotal. by apply shard_capacity_bounds.
Qed.

Lemma shard_capacities_witness :
  (is_int 10 /\ 1 <= 4) /\

  (exists p h',
      NewShardedMutexRingBufferPool 8 10 4 testAllocator testCleaner [] = Ok (p, h') /\
      Z.of_nat (length (ShardedMutexRingBufferPool.shards p)) = 4 /\
      Forall (fun s => MutexRingBufferPool.capacity s = Z.max (10 ÷ 4) 1) (ShardedMutexRingBufferPool.shards p) /\
      ShardedMutexRingBufferPool.total_capacity p = 4 * Z.max (10 ÷ 4) 1 /\
      (4 <= 10 -> 4 <= ShardedMutexRingBufferPool.total_capacity p <= 10)) /\
  (exists p h',
      NewShardedChannelBasedPool 8 10 4 testAllocator testCleaner [] = Ok (p, h') /\
      Z.of_nat (length (ShardedChannelBasedPool.shards p)) = 4 /\
      Forall (fun s => ChannelBasedPool.capacity s = Z.max (10 ÷ 4) 1) (ShardedChannelBasedPool.shards p) /\
      ShardedChannelBasedPool.total_capacity p = 4 * Z.max (10 ÷ 4) 1 /\
      (4 <= 10 -> 4 <= ShardedChannelBasedPool.total_capacity p <= 10)) /\
  (exists p h',
      NewShardedAtomicBasedPool 8 10 4 testAllocator testCleaner [] = Ok (p, h') /\
      Z.of_nat (length (ShardedAtomicBasedPool.shards p)) = 4 /\
      Forall (fun s => AtomicBasedPool.capacity s = Z.max (10 ÷ 4) 1) (ShardedAtomicBasedPool.shards p) /\
      ShardedAtomicBasedPool.total_capacity p = 4 * Z.max (10 ÷ 4) 1 /\
      (4 <= 10 -> 4 <= ShardedAtomicBasedPool.total_capacity p <= 10)).
Proof.
  assert (is_int 10) as HC by (unfold is_int, int_min, int_max; lia).
  assert (1 <= 4) as Hn by lia.
  split; [done|].
  exact (shard_capacities 8 10 4 testAllocator testCleaner [] HC Hn).
Defined.

(** *** Pointers into the heap *)

Lemma valid_assign (obj : ptr) (f : testObject -> testObject) (h : heap) :
  valid obj h ->
  exists a o,
    obj = Some a /\ h !! a = Some o /\
    assign obj f h = Ok (<[a := f o]> h) /\
    deref obj (<[a := f o]> h) = Ok (f o).
Proof.
  intros (a & -> & Ha). destruct (lookup_lt_is_Some_2 h a Ha) as [o Ho].
  exists a, o. split; [done|]. split; [done|]. simpl. rewrite Ho.
  split; [done|]. by rewrite list_lookup_insert_eq.
Qed.

Lemma valid_insert (obj : ptr) (a : nat) (o : testObject) (h : heap) :
  valid obj h -> valid obj (<[a := o]> h).
Proof. intros (b & -> & Hb). exists b. by rewrite length_insert. Qed.

Lemma fresh_allocator_valid (alloc : Allocator) (h : heap) :
  fresh_allocator alloc -> valid (alloc h).1 (alloc h).2.
Proof.
  intros Hfresh. destruct (Hfresh h) as [o ->]. simpl.
  exists (length h). split; [done|]. rewrite length_app. simpl. lia.
Qed.

Lemma testCleaner_resets (obj : ptr) (h : heap) :
  valid obj h ->
  exists h' o,
    testCleaner obj h = Ok h' /\ length h' = length h /\
    deref obj h' = Ok o /\ o = {| ID := 0; Data := ""; shardIndex := -1 |}.
Proof.
  intros Hv. unfold testCleaner.
  destruct (valid_assign obj (set_ID 0) h Hv) as (a & o1 & -> & Ho1 & -> & _).
  cbn [mbind outcome_bind].
  pose proof (valid_insert (Some a) a (set_ID 0 o1) h Hv) as Hv1.
  destruct (valid_assign (Some a) (set_Data "") _ Hv1) as (a2 & o2 & [= <-] & Ho2 & -> & _).
  cbn [mbind outcome_bind].
  pose proof (valid_insert (Some a) a (set_Data "" o2) _ Hv1) as Hv2.
  destruct (valid_assign (Some a) (set_shardIndex (-1)) _ Hv2)
    as (a3 & o3 & [= <-] & Ho3 & -> & Hd).
  eexists _, _. split; [done|]. rewrite !length_insert. split; [done|].
  split; [exact Hd|].
  destruct Hv as (b & [= <-] & Hb).
  rewrite list_lookup_insert_eq in Ho3 by (rewrite length_insert; lia).
  rewrite list_lookup_insert_eq in Ho2 by lia.
  injection Ho3 as <-. injection Ho2 as <-. done.
Qed.

(** What a segment's [Get] hands out is a pointer into the heap, provided
    the residents are and the allocator allocates. *)
Section SegmentValid.
Context {P : Type}.
Variable get : P -> heap -> outcome (ptr * P * heap).
Variable wf : P -> Prop.
Variable next : P -> list ptr.
Variable cap : P -> Z.
Variable alloc : P -> Allocator.

Hypothesis get_next : forall p h x l,
  wf p -> next p = x :: l ->
  exists p', get p h = Ok (x, p', h) /\ wf p' /\ next p' = l /\
             cap p' = cap p /\ alloc p' = alloc p.

Hypothesis get_empty : forall p h,
  wf p -> next p = [] -> get p h = Ok ((alloc p h).1, p, (alloc p h).2).

Lemma segment_get_valid (p : P) (h : heap) :
  wf p -> fresh_allocator (alloc p) -> Forall (fun obj => valid obj h) (next p) ->
  exists x p' h', get p h = Ok (x, p', h') /\ valid x h'.
Proof.
  intros Hwf Hfresh Hvalid. destruct (next p) as [|x l] eqn:Hnext.
  - rewrite get_empty by done. eexists _, _, _. split; [done|].
    by apply fresh_allocator_valid.
  - destruct (get_next p h x l Hwf Hnext) as (p' & -> & _).
    eexists _, _, _. split; [done|]. by apply Forall_cons in Hvalid as [? _].
Qed.

Lemma segment_get_keeps (p : P) (h : heap) (x : ptr) (p' : P) (h' : heap) :
  wf p -> fresh_allocator (alloc p) -> Forall (fun obj => valid obj h) (next p) ->
  get p h = Ok (x, p', h') ->
  wf p' /\ fresh_allocator (alloc p') /\
  Forall (fun obj => valid obj h') (next p') /\ (length h <= length h')%nat.
Proof.
  intros Hwf Hfresh Hvalid Hget. destruct (next p) as [|y l] eqn:Hnext.
  - rewrite get_empty in Hget by done. injection Hget as _ <- <-.
    rewrite Hnext. destruct (Hfresh h) as [o ->]. simpl. rewrite length_app. simpl.
    split; [done|]. split; [done|]. split; [done|lia].
  - destruct (get_next p h y l Hwf Hnext) as (p1 & Hget1 & Hwf1 & Hn1 & _ & Ha1).
    rewrite Hget1 in Hget. injection Hget as _ <- <-.
    rewrite Hn1, Ha1. apply Forall_cons in Hvalid as [_ Hl].
    split; [done|]. split; [done|]. split; [done|lia].
Qed.

End SegmentValid.

Lemma index_slice_range {T : Type} (s : list T) (i : Z) (x : T) :
  index_slice s i = Ok x -> 0 <= i < Z.of_nat (length s).
Proof.
  intros Hi. apply index_slice_Ok in Hi as [Hi Hx].
  apply lookup_lt_Some in Hx. lia.
Qed.

Lemma smr_Get_stamps (p : ShardedMutexRingBufferPool.t) (procPin : Z) (h : heap) :
  ShardedMutexRingBufferPool.wf p h -> 0 <= procPin < Z.of_nat (length (ShardedMutexRingBufferPool.shards p)) ->
  exists x p' h' o s s' h1,
    ShardedMutexRingBufferPool.Get p procPin h = Ok (x, p', h') /\
    deref x h' = Ok o /\ shardIndex o = procPin /\
    ShardedMutexRingBufferPool.shards p !! Z.to_nat procPin = Some s /\
    MutexRingBufferPool.Get s h = Ok (x, s', h1) /\
    ShardedMutexRingBufferPool.shards p' = <[Z.to_nat procPin := s']> (ShardedMutexRingBufferPool.shards p).
Proof.
  intros Hwf Hpin.
  destruct (index_slice_in (ShardedMutexRingBufferPool.shards p) procPin Hpin) as (s & Hs & Hidx).
  pose proof (proj1 (Forall_lookup _ _) Hwf _ _ Hs) as (Hswf & Hfresh & Hval).
  destruct (segment_get_valid MutexRingBufferPool.Get MutexRingBufferPool.wf _ MutexRingBufferPool.capacity MutexRingBufferPool.allocator
              MutexRingBufferPoolFacts.mrb_Get_next MutexRingBufferPoolFacts.mrb_Get_empty s h Hswf Hfresh Hval)
    as (x & s' & h1 & Hget & Hx).
  destruct (valid_assign x (set_shardIndex procPin) h1 Hx) as (a & o & -> & Ho & Hassign & Hderef).
  eexists _, _, _, _, s, s', h1.
  unfold ShardedMutexRingBufferPool.Get. rewrite Hidx. cbn [mbind outcome_bind]. rewrite Hget.
  cbn [mbind outcome_bind]. rewrite Hassign. cbn [mbind outcome_bind].
  split; [done|]. split; [exact Hderef|]. by repeat split.
Qed.

Lemma smr_Get_range (p : ShardedMutexRingBufferPool.t) (procPin : Z) (h : heap)
    (r : ptr * ShardedMutexRingBufferPool.t * heap) :
  ShardedMutexRingBufferPool.Get p procPin h = Ok r ->
  0 <= procPin < Z.of_nat (length (ShardedMutexRingBufferPool.shards p)).
Proof.
  unfold ShardedMutexRingBufferPool.Get. intros Hget.
  destruct (index_slice (ShardedMutexRingBufferPool.shards p) procPin) as [s| |] eqn:Hidx; [|done..].
  by apply index_slice_range in Hidx.
Qed.

Lemma sch_Get_stamps (p : ShardedChannelBasedPool.t) (procPin : Z) (h : heap) :
  ShardedChannelBasedPool.wf p h -> 0 <= procPin < Z.of_nat (length (ShardedChannelBasedPool.shards p)) ->
  exists x p' h' o s s' h1,
    ShardedChannelBasedPool.Get p procPin h = Ok (x, p', h') /\
    deref x h' = Ok o /\ shardIndex o = procPin /\
    ShardedChannelBasedPool.shards p !! Z.to_nat procPin = Some s /\
    ChannelBasedPool.Get s h = Ok (x, s', h1) /\
    ShardedChannelBasedPool.shards p' = <[Z.to_nat procPin := s']> (ShardedChannelBasedPool.shards p).
Proof.
  intros Hwf Hpin.
  destruct (index_slice_in (ShardedChannelBasedPool.shards p) procPin Hpin) as (s & Hs & Hidx).
  pose proof (proj1 (Forall_lookup _ _) Hwf _ _ Hs) as (Hswf & Hfresh & Hval).
  destruct (segment_get_valid ChannelBasedPool.Get ChannelBasedPool.wf _ ChannelBasedPool.capacity ChannelBasedPool.allocator
              ChannelBasedPoolFacts.chan_Get_next ChannelBasedPoolFacts.chan_Get_empty s h Hswf Hfresh Hval)
    as (x & s' & h1 & Hget & Hx).
  destruct (valid_assign x (set_shardIndex procPin) h1 Hx) as (a & o & -> & Ho & Hassign & Hderef).
  eexists _, _, _, _, s, s', h1.
  unfold ShardedChannelBasedPool.Get. rewrite Hidx. cbn [mbind outcome_bind]. rewrite Hget.
  cbn [mbind outcome_bind]. rewrite Hassign. cbn [mbind outcome_bind].
  split; [done|]. split; [exact Hderef|]. by repeat split.
Qed.

Lemma sch_Get_range (p : ShardedChannelBasedPool.t) (procPin : Z) (h : heap)
    (r : ptr * ShardedChannelBasedPool.t * heap) :
  ShardedChannelBasedPool.Get p procPin h = Ok r ->
  0 <= procPin < Z.of_nat (length (ShardedChannelBasedPool.shards p)).
Proof.
  unfold ShardedChannelBasedPool.Get. intros Hget.
  destruct (index_slice (ShardedChannelBasedPool.shards p) procPin) as [s| |] eqn:Hidx; [|done..].
  by apply index_slice_range in Hidx.
Qed.

Lemma sab_Get_stamps (p : ShardedAtomicBasedPool.t) (procPin : Z) (h : heap) :
  ShardedAtomicBasedPool.wf p h -> 0 <= procPin < Z.of_nat (length (ShardedAtomicBasedPool.shards p)) ->
  exists x p' h' o s s' h1,
    ShardedAtomicBasedPool.Get p procPin h = Ok (x, p', h') /\
    deref x h' = Ok o /\ shardIndex o = procPin /\
    ShardedAtomicBasedPool.shards p !! Z.to_nat procPin = Some s /\
    AtomicBasedPool.Get s h = Ok (x, s', h1) /\
    ShardedAtomicBasedPool.shards p' = <[Z.to_nat procPin := s']> (ShardedAtomicBasedPool.shards p).
Proof.
  intros Hwf Hpin.
  destruct (index_slice_in (ShardedAtomicBasedPool.shards p) procPin Hpin) as (s & Hs & Hidx).
  pose proof (proj1 (Forall_lookup _ _) Hwf _ _ Hs) as (Hswf & Hfresh & Hval).
  destruct (segment_get_valid AtomicBasedPool.Get AtomicBasedPool.wf (fun s => rev (AtomicBasedPool.resident s)) AtomicBasedPool.capacity AtomicBasedPool.allocator
              AtomicBasedPoolFacts.abp_get_next_rev AtomicBasedPoolFacts.abp_get_empty_rev s h Hswf Hfresh ltac:(cbv beta; by apply Forall_rev))
    as (x & s' & h1 & Hget & Hx).
  destruct (valid_assign x (set_shardIndex procPin) h1 Hx) as (a & o & -> & Ho & Hassign & Hderef).
  eexists _, _, _, _, s, s', h1.
  unfold ShardedAtomicBasedPool.Get. rewrite Hidx. cbn [mbind outcome_bind]. rewrite Hget.
  cbn [mbind outcome_bind]. rewrite Hassign. cbn [mbind outcome_bind].
  split; [done|]. split; [exact Hderef|]. by repeat split.
Qed.

Lemma sab_Get_range (p : ShardedAtomicBasedPool.t) (procPin : Z) (h : heap)
    (r : ptr * ShardedAtomicBasedPool.t * heap) :
  ShardedAtomicBasedPool.Get p procPin h = Ok r ->
  0 <= procPin < Z.of_nat (length (ShardedAtomicBasedPool.shards p)).
Proof.
  unfold ShardedAtomicBasedPool.Get. intros Hget.
  destruct (index_slice (ShardedAtomicBasedPool.shards p) procPin) as [s| |] eqn:Hidx; [|done..].
  by apply index_slice_range in Hidx.
Qed.

(** C10. On the three proc-pinned sharded pools, a [Get] by a goroutine on
    processor [procPin < numShards] returns an object taken from shard
    [procPin] by that shard's own [Get] -- no other shard changes -- and
    the object's [shardIndex] field holds [procPin] when [Get] returns.
    Whenever a sharded [Get] returns at all, the processor id it used, hence
    the index it stamped, lies in [[0, numShards)]. An object fresh from
    [testAllocator] has [shardIndex = -1], and [testCleaner] sets it back to
    [-1]. *)
Theorem sharded_get_stamps_shard_index
    (p1 : ShardedAtomicBasedPool.t) (p2 : ShardedMutexRingBufferPool.t)
    (p3 : ShardedChannelBasedPool.t) (numShards procPin anyPin : Z)
    (h : heap) (obj : ptr) :
  ShardedAtomicBasedPool.wf p1 h -> ShardedMutexRingBufferPool.wf p2 h ->
  ShardedChannelBasedPool.wf p3 h ->
  Z.of_nat (length (ShardedAtomicBasedPool.shards p1)) = numShards ->
  Z.of_nat (length (ShardedMutexRingBufferPool.shards p2)) = numShards ->
  Z.of_nat (length (ShardedChannelBasedPool.shards p3)) = numShards ->
  0 <= procPin < numShards -> valid obj h ->
  (exists x p' h' o s s' h1,
      ShardedAtomicBasedPool.Get p1 procPin h = Ok (x, p', h') /\
      deref x h' = Ok o /\ shardIndex o = procPin /\
      ShardedAtomicBasedPool.shards p1 !! Z.to_nat procPin = Some s /\
      AtomicBasedPool.Get s h = Ok (x, s', h1) /\
      ShardedAtomicBasedPool.shards p' = <[Z.to_nat procPin := s']> (ShardedAtomicBasedPool.shards p1)) /\
  (exists x p' h' o s s' h1,
      ShardedMutexRingBufferPool.Get p2 procPin h = Ok (x, p', h') /\
      deref x h' = Ok o /\ shardIndex o = procPin /\
      ShardedMutexRingBufferPool.shards p2 !! Z.to_nat procPin = Some s /\
      MutexRingBufferPool.Get s h = Ok (x, s', h1) /\
      ShardedMutexRingBufferPool.shards p' = <[Z.to_nat procPin := s']> (ShardedMutexRingBufferPool.shards p2)) /\
  (exists x p' h' o s s' h1,
      ShardedChannelBasedPool.Get p3 procPin h = Ok (x, p', h') /\
      deref x h' = Ok o /\ shardIndex o = procPin /\
      ShardedChannelBasedPool.shards p3 !! Z.to_nat procPin = Some s /\
      ChannelBasedPool.Get s h = Ok (x, s', h1) /\
      ShardedChannelBasedPool.shards p' = <[Z.to_nat procPin := s']> (ShardedChannelBasedPool.shards p3)) /\
  (forall r, ShardedAtomicBasedPool.Get p1 anyPin h = Ok r ->
             0 <= anyPin < Z.of_nat (length (ShardedAtomicBasedPool.shards p1))) /\
  (forall r, ShardedMutexRingBufferPool.Get p2 anyPin h = Ok r ->
             0 <= anyPin < Z.of_nat (length (ShardedMutexRingBufferPool.shards p2))) /\
  (forall r, ShardedChannelBasedPool.Get p3 anyPin h = Ok r ->
             0 <= anyPin < Z.of_nat (length (ShardedChannelBasedPool.shards p3))) /\
  (exists a o,
      testAllocator h = (Some a, h ++ [o]) /\
      deref (Some a) (h ++ [o]) = Ok o /\ shardIndex o = -1) /\
  (exists hc o,
      testCleaner obj h = Ok hc /\ deref obj hc = Ok o /\ shardIndex o = -1).
Proof.
  intros Hwf1 Hwf2 Hwf3 Hn1 Hn2 Hn3 Hpin Hobj.
  split; [by apply sab_Get_stamps; [|lia]|].
  split; [by apply smr_Get_stamps; [|lia]|].
  split; [by apply sch_Get_stamps; [|lia]|].
  split; [intros r; apply sab_Get_range|].
  split; [intros r; apply smr_Get_range|].
  split; [intros r; apply sch_Get_range|].
  split.
  - eexists _, _. split; [reflexivity|]. split; [|reflexivity].
    simpl. by rewrite list_lookup_middle.
  - destruct (testCleaner_resets obj h Hobj) as (hc & o & Hclean & _ & Hderef & ->).
    by eexists _, _.
Qed.

Lemma fresh_heap_valid (a : nat) : (a < 4)%nat -> valid (Some a) fresh_heap.
Proof. intros Ha. by exists a. Qed.

Lemma full_ring_wf (a b : nat) : RingBuffer.wf (full_ring a b).
Proof.
  unfold RingBuffer.wf, int_max. simpl.
  split; [reflexivity|]. split; [lia|]. split; [lia|].
  right. split; [lia|reflexivity].
Qed.

Lemma fresh_sharded_pools_wf :
  ShardedAtomicBasedPool.wf fresh_sharded_atomic fresh_heap /\
  ShardedMutexRingBufferPool.wf fresh_sharded_mutex_ring fresh_heap /\
  ShardedChannelBasedPool.wf fresh_sharded_channel fresh_heap.
Proof.
  split; [|split].
  - repeat apply Forall_cons_2; try apply Forall_nil_2.
    + split; [unfold AtomicBasedPool.wf, int_max; simpl; lia|].
      split; [exact testAllocator_fresh|].
      repeat apply Forall_cons_2; try apply Forall_nil_2; apply fresh_heap_valid; lia.
    + split; [unfold AtomicBasedPool.wf, int_max; simpl; lia|].
      split; [exact testAllocator_fresh|].
      repeat apply Forall_cons_2; try apply Forall_nil_2; apply fresh_heap_valid; lia.
  - repeat apply Forall_cons_2; try apply Forall_nil_2.
    + split; [split; [apply full_ring_wf|reflexivity]|].
      split; [exact testAllocator_fresh|].
      repeat apply Forall_cons_2; try apply Forall_nil_2; apply fresh_heap_valid; lia.
    + split; [split; [apply full_ring_wf|reflexivity]|].
      split; [exact testAllocator_fresh|].
      repeat apply Forall_cons_2; try apply Forall_nil_2; apply fresh_heap_valid; lia.
  - repeat apply Forall_cons_2; try apply Forall_nil_2.
    + split; [unfold ChannelBasedPool.wf; simpl; lia|].
      split; [exact testAllocator_fresh|].
      repeat apply Forall_cons_2; try apply Forall_nil_2; apply fresh_heap_valid; lia.
    + split; [unfold ChannelBasedPool.wf; simpl; lia|].
      split; [exact testAllocator_fresh|].
      repeat apply Forall_cons_2; try apply Forall_nil_2; apply fresh_heap_valid; lia.
Qed.

(** The sample sharded pools are what the constructors return. *)
Lemma fresh_sharded_pools_constructed (gomaxprocs : Z) :
  NewShardedAtomicBasedPool gomaxprocs 4 2 testAllocator testCleaner []
    = Ok (fresh_sharded_atomic, fresh_heap) /\
  NewShardedMutexRingBufferPool gomaxprocs 4 2 testAllocator testCleaner []
    = Ok (fresh_sharded_mutex_ring, fresh_heap) /\
  NewShardedChannelBasedPool gomaxprocs 4 2 testAllocator testCleaner []
    = Ok (fresh_sharded_channel, fresh_heap).
Proof. split; [|split]; reflexivity. Qed.

Lemma sharded_get_stamps_shard_index_witness :
  (ShardedAtomicBasedPool.wf fresh_sharded_atomic fresh_heap /\
   ShardedMutexRingBufferPool.wf fresh_sharded_mutex_ring fresh_heap /\
   ShardedChannelBasedPool.wf fresh_sharded_channel fresh_heap /\
   Z.of_nat (length (ShardedAtomicBasedPool.shards fresh_sharded_atomic)) = 2 /\
   Z.of_nat (length (ShardedMutexRingBufferPool.shards fresh_sharded_mutex_ring)) = 2 /\
   Z.of_nat (length (ShardedChannelBasedPool.shards fresh_sharded_channel)) = 2 /\
   0 <= 1 < 2 /\ valid (Some 3%nat) fresh_heap) /\

  (exists x p' h' o s s' h1,
      ShardedAtomicBasedPool.Get fresh_sharded_atomic 1 fresh_heap = Ok (x, p', h') /\
      deref x h' = Ok o /\ shardIndex o = 1 /\
      ShardedAtomicBasedPool.shards fresh_sharded_atomic !! Z.to_nat 1 = Some s /\
      AtomicBasedPool.Get s fresh_heap = Ok (x, s', h1) /\
      ShardedAtomicBasedPool.shards p' = <[Z.to_nat 1 := s']> (ShardedAtomicBasedPool.shards fresh_sharded_atomic)) /\
  (exists x p' h' o s s' h1,
      ShardedMutexRingBufferPool.Get fresh_sharded_mutex_ring 1 fresh_heap = Ok (x, p', h') /\
      deref x h' = Ok o /\ shardIndex o = 1 /\
      ShardedMutexRingBufferPool.shards fresh_sharded_mutex_ring !! Z.to_nat 1 = Some s /\
      MutexRingBufferPool.Get s fresh_heap = Ok (x, s', h1) /\
      ShardedMutexRingBufferPool.shards p' = <[Z.to_nat 1 := s']> (ShardedMutexRingBufferPool.shards fresh_sharded_mutex_ring)) /\
  (exists x p' h' o s s' h1,
      ShardedChannelBasedPool.Get fresh_sharded_channel 1 fresh_heap = Ok (x, p', h') /\
      deref x h' = Ok o /\ shardIndex o = 1 /\
      ShardedChannelBasedPool.shards fresh_sharded_channel !! Z.to_nat 1 = Some s /\
      ChannelBasedPool.Get s fresh_heap = Ok (x, s', h1) /\
      ShardedChannelBasedPool.shards p' = <[Z.to_nat 1 := s']> (ShardedChannelBasedPool.shards fresh_sharded_channel)) /\
  (forall r, ShardedAtomicBasedPool.Get fresh_sharded_atomic 5 fresh_heap = Ok r ->
             0 <= 5 < Z.of_nat (length (ShardedAtomicBasedPool.shards fresh_sharded_atomic))) /\
  (forall r, ShardedMutexRingBufferPool.Get fresh_sharded_mutex_ring 5 fresh_heap = Ok r ->
             0 <= 5 < Z.of_nat (length (ShardedMutexRingBufferPool.shards fresh_sharded_mutex_ring))) /\
  (forall r, ShardedChannelBasedPool.Get fresh_sharded_channel 5 fresh_heap = Ok r ->
             0 <= 5 < Z.of_nat (length (ShardedChannelBasedPool.shards fresh_sharded_channel))) /\
  (exists a o,
      testAllocator fresh_heap = (Some a, fresh_heap ++ [o]) /\
      deref (Some a) (fresh_heap ++ [o]) = Ok o /\ shardIndex o = -1) /\
  (exists hc o,
      testCleaner (Some 3%nat) fresh_heap = Ok hc /\ deref (Some 3%nat) hc = Ok o /\ shardIndex o = -1).
Proof.
  destruct fresh_sharded_pools_wf as (H1 & H2 & H3).
  assert (0 <= 1 < 2) as Hpin by lia.
  assert (valid (Some 3%nat) fresh_heap) as Hobj by (apply fresh_heap_valid; lia).
  split; [by repeat split|].
  exact (sharded_get_stamps_shard_index fresh_sharded_atomic fresh_sharded_mutex_ring
           fresh_sharded_channel 2 1 5 fresh_heap (Some 3%nat)
           H1 H2 H3 eq_refl eq_refl eq_refl Hpin Hobj).
Defined.

(** *** The sharded invariant is established by the constructors and kept by Get *)

Lemma assign_length (obj : ptr) (f : testObject -> testObject) (h h' : heap) :
  assign obj f h = Ok h' -> length h' = length h.
Proof.
  unfold assign. destruct obj as [a|]; [|done].
  destruct (h !! a); [|done]. intros [= <-]. apply length_insert.
Qed.

Lemma smr_New_wf (gomaxprocs C numShards : Z) (alloc : Allocator) (clean : Cleaner)
    (h : heap) :
  is_int C -> 1 <= numShards -> fresh_allocator alloc ->
  exists p h',
    NewShardedMutexRingBufferPool gomaxprocs C numShards alloc clean h = Ok (p, h') /\
    ShardedMutexRingBufferPool.wf p h' /\ Z.of_nat (length (ShardedMutexRingBufferPool.shards p)) = numShards.
Proof.
  intros HC Hn Hfresh.
  destruct (int_quot_pos C numShards HC Hn) as [Hq Hqint].
  assert (0 <= Z.max (C ÷ numShards) 1 <= int_max) as Hcap
    by (unfold is_int, int_max in *; lia).
  unfold NewShardedMutexRingBufferPool, resolve_numShards.
  destruct (Z.leb_spec numShards 0); [lia|]. rewrite Hq. cbn [mbind outcome_bind].
  destruct (build_shards_heap
              (fun s h => MutexRingBufferPool.wf s /\ fresh_allocator (MutexRingBufferPool.allocator s) /\
                          Forall (fun obj => valid obj h) (MutexRingBufferPool.resident s))
              (NewMutexRingBufferPool (Z.max (C ÷ numShards) 1) alloc clean) numShards h
              ltac:(lia)) as (shards & h' & -> & Hlen & Hall).
  - intros s h0 h1 (Hs & Hfr & Hval) Hle. split; [done|]. split; [done|].
    eapply Forall_impl; [exact Hval|]. intros obj Hobj. exact (valid_mono obj h0 h1 Hobj Hle).
  - intros h0.
    destruct (MutexRingBufferPoolFacts.mrb_New (Z.max (C ÷ numShards) 1) alloc clean h0 ltac:(lia))
      as (s & Hnew & Hs & Hres & _ & Hal & _).
    destruct (alloc_n_valid alloc (Z.to_nat (Z.max (C ÷ numShards) 1)) h0 Hfresh)
      as [Hval Hle].
    eexists _, _. split; [exact Hnew|]. rewrite Hres, Hal. by split.
  - by eexists _, _.
Qed.

Lemma smr_Get_wf (p : ShardedMutexRingBufferPool.t) (procPin : Z) (h : heap)
    (x : ptr) (p' : ShardedMutexRingBufferPool.t) (h' : heap) :
  ShardedMutexRingBufferPool.wf p h -> ShardedMutexRingBufferPool.Get p procPin h = Ok (x, p', h') -> ShardedMutexRingBufferPool.wf p' h'.
Proof.
  intros Hwf Hget. unfold ShardedMutexRingBufferPool.Get in Hget.
  destruct (index_slice (ShardedMutexRingBufferPool.shards p) procPin) as [s| |] eqn:Hidx; [|done..].
  apply index_slice_Ok in Hidx as [_ Hs].
  pose proof (proj1 (Forall_lookup _ _) Hwf _ _ Hs) as (Hswf & Hfresh & Hval).
  cbn [mbind outcome_bind] in Hget.
  destruct (MutexRingBufferPool.Get s h) as [[[x0 s'] h1]| |] eqn:Hsget; [|done..].
  cbn [mbind outcome_bind] in Hget.
  destruct (assign x0 (set_shardIndex procPin) h1) as [h2| |] eqn:Hassign; [|done..].
  cbn [mbind outcome_bind] in Hget. injection Hget as _ <- <-.
  apply assign_length in Hassign.
  destruct (segment_get_keeps MutexRingBufferPool.Get MutexRingBufferPool.wf _ MutexRingBufferPool.capacity MutexRingBufferPool.allocator
              MutexRingBufferPoolFacts.mrb_Get_next MutexRingBufferPoolFacts.mrb_Get_empty s h x0 s' h1 Hswf Hfresh Hval Hsget)
    as (Hswf' & Hfresh' & Hval' & Hle).
  unfold ShardedMutexRingBufferPool.wf. cbn [ShardedMutexRingBufferPool.shards]. apply Forall_insert.
  - eapply Forall_impl; [exact Hwf|]. intros s0 (? & ? & Hv0).
    split; [done|]. split; [done|].
    eapply Forall_impl; [exact Hv0|]. intros obj Hobj.
    eapply valid_mono; [exact Hobj|lia].
  - split; [done|]. split; [done|].
    eapply Forall_impl; [exact Hval'|]. intros obj Hobj.
    eapply valid_mono; [exact Hobj|lia].
Qed.

Lemma sch_New_wf (gomaxprocs C numShards : Z) (alloc : Allocator) (clean : Cleaner)
    (h : heap) :
  is_int C -> 1 <= numShards -> fresh_allocator alloc ->
  exists p h',
    NewShardedChannelBasedPool gomaxprocs C numShards alloc clean h = Ok (p, h') /\
    ShardedChannelBasedPool.wf p h' /\ Z.of_nat (length (ShardedChannelBasedPool.shards p)) = numShards.
Proof.
  intros HC Hn Hfresh.
  destruct (int_quot_pos C numShards HC Hn) as [Hq Hqint].
  assert (0 <= Z.max (C ÷ numShards) 1 <= int_max) as Hcap
    by (unfold is_int, int_max in *; lia).
  unfold NewShardedChannelBasedPool, resolve_numShards.
  destruct (Z.leb_spec numShards 0); [lia|]. rewrite Hq. cbn [mbind outcome_bind].
  replace (if C ÷ numShards <? 1 then 1 else C ÷ numShards) with (Z.max (C ÷ numShards) 1)
    by (destruct (Z.ltb_spec (C ÷ numShards) 1); lia).
  destruct (build_shards_heap
              (fun s h => ChannelBasedPool.wf s /\ fresh_allocator (ChannelBasedPool.allocator s) /\
                          Forall (fun obj => valid obj h) (ChannelBasedPool.resident s))
              (NewChannelBasedPool (Z.max (C ÷ numShards) 1) alloc clean) numShards h
              ltac:(lia)) as (shards & h' & -> & Hlen & Hall).
  - intros s h0 h1 (Hs & Hfr & Hval) Hle. split; [done|]. split; [done|].
    eapply Forall_impl; [exact Hval|]. intros obj Hobj. exact (valid_mono obj h0 h1 Hobj Hle).
  - intros h0.
    destruct (ChannelBasedPoolFacts.chan_New (Z.max (C ÷ numShards) 1) alloc clean h0 ltac:(lia))
      as (s & Hnew & Hs & Hres & _ & Hal & _).
    destruct (alloc_n_valid alloc (Z.to_nat (Z.max (C ÷ numShards) 1)) h0 Hfresh)
      as [Hval Hle].
    eexists _, _. split; [exact Hnew|]. rewrite Hres, Hal. by split.
  - by eexists _, _.
Qed.

Lemma sch_Get_wf (p : ShardedChannelBasedPool.t) (procPin : Z) (h : heap)
    (x : ptr) (p' : ShardedChannelBasedPool.t) (h' : heap) :
  ShardedChannelBasedPool.wf p h -> ShardedChannelBasedPool.Get p procPin h = Ok (x, p', h') -> ShardedChannelBasedPool.wf p' h'.
Proof.
  intros Hwf Hget. unfold ShardedChannelBasedPool.Get in Hget.
  destruct (index_slice (ShardedChannelBasedPool.shards p) procPin) as [s| |] eqn:Hidx; [|done..].
  apply index_slice_Ok in Hidx as [_ Hs].
  pose proof (proj1 (Forall_lookup _ _) Hwf _ _ Hs) as (Hswf & Hfresh & Hval).
  cbn [mbind outcome_bind] in Hget.
  destruct (ChannelBasedPool.Get s h) as [[[x0 s'] h1]| |] eqn:Hsget; [|done..].
  cbn [mbind outcome_bind] in Hget.
  destruct (assign x0 (set_shardIndex procPin) h1) as [h2| |] eqn:Hassign; [|done..].
  cbn [mbind outcome_bind] in Hget. injection Hget as _ <- <-.
  apply assign_length in Hassign.
  destruct (segment_get_keeps ChannelBasedPool.Get ChannelBasedPool.wf _ ChannelBasedPool.capacity ChannelBasedPool.allocator
              ChannelBasedPoolFacts.chan_Get_next ChannelBasedPoolFacts.chan_Get_empty s h x0 s' h1 Hswf Hfresh Hval Hsget)
    as (Hswf' & Hfresh' & Hval' & Hle).
  unfold ShardedChannelBasedPool.wf. cbn [ShardedChannelBasedPool.shards]. apply Forall_insert.
  - eapply Forall_impl; [exact Hwf|]. intros s0 (? & ? & Hv0).
    split; [done|]. split; [done|].
    eapply Forall_impl; [exact Hv0|]. intros obj Hobj.
    eapply valid_mono; [exact Hobj|lia].
  - split; [done|]. split; [done|].
    eapply Forall_impl; [exact Hval'|]. intros obj Hobj.
    eapply valid_mono; [exact Hobj|lia].
Qed.

Lemma sab_New_wf (gomaxprocs C numShards : Z) (alloc : Allocator) (clean : Cleaner)
    (h : heap) :
  is_int C -> 1 <= numShards -> fresh_allocator alloc ->
  exists p h',
    NewShardedAtomicBasedPool gomaxprocs C numShards alloc clean h = Ok (p, h') /\
    ShardedAtomicBasedPool.wf p h' /\ Z.of_nat (length (ShardedAtomicBasedPool.shards p)) = numShards.
Proof.
  intros HC Hn Hfresh.
  destruct (int_quot_pos C numShards HC Hn) as [Hq Hqint].
  assert (0 <= Z.max (C ÷ numShards) 1 <= int_max) as Hcap
    by (unfold is_int, int_max in *; lia).
  unfold NewShardedAtomicBasedPool, resolve_numShards.
  destruct (Z.leb_spec numShards 0); [lia|]. rewrite Hq. cbn [mbind outcome_bind].
  destruct (build_shards_heap
              (fun s h => AtomicBasedPool.wf s /\ fresh_allocator (AtomicBasedPool.allocator s) /\
                          Forall (fun obj => valid obj h) (AtomicBasedPool.resident s))
              (NewAtomicBasedPool (Z.max (C ÷ numShards) 1) alloc clean) numShards h
              ltac:(lia)) as (shards & h' & -> & Hlen & Hall).
  - intros s h0 h1 (Hs & Hfr & Hval) Hle. split; [done|]. split; [done|].
    eapply Forall_impl; [exact Hval|]. intros obj Hobj. exact (valid_mono obj h0 h1 Hobj Hle).
  - intros h0.
    destruct (AtomicBasedPoolFacts.abp_New (Z.max (C ÷ numShards) 1) alloc clean h0 ltac:(lia))
      as (s & Hnew & Hs & Hres & _ & Hal & _).
    destruct (alloc_n_valid alloc (Z.to_nat (Z.max (C ÷ numShards) 1)) h0 Hfresh)
      as [Hval Hle].
    eexists _, _. split; [exact Hnew|]. rewrite Hres, Hal. by split.
  - by eexists _, _.
Qed.

Lemma sab_Get_wf (p : ShardedAtomicBasedPool.t) (procPin : Z) (h : heap)
    (x : ptr) (p' : ShardedAtomicBasedPool.t) (h' : heap) :
  ShardedAtomicBasedPool.wf p h -> ShardedAtomicBasedPool.Get p procPin h = Ok (x, p', h') -> ShardedAtomicBasedPool.wf p' h'.
Proof.
  intros Hwf Hget. unfold ShardedAtomicBasedPool.Get in Hget.
  destruct (index_slice (ShardedAtomicBasedPool.shards p) procPin) as [s| |] eqn:Hidx; [|done..].
  apply index_slice_Ok in Hidx as [_ Hs].
  pose proof (proj1 (Forall_lookup _ _) Hwf _ _ Hs) as (Hswf & Hfresh & Hval).
  cbn [mbind outcome_bind] in Hget.
  destruct (AtomicBasedPool.Get s h) as [[[x0 s'] h1]| |] eqn:Hsget; [|done..].
  cbn [mbind outcome_bind] in Hget.
  destruct (assign x0 (set_shardIndex procPin) h1) as [h2| |] eqn:Hassign; [|done..].
  cbn [mbind outcome_bind] in Hget. injection Hget as _ <- <-.
  apply assign_length in Hassign.
  destruct (segment_get_keeps AtomicBasedPool.Get AtomicBasedPool.wf (fun s => rev (AtomicBasedPool.resident s)) AtomicBasedPool.capacity AtomicBasedPool.allocator
              AtomicBasedPoolFacts.abp_get_next_rev AtomicBasedPoolFacts.abp_get_empty_rev s h x0 s' h1 Hswf Hfresh ltac:(cbv beta; by apply Forall_rev) Hsget)
    as (Hswf' & Hfresh' & Hval' & Hle).
    apply Forall_rev in Hval'. rewrite rev_involutive in Hval'.
  unfold ShardedAtomicBasedPool.wf. cbn [ShardedAtomicBasedPool.shards]. apply Forall_insert.
  - eapply Forall_impl; [exact Hwf|]. intros s0 (? & ? & Hv0).
    split; [done|]. split; [done|].
    eapply Forall_impl; [exact Hv0|]. intros obj Hobj.
    eapply valid_mono; [exact Hobj|lia].
  - split; [done|]. split; [done|].
    eapply Forall_impl; [exact Hval'|]. intros obj Hobj.
    eapply valid_mono; [exact Hobj|lia].
Qed.

(** *** Put with a shard index out of range *)

Lemma sab_Put_out_of_range (p : ShardedAtomicBasedPool.t) (obj : ptr) (h : heap)
    (o : testObject) :
  deref obj h = Ok o ->
  ~ 0 <= shardIndex o < Z.of_nat (length (ShardedAtomicBasedPool.shards p)) ->
  ShardedAtomicBasedPool.Put p obj h = Panic.
Proof.
  intros Hobj Hout. unfold ShardedAtomicBasedPool.Put. rewrite Hobj.
  cbn [mbind outcome_bind]. by rewrite index_slice_out.
Qed.

Lemma smr_Put_out_of_range (p : ShardedMutexRingBufferPool.t) (obj : ptr) (h : heap)
    (o : testObject) :
  deref obj h = Ok o ->
  ~ 0 <= shardIndex o < Z.of_nat (length (ShardedMutexRingBufferPool.shards p)) ->
  ShardedMutexRingBufferPool.Put p obj h = Panic.
Proof.
  intros Hobj Hout. unfold ShardedMutexRingBufferPool.Put. rewrite Hobj.
  cbn [mbind outcome_bind]. by rewrite index_slice_out.
Qed.

Lemma sch_Put_out_of_range (p : ShardedChannelBasedPool.t) (obj : ptr) (h : heap)
    (o : testObject) :
  deref obj h = Ok o ->
  ~ 0 <= shardIndex o < Z.of_nat (length (ShardedChannelBasedPool.shards p)) ->
  ShardedChannelBasedPool.Put p obj h = Ok (p, h).
Proof.
  intros Hobj Hout. unfold ShardedChannelBasedPool.Put. rewrite Hobj.
  cbn [mbind outcome_bind].
  destruct (Z.geb_spec (shardIndex o) 0),
    (Z.ltb_spec (shardIndex o) (Z.of_nat (length (ShardedChannelBasedPool.shards p))));
    simpl; done || lia.
Qed.

(** C1. An object straight from [testAllocator] carries [shardIndex = -1].
    Handing it to [Put] of the sharded atomic pool, or of the sharded mutex
    ring buffer pool, indexes [p.shards] at [-1] and panics; only the sharded
    channel pool checks the index first and returns with pool and heap
    unchanged. *)
Theorem sharded_put_unassigned_index :
  exists obj h1,
    testAllocator fresh_heap = (obj, h1) /\
    (exists o, deref obj h1 = Ok o /\ shardIndex o = -1) /\
    ShardedAtomicBasedPool.Put fresh_sharded_atomic obj h1 = Panic /\
    ShardedMutexRingBufferPool.Put fresh_sharded_mutex_ring obj h1 = Panic /\
    ShardedChannelBasedPool.Put fresh_sharded_channel obj h1
      = Ok (fresh_sharded_channel, h1).
Proof.
  eexists _, _. split; [reflexivity|].
  split; [by eexists|].
  split; [reflexivity|]. split; reflexivity.
Qed.

(** * Further properties of the code *)

(** ** The ring buffer as a bounded queue *)

Lemma ring_run_queue {T : Type} `{GoZero T}
    (cs : list (RingBuffer.call (T:=T))) (rb : RingBuffer.t T) :
  RingBuffer.wf rb ->
  exists rb',
    RingBuffer.run cs rb
      = Ok ((BoundedQueue.run (RingBuffer.capacity rb) cs (RingBuffer.contents rb)).1, rb') /\
    RingBuffer.wf rb' /\ RingBuffer.capacity rb' = RingBuffer.capacity rb /\
    RingBuffer.contents rb'
      = (BoundedQueue.run (RingBuffer.capacity rb) cs (RingBuffer.contents rb)).2.
Proof.
  revert rb. induction cs as [|c cs IH]; intros rb Hwf.
  - by exists rb.
  - destruct c as [item|]; cbn [RingBuffer.run RingBuffer.exec BoundedQueue.run BoundedQueue.exec].
    + unfold BoundedQueue.push.
      destruct (Z.ltb_spec (Z.of_nat (length (RingBuffer.contents rb))) (RingBuffer.capacity rb))
        as [Hroom|Hfull].
      * destruct (RingBufferQueue.Push_spec rb item Hwf Hroom) as (rb1 & -> & Hwf1 & Hc1 & Hcap1).
        cbn [mbind outcome_bind].
        destruct (IH rb1 Hwf1) as (rb2 & -> & Hwf2 & Hcap2 & Hc2).
        rewrite Hcap1, Hc1 in *. cbn [mbind outcome_bind].
        destruct (BoundedQueue.run _ cs _) as [rs q2]. exists rb2.
        split; [done|]. split; [done|]. split; [congruence|done].
      * rewrite (RingBufferQueue.Push_spec_full rb item Hwf Hfull).
        cbn [mbind outcome_bind].
        destruct (IH rb Hwf) as (rb2 & -> & Hwf2 & Hcap2 & Hc2).
        cbn [mbind outcome_bind].
        destruct (BoundedQueue.run _ cs _) as [rs q2]. by exists rb2.
    + unfold BoundedQueue.pop.
      destruct (RingBuffer.contents rb) as [|item l] eqn:Hcontents.
      * rewrite (RingBufferQueue.Pop_spec_empty rb Hwf Hcontents).
        cbn [mbind outcome_bind].
        destruct (IH rb Hwf) as (rb2 & -> & Hwf2 & Hcap2 & Hc2).
        rewrite Hcontents in *. cbn [mbind outcome_bind].
        destruct (BoundedQueue.run _ cs _) as [rs q2]. by exists rb2.
      * destruct (RingBufferQueue.Pop_spec rb item l Hwf Hcontents)
          as (rb1 & -> & Hwf1 & Hc1 & Hcap1).
        cbn [mbind outcome_bind].
        destruct (IH rb1 Hwf1) as (rb2 & -> & Hwf2 & Hcap2 & Hc2).
        rewrite Hcap1, Hc1 in *. cbn [mbind outcome_bind].
        destruct (BoundedQueue.run _ cs _) as [rs q2]. exists rb2.
        split; [done|]. split; [done|]. split; [congruence|done].
Qed.

(** X1. A ring buffer built by [NewRingBuffer c] answers every sequence of
    [Push] and [Pop] calls exactly as a first-in first-out queue bounded by
    [c] does: the same return values call by call, and afterwards the
    buffer holds, oldest first, what the queue holds. *)
Theorem ring_buffer_is_bounded_queue {T : Type} `{GoZero T}
    (c : Z) (cs : list (RingBuffer.call (T:=T))) :
  0 <= c <= int_max ->
  exists rb0 rb,
    RingBuffer.NewRingBuffer c = Ok rb0 /\
    RingBuffer.run cs rb0 = Ok ((BoundedQueue.run c cs []).1, rb) /\
    RingBuffer.contents rb = (BoundedQueue.run c cs []).2.
Proof.
  intros Hc. rewrite RingBufferFacts.NewRingBuffer_Ok by lia.
  set (rb0 := {| RingBuffer.buffer := replicate (Z.to_nat c) zero |}).
  assert (RingBuffer.wf rb0) as Hwf0.
  { apply (RingBufferFacts.NewRingBuffer_wf c); [lia|].
    by rewrite RingBufferFacts.NewRingBuffer_Ok by lia. }
  assert (RingBuffer.contents rb0 = []) as Hempty
    by (by apply RingBufferFacts.contents_empty).
  destruct (ring_run_queue cs rb0 Hwf0) as (rb & Hrun & _ & _ & Hcontents).
  rewrite Hempty in *. change (RingBuffer.capacity rb0) with c in *.
  by exists rb0, rb.
Qed.

Lemma ring_buffer_is_bounded_queue_witness :
  0 <= 2 <= int_max /\
  exists rb0 rb,
    RingBuffer.NewRingBuffer 2 = Ok rb0 /\
    RingBuffer.run
      [RingBuffer.CallPush (Some 7%nat); RingBuffer.CallPush (Some 8%nat);
       RingBuffer.CallPush (Some 9%nat); RingBuffer.CallPop;
       RingBuffer.CallPush (Some 5%nat); RingBuffer.CallPop; RingBuffer.CallPop;
       RingBuffer.CallPop] rb0
      = Ok ((BoundedQueue.run 2
               [RingBuffer.CallPush (Some 7%nat); RingBuffer.CallPush (Some 8%nat);
                RingBuffer.CallPush (Some 9%nat); RingBuffer.CallPop;
                RingBuffer.CallPush (Some 5%nat); RingBuffer.CallPop; RingBuffer.CallPop;
                RingBuffer.CallPop] []).1, rb) /\
    RingBuffer.contents rb
      = (BoundedQueue.run 2
           [RingBuffer.CallPush (Some 7%nat); RingBuffer.CallPush (Some 8%nat);
            RingBuffer.CallPush (Some 9%nat); RingBuffer.CallPop;
            RingBuffer.CallPush (Some 5%nat); RingBuffer.CallPop; RingBuffer.CallPop;
            RingBuffer.CallPop] []).2.
Proof.
  assert (0 <= 2 <= int_max) as Hc by (unfold int_max; lia).
  split; [exact Hc|].
  exact (ring_buffer_is_bounded_queue 2 _ Hc).
Defined.

(** X2. On every ring buffer reachable from [NewRingBuffer c], the three
    observers agree with the queue operations: [Size] is the number of
    items held, [IsEmpty] answers true exactly when the next [Pop] fails,
    [IsFull] exactly when the next [Push] fails, and a successful [Pop] or
    [Push] moves [Size] by one while a failed one leaves it. *)
Theorem ring_buffer_observers {T : Type} `{GoZero T}
    (c : Z) (cs : list (RingBuffer.call (T:=T))) :
  0 <= c <= int_max ->
  exists rb0 rets rb,
    RingBuffer.NewRingBuffer c = Ok rb0 /\ RingBuffer.run cs rb0 = Ok (rets, rb) /\
    RingBuffer.Size rb = Z.of_nat (length (RingBuffer.contents rb)) /\
    0 <= RingBuffer.Size rb <= c /\
    (RingBuffer.IsEmpty rb = true <-> RingBuffer.contents rb = []) /\
    (RingBuffer.IsFull rb = true <-> RingBuffer.Size rb = c) /\
    (exists x ok rb',
        RingBuffer.Pop rb = Ok (x, ok, rb') /\ ok = negb (RingBuffer.IsEmpty rb) /\
        RingBuffer.Size rb' = RingBuffer.Size rb - (if ok then 1 else 0)) /\
    (forall x, exists ok rb',
        RingBuffer.Push rb x = Ok (ok, rb') /\ ok = negb (RingBuffer.IsFull rb) /\
        RingBuffer.Size rb' = RingBuffer.Size rb + (if ok then 1 else 0)).
Proof.
  intros Hc. rewrite RingBufferFacts.NewRingBuffer_Ok by lia.
  set (rb0 := {| RingBuffer.buffer := replicate (Z.to_nat c) zero |}).
  assert (RingBuffer.wf rb0) as Hwf0.
  { apply (RingBufferFacts.NewRingBuffer_wf c); [lia|].
    by rewrite RingBufferFacts.NewRingBuffer_Ok by lia. }
  destruct (RingBufferFacts.run_total cs rb0 Hwf0) as (rets & rb & Hrun & Hwf & Hcap).
  change (RingBuffer.capacity rb0) with c in Hcap.
  exists rb0, rets, rb. split; [done|]. split; [done|].
  pose proof (RingBufferFacts.contents_length rb Hwf) as Hlen.
  pose proof Hwf as (_ & _ & Hsize & _).
  unfold RingBuffer.Size, RingBuffer.IsEmpty, RingBuffer.IsFull. rewrite Hcap in *.
  split; [lia|]. split; [lia|].
  split.
  { rewrite Z.eqb_eq. split.
    - intros Hz. apply length_zero_nil. lia.
    - intros Hnil. rewrite Hnil in Hlen. simpl in Hlen. lia. }
  split; [by rewrite Z.eqb_eq|].
  split.
  - destruct (Z.eqb_spec (RingBuffer.size rb) 0) as [Hz|Hnz].
    + rewrite RingBufferFacts.Pop_empty by lia. eexists _, _, _.
      split; [done|]. split; [done|]. lia.
    + destruct (RingBufferFacts.contents_Pop rb Hwf ltac:(lia)) as (item & rb' & -> & _ & Hs).
      eexists _, _, _. split; [done|]. split; [done|]. lia.
  - intros x. destruct (Z.eqb_spec (RingBuffer.size rb) c) as [Hfull|Hroom].
    + rewrite RingBufferFacts.Push_full by lia. eexists _, _.
      split; [done|]. split; [done|]. lia.
    + destruct (RingBufferFacts.contents_Push rb x Hwf ltac:(lia)) as (rb' & -> & _ & Hs).
      eexists _, _. split; [done|]. split; [done|]. lia.
Qed.

Lemma ring_buffer_observers_witness :
  0 <= 2 <= int_max /\
  exists rb0 rets rb,
    RingBuffer.NewRingBuffer 2 = Ok rb0 /\
    RingBuffer.run
      [RingBuffer.CallPush (Some 7%nat); RingBuffer.CallPop;
       RingBuffer.CallPush (Some 8%nat); RingBuffer.CallPush (Some 9%nat)] rb0
      = Ok (rets, rb) /\
    RingBuffer.Size rb = Z.of_nat (length (RingBuffer.contents rb)) /\
    0 <= RingBuffer.Size rb <= 2 /\
    (RingBuffer.IsEmpty rb = true <-> RingBuffer.contents rb = []) /\
    (RingBuffer.IsFull rb = true <-> RingBuffer.Size rb = 2) /\
    (exists x ok rb',
        RingBuffer.Pop rb = Ok (x, ok, rb') /\ ok = negb (RingBuffer.IsEmpty rb) /\
        RingBuffer.Size rb' = RingBuffer.Size rb - (if ok then 1 else 0)) /\
    (forall x, exists ok rb',
        RingBuffer.Push rb x = Ok (ok, rb') /\ ok = negb (RingBuffer.IsFull rb) /\
        RingBuffer.Size rb' = RingBuffer.Size rb + (if ok then 1 else 0)).
Proof.
  assert (0 <= 2 <= int_max) as Hc by (unfold int_max; lia).
  split; [exact Hc|].
  exact (ring_buffer_observers 2 _ Hc).
Defined.

(** ** Any sequence of calls on a non-blocking pool *)

Section SegmentCalls.
Context {P : Type}.
Variable get : P -> heap -> outcome (ptr * P * heap).
Variable put : P -> ptr -> heap -> outcome (P * heap).
Variable wf : P -> Prop.
Variable next : P -> list ptr.
Variable cap : P -> Z.
Variable alloc : P -> Allocator.

Hypothesis get_next : forall p h x l,
  wf p -> next p = x :: l ->
  exists p', get p h = Ok (x, p', h) /\ wf p' /\ next p' = l /\
             cap p' = cap p /\ alloc p' = alloc p.

Hypothesis get_empty : forall p h,
  wf p -> next p = [] -> get p h = Ok ((alloc p h).1, p, (alloc p h).2).

Hypothesis put_room : forall p x h,
  wf p -> Z.of_nat (length (next p)) < cap p ->
  exists p', put p x h = Ok (p', h) /\ wf p' /\
             length (next p') = S (length (next p)) /\
             cap p' = cap p /\ alloc p' = alloc p.

Hypothesis put_full : forall p x h,
  wf p -> cap p <= Z.of_nat (length (next p)) -> put p x h = Ok (p, h).

Lemma segment_run_calls (cs : list pool_call) (p : P) (h : heap) :
  wf p -> fresh_allocator (alloc p) -> Z.of_nat (length (next p)) <= cap p ->
  exists got p' h',
    run_calls get put cs p h = Ok (got, p', h') /\ wf p' /\
    cap p' = cap p /\ Z.of_nat (length (next p')) <= cap p' /\
    length got = gets cs /\
    (length h <= length h' <= length h + gets cs)%nat.
Proof.
  revert p h. induction cs as [|c cs IH]; intros p h Hwf Hfresh Hbound.
  - exists [], p, h. simpl. repeat split; done || lia.
  - destruct c as [|obj]; cbn [run_calls gets].
    + destruct (next p) as [|x l] eqn:Hnext.
      * rewrite get_empty by done. destruct (Hfresh h) as [o Ho]. rewrite Ho.
        cbn [mbind outcome_bind fst snd].
        destruct (IH p (h ++ [o]) Hwf Hfresh ltac:(by rewrite Hnext))
          as (got & p' & h' & -> & Hwf' & Hcap' & Hb' & Hgot & Hh).
        cbn [mbind outcome_bind]. eexists _, _, _. split; [done|].
        rewrite length_app in Hh. simpl in *. repeat split; done || lia.
      * destruct (get_next p h x l Hwf Hnext) as (p1 & -> & Hwf1 & Hn1 & Hc1 & Ha1).
        cbn [mbind outcome_bind].
        destruct (IH p1 h Hwf1 ltac:(by rewrite Ha1)
                    ltac:(rewrite Hn1, Hc1; simpl in Hbound; lia))
          as (got & p' & h' & -> & Hwf' & Hcap' & Hb' & Hgot & Hh).
        cbn [mbind outcome_bind]. eexists _, _, _. split; [done|].
        simpl. repeat split; done || lia.
    + destruct (Z.lt_ge_cases (Z.of_nat (length (next p))) (cap p)) as [Hroom|Hfull].
      * destruct (put_room p obj h Hwf Hroom) as (p1 & -> & Hwf1 & Hn1 & Hc1 & Ha1).
        cbn [mbind outcome_bind].
        destruct (IH p1 h Hwf1 ltac:(by rewrite Ha1) ltac:(rewrite Hn1, Hc1; lia))
          as (got & p' & h' & -> & Hwf' & Hcap' & Hb' & Hgot & Hh).
        eexists _, _, _. split; [done|]. repeat split; done || lia.
      * rewrite put_full by done. cbn [mbind outcome_bind].
        destruct (IH p h Hwf Hfresh Hbound)
          as (got & p' & h' & -> & Hwf' & Hcap' & Hb' & Hgot & Hh).
        eexists _, _, _. split; [done|]. repeat split; done || lia.
Qed.

End SegmentCalls.

Lemma mbp_put_room_rev (p : MutexBasedPool.t) (x : ptr) (h : heap) :
  MutexBasedPool.wf p ->
  Z.of_nat (length (rev (MutexBasedPool.resident p))) < MutexBasedPool.capacity p ->
  exists p',
    put_pure MutexBasedPool.Put p x h = Ok (p', h) /\ MutexBasedPool.wf p' /\
    length (rev (MutexBasedPool.resident p')) = S (length (rev (MutexBasedPool.resident p))) /\
    MutexBasedPool.capacity p' = MutexBasedPool.capacity p /\
    MutexBasedPool.allocator p' = MutexBasedPool.allocator p.
Proof.
  intros Hwf Hroom. rewrite length_rev in Hroom.
  destruct (MutexBasedPoolFacts.mbp_Put_room p x Hwf Hroom) as (p' & Hput & Hwf' & Hres & Hc & Ha).
  exists p'. unfold put_pure. rewrite Hput. cbn [mbind outcome_bind].
  split; [done|]. split; [done|]. rewrite !length_rev, Hres, length_app. simpl.
  split; [lia|done].
Qed.

Lemma mbp_put_full_rev (p : MutexBasedPool.t) (x : ptr) (h : heap) :
  MutexBasedPool.wf p ->
  MutexBasedPool.capacity p <= Z.of_nat (length (rev (MutexBasedPool.resident p))) ->
  put_pure MutexBasedPool.Put p x h = Ok (p, h).
Proof.
  intros Hwf Hfull. rewrite length_rev in Hfull. unfold put_pure.
  by rewrite MutexBasedPoolFacts.mbp_Put_full.
Qed.

(** X3. On a pool built by the constructor of the mutex ring buffer,
    read/write-mutex ring buffer, mutex slice or atomic variant, no sequence
    of [Get] and [Put] calls made one after the other panics or blocks,
    whatever pointers are put: every call returns, the occupancy stays
    within [0, capacity], and the allocator is called at most once per
    [Get]. *)
Theorem pool_calls_never_fail (c : Z) (alloc : Allocator) (clean : Cleaner)
    (h : heap) (cs : list pool_call) :
  0 <= c <= int_max -> fresh_allocator alloc ->
  (exists p0 h0 got p' h',
      NewMutexRingBufferPool c alloc clean h = Ok (p0, h0) /\
      run_calls MutexRingBufferPool.Get (put_pure MutexRingBufferPool.Put) cs p0 h0
        = Ok (got, p', h') /\
      0 <= MutexRingBufferPool.occupancy p' <= c /\
      length got = gets cs /\
      (allocations h0 <= allocations h' <= allocations h0 + gets cs)%nat) /\
  (exists p0 h0 got p' h',
      NewRWMutexRingBufferPool c alloc clean h = Ok (p0, h0) /\
      run_calls RWMutexRingBufferPool.Get (put_pure RWMutexRingBufferPool.Put) cs p0 h0
        = Ok (got, p', h') /\
      0 <= RWMutexRingBufferPool.occupancy p' <= c /\
      length got = gets cs /\
      (allocations h0 <= allocations h' <= allocations h0 + gets cs)%nat) /\
  (exists p0 h0 got p' h',
      NewMutexBasedPool c alloc clean h = Ok (p0, h0) /\
      run_calls MutexBasedPool.Get (put_pure MutexBasedPool.Put) cs p0 h0
        = Ok (got, p', h') /\
      0 <= MutexBasedPool.occupancy p' <= c /\
      length got = gets cs /\
      (allocations h0 <= allocations h' <= allocations h0 + gets cs)%nat) /\
  (exists p0 h0 got p' h',
      NewAtomicBasedPool c alloc clean h = Ok (p0, h0) /\
      run_calls AtomicBasedPool.Get (put_pure AtomicBasedPool.Put) cs p0 h0
        = Ok (got, p', h') /\
      0 <= AtomicBasedPool.occupancy p' <= c /\
      length got = gets cs /\
      (allocations h0 <= allocations h' <= allocations h0 + gets cs)%nat).
Proof.
  intros Hc Hfresh. pose proof (alloc_n_length alloc (Z.to_nat c) h) as Hal.
  split; [|split; [|split]].
  - destruct (MutexRingBufferPoolFacts.mrb_New c alloc clean h Hc)
      as (p0 & Hnew & Hwf & Hres & Hcap & Halloc & _).
    destruct (segment_run_calls _ _ _ _ _ _
                MutexRingBufferPoolFacts.mrb_Get_next
                MutexRingBufferPoolFacts.mrb_Get_empty
                MutexRingBufferPoolFacts.mrb_put_room_length
                MutexRingBufferPoolFacts.mrb_put_full_pure
                cs p0 (alloc_n alloc (Z.to_nat c) h).2 Hwf
                ltac:(by rewrite Halloc) ltac:(rewrite Hres, Hal, Hcap; lia))
      as (got & p' & h' & Hrun & Hwf' & Hcap' & Hb' & Hgot & Hh).
    exists p0, (alloc_n alloc (Z.to_nat c) h).2, got, p', h'.
    split; [done|]. split; [exact Hrun|].
    rewrite MutexRingBufferPoolFacts.mrb_occupancy by done.
    unfold allocations. split; [lia|done].
  - destruct (RWMutexRingBufferPoolFacts.rwm_New c alloc clean h Hc)
      as (p0 & Hnew & Hwf & Hres & Hcap & Halloc & _).
    destruct (segment_run_calls _ _ _ _ _ _
                RWMutexRingBufferPoolFacts.rwm_Get_next
                RWMutexRingBufferPoolFacts.rwm_Get_empty
                RWMutexRingBufferPoolFacts.rwm_put_room_length
                RWMutexRingBufferPoolFacts.rwm_put_full_pure
                cs p0 (alloc_n alloc (Z.to_nat c) h).2 Hwf
                ltac:(by rewrite Halloc) ltac:(rewrite Hres, Hal, Hcap; lia))
      as (got & p' & h' & Hrun & Hwf' & Hcap' & Hb' & Hgot & Hh).
    exists p0, (alloc_n alloc (Z.to_nat c) h).2, got, p', h'.
    split; [done|]. split; [exact Hrun|].
    rewrite RWMutexRingBufferPoolFacts.rwm_occupancy by done.
    unfold allocations. split; [lia|done].
  - destruct (MutexBasedPoolFacts.mbp_New c alloc clean h Hc)
      as (p0 & Hnew & Hwf & Hres & Hcap & Halloc & _).
    destruct (segment_run_calls _ _ _ (fun p => rev (MutexBasedPool.resident p)) _ _
                MutexBasedPoolFacts.mbp_get_next_rev
                MutexBasedPoolFacts.mbp_get_empty_rev
                mbp_put_room_rev mbp_put_full_rev
                cs p0 (alloc_n alloc (Z.to_nat c) h).2 Hwf
                ltac:(by rewrite Halloc)
                ltac:(cbv beta; rewrite length_rev, Hres, Hal, Hcap; lia))
      as (got & p' & h' & Hrun & Hwf' & Hcap' & Hb' & Hgot & Hh).
    exists p0, (alloc_n alloc (Z.to_nat c) h).2, got, p', h'.
    split; [done|]. split; [exact Hrun|].
    rewrite MutexBasedPoolFacts.mbp_occupancy. rewrite length_rev in Hb'.
    unfold allocations. split; [lia|done].
  - destruct (AtomicBasedPoolFacts.abp_New c alloc clean h Hc)
      as (p0 & Hnew & Hwf & Hres & Hcap & Halloc & _).
    destruct (segment_run_calls _ _ _ (fun p => rev (AtomicBasedPool.resident p)) _ _
                AtomicBasedPoolFacts.abp_get_next_rev
                AtomicBasedPoolFacts.abp_get_empty_rev
                AtomicBasedPoolFacts.abp_put_room_length
                AtomicBasedPoolFacts.abp_put_full_pure
                cs p0 (alloc_n alloc (Z.to_nat c) h).2 Hwf
                ltac:(by rewrite Halloc)
                ltac:(cbv beta; rewrite length_rev, Hres, Hal, Hcap; lia))
      as (got & p' & h' & Hrun & Hwf' & Hcap' & Hb' & Hgot & Hh).
    exists p0, (alloc_n alloc (Z.to_nat c) h).2, got, p', h'.
    split; [done|]. split; [exact Hrun|].
    unfold AtomicBasedPool.occupancy.
    rewrite <- (AtomicBasedPoolFacts.abp_resident_length p') by done.
    rewrite length_rev in Hb'. unfold allocations. split; [lia|done].
Qed.

Lemma pool_calls_never_fail_witness :
  (0 <= 2 <= int_max /\ fresh_allocator testAllocator) /\

  (exists p0 h0 got p' h',
      NewMutexRingBufferPool 2 testAllocator testCleaner [] = Ok (p0, h0) /\
      run_calls MutexRingBufferPool.Get (put_pure MutexRingBufferPool.Put) [DoGet; DoGet; DoGet; DoPut (Some 0%nat); DoPut nil_ptr; DoPut (Some 7%nat); DoPut (Some 1%nat); DoGet] p0 h0
        = Ok (got, p', h') /\
      0 <= MutexRingBufferPool.occupancy p' <= 2 /\
      length got = gets [DoGet; DoGet; DoGet; DoPut (Some 0%nat); DoPut nil_ptr; DoPut (Some 7%nat); DoPut (Some 1%nat); DoGet] /\
      (allocations h0 <= allocations h' <= allocations h0 + gets [DoGet; DoGet; DoGet; DoPut (Some 0%nat); DoPut nil_ptr; DoPut (Some 7%nat); DoPut (Some 1%nat); DoGet])%nat) /\
  (exists p0 h0 got p' h',
      NewRWMutexRingBufferPool 2 testAllocator testCleaner [] = Ok (p0, h0) /\
      run_calls RWMutexRingBufferPool.Get (put_pure RWMutexRingBufferPool.Put) [DoGet; DoGet; DoGet; DoPut (Some 0%nat); DoPut nil_ptr; DoPut (Some 7%nat); DoPut (Some 1%nat); DoGet] p0 h0
        = Ok (got, p', h') /\
      0 <= RWMutexRingBufferPool.occupancy p' <= 2 /\
      length got = gets [DoGet; DoGet; DoGet; DoPut (Some 0%nat); DoPut nil_ptr; DoPut (Some 7%nat); DoPut (Some 1%nat); DoGet] /\
      (allocations h0 <= allocations h' <= allocations h0 + gets [DoGet; DoGet; DoGet; DoPut (Some 0%nat); DoPut nil_ptr; DoPut (Some 7%nat); DoPut (Some 1%nat); DoGet])%nat) /\
  (exists p0 h0 got p' h',
      NewMutexBasedPool 2 testAllocator testCleaner [] = Ok (p0, h0) /\
      run_calls MutexBasedPool.Get (put_pure MutexBasedPool.Put) [DoGet; DoGet; DoGet; DoPut (Some 0%nat); DoPut nil_ptr; DoPut (Some 7%nat); DoPut (Some 1%nat); DoGet] p0 h0
        = Ok (got, p', h') /\
      0 <= MutexBasedPool.occupancy p' <= 2 /\
      length got = gets [DoGet; DoGet; DoGet; DoPut (Some 0%nat); DoPut nil_ptr; DoPut (Some 7%nat); DoPut (Some 1%nat); DoGet] /\
      (allocations h0 <= allocations h' <= allocations h0 + gets [DoGet; DoGet; DoGet; DoPut (Some 0%nat); DoPut nil_ptr; DoPut (Some 7%nat); DoPut (Some 1%nat); DoGet])%nat) /\
  (exists p0 h0 got p' h',
      NewAtomicBasedPool 2 testAllocator testCleaner [] = Ok (p0, h0) /\
      run_calls AtomicBasedPool.Get (put_pure AtomicBasedPool.Put) [DoGet; DoGet; DoGet; DoPut (Some 0%nat); DoPut nil_ptr; DoPut (Some 7%nat); DoPut (Some 1%nat); DoGet] p0 h0
        = Ok (got, p', h') /\
      0 <= AtomicBasedPool.occupancy p' <= 2 /\
      length got = gets [DoGet; DoGet; DoGet; DoPut (Some 0%nat); DoPut nil_ptr; DoPut (Some 7%nat); DoPut (Some 1%nat); DoGet] /\
      (allocations h0 <= allocations h' <= allocations h0 + gets [DoGet; DoGet; DoGet; DoPut (Some 0%nat); DoPut nil_ptr; DoPut (Some 7%nat); DoPut (Some 1%nat); DoGet])%nat).
Proof.
  assert (0 <= 2 <= int_max) as Hc by (unfold int_max; lia).
  split; [split; [exact Hc|exact testAllocator_fresh]|].
  exact (pool_calls_never_fail 2 testAllocator testCleaner [] _ Hc testAllocator_fresh).
Defined.

(** ** Put followed by Get *)

Lemma mbp_Put_append (p : MutexBasedPool.t) (x : ptr) :
  MutexBasedPool.wf p ->
  Z.of_nat (length (MutexBasedPool.resident p)) < MutexBasedPool.capacity p ->
  MutexBasedPool.Put p x
    = Ok (MutexBasedPool.with_state p
            {| elems := MutexBasedPool.resident p ++ [x];
               slice_cap := MutexBasedPool.capacity p |} Unlocked).
Proof.
  intros [Hb Hmu] Hroom. unfold MutexBasedPool.Put, MutexBasedPool.resident,
    MutexBasedPool.capacity, append, len in *. rewrite Hmu. cbn [Lock Unlock mbind outcome_bind].
  by destruct (Z.ltb_spec (Z.of_nat (length (elems (MutexBasedPool.objects p))))
              (slice_cap (MutexBasedPool.objects p))); [|lia].
Qed.

(** X4. The slice pool and the atomic pool hand back the object put last:
    a [Put] that finds room followed by a [Get] returns that very object
    without allocating. The slice pool is then exactly as before the
    [Put]; the atomic pool has its fill index back and the same residents,
    and keeps the pointer in the slot above the index. *)
Theorem put_then_get_returns_same (p1 : MutexBasedPool.t) (p2 : AtomicBasedPool.t)
    (x : ptr) (h : heap) :
  MutexBasedPool.wf p1 -> AtomicBasedPool.wf p2 ->
  MutexBasedPool.occupancy p1 < MutexBasedPool.capacity p1 ->
  AtomicBasedPool.occupancy p2 < AtomicBasedPool.capacity p2 ->
  (exists p',
      MutexBasedPool.Put p1 x = Ok p' /\
      MutexBasedPool.occupancy p' = MutexBasedPool.occupancy p1 + 1 /\
      MutexBasedPool.Get p' h = Ok (x, p1, h)) /\
  (exists p',
      AtomicBasedPool.Put p2 x = Ok p' /\
      AtomicBasedPool.occupancy p' = AtomicBasedPool.occupancy p2 + 1 /\
      AtomicBasedPool.Get p' h
        = Ok (x, AtomicBasedPool.with_objects p2
                   (<[Z.to_nat (AtomicBasedPool.index p2) := x]> (AtomicBasedPool.objects p2)), h) /\
      AtomicBasedPool.resident
        (AtomicBasedPool.with_objects p2
           (<[Z.to_nat (AtomicBasedPool.index p2) := x]> (AtomicBasedPool.objects p2)))
        = AtomicBasedPool.resident p2).
Proof.
  intros Hwf1 Hwf2 Hroom1 Hroom2. split.
  - rewrite MutexBasedPoolFacts.mbp_occupancy in Hroom1.
    rewrite (mbp_Put_append p1 x Hwf1 Hroom1).
    destruct (MutexBasedPoolFacts.mbp_Put_room p1 x Hwf1 Hroom1) as (p' & Hput & Hwf' & Hres & _).
    rewrite (mbp_Put_append p1 x Hwf1 Hroom1) in Hput. injection Hput as <-.
    eexists. split; [done|].
    destruct (MutexBasedPoolFacts.mbp_top _ x (MutexBasedPool.resident p1) Hwf' Hres)
      as (Hne & Hsub & Hidx & Hre).
    split.
    { rewrite !MutexBasedPoolFacts.mbp_occupancy, Hres, length_app. simpl. lia. }
    unfold MutexBasedPool.Get. cbn [MutexBasedPool.mu MutexBasedPool.with_state Lock mbind outcome_bind].
    rewrite Hne, Hsub, Hidx. cbn [mbind outcome_bind]. rewrite Hre.
    cbn [mbind outcome_bind Unlock]. repeat f_equal.
    destruct Hwf1 as [_ Hmu]. destruct p1 as [[el cp] m a cl]. simpl in *. by subst.
  - destruct Hwf2 as (Hlen & Hidx & Hcap). unfold AtomicBasedPool.occupancy in *.
    rewrite AtomicBasedPoolFacts.abp_Put_slot by done.
    eexists. split; [done|]. split; [done|].
    set (p' := AtomicBasedPool.with_objects _ _).
    assert (AtomicBasedPool.wf p') as Hwf'.
    { unfold AtomicBasedPool.wf, p'. simpl. rewrite length_insert. lia. }
    destruct (AtomicBasedPoolFacts.abp_Get_slot p' h Hwf' ltac:(simpl; lia)) as (obj & Hobj & ->).
    simpl in Hobj. replace (AtomicBasedPool.index p2 + 1 - 1) with (AtomicBasedPool.index p2) in Hobj by lia.
    rewrite list_lookup_insert_eq in Hobj by lia. injection Hobj as <-.
    split.
    + unfold p', AtomicBasedPool.with_index, AtomicBasedPool.with_objects. simpl.
      do 3 f_equal. f_equal. lia.
    + unfold AtomicBasedPool.resident. simpl. apply take_insert_ge. lia.
Qed.

Lemma put_then_get_returns_same_witness :
  (MutexBasedPool.wf stocked_mutex_slice /\ AtomicBasedPool.wf stocked_atomic /\
   MutexBasedPool.occupancy stocked_mutex_slice < MutexBasedPool.capacity stocked_mutex_slice /\
   AtomicBasedPool.occupancy stocked_atomic < AtomicBasedPool.capacity stocked_atomic) /\

  (exists p',
      MutexBasedPool.Put stocked_mutex_slice (Some 2%nat) = Ok p' /\
      MutexBasedPool.occupancy p' = MutexBasedPool.occupancy stocked_mutex_slice + 1 /\
      MutexBasedPool.Get p' stocked_heap = Ok ((Some 2%nat), stocked_mutex_slice, stocked_heap)) /\
  (exists p',
      AtomicBasedPool.Put stocked_atomic (Some 2%nat) = Ok p' /\
      AtomicBasedPool.occupancy p' = AtomicBasedPool.occupancy stocked_atomic + 1 /\
      AtomicBasedPool.Get p' stocked_heap
        = Ok ((Some 2%nat), AtomicBasedPool.with_objects stocked_atomic
                   (<[Z.to_nat (AtomicBasedPool.index stocked_atomic) := (Some 2%nat)]> (AtomicBasedPool.objects stocked_atomic)), stocked_heap) /\
      AtomicBasedPool.resident
        (AtomicBasedPool.with_objects stocked_atomic
           (<[Z.to_nat (AtomicBasedPool.index stocked_atomic) := (Some 2%nat)]> (AtomicBasedPool.objects stocked_atomic)))
        = AtomicBasedPool.resident stocked_atomic).
Proof.
  destruct stocked_pools_wf as (_ & _ & _ & Hatomic & Hslice).
  assert (MutexBasedPool.occupancy stocked_mutex_slice
          < MutexBasedPool.capacity stocked_mutex_slice) as Hroom1 by (vm_compute; reflexivity).
  assert (AtomicBasedPool.occupancy stocked_atomic
          < AtomicBasedPool.capacity stocked_atomic) as Hroom2 by (vm_compute; reflexivity).
  split; [by repeat split|].
  exact (put_then_get_returns_same stocked_mutex_slice stocked_atomic (Some 2%nat)
           stocked_heap Hslice Hatomic Hroom1 Hroom2).
Defined.

(** ** Condition-variable pools *)

(** X5. The two condition-variable pools never allocate in [Get]: on an
    empty pool [Get] waits. With capacity at least 1, a [Put] on the empty
    pool followed by [Get] returns the object put and leaves the pool empty
    again. With capacity 0 every [Put] is discarded, so nothing can ever
    end the wait. *)
Theorem cond_pool_hand_off (p1 : CondBasedPool.t) (p2 : RingBufferCondPool.t) (x : ptr) :
  CondBasedPool.wf p1 -> RingBufferCondPool.wf p2 ->
  CondBasedPool.occupancy p1 = 0 -> RingBufferCondPool.occupancy p2 = 0 ->
  (CondBasedPool.Get p1 = Blocked /\
   (0 < CondBasedPool.capacity p1 ->
    exists p' p'',
      CondBasedPool.Put p1 x = Ok p' /\ CondBasedPool.occupancy p' = 1 /\
      CondBasedPool.Get p' = Ok (x, p'') /\ CondBasedPool.occupancy p'' = 0) /\
   (CondBasedPool.capacity p1 <= 0 -> CondBasedPool.Put p1 x = Ok p1)) /\
  (RingBufferCondPool.Get p2 = Blocked /\
   (0 < RingBufferCondPool.capacity p2 ->
    exists p' p'',
      RingBufferCondPool.Put p2 x = Ok p' /\ RingBufferCondPool.occupancy p' = 1 /\
      RingBufferCondPool.Get p' = Ok (x, p'') /\ RingBufferCondPool.occupancy p'' = 0) /\
   (RingBufferCondPool.capacity p2 <= 0 -> RingBufferCondPool.Put p2 x = Ok p2)).
Proof.
  intros Hwf1 Hwf2 Hocc1 Hocc2. split.
  - rewrite CondBasedPoolFacts.cbp_occupancy in Hocc1.
    apply length_zero_nil in Hocc1 as Hnil.
    split; [by apply CondBasedPoolFacts.cbp_Get_empty|]. split.
    + intros Hcap.
      destruct (CondBasedPoolFacts.cbp_Put_room p1 x Hwf1 ltac:(lia))
        as (p' & Hput & Hwf' & Hres & _).
      rewrite Hnil in Hres. simpl in Hres.
      destruct (CondBasedPoolFacts.cbp_Get_next p' x [] Hwf' Hres)
        as (p'' & Hget & _ & Hres'' & _).
      exists p', p''. rewrite !CondBasedPoolFacts.cbp_occupancy, Hres, Hres''.
      by repeat split.
    + intros Hcap. apply CondBasedPoolFacts.cbp_Put_full; [done|lia].
  - assert (RingBuffer.wf (RingBufferCondPool.ringBuffer p2)) as Hrb by apply Hwf2.
    unfold RingBufferCondPool.occupancy, RingBuffer.Size in Hocc2.
    pose proof (RingBufferFacts.contents_empty _ Hrb Hocc2) as Hnil.
    split; [by apply RingBufferCondPoolFacts.rbc_Get_empty|]. split.
    + intros Hcap.
      destruct (RingBufferCondPoolFacts.rbc_Put_room p2 x Hwf2)
        as (p' & Hput & Hwf' & Hres & _).
      { unfold RingBufferCondPool.resident. rewrite Hnil. simpl. lia. }
      unfold RingBufferCondPool.resident in Hres at 2. rewrite Hnil in Hres. simpl in Hres.
      destruct (RingBufferCondPoolFacts.rbc_Get_next p' x [] Hwf' Hres)
        as (p'' & Hget & Hwf'' & Hres'' & _).
      exists p', p''. split; [done|].
      assert (forall p, RingBufferCondPool.wf p ->
                RingBufferCondPool.occupancy p
                = Z.of_nat (length (RingBufferCondPool.resident p))) as Hocc.
      { intros p [Hp _]. symmetry. by apply RingBufferFacts.contents_length. }
      rewrite !Hocc, Hres, Hres'' by done. by repeat split.
    + intros Hcap. apply RingBufferCondPoolFacts.rbc_Put_full; [done|].
      unfold RingBufferCondPool.resident. rewrite Hnil. simpl. lia.
Qed.

Lemma drained_cond_pools_wf :
  CondBasedPool.wf drained_cond_slice /\ RingBufferCondPool.wf drained_cond_ring.
Proof.
  split; [|split; [exact drained_ring_wf|reflexivity]].
  unfold CondBasedPool.wf, len, int_max; simpl. split; [lia|reflexivity].
Qed.

Lemma cond_pool_hand_off_witness :
  (CondBasedPool.wf drained_cond_slice /\ RingBufferCondPool.wf drained_cond_ring /\
   CondBasedPool.occupancy drained_cond_slice = 0 /\
   RingBufferCondPool.occupancy drained_cond_ring = 0) /\
  (CondBasedPool.Get drained_cond_slice = Blocked /\
   (0 < CondBasedPool.capacity drained_cond_slice ->
    exists p' p'',
      CondBasedPool.Put drained_cond_slice (Some 1%nat) = Ok p' /\
      CondBasedPool.occupancy p' = 1 /\
      CondBasedPool.Get p' = Ok (Some 1%nat, p'') /\ CondBasedPool.occupancy p'' = 0) /\
   (CondBasedPool.capacity drained_cond_slice <= 0 ->
    CondBasedPool.Put drained_cond_slice (Some 1%nat) = Ok drained_cond_slice)) /\
  (RingBufferCondPool.Get drained_cond_ring = Blocked /\
   (0 < RingBufferCondPool.capacity drained_cond_ring ->
    exists p' p'',
      RingBufferCondPool.Put drained_cond_ring (Some 1%nat) = Ok p' /\
      RingBufferCondPool.occupancy p' = 1 /\
      RingBufferCondPool.Get p' = Ok (Some 1%nat, p'') /\
      RingBufferCondPool.occupancy p'' = 0) /\
   (RingBufferCondPool.capacity drained_cond_ring <= 0 ->
    RingBufferCondPool.Put drained_cond_ring (Some 1%nat) = Ok drained_cond_ring)).
Proof.
  destruct drained_cond_pools_wf as [Hslice Hring].
  split; [split; [exact Hslice|split; [exact Hring|split; reflexivity]]|].
  exact (cond_pool_hand_off drained_cond_slice drained_cond_ring (Some 1%nat)
           Hslice Hring eq_refl eq_refl).
Defined.

(** ** Construction of the sharded pools *)

Lemma build_shards_count_from {P : Type} (newShard : heap -> outcome (P * heap))
    (k n : nat) (i : Z) (acc : list P) (h : heap) (shards : list P) (h' : heap) :
  (forall h s h1, newShard h = Ok (s, h1) -> length h1 = (length h + k)%nat) ->
  for_range_from i n
    (fun _ (st : list P * heap) =>
       let '(shards, h) := st in
       '(shard, h') ← newShard h;
       Ok (shards ++ [shard], h'))
    (acc, h) = Ok (shards, h') ->
  length h' = (length h + n * k)%nat.
Proof.
  intros Hnew. revert i acc h. induction n as [|n IH]; intros i acc h Hrun.
  - injection Hrun as _ <-. lia.
  - cbn [for_range_from] in Hrun.
    destruct (newShard h) as [[s h1]| |] eqn:Hs; [|done..].
    cbn [mbind outcome_bind] in Hrun.
    apply IH in Hrun. apply Hnew in Hs. lia.
Qed.

Section ShardedBuild.
Context {P : Type}.
Variable newShard : Z -> heap -> outcome (P * heap).
Variable Q : Z -> P -> heap -> Prop.

Hypothesis Q_mono : forall k s h h',
  Q k s h -> (length h <= length h')%nat -> Q k s h'.

Hypothesis new_ok : forall k h,
  1 <= k <= int_max ->
  exists s h',
    newShard k h = Ok (s, h') /\ Q k s h' /\
    length h' = (length h + Z.to_nat k)%nat.

Lemma sharded_build (n k : Z) (h : heap) :
  1 <= n -> 1 <= k <= int_max ->
  exists shards h',
    build_shards n (newShard k) h = Ok (shards, h') /\
    Z.of_nat (length shards) = n /\ Forall (fun s => Q k s h') shards /\
    Z.of_nat (length h') = Z.of_nat (length h) + n * k.
Proof.
  intros Hn Hk.
  destruct (build_shards_heap (Q k) (newShard k) n h ltac:(lia)) as (shards & h' & Hb & Hlen & Hall).
  - apply Q_mono.
  - intros h0. destruct (new_ok k h0 Hk) as (s & h1 & Hs & HQ & Hh).
    exists s, h1. split; [done|]. split; [done|lia].
  - exists shards, h'. split; [done|]. split; [done|]. split; [done|].
    unfold build_shards in Hb. destruct (Z.ltb_spec n 0); [lia|].
    apply (build_shards_count_from _ (Z.to_nat k)) in Hb.
    + nia.
    + intros h0 s h1 Hs. destruct (new_ok k h0 Hk) as (s' & h1' & Hs' & _ & Hh).
      rewrite Hs' in Hs. by injection Hs as _ <-.
Qed.

End ShardedBuild.

Lemma Forall_valid_mono (l : list ptr) (h h' : heap) :
  Forall (fun obj => valid obj h) l -> (length h <= length h')%nat ->
  Forall (fun obj => valid obj h') l.
Proof.
  intros Hl Hle. eapply Forall_impl; [exact Hl|].
  intros obj Hobj. exact (valid_mono obj h h' Hobj Hle).
Qed.

Lemma mrb_built_mono (alloc : Allocator) (k : Z) (s : MutexRingBufferPool.t) (h h' : heap) :
  mrb_built alloc k s h -> (length h <= length h')%nat -> mrb_built alloc k s h'.
Proof.
  intros (? & ? & Hv & ? & ?) Hle. split; [done|]. split; [done|].
  split; [by eapply Forall_valid_mono|done].
Qed.

Lemma chan_built_mono (alloc : Allocator) (k : Z) (s : ChannelBasedPool.t) (h h' : heap) :
  chan_built alloc k s h -> (length h <= length h')%nat -> chan_built alloc k s h'.
Proof.
  intros (? & ? & Hv & ? & ?) Hle. split; [done|]. split; [done|].
  split; [by eapply Forall_valid_mono|done].
Qed.

Lemma abp_built_mono (alloc : Allocator) (k : Z) (s : AtomicBasedPool.t) (h h' : heap) :
  abp_built alloc k s h -> (length h <= length h')%nat -> abp_built alloc k s h'.
Proof.
  intros (? & ? & Hv & ? & ?) Hle. split; [done|]. split; [done|].
  split; [by eapply Forall_valid_mono|done].
Qed.

Lemma rbc_built_mono (alloc : Allocator) (k : Z) (s : RingBufferCondPool.t) (h h' : heap) :
  rbc_built alloc k s h -> (length h <= length h')%nat -> rbc_built alloc k s h'.
Proof.
  intros (? & ? & Hv & ? & ?) Hle. split; [done|]. split; [done|].
  split; [by eapply Forall_valid_mono|done].
Qed.

Lemma mrb_New_built (alloc : Allocator) (clean : Cleaner) (k : Z) (h : heap) :
  fresh_allocator alloc -> 1 <= k <= int_max ->
  exists s h',
    NewMutexRingBufferPool k alloc clean h = Ok (s, h') /\ mrb_built alloc k s h' /\
    length h' = (length h + Z.to_nat k)%nat.
Proof.
  intros Hfresh Hk.
  destruct (MutexRingBufferPoolFacts.mrb_New k alloc clean h ltac:(lia))
    as (s & Hnew & Hwf & Hres & Hcap & Hal & _).
  destruct (alloc_n_valid alloc (Z.to_nat k) h Hfresh) as [Hval _].
  destruct (alloc_n_fresh alloc (Z.to_nat k) h Hfresh) as [_ Hlen].
  pose proof (alloc_n_length alloc (Z.to_nat k) h) as Hn.
  eexists _, _. split; [exact Hnew|]. split; [|done].
  unfold mrb_built. rewrite Hres, Hn. repeat split; try done; try apply Hwf. lia.
Qed.

Lemma chan_New_built (alloc : Allocator) (clean : Cleaner) (k : Z) (h : heap) :
  fresh_allocator alloc -> 1 <= k <= int_max ->
  exists s h',
    NewChannelBasedPool k alloc clean h = Ok (s, h') /\ chan_built alloc k s h' /\
    length h' = (length h + Z.to_nat k)%nat.
Proof.
  intros Hfresh Hk.
  destruct (ChannelBasedPoolFacts.chan_New k alloc clean h ltac:(lia))
    as (s & Hnew & Hwf & Hres & Hcap & Hal & _).
  destruct (alloc_n_valid alloc (Z.to_nat k) h Hfresh) as [Hval _].
  destruct (alloc_n_fresh alloc (Z.to_nat k) h Hfresh) as [_ Hlen].
  pose proof (alloc_n_length alloc (Z.to_nat k) h) as Hn.
  eexists _, _. split; [exact Hnew|]. split; [|done].
  unfold chan_built. rewrite Hres, Hn. repeat split; try done. lia.
Qed.

Lemma abp_New_built (alloc : Allocator) (clean : Cleaner) (k : Z) (h : heap) :
  fresh_allocator alloc -> 1 <= k <= int_max ->
  exists s h',
    NewAtomicBasedPool k alloc clean h = Ok (s, h') /\ abp_built alloc k s h' /\
    length h' = (length h + Z.to_nat k)%nat.
Proof.
  intros Hfresh Hk.
  destruct (AtomicBasedPoolFacts.abp_New k alloc clean h ltac:(lia))
    as (s & Hnew & Hwf & Hres & Hcap & Hal & _).
  destruct (alloc_n_valid alloc (Z.to_nat k) h Hfresh) as [Hval _].
  destruct (alloc_n_fresh alloc (Z.to_nat k) h Hfresh) as [_ Hlen].
  pose proof (alloc_n_length alloc (Z.to_nat k) h) as Hn.
  eexists _, _. split; [exact Hnew|]. split; [|done].
  unfold abp_built. rewrite Hres, Hn. repeat split; try done; try apply Hwf. lia.
Qed.

Lemma rbc_New_built (alloc : Allocator) (clean : Cleaner) (k : Z) (h : heap) :
  fresh_allocator alloc -> 1 <= k <= int_max ->
  exists s h',
    NewRingBufferCondPool k alloc clean h = Ok (s, h') /\ rbc_built alloc k s h' /\
    length h' = (length h + Z.to_nat k)%nat.
Proof.
  intros Hfresh Hk.
  destruct (RingBufferCondPoolFacts.rbc_New k alloc clean h ltac:(lia))
    as (s & Hnew & Hwf & Hres & Hcap & Hal & _).
  destruct (alloc_n_valid alloc (Z.to_nat k) h Hfresh) as [Hval _].
  destruct (alloc_n_fresh alloc (Z.to_nat k) h Hfresh) as [_ Hlen].
  pose proof (alloc_n_length alloc (Z.to_nat k) h) as Hn.
  eexists _, _. split; [exact Hnew|]. split; [|done].
  unfold rbc_built. rewrite Hres, Hn. repeat split; try done; try apply Hwf. lia.
Qed.

Lemma smr_New_built (gomaxprocs C numShards : Z) (alloc : Allocator) (clean : Cleaner)
    (h : heap) :
  is_int C -> 1 <= resolve_numShards gomaxprocs numShards -> fresh_allocator alloc ->
  exists p h',
    NewShardedMutexRingBufferPool gomaxprocs C numShards alloc clean h = Ok (p, h') /\
    Z.of_nat (length (ShardedMutexRingBufferPool.shards p)) = resolve_numShards gomaxprocs numShards /\
    Forall (fun s => mrb_built alloc
                       (Z.max (C ÷ resolve_numShards gomaxprocs numShards) 1) s h')
           (ShardedMutexRingBufferPool.shards p) /\
    Z.of_nat (length h')
      = Z.of_nat (length h)
        + resolve_numShards gomaxprocs numShards
          * Z.max (C ÷ resolve_numShards gomaxprocs numShards) 1.
Proof.
  intros HC Hn Hfresh. set (n := resolve_numShards gomaxprocs numShards) in *.
  destruct (int_quot_pos C n HC Hn) as [Hq Hqint].
  assert (1 <= Z.max (C ÷ n) 1 <= int_max) as Hk
    by (unfold is_int, int_max in *; lia).
  unfold NewShardedMutexRingBufferPool. fold n. rewrite Hq. cbn [mbind outcome_bind].
  destruct (sharded_build (fun k => NewMutexRingBufferPool k alloc clean) (mrb_built alloc)
              (mrb_built_mono alloc)
              (fun k h Hk => mrb_New_built alloc clean k h Hfresh Hk)
              n (Z.max (C ÷ n) 1) h Hn Hk) as (shards & h' & -> & Hlen & Hall & Hh).
  cbn [mbind outcome_bind]. eexists _, _. split; [done|]. by repeat split.
Qed.

Lemma sch_New_built (gomaxprocs C numShards : Z) (alloc : Allocator) (clean : Cleaner)
    (h : heap) :
  is_int C -> 1 <= resolve_numShards gomaxprocs numShards -> fresh_allocator alloc ->
  exists p h',
    NewShardedChannelBasedPool gomaxprocs C numShards alloc clean h = Ok (p, h') /\
    Z.of_nat (length (ShardedChannelBasedPool.shards p)) = resolve_numShards gomaxprocs numShards /\
    Forall (fun s => chan_built alloc
                       (Z.max (C ÷ resolve_numShards gomaxprocs numShards) 1) s h')
           (ShardedChannelBasedPool.shards p) /\
    Z.of_nat (length h')
      = Z.of_nat (length h)
        + resolve_numShards gomaxprocs numShards
          * Z.max (C ÷ resolve_numShards gomaxprocs numShards) 1.
Proof.
  intros HC Hn Hfresh. set (n := resolve_numShards gomaxprocs numShards) in *.
  destruct (int_quot_pos C n HC Hn) as [Hq Hqint].
  assert (1 <= Z.max (C ÷ n) 1 <= int_max) as Hk
    by (unfold is_int, int_max in *; lia).
  unfold NewShardedChannelBasedPool. fold n. rewrite Hq. cbn [mbind outcome_bind].
  replace (if C ÷ n <? 1 then 1 else C ÷ n) with (Z.max (C ÷ n) 1)
    by (destruct (Z.ltb_spec (C ÷ n) 1); lia).
  destruct (sharded_build (fun k => NewChannelBasedPool k alloc clean) (chan_built alloc)
              (chan_built_mono alloc)
              (fun k h Hk => chan_New_built alloc clean k h Hfresh Hk)
              n (Z.max (C ÷ n) 1) h Hn Hk) as (shards & h' & -> & Hlen & Hall & Hh).
  cbn [mbind outcome_bind]. eexists _, _. split; [done|]. by repeat split.
Qed.

Lemma sab_New_built (gomaxprocs C numShards : Z) (alloc : Allocator) (clean : Cleaner)
    (h : heap) :
  is_int C -> 1 <= resolve_numShards gomaxprocs numShards -> fresh_allocator alloc ->
  exists p h',
    NewShardedAtomicBasedPool gomaxprocs C numShards alloc clean h = Ok (p, h') /\
    Z.of_nat (length (ShardedAtomicBasedPool.shards p)) = resolve_numShards gomaxprocs numShards /\
    Forall (fun s => abp_built alloc
                       (Z.max (C ÷ resolve_numShards gomaxprocs numShards) 1) s h')
           (ShardedAtomicBasedPool.shards p) /\
    Z.of_nat (length h')
      = Z.of_nat (length h)
        + resolve_numShards gomaxprocs numShards
          * Z.max (C ÷ resolve_numShards gomaxprocs numShards) 1.
Proof.
  intros HC Hn Hfresh. set (n := resolve_numShards gomaxprocs numShards) in *.
  destruct (int_quot_pos C n HC Hn) as [Hq Hqint].
  assert (1 <= Z.max (C ÷ n) 1 <= int_max) as Hk
    by (unfold is_int, int_max in *; lia).
  unfold NewShardedAtomicBasedPool. fold n. rewrite Hq. cbn [mbind outcome_bind].
  destruct (sharded_build (fun k => NewAtomicBasedPool k alloc clean) (abp_built alloc)
              (abp_built_mono alloc)
              (fun k h Hk => abp_New_built alloc clean k h Hfresh Hk)
              n (Z.max (C ÷ n) 1) h Hn Hk) as (shards & h' & -> & Hlen & Hall & Hh).
  cbn [mbind outcome_bind]. eexists _, _. split; [done|]. by repeat split.
Qed.

Lemma scb_New_built (gomaxprocs C numShards : Z) (alloc : Allocator) (clean : Cleaner)
    (h : heap) :
  is_int C -> 1 <= resolve_numShards gomaxprocs numShards -> fresh_allocator alloc ->
  exists p h',
    NewShardedCondBasedPool gomaxprocs C numShards alloc clean h = Ok (p, h') /\
    Z.of_nat (length (ShardedCondBasedPool.shards p)) = resolve_numShards gomaxprocs numShards /\
    Forall (fun s => rbc_built alloc
                       (Z.max (C ÷ resolve_numShards gomaxprocs numShards) 1) s h')
           (ShardedCondBasedPool.shards p) /\
    Z.of_nat (length h')
      = Z.of_nat (length h)
        + resolve_numShards gomaxprocs numShards
          * Z.max (C ÷ resolve_numShards gomaxprocs numShards) 1.
Proof.
  intros HC Hn Hfresh. set (n := resolve_numShards gomaxprocs numShards) in *.
  destruct (int_quot_pos C n HC Hn) as [Hq Hqint].
  assert (1 <= Z.max (C ÷ n) 1 <= int_max) as Hk
    by (unfold is_int, int_max in *; lia).
  unfold NewShardedCondBasedPool. fold n. rewrite Hq. cbn [mbind outcome_bind].
  replace (if C ÷ n <? 1 then 1 else C ÷ n) with (Z.max (C ÷ n) 1)
    by (destruct (Z.ltb_spec (C ÷ n) 1); lia).
  destruct (sharded_build (fun k => NewRingBufferCondPool k alloc clean) (rbc_built alloc)
              (rbc_built_mono alloc)
              (fun k h Hk => rbc_New_built alloc clean k h Hfresh Hk)
              n (Z.max (C ÷ n) 1) h Hn Hk) as (shards & h' & -> & Hlen & Hall & Hh).
  cbn [mbind outcome_bind]. eexists _, _. split; [done|]. by repeat split.
Qed.

Lemma src_New_built (gomaxprocs C numShards : Z) (alloc : Allocator) (clean : Cleaner)
    (h : heap) :
  is_int C -> 1 <= resolve_numShards gomaxprocs numShards -> fresh_allocator alloc ->
  exists p h',
    NewShardedRingBufferCondPool gomaxprocs C numShards alloc clean h = Ok (p, h') /\
    Z.of_nat (length (ShardedRingBufferCondPool.shards p)) = resolve_numShards gomaxprocs numShards /\
    Forall (fun s => rbc_built alloc
                       (Z.max (C ÷ resolve_numShards gomaxprocs numShards) 1) s h')
           (ShardedRingBufferCondPool.shards p) /\
    Z.of_nat (length h')
      = Z.of_nat (length h)
        + resolve_numShards gomaxprocs numShards
          * Z.max (C ÷ resolve_numShards gomaxprocs numShards) 1.
Proof.
  intros HC Hn Hfresh. set (n := resolve_numShards gomaxprocs numShards) in *.
  destruct (int_quot_pos C n HC Hn) as [Hq Hqint].
  assert (1 <= Z.max (C ÷ n) 1 <= int_max) as Hk
    by (unfold is_int, int_max in *; lia).
  unfold NewShardedRingBufferCondPool. fold n. rewrite Hq. cbn [mbind outcome_bind].
  replace (if C ÷ n <? 1 then 1 else C ÷ n) with (Z.max (C ÷ n) 1)
    by (destruct (Z.ltb_spec (C ÷ n) 1); lia).
  destruct (sharded_build (fun k => NewRingBufferCondPool k alloc clean) (rbc_built alloc)
              (rbc_built_mono alloc)
              (fun k h Hk => rbc_New_built alloc clean k h Hfresh Hk)
              n (Z.max (C ÷ n) 1) h Hn Hk) as (shards & h' & -> & Hlen & Hall & Hh).
  cbn [mbind outcome_bind]. eexists _, _. split; [done|]. by repeat split.
Qed.

Lemma sgi_New_built (gomaxprocs C numShards : Z) (alloc : Allocator) (clean : Cleaner)
    (h : heap) :
  is_int C -> 1 <= resolve_numShards gomaxprocs numShards -> fresh_allocator alloc ->
  exists p h',
    NewShardedGoroutineIDPool gomaxprocs C numShards alloc clean h = Ok (p, h') /\
    Z.of_nat (length (ShardedGoroutineIDPool.shards p)) = resolve_numShards gomaxprocs numShards /\
    Forall (fun s => mrb_built alloc
                       (Z.max (C ÷ resolve_numShards gomaxprocs numShards) 1) s h')
           (ShardedGoroutineIDPool.shards p) /\
    Z.of_nat (length h')
      = Z.of_nat (length h)
        + resolve_numShards gomaxprocs numShards
          * Z.max (C ÷ resolve_numShards gomaxprocs numShards) 1 /\
    ShardedGoroutineIDPool.numShards p = resolve_numShards gomaxprocs numShards.
Proof.
  intros HC Hn Hfresh. set (n := resolve_numShards gomaxprocs numShards) in *.
  destruct (int_quot_pos C n HC Hn) as [Hq Hqint].
  assert (1 <= Z.max (C ÷ n) 1 <= int_max) as Hk
    by (unfold is_int, int_max in *; lia).
  unfold NewShardedGoroutineIDPool. fold n. rewrite Hq. cbn [mbind outcome_bind].
  destruct (sharded_build (fun k => NewMutexRingBufferPool k alloc clean) (mrb_built alloc)
              (mrb_built_mono alloc)
              (fun k h Hk => mrb_New_built alloc clean k h Hfresh Hk)
              n (Z.max (C ÷ n) 1) h Hn Hk) as (shards & h' & -> & Hlen & Hall & Hh).
  cbn [mbind outcome_bind]. eexists _, _. split; [done|]. by repeat split.
Qed.

(** X6. Every sharded constructor, given a shard count [n] of at least 1
    (the argument, or [GOMAXPROCS] when the argument is not positive) and
    a capacity [C], both of at most [make_max] so that every [make] of the
    constructor passes the runtime's size test, builds [n] shards, each of
    capacity [k = max(C/n, 1)] and filled to that capacity, and calls the
    allocator exactly [n * k] times. When the requested capacity [C] is
    below [n], or negative, this is [n] objects, more than requested. *)
Theorem sharded_constructor_allocations (gomaxprocs C numShards n k : Z)
    (alloc : Allocator) (clean : Cleaner) (h : heap) :
  is_int C -> C <= make_max ->
  n = resolve_numShards gomaxprocs numShards -> 1 <= n <= make_max ->
  k = Z.max (C ÷ n) 1 -> fresh_allocator alloc ->
  (exists p h',
      NewShardedMutexRingBufferPool gomaxprocs C numShards alloc clean h = Ok (p, h') /\
      Z.of_nat (length (ShardedMutexRingBufferPool.shards p)) = n /\
      Forall (fun s => MutexRingBufferPool.occupancy s = k /\ MutexRingBufferPool.capacity s = k)
             (ShardedMutexRingBufferPool.shards p) /\
      Z.of_nat (allocations h') = Z.of_nat (allocations h) + n * k) /\
  (exists p h',
      NewShardedChannelBasedPool gomaxprocs C numShards alloc clean h = Ok (p, h') /\
      Z.of_nat (length (ShardedChannelBasedPool.shards p)) = n /\
      Forall (fun s => ChannelBasedPool.occupancy s = k /\ ChannelBasedPool.capacity s = k)
             (ShardedChannelBasedPool.shards p) /\
      Z.of_nat (allocations h') = Z.of_nat (allocations h) + n * k) /\
  (exists p h',
      NewShardedAtomicBasedPool gomaxprocs C numShards alloc clean h = Ok (p, h') /\
      Z.of_nat (length (ShardedAtomicBasedPool.shards p)) = n /\
      Forall (fun s => AtomicBasedPool.occupancy s = k /\ AtomicBasedPool.capacity s = k)
             (ShardedAtomicBasedPool.shards p) /\
      Z.of_nat (allocations h') = Z.of_nat (allocations h) + n * k) /\
  (exists p h',
      NewShardedCondBasedPool gomaxprocs C numShards alloc clean h = Ok (p, h') /\
      Z.of_nat (length (ShardedCondBasedPool.shards p)) = n /\
      Forall (fun s => RingBufferCondPool.occupancy s = k /\ RingBufferCondPool.capacity s = k)
             (ShardedCondBasedPool.shards p) /\
      Z.of_nat (allocations h') = Z.of_nat (allocations h) + n * k) /\
  (exists p h',
      NewShardedRingBufferCondPool gomaxprocs C numShards alloc clean h = Ok (p, h') /\
      Z.of_nat (length (ShardedRingBufferCondPool.shards p)) = n /\
      Forall (fun s => RingBufferCondPool.occupancy s = k /\ RingBufferCondPool.capacity s = k)
             (ShardedRingBufferCondPool.shards p) /\
      Z.of_nat (allocations h') = Z.of_nat (allocations h) + n * k) /\
  (exists p h',
      NewShardedGoroutineIDPool gomaxprocs C numShards alloc clean h = Ok (p, h') /\
      Z.of_nat (length (ShardedGoroutineIDPool.shards p)) = n /\
      Forall (fun s => MutexRingBufferPool.occupancy s = k /\ MutexRingBufferPool.capacity s = k)
             (ShardedGoroutineIDPool.shards p) /\
      Z.of_nat (allocations h') = Z.of_nat (allocations h) + n * k) /\
  1 <= k <= make_max /\
  (C < n -> n * k = n /\ C < n * k).
Proof.
  intros HC HCmax -> [Hn Hnmax] -> Hfresh.
  split.
  { destruct (smr_New_built gomaxprocs C numShards alloc clean h HC Hn Hfresh)
      as (p & h' & Hnew & Hlen & Hall & Hh).
    exists p, h'. split; [done|]. split; [done|]. split; [|exact Hh].
    eapply Forall_impl; [exact Hall|]. intros s (Hwf & _ & _ & Hcap & Hres).
    rewrite MutexRingBufferPoolFacts.mrb_occupancy by done. by split. }
  split.
  { destruct (sch_New_built gomaxprocs C numShards alloc clean h HC Hn Hfresh)
      as (p & h' & Hnew & Hlen & Hall & Hh).
    exists p, h'. split; [done|]. split; [done|]. split; [|exact Hh].
    eapply Forall_impl; [exact Hall|]. intros s (Hwf & _ & _ & Hcap & Hres).
    by split. }
  split.
  { destruct (sab_New_built gomaxprocs C numShards alloc clean h HC Hn Hfresh)
      as (p & h' & Hnew & Hlen & Hall & Hh).
    exists p, h'. split; [done|]. split; [done|]. split; [|exact Hh].
    eapply Forall_impl; [exact Hall|]. intros s (Hwf & _ & _ & Hcap & Hres).
    unfold AtomicBasedPool.occupancy. rewrite <- AtomicBasedPoolFacts.abp_resident_length by done. by split. }
  split.
  { destruct (scb_New_built gomaxprocs C numShards alloc clean h HC Hn Hfresh)
      as (p & h' & Hnew & Hlen & Hall & Hh).
    exists p, h'. split; [done|]. split; [done|]. split; [|exact Hh].
    eapply Forall_impl; [exact Hall|]. intros s (Hwf & _ & _ & Hcap & Hres).
    unfold RingBufferCondPool.occupancy, RingBuffer.Size. rewrite <- (RingBufferFacts.contents_length _ (proj1 Hwf)). by split. }
  split.
  { destruct (src_New_built gomaxprocs C numShards alloc clean h HC Hn Hfresh)
      as (p & h' & Hnew & Hlen & Hall & Hh).
    exists p, h'. split; [done|]. split; [done|]. split; [|exact Hh].
    eapply Forall_impl; [exact Hall|]. intros s (Hwf & _ & _ & Hcap & Hres).
    unfold RingBufferCondPool.occupancy, RingBuffer.Size. rewrite <- (RingBufferFacts.contents_length _ (proj1 Hwf)). by split. }
  split.
  { destruct (sgi_New_built gomaxprocs C numShards alloc clean h HC Hn Hfresh)
      as (p & h' & Hnew & Hlen & Hall & Hh & _).
    exists p, h'. split; [done|]. split; [done|]. split; [|exact Hh].
    eapply Forall_impl; [exact Hall|]. intros s (Hwf & _ & _ & Hcap & Hres).
    rewrite MutexRingBufferPoolFacts.mrb_occupancy by done. by split. }
  split.
  { assert (C ÷ resolve_numShards gomaxprocs numShards <= make_max) as Hq.
    { destruct (Z.le_gt_cases 0 C) as [Hpos|Hneg].
      - etrans; [|exact HCmax]. apply Z.quot_le_upper_bound; nia.
      - assert (C ÷ resolve_numShards gomaxprocs numShards <= 0)
          by (apply Z.quot_le_upper_bound; lia).
        assert (0 <= make_max) by (vm_compute; discriminate). lia. }
    assert (1 <= make_max) by (vm_compute; discriminate). lia. }
  intros Hlt. assert (C ÷ resolve_numShards gomaxprocs numShards <= 0) as Hq.
  { destruct (Z.le_gt_cases 0 C) as [Hpos|Hneg].
    - rewrite Z.quot_small by lia. lia.
    - apply Z.quot_le_upper_bound; lia || idtac. }
  lia.
Qed.

Lemma sharded_constructor_allocations_witness :
  (is_int 3 /\ 3 <= make_max /\ 8 = resolve_numShards 8 0 /\ 1 <= 8 <= make_max /\
   1 = Z.max (3 ÷ 8) 1 /\ fresh_allocator testAllocator) /\

  (exists p h',
      NewShardedMutexRingBufferPool 8 3 0 testAllocator testCleaner [] = Ok (p, h') /\
      Z.of_nat (length (ShardedMutexRingBufferPool.shards p)) = 8 /\
      Forall (fun s => MutexRingBufferPool.occupancy s = 1 /\ MutexRingBufferPool.capacity s = 1)
             (ShardedMutexRingBufferPool.shards p) /\
      Z.of_nat (allocations h') = Z.of_nat (allocations []) + 8 * 1) /\
  (exists p h',
      NewShardedChannelBasedPool 8 3 0 testAllocator testCleaner [] = Ok (p, h') /\
      Z.of_nat (length (ShardedChannelBasedPool.shards p)) = 8 /\
      Forall (fun s => ChannelBasedPool.occupancy s = 1 /\ ChannelBasedPool.capacity s = 1)
             (ShardedChannelBasedPool.shards p) /\
      Z.of_nat (allocations h') = Z.of_nat (allocations []) + 8 * 1) /\
  (exists p h',
      NewShardedAtomicBasedPool 8 3 0 testAllocator testCleaner [] = Ok (p, h') /\
      Z.of_nat (length (ShardedAtomicBasedPool.shards p)) = 8 /\
      Forall (fun s => AtomicBasedPool.occupancy s = 1 /\ AtomicBasedPool.capacity s = 1)
             (ShardedAtomicBasedPool.shards p) /\
      Z.of_nat (allocations h') = Z.of_nat (allocations []) + 8 * 1) /\
  (exists p h',
      NewShardedCondBasedPool 8 3 0 testAllocator testCleaner [] = Ok (p, h') /\
      Z.of_nat (length (ShardedCondBasedPool.shards p)) = 8 /\
      Forall (fun s => RingBufferCondPool.occupancy s = 1 /\ RingBufferCondPool.capacity s = 1)
             (ShardedCondBasedPool.shards p) /\
      Z.of_nat (allocations h') = Z.of_nat (allocations []) + 8 * 1) /\
  (exists p h',
      NewShardedRingBufferCondPool 8 3 0 testAllocator testCleaner [] = Ok (p, h') /\
      Z.of_nat (length (ShardedRingBufferCondPool.shards p)) = 8 /\
      Forall (fun s => RingBufferCondPool.occupancy s = 1 /\ RingBufferCondPool.capacity s = 1)
             (ShardedRingBufferCondPool.shards p) /\
      Z.of_nat (allocations h') = Z.of_nat (allocations []) + 8 * 1) /\
  (exists p h',
      NewShardedGoroutineIDPool 8 3 0 testAllocator testCleaner [] = Ok (p, h') /\
      Z.of_nat (length (ShardedGoroutineIDPool.shards p)) = 8 /\
      Forall (fun s => MutexRingBufferPool.occupancy s = 1 /\ MutexRingBufferPool.capacity s = 1)
             (ShardedGoroutineIDPool.shards p) /\
      Z.of_nat (allocations h') = Z.of_nat (allocations []) + 8 * 1) /\
  1 <= 1 <= make_max /\
  (3 < 8 -> 8 * 1 = 8 /\ 3 < 8 * 1).
Proof.
  assert (is_int 3) as HC by (unfold is_int, int_min, int_max; lia).
  assert (3 <= make_max) as HCmax by (vm_compute; discriminate).
  assert (1 <= 8 <= make_max) as Hn by (split; vm_compute; discriminate).
  split; [split; [exact HC|split; [exact HCmax|split; [reflexivity|split; [exact Hn|split;
    [reflexivity|exact testAllocator_fresh]]]]]|].
  exact (sharded_constructor_allocations 8 3 0 8 1 testAllocator testCleaner []
           HC HCmax eq_refl Hn eq_refl testAllocator_fresh).
Defined.

(** ** Get of the sharded pools: resident object, or empty shard *)

Lemma smr_Get_hit (p : ShardedMutexRingBufferPool.t) (procPin : Z) (h : heap)
    (s : MutexRingBufferPool.t) (x : ptr) (l : list ptr) :
  0 <= procPin -> ShardedMutexRingBufferPool.shards p !! Z.to_nat procPin = Some s ->
  MutexRingBufferPool.wf s -> MutexRingBufferPool.resident s = x :: l -> valid x h ->
  exists s' a o,
    x = Some a /\ h !! a = Some o /\
    ShardedMutexRingBufferPool.Get p procPin h
      = Ok (x, {| ShardedMutexRingBufferPool.shards :=
                    <[Z.to_nat procPin := s']> (ShardedMutexRingBufferPool.shards p) |},
            <[a := set_shardIndex procPin o]> h) /\
    MutexRingBufferPool.wf s' /\ MutexRingBufferPool.resident s' = l /\
    MutexRingBufferPool.capacity s' = MutexRingBufferPool.capacity s /\ MutexRingBufferPool.allocator s' = MutexRingBufferPool.allocator s.
Proof.
  intros Hpin Hs Hwf Hres Hx.
  destruct (MutexRingBufferPoolFacts.mrb_Get_next s h x l Hwf Hres) as (s' & Hget & Hwf' & Hres' & Hcap' & Hal').
  destruct (valid_assign x (set_shardIndex procPin) h Hx) as (a & o & -> & Ho & Hassign & _).
  exists s', a, o. split; [done|]. split; [done|].
  unfold ShardedMutexRingBufferPool.Get.
  rewrite (proj2 (index_slice_Ok _ _ _) (conj Hpin Hs)). cbn [mbind outcome_bind].
  rewrite Hget. cbn [mbind outcome_bind]. rewrite Hassign. cbn [mbind outcome_bind].
  done.
Qed.

Lemma smr_Get_miss (p : ShardedMutexRingBufferPool.t) (procPin : Z) (h : heap) (s : MutexRingBufferPool.t) :
  0 <= procPin -> ShardedMutexRingBufferPool.shards p !! Z.to_nat procPin = Some s ->
  MutexRingBufferPool.wf s -> MutexRingBufferPool.resident s = [] -> fresh_allocator (MutexRingBufferPool.allocator s) ->
  exists o,
    MutexRingBufferPool.allocator s h = (Some (length h), h ++ [o]) /\
    ShardedMutexRingBufferPool.Get p procPin h
      = Ok (Some (length h), p, h ++ [set_shardIndex procPin o]).
Proof.
  intros Hpin Hs Hwf Hres Hfresh. destruct (Hfresh h) as [o Ho]. exists o.
  split; [done|]. unfold ShardedMutexRingBufferPool.Get.
  rewrite (proj2 (index_slice_Ok _ _ _) (conj Hpin Hs)). cbn [mbind outcome_bind].
  rewrite (MutexRingBufferPoolFacts.mrb_Get_empty s h Hwf Hres), Ho. cbn [mbind outcome_bind fst snd assign].
  rewrite lookup_app_r by lia. rewrite Nat.sub_diag. cbn [lookup list_lookup mbind outcome_bind].
  rewrite insert_app_r_alt by lia. rewrite Nat.sub_diag. cbn [insert list_insert].
  rewrite list_insert_id by done. by destruct p.
Qed.

Lemma sch_Get_hit (p : ShardedChannelBasedPool.t) (procPin : Z) (h : heap)
    (s : ChannelBasedPool.t) (x : ptr) (l : list ptr) :
  0 <= procPin -> ShardedChannelBasedPool.shards p !! Z.to_nat procPin = Some s ->
  ChannelBasedPool.wf s -> ChannelBasedPool.resident s = x :: l -> valid x h ->
  exists s' a o,
    x = Some a /\ h !! a = Some o /\
    ShardedChannelBasedPool.Get p procPin h
      = Ok (x, {| ShardedChannelBasedPool.shards :=
                    <[Z.to_nat procPin := s']> (ShardedChannelBasedPool.shards p) |},
            <[a := set_shardIndex procPin o]> h) /\
    ChannelBasedPool.wf s' /\ ChannelBasedPool.resident s' = l /\
    ChannelBasedPool.capacity s' = ChannelBasedPool.capacity s /\ ChannelBasedPool.allocator s' = ChannelBasedPool.allocator s.
Proof.
  intros Hpin Hs Hwf Hres Hx.
  destruct (ChannelBasedPoolFacts.chan_Get_next s h x l Hwf Hres) as (s' & Hget & Hwf' & Hres' & Hcap' & Hal').
  destruct (valid_assign x (set_shardIndex procPin) h Hx) as (a & o & -> & Ho & Hassign & _).
  exists s', a, o. split; [done|]. split; [done|].
  unfold ShardedChannelBasedPool.Get.
  rewrite (proj2 (index_slice_Ok _ _ _) (conj Hpin Hs)). cbn [mbind outcome_bind].
  rewrite Hget. cbn [mbind outcome_bind]. rewrite Hassign. cbn [mbind outcome_bind].
  done.
Qed.

Lemma sch_Get_miss (p : ShardedChannelBasedPool.t) (procPin : Z) (h : heap) (s : ChannelBasedPool.t) :
  0 <= procPin -> ShardedChannelBasedPool.shards p !! Z.to_nat procPin = Some s ->
  ChannelBasedPool.wf s -> ChannelBasedPool.resident s = [] -> fresh_allocator (ChannelBasedPool.allocator s) ->
  exists o,
    ChannelBasedPool.allocator s h = (Some (length h), h ++ [o]) /\
    ShardedChannelBasedPool.Get p procPin h
      = Ok (Some (length h), p, h ++ [set_shardIndex procPin o]).
Proof.
  intros Hpin Hs Hwf Hres Hfresh. destruct (Hfresh h) as [o Ho]. exists o.
  split; [done|]. unfold ShardedChannelBasedPool.Get.
  rewrite (proj2 (index_slice_Ok _ _ _) (conj Hpin Hs)). cbn [mbind outcome_bind].
  rewrite (ChannelBasedPoolFacts.chan_Get_empty s h Hwf Hres), Ho. cbn [mbind outcome_bind fst snd assign].
  rewrite lookup_app_r by lia. rewrite Nat.sub_diag. cbn [lookup list_lookup mbind outcome_bind].
  rewrite insert_app_r_alt by lia. rewrite Nat.sub_diag. cbn [insert list_insert].
  rewrite list_insert_id by done. by destruct p.
Qed.

Lemma sab_Get_hit (p : ShardedAtomicBasedPool.t) (procPin : Z) (h : heap)
    (s : AtomicBasedPool.t) (x : ptr) (l : list ptr) :
  0 <= procPin -> ShardedAtomicBasedPool.shards p !! Z.to_nat procPin = Some s ->
  AtomicBasedPool.wf s -> AtomicBasedPool.resident s = l ++ [x] -> valid x h ->
  exists s' a o,
    x = Some a /\ h !! a = Some o /\
    ShardedAtomicBasedPool.Get p procPin h
      = Ok (x, {| ShardedAtomicBasedPool.shards :=
                    <[Z.to_nat procPin := s']> (ShardedAtomicBasedPool.shards p) |},
            <[a := set_shardIndex procPin o]> h) /\
    AtomicBasedPool.wf s' /\ AtomicBasedPool.resident s' = l /\
    AtomicBasedPool.capacity s' = AtomicBasedPool.capacity s /\ AtomicBasedPool.allocator s' = AtomicBasedPool.allocator s.
Proof.
  intros Hpin Hs Hwf Hres Hx.
  destruct (AtomicBasedPoolFacts.abp_Get_next s h x l Hwf Hres) as (s' & Hget & Hwf' & Hres' & Hcap' & Hal').
  destruct (valid_assign x (set_shardIndex procPin) h Hx) as (a & o & -> & Ho & Hassign & _).
  exists s', a, o. split; [done|]. split; [done|].
  unfold ShardedAtomicBasedPool.Get.
  rewrite (proj2 (index_slice_Ok _ _ _) (conj Hpin Hs)). cbn [mbind outcome_bind].
  rewrite Hget. cbn [mbind outcome_bind]. rewrite Hassign. cbn [mbind outcome_bind].
  done.
Qed.

Lemma sab_Get_miss (p : ShardedAtomicBasedPool.t) (procPin : Z) (h : heap) (s : AtomicBasedPool.t) :
  0 <= procPin -> ShardedAtomicBasedPool.shards p !! Z.to_nat procPin = Some s ->
  AtomicBasedPool.wf s -> AtomicBasedPool.resident s = [] -> fresh_allocator (AtomicBasedPool.allocator s) ->
  exists o,
    AtomicBasedPool.allocator s h = (Some (length h), h ++ [o]) /\
    ShardedAtomicBasedPool.Get p procPin h
      = Ok (Some (length h), p, h ++ [set_shardIndex procPin o]).
Proof.
  intros Hpin Hs Hwf Hres Hfresh. destruct (Hfresh h) as [o Ho]. exists o.
  split; [done|]. unfold ShardedAtomicBasedPool.Get.
  rewrite (proj2 (index_slice_Ok _ _ _) (conj Hpin Hs)). cbn [mbind outcome_bind].
  rewrite (AtomicBasedPoolFacts.abp_Get_empty s h Hwf Hres), Ho. cbn [mbind outcome_bind fst snd assign].
  rewrite lookup_app_r by lia. rewrite Nat.sub_diag. cbn [lookup list_lookup mbind outcome_bind].
  rewrite insert_app_r_alt by lia. rewrite Nat.sub_diag. cbn [insert list_insert].
  rewrite list_insert_id by done. by destruct p.
Qed.

Lemma scb_Get_hit (p : ShardedCondBasedPool.t) (procPin : Z) (h : heap)
    (s : RingBufferCondPool.t) (x : ptr) (l : list ptr) :
  0 <= procPin -> ShardedCondBasedPool.shards p !! Z.to_nat procPin = Some s ->
  RingBufferCondPool.wf s -> RingBufferCondPool.resident s = x :: l -> valid x h ->
  exists s' a o,
    x = Some a /\ h !! a = Some o /\
    ShardedCondBasedPool.Get p procPin h
      = Ok (x, {| ShardedCondBasedPool.shards :=
                    <[Z.to_nat procPin := s']> (ShardedCondBasedPool.shards p) |},
            <[a := set_shardIndex procPin o]> h) /\
    RingBufferCondPool.wf s' /\ RingBufferCondPool.resident s' = l /\
    RingBufferCondPool.capacity s' = RingBufferCondPool.capacity s /\ RingBufferCondPool.allocator s' = RingBufferCondPool.allocator s.
Proof.
  intros Hpin Hs Hwf Hres Hx.
  destruct (RingBufferCondPoolFacts.rbc_Get_next s x l Hwf Hres) as (s' & Hget & Hwf' & Hres' & Hcap' & Hal').
  destruct (valid_assign x (set_shardIndex procPin) h Hx) as (a & o & -> & Ho & Hassign & _).
  exists s', a, o. split; [done|]. split; [done|].
  unfold ShardedCondBasedPool.Get.
  rewrite (proj2 (index_slice_Ok _ _ _) (conj Hpin Hs)). cbn [mbind outcome_bind].
  rewrite Hget. cbn [mbind outcome_bind]. rewrite Hassign. cbn [mbind outcome_bind].
  done.
Qed.

Lemma scb_Get_miss (p : ShardedCondBasedPool.t) (procPin : Z) (h : heap) (s : RingBufferCondPool.t) :
  0 <= procPin -> ShardedCondBasedPool.shards p !! Z.to_nat procPin = Some s ->
  RingBufferCondPool.wf s -> RingBufferCondPool.resident s = [] ->
  ShardedCondBasedPool.Get p procPin h = Blocked.
Proof.
  intros Hpin Hs Hwf Hres. unfold ShardedCondBasedPool.Get.
  rewrite (proj2 (index_slice_Ok _ _ _) (conj Hpin Hs)). cbn [mbind outcome_bind].
  by rewrite (RingBufferCondPoolFacts.rbc_Get_empty s Hwf Hres).
Qed.

Lemma src_Get_hit (p : ShardedRingBufferCondPool.t) (procPin : Z) (h : heap)
    (s : RingBufferCondPool.t) (x : ptr) (l : list ptr) :
  0 <= procPin -> ShardedRingBufferCondPool.shards p !! Z.to_nat procPin = Some s ->
  RingBufferCondPool.wf s -> RingBufferCondPool.resident s = x :: l -> valid x h ->
  exists s' a o,
    x = Some a /\ h !! a = Some o /\
    ShardedRingBufferCondPool.Get p procPin h
      = Ok (x, {| ShardedRingBufferCondPool.shards :=
                    <[Z.to_nat procPin := s']> (ShardedRingBufferCondPool.shards p) |},
            <[a := set_shardIndex procPin o]> h) /\
    RingBufferCondPool.wf s' /\ RingBufferCondPool.resident s' = l /\
    RingBufferCondPool.capacity s' = RingBufferCondPool.capacity s /\ RingBufferCondPool.allocator s' = RingBufferCondPool.allocator s.
Proof.
  intros Hpin Hs Hwf Hres Hx.
  destruct (RingBufferCondPoolFacts.rbc_Get_next s x l Hwf Hres) as (s' & Hget & Hwf' & Hres' & Hcap' & Hal').
  destruct (valid_assign x (set_shardIndex procPin) h Hx) as (a & o & -> & Ho & Hassign & _).
  exists s', a, o. split; [done|]. split; [done|].
  unfold ShardedRingBufferCondPool.Get.
  rewrite (proj2 (index_slice_Ok _ _ _) (conj Hpin Hs)). cbn [mbind outcome_bind].
  rewrite Hget. cbn [mbind outcome_bind]. rewrite Hassign. cbn [mbind outcome_bind].
  done.
Qed.

Lemma src_Get_miss (p : ShardedRingBufferCondPool.t) (procPin : Z) (h : heap) (s : RingBufferCondPool.t) :
  0 <= procPin -> ShardedRingBufferCondPool.shards p !! Z.to_nat procPin = Some s ->
  RingBufferCondPool.wf s -> RingBufferCondPool.resident s = [] ->
  ShardedRingBufferCondPool.Get p procPin h = Blocked.
Proof.
  intros Hpin Hs Hwf Hres. unfold ShardedRingBufferCondPool.Get.
  rewrite (proj2 (index_slice_Ok _ _ _) (conj Hpin Hs)). cbn [mbind outcome_bind].
  by rewrite (RingBufferCondPoolFacts.rbc_Get_empty s Hwf Hres).
Qed.

Lemma snoc_cases {A : Type} (l : list A) :
  (0 < length l)%nat -> exists l' x, l = l' ++ [x].
Proof. induction l using rev_ind; [simpl; lia|eauto]. Qed.

(** X7. [Get] of the processor-pinned sharded pools indexes the shards by
    the id of the calling processor, a number below [GOMAXPROCS]. On a pool
    as constructed, a processor id below the shard count [n] gets a
    pre-populated object without any allocation; a processor id of [n] or
    more makes [Get] panic (index out of range). With a shard count
    argument that is not positive, [n] is [GOMAXPROCS] and every processor
    id is in range. *)
Theorem sharded_get_processor_range (gomaxprocs C numShards n procPin : Z)
    (alloc : Allocator) (clean : Cleaner) (h : heap) :
  is_int C -> n = resolve_numShards gomaxprocs numShards -> 1 <= n ->
  fresh_allocator alloc -> 0 <= procPin < gomaxprocs ->
  (exists p h0,
      NewShardedMutexRingBufferPool gomaxprocs C numShards alloc clean h = Ok (p, h0) /\
      (procPin < n ->
       exists x p' h',
         ShardedMutexRingBufferPool.Get p procPin h0 = Ok (x, p', h') /\
         allocations h' = allocations h0) /\
      (n <= procPin -> ShardedMutexRingBufferPool.Get p procPin h0 = Panic)) /\
  (exists p h0,
      NewShardedChannelBasedPool gomaxprocs C numShards alloc clean h = Ok (p, h0) /\
      (procPin < n ->
       exists x p' h',
         ShardedChannelBasedPool.Get p procPin h0 = Ok (x, p', h') /\
         allocations h' = allocations h0) /\
      (n <= procPin -> ShardedChannelBasedPool.Get p procPin h0 = Panic)) /\
  (exists p h0,
      NewShardedAtomicBasedPool gomaxprocs C numShards alloc clean h = Ok (p, h0) /\
      (procPin < n ->
       exists x p' h',
         ShardedAtomicBasedPool.Get p procPin h0 = Ok (x, p', h') /\
         allocations h' = allocations h0) /\
      (n <= procPin -> ShardedAtomicBasedPool.Get p procPin h0 = Panic)) /\
  (exists p h0,
      NewShardedCondBasedPool gomaxprocs C numShards alloc clean h = Ok (p, h0) /\
      (procPin < n ->
       exists x p' h',
         ShardedCondBasedPool.Get p procPin h0 = Ok (x, p', h') /\
         allocations h' = allocations h0) /\
      (n <= procPin -> ShardedCondBasedPool.Get p procPin h0 = Panic)) /\
  (exists p h0,
      NewShardedRingBufferCondPool gomaxprocs C numShards alloc clean h = Ok (p, h0) /\
      (procPin < n ->
       exists x p' h',
         ShardedRingBufferCondPool.Get p procPin h0 = Ok (x, p', h') /\
         allocations h' = allocations h0) /\
      (n <= procPin -> ShardedRingBufferCondPool.Get p procPin h0 = Panic)) /\
  (numShards <= 0 -> procPin < n).
Proof.
  intros HC -> Hn Hfresh Hpin.
  split.
  { destruct (smr_New_built gomaxprocs C numShards alloc clean h HC Hn Hfresh)
      as (p & h0 & Hnew & Hlen & Hall & _).
    exists p, h0. split; [done|]. split.
    - intros Hlt.
      destruct (index_slice_in (ShardedMutexRingBufferPool.shards p) procPin ltac:(lia)) as (s & Hs & _).
      pose proof (proj1 (Forall_lookup _ _) Hall _ _ Hs) as (Hwf & _ & Hval & Hcap & Hres).
      destruct (MutexRingBufferPool.resident s) as [|x l] eqn:Hr; [simpl in Hres; lia|].
      apply Forall_cons in Hval as [Hx _].
      destruct (smr_Get_hit p procPin h0 s x l ltac:(lia) Hs Hwf Hr Hx)
        as (s' & a & o & _ & _ & Hget & _).
      eexists _, _, _. split; [exact Hget|]. unfold allocations. apply length_insert.
    - intros Hge. unfold ShardedMutexRingBufferPool.Get. by rewrite index_slice_out by lia. }
  split.
  { destruct (sch_New_built gomaxprocs C numShards alloc clean h HC Hn Hfresh)
      as (p & h0 & Hnew & Hlen & Hall & _).
    exists p, h0. split; [done|]. split.
    - intros Hlt.
      destruct (index_slice_in (ShardedChannelBasedPool.shards p) procPin ltac:(lia)) as (s & Hs & _).
      pose proof (proj1 (Forall_lookup _ _) Hall _ _ Hs) as (Hwf & _ & Hval & Hcap & Hres).
      destruct (ChannelBasedPool.resident s) as [|x l] eqn:Hr; [simpl in Hres; lia|].
      apply Forall_cons in Hval as [Hx _].
      destruct (sch_Get_hit p procPin h0 s x l ltac:(lia) Hs Hwf Hr Hx)
        as (s' & a & o & _ & _ & Hget & _).
      eexists _, _, _. split; [exact Hget|]. unfold allocations. apply length_insert.
    - intros Hge. unfold ShardedChannelBasedPool.Get. by rewrite index_slice_out by lia. }
  split.
  { destruct (sab_New_built gomaxprocs C numShards alloc clean h HC Hn Hfresh)
      as (p & h0 & Hnew & Hlen & Hall & _).
    exists p, h0. split; [done|]. split.
    - intros Hlt.
      destruct (index_slice_in (ShardedAtomicBasedPool.shards p) procPin ltac:(lia)) as (s & Hs & _).
      pose proof (proj1 (Forall_lookup _ _) Hall _ _ Hs) as (Hwf & _ & Hval & Hcap & Hres).
      destruct (snoc_cases (AtomicBasedPool.resident s) ltac:(lia)) as (l & x & Hr).
      rewrite Hr in Hval. apply Forall_app in Hval as [_ Hx]. apply Forall_cons in Hx as [Hx _].
      destruct (sab_Get_hit p procPin h0 s x l ltac:(lia) Hs Hwf Hr Hx)
        as (s' & a & o & _ & _ & Hget & _).
      eexists _, _, _. split; [exact Hget|]. unfold allocations. apply length_insert.
    - intros Hge. unfold ShardedAtomicBasedPool.Get. by rewrite index_slice_out by lia. }
  split.
  { destruct (scb_New_built gomaxprocs C numShards alloc clean h HC Hn Hfresh)
      as (p & h0 & Hnew & Hlen & Hall & _).
    exists p, h0. split; [done|]. split.
    - intros Hlt.
      destruct (index_slice_in (ShardedCondBasedPool.shards p) procPin ltac:(lia)) as (s & Hs & _).
      pose proof (proj1 (Forall_lookup _ _) Hall _ _ Hs) as (Hwf & _ & Hval & Hcap & Hres).
      destruct (RingBufferCondPool.resident s) as [|x l] eqn:Hr; [simpl in Hres; lia|].
      apply Forall_cons in Hval as [Hx _].
      destruct (scb_Get_hit p procPin h0 s x l ltac:(lia) Hs Hwf Hr Hx)
        as (s' & a & o & _ & _ & Hget & _).
      eexists _, _, _. split; [exact Hget|]. unfold allocations. apply length_insert.
    - intros Hge. unfold ShardedCondBasedPool.Get. by rewrite index_slice_out by lia. }
  split.
  { destruct (src_New_built gomaxprocs C numShards alloc clean h HC Hn Hfresh)
      as (p & h0 & Hnew & Hlen & Hall & _).
    exists p, h0. split; [done|]. split.
    - intros Hlt.
      destruct (index_slice_in (ShardedRingBufferCondPool.shards p) procPin ltac:(lia)) as (s & Hs & _).
      pose proof (proj1 (Forall_lookup _ _) Hall _ _ Hs) as (Hwf & _ & Hval & Hcap & Hres).
      destruct (RingBufferCondPool.resident s) as [|x l] eqn:Hr; [simpl in Hres; lia|].
      apply Forall_cons in Hval as [Hx _].
      destruct (src_Get_hit p procPin h0 s x l ltac:(lia) Hs Hwf Hr Hx)
        as (s' & a & o & _ & _ & Hget & _).
      eexists _, _, _. split; [exact Hget|]. unfold allocations. apply length_insert.
    - intros Hge. unfold ShardedRingBufferCondPool.Get. by rewrite index_slice_out by lia. }
  unfold resolve_numShards. intros Hauto. destruct (Z.leb_spec numShards 0); lia.
Qed.

Lemma sharded_get_processor_range_witness :
  (is_int 4 /\ 2 = resolve_numShards 8 2 /\ 1 <= 2 /\ fresh_allocator testAllocator /\
   0 <= 5 < 8) /\

  (exists p h0,
      NewShardedMutexRingBufferPool 8 4 2 testAllocator testCleaner [] = Ok (p, h0) /\
      (5 < 2 ->
       exists x p' h',
         ShardedMutexRingBufferPool.Get p 5 h0 = Ok (x, p', h') /\
         allocations h' = allocations h0) /\
      (2 <= 5 -> ShardedMutexRingBufferPool.Get p 5 h0 = Panic)) /\
  (exists p h0,
      NewShardedChannelBasedPool 8 4 2 testAllocator testCleaner [] = Ok (p, h0) /\
      (5 < 2 ->
       exists x p' h',
         ShardedChannelBasedPool.Get p 5 h0 = Ok (x, p', h') /\
         allocations h' = allocations h0) /\
      (2 <= 5 -> ShardedChannelBasedPool.Get p 5 h0 = Panic)) /\
  (exists p h0,
      NewShardedAtomicBasedPool 8 4 2 testAllocator testCleaner [] = Ok (p, h0) /\
      (5 < 2 ->
       exists x p' h',
         ShardedAtomicBasedPool.Get p 5 h0 = Ok (x, p', h') /\
         allocations h' = allocations h0) /\
      (2 <= 5 -> ShardedAtomicBasedPool.Get p 5 h0 = Panic)) /\
  (exists p h0,
      NewShardedCondBasedPool 8 4 2 testAllocator testCleaner [] = Ok (p, h0) /\
      (5 < 2 ->
       exists x p' h',
         ShardedCondBasedPool.Get p 5 h0 = Ok (x, p', h') /\
         allocations h' = allocations h0) /\
      (2 <= 5 -> ShardedCondBasedPool.Get p 5 h0 = Panic)) /\
  (exists p h0,
      NewShardedRingBufferCondPool 8 4 2 testAllocator testCleaner [] = Ok (p, h0) /\
      (5 < 2 ->
       exists x p' h',
         ShardedRingBufferCondPool.Get p 5 h0 = Ok (x, p', h') /\
         allocations h' = allocations h0) /\
      (2 <= 5 -> ShardedRingBufferCondPool.Get p 5 h0 = Panic)) /\
  (2 <= 0 -> 5 < 2).
Proof.
  assert (is_int 4) as HC by (unfold is_int, int_min, int_max; lia).
  assert (1 <= 2) as Hn by lia.
  assert (0 <= 5 < 8) as Hpin by lia.
  split; [split; [exact HC|split; [reflexivity|split; [exact Hn|split;
    [exact testAllocator_fresh|exact Hpin]]]]|].
  exact (sharded_get_processor_range 8 4 2 2 5 testAllocator testCleaner []
           HC eq_refl Hn testAllocator_fresh Hpin).
Defined.

(** ** A sharded Get followed by Put *)

Lemma list_cases {A : Type} (l : list A) : l = [] \/ exists x l', l = x :: l'.
Proof. destruct l; eauto. Qed.

Lemma list_cases_snoc {A : Type} (l : list A) : l = [] \/ exists l' x, l = l' ++ [x].
Proof. induction l using rev_ind; eauto. Qed.

Lemma smr_Put_routed (p : ShardedMutexRingBufferPool.t) (x : ptr) (h : heap) (o : testObject)
    (s : MutexRingBufferPool.t) :
  deref x h = Ok o -> 0 <= shardIndex o ->
  ShardedMutexRingBufferPool.shards p !! Z.to_nat (shardIndex o) = Some s ->
  ShardedMutexRingBufferPool.Put p x h
    = (s' ← MutexRingBufferPool.Put s x;
       Ok {| ShardedMutexRingBufferPool.shards :=
               <[Z.to_nat (shardIndex o) := s']> (ShardedMutexRingBufferPool.shards p) |}).
Proof.
  intros Hx Hi Hs. unfold ShardedMutexRingBufferPool.Put. rewrite Hx. cbn [mbind outcome_bind].
  by rewrite (proj2 (index_slice_Ok _ _ _) (conj Hi Hs)).
Qed.

Lemma smr_Get_Put (p : ShardedMutexRingBufferPool.t) (procPin : Z) (h : heap) (s : MutexRingBufferPool.t) :
  0 <= procPin -> ShardedMutexRingBufferPool.shards p !! Z.to_nat procPin = Some s ->
  MutexRingBufferPool.wf s -> fresh_allocator (MutexRingBufferPool.allocator s) ->
  Forall (fun obj => valid obj h) (MutexRingBufferPool.resident s) -> 0 < MutexRingBufferPool.capacity s ->
  exists x q h' q' s',
    ShardedMutexRingBufferPool.Get p procPin h = Ok (x, q, h') /\
    ShardedMutexRingBufferPool.Put q x h' = Ok q' /\
    ShardedMutexRingBufferPool.shards q' = <[Z.to_nat procPin := s']> (ShardedMutexRingBufferPool.shards p) /\
    MutexRingBufferPool.wf s' /\ MutexRingBufferPool.capacity s' = MutexRingBufferPool.capacity s /\
    last (MutexRingBufferPool.resident s') = Some x /\
    (forall y l, MutexRingBufferPool.resident s = y :: l ->
     x = y /\ MutexRingBufferPool.resident s' = l ++ [y]) /\
    (MutexRingBufferPool.resident s = [] ->
     MutexRingBufferPool.resident s' = [x] /\ allocations h' = S (allocations h)).
Proof.
  intros Hpin Hs Hwf Hfresh Hval Hcap.
  assert (Z.of_nat (length (MutexRingBufferPool.resident s)) <= MutexRingBufferPool.capacity s) as Hbound.
  { rewrite <- MutexRingBufferPoolFacts.mrb_occupancy by done. apply Hwf. }
  destruct (list_cases (MutexRingBufferPool.resident s)) as [Hres|(x & l & Hres)].
  - destruct (smr_Get_miss p procPin h s Hpin Hs Hwf Hres Hfresh) as (o & Ho & Hget).
    destruct (MutexRingBufferPoolFacts.mrb_Put_room s (Some (length h)) Hwf ltac:(rewrite Hres; simpl; lia))
      as (s' & Hput & Hwf' & Hres' & Hcap' & _).
    rewrite Hres in Hres'. simpl in Hres'.
    exists (Some (length h)), p, (h ++ [set_shardIndex procPin o]),
      {| ShardedMutexRingBufferPool.shards := <[Z.to_nat procPin := s']> (ShardedMutexRingBufferPool.shards p) |}, s'.
    split; [exact Hget|]. split.
    { rewrite (smr_Put_routed p _ _ (set_shardIndex procPin o) s); [|
        unfold deref; rewrite lookup_app_r by lia; by rewrite Nat.sub_diag|done..].
      rewrite Hput. done. }
    split; [done|]. split; [done|]. split; [done|]. rewrite Hres'.
    split; [done|]. split.
    + intros y l Hyl. by rewrite Hres in Hyl.
    + intros _. split; [done|]. unfold allocations. rewrite length_app. simpl. lia.
  - rewrite Hres in Hval. apply Forall_cons in Hval as [Hx _].
    destruct (smr_Get_hit p procPin h s x l Hpin Hs Hwf Hres Hx)
      as (s1 & a & o & -> & Ho & Hget & Hwf1 & Hres1 & Hcap1 & _).
    destruct (MutexRingBufferPoolFacts.mrb_Put_room s1 (Some a) Hwf1)
      as (s' & Hput & Hwf' & Hres' & Hcap' & _).
    { rewrite Hres1, Hcap1. rewrite Hres in Hbound. simpl in Hbound. lia. }
    rewrite Hres1 in Hres'.
    pose proof (lookup_lt_Some _ _ _ Ho) as Ha.
    pose proof (lookup_lt_Some _ _ _ Hs) as Hlt.
    eexists (Some a), _, _,
      {| ShardedMutexRingBufferPool.shards := <[Z.to_nat procPin := s']> (ShardedMutexRingBufferPool.shards p) |}, s'.
    split; [exact Hget|]. split.
    { rewrite (smr_Put_routed _ _ _ (set_shardIndex procPin o) s1); [|
        unfold deref; by rewrite list_lookup_insert_eq by done|done|
        cbn [ShardedMutexRingBufferPool.shards set_shardIndex shardIndex];
        by rewrite list_lookup_insert_eq by done].
      rewrite Hput. cbn [mbind outcome_bind ShardedMutexRingBufferPool.shards set_shardIndex shardIndex].
      by rewrite list_insert_insert_eq. }
    split; [done|]. split; [done|]. split; [congruence|]. rewrite Hres'.
    split; [by rewrite last_snoc|].
    split; [|intros Hnil; rewrite Hres in Hnil; by destruct l].
    intros y l0 Hyl. rewrite Hres in Hyl. by injection Hyl as <- <-.
Qed.

Lemma sab_Put_routed (p : ShardedAtomicBasedPool.t) (x : ptr) (h : heap) (o : testObject)
    (s : AtomicBasedPool.t) :
  deref x h = Ok o -> 0 <= shardIndex o ->
  ShardedAtomicBasedPool.shards p !! Z.to_nat (shardIndex o) = Some s ->
  ShardedAtomicBasedPool.Put p x h
    = (s' ← AtomicBasedPool.Put s x;
       Ok {| ShardedAtomicBasedPool.shards :=
               <[Z.to_nat (shardIndex o) := s']> (ShardedAtomicBasedPool.shards p) |}).
Proof.
  intros Hx Hi Hs. unfold ShardedAtomicBasedPool.Put. rewrite Hx. cbn [mbind outcome_bind].
  by rewrite (proj2 (index_slice_Ok _ _ _) (conj Hi Hs)).
Qed.

Lemma sab_Get_Put (p : ShardedAtomicBasedPool.t) (procPin : Z) (h : heap) (s : AtomicBasedPool.t) :
  0 <= procPin -> ShardedAtomicBasedPool.shards p !! Z.to_nat procPin = Some s ->
  AtomicBasedPool.wf s -> fresh_allocator (AtomicBasedPool.allocator s) ->
  Forall (fun obj => valid obj h) (AtomicBasedPool.resident s) -> 0 < AtomicBasedPool.capacity s ->
  exists x q h' q' s',
    ShardedAtomicBasedPool.Get p procPin h = Ok (x, q, h') /\
    ShardedAtomicBasedPool.Put q x h' = Ok q' /\
    ShardedAtomicBasedPool.shards q' = <[Z.to_nat procPin := s']> (ShardedAtomicBasedPool.shards p) /\
    AtomicBasedPool.wf s' /\ AtomicBasedPool.capacity s' = AtomicBasedPool.capacity s /\
    last (AtomicBasedPool.resident s') = Some x /\
    (AtomicBasedPool.resident s <> [] ->
     AtomicBasedPool.resident s' = AtomicBasedPool.resident s) /\
    (AtomicBasedPool.resident s = [] ->
     AtomicBasedPool.resident s' = [x] /\ allocations h' = S (allocations h)).
Proof.
  intros Hpin Hs Hwf Hfresh Hval Hcap.
  assert (Z.of_nat (length (AtomicBasedPool.resident s)) <= AtomicBasedPool.capacity s) as Hbound.
  { rewrite AtomicBasedPoolFacts.abp_resident_length by done. apply Hwf. }
  destruct (list_cases_snoc (AtomicBasedPool.resident s)) as [Hres|(l & x & Hres)].
  - destruct (sab_Get_miss p procPin h s Hpin Hs Hwf Hres Hfresh) as (o & Ho & Hget).
    destruct (AtomicBasedPoolFacts.abp_Put_room s (Some (length h)) Hwf ltac:(rewrite Hres; simpl; lia))
      as (s' & Hput & Hwf' & Hres' & Hcap' & _).
    rewrite Hres in Hres'. simpl in Hres'.
    exists (Some (length h)), p, (h ++ [set_shardIndex procPin o]),
      {| ShardedAtomicBasedPool.shards := <[Z.to_nat procPin := s']> (ShardedAtomicBasedPool.shards p) |}, s'.
    split; [exact Hget|]. split.
    { rewrite (sab_Put_routed p _ _ (set_shardIndex procPin o) s); [|
        unfold deref; rewrite lookup_app_r by lia; by rewrite Nat.sub_diag|done..].
      rewrite Hput. done. }
    split; [done|]. split; [done|]. split; [done|]. rewrite Hres'.
    split; [done|]. split.
    + by rewrite Hres.
    + intros _. split; [done|]. unfold allocations. rewrite length_app. simpl. lia.
  - rewrite Hres in Hval. apply Forall_app in Hval as [_ Hx].
    apply Forall_cons in Hx as [Hx _].
    destruct (sab_Get_hit p procPin h s x l Hpin Hs Hwf Hres Hx)
      as (s1 & a & o & -> & Ho & Hget & Hwf1 & Hres1 & Hcap1 & _).
    destruct (AtomicBasedPoolFacts.abp_Put_room s1 (Some a) Hwf1)
      as (s' & Hput & Hwf' & Hres' & Hcap' & _).
    { rewrite Hres1, Hcap1. rewrite Hres in Hbound. rewrite length_app in Hbound. simpl in Hbound. lia. }
    rewrite Hres1 in Hres'.
    pose proof (lookup_lt_Some _ _ _ Ho) as Ha.
    pose proof (lookup_lt_Some _ _ _ Hs) as Hlt.
    eexists (Some a), _, _,
      {| ShardedAtomicBasedPool.shards := <[Z.to_nat procPin := s']> (ShardedAtomicBasedPool.shards p) |}, s'.
    split; [exact Hget|]. split.
    { rewrite (sab_Put_routed _ _ _ (set_shardIndex procPin o) s1); [|
        unfold deref; by rewrite list_lookup_insert_eq by done|done|
        cbn [ShardedAtomicBasedPool.shards set_shardIndex shardIndex];
        by rewrite list_lookup_insert_eq by done].
      rewrite Hput. cbn [mbind outcome_bind ShardedAtomicBasedPool.shards set_shardIndex shardIndex].
      by rewrite list_insert_insert_eq. }
    split; [done|]. split; [done|]. split; [congruence|]. rewrite Hres'.
    split; [by rewrite last_snoc|].
    split; [|intros Hnil; rewrite Hres in Hnil; by destruct l].
    intros _. by rewrite Hres.
Qed.

Lemma chan_Get_cleaner (s : ChannelBasedPool.t) (h : heap) (x : ptr)
    (s' : ChannelBasedPool.t) (h' : heap) :
  ChannelBasedPool.Get s h = Ok (x, s', h') ->
  ChannelBasedPool.cleaner s' = ChannelBasedPool.cleaner s.
Proof.
  unfold ChannelBasedPool.Get. destruct (try_recv _) as [[obj c]|].
  - by intros [= _ <- _].
  - destruct (ChannelBasedPool.allocator s h). by intros [= _ <- _].
Qed.

Lemma sch_Put_routed (p : ShardedChannelBasedPool.t) (x : ptr) (h : heap)
    (o : testObject) (s : ChannelBasedPool.t) :
  deref x h = Ok o -> 0 <= shardIndex o ->
  ShardedChannelBasedPool.shards p !! Z.to_nat (shardIndex o) = Some s ->
  ShardedChannelBasedPool.Put p x h
    = ('(s', h') ← ChannelBasedPool.Put s x h;
       Ok ({| ShardedChannelBasedPool.shards :=
                <[Z.to_nat (shardIndex o) := s']> (ShardedChannelBasedPool.shards p) |}, h')).
Proof.
  intros Hx Hi Hs. unfold ShardedChannelBasedPool.Put. rewrite Hx.
  cbn [mbind outcome_bind]. pose proof (lookup_lt_Some _ _ _ Hs) as Hlt.
  destruct (Z.geb_spec (shardIndex o) 0); [|lia].
  destruct (Z.ltb_spec (shardIndex o) (Z.of_nat (length (ShardedChannelBasedPool.shards p))));
    [|lia].
  cbn [andb]. by rewrite (proj2 (index_slice_Ok _ _ _) (conj Hi Hs)).
Qed.

Lemma sch_Get_Put (p : ShardedChannelBasedPool.t) (procPin : Z) (h : heap)
    (s : ChannelBasedPool.t) :
  0 <= procPin -> ShardedChannelBasedPool.shards p !! Z.to_nat procPin = Some s ->
  ChannelBasedPool.wf s -> fresh_allocator (ChannelBasedPool.allocator s) ->
  ChannelBasedPool.cleaner s = testCleaner ->
  Forall (fun obj => valid obj h) (ChannelBasedPool.resident s) ->
  0 < ChannelBasedPool.capacity s ->
  exists x q h1 q' h2 s',
    ShardedChannelBasedPool.Get p procPin h = Ok (x, q, h1) /\
    ShardedChannelBasedPool.Put q x h1 = Ok (q', h2) /\
    ShardedChannelBasedPool.shards q'
      = <[Z.to_nat procPin := s']> (ShardedChannelBasedPool.shards p) /\
    ChannelBasedPool.wf s' /\ ChannelBasedPool.capacity s' = ChannelBasedPool.capacity s /\
    last (ChannelBasedPool.resident s') = Some x /\
    (forall y l, ChannelBasedPool.resident s = y :: l ->
     x = y /\ ChannelBasedPool.resident s' = l ++ [y]) /\
    (ChannelBasedPool.resident s = [] -> ChannelBasedPool.resident s' = [x]) /\
    deref x h2 = Ok {| ID := 0; Data := ""; shardIndex := -1 |}.
Proof.
  intros Hpin Hs Hwf Hfresh Hclean Hval Hcap.
  pose proof (lookup_lt_Some _ _ _ Hs) as Hlt.
  assert (exists x s1 h1 o1,
    ChannelBasedPool.Get s h = Ok (x, s1, h1) /\ valid x h1 /\
    deref x h1 = Ok o1 /\
    ChannelBasedPool.wf s1 /\ ChannelBasedPool.capacity s1 = ChannelBasedPool.capacity s /\
    Z.of_nat (length (ChannelBasedPool.resident s1)) < ChannelBasedPool.capacity s1 /\
    (forall y l, ChannelBasedPool.resident s = y :: l ->
       x = y /\ ChannelBasedPool.resident s1 = l) /\
    (ChannelBasedPool.resident s = [] -> ChannelBasedPool.resident s1 = []))
    as (x & s1 & h1 & o1 & Hget & Hx & Ho1 & Hwf1 & Hcap1 & Hroom & Hcons & Hnil).
  { destruct (ChannelBasedPool.resident s) as [|y l] eqn:Hres.
    - rewrite (ChannelBasedPoolFacts.chan_Get_empty s h Hwf Hres).
      destruct (Hfresh h) as [o Ho]. rewrite Ho. cbn [fst snd].
      eexists _, _, _, o. split; [done|].
      split; [exists (length h); split; [done|rewrite length_app; simpl; lia]|].
      split; [unfold deref; rewrite lookup_app_r by lia; by rewrite Nat.sub_diag|].
      split; [done|]. split; [done|]. rewrite Hres. simpl.
      split; [lia|]. by split.
    - destruct (ChannelBasedPoolFacts.chan_Get_next s h y l Hwf Hres)
        as (s1 & Hget & Hwf1 & Hres1 & Hcap1 & _).
      apply Forall_cons in Hval as [Hy _].
      destruct (valid_assign y id h Hy) as (a & o & -> & Ho & _).
      eexists _, _, _, o. split; [exact Hget|]. split; [done|].
      split; [unfold deref; by rewrite Ho|]. split; [done|]. split; [done|].
      split.
      { rewrite Hres1, Hcap1. unfold ChannelBasedPool.wf, ChannelBasedPool.resident,
          ChannelBasedPool.capacity in *. rewrite Hres in Hwf. simpl in Hwf. lia. }
      split; [|done]. intros y' l' [= <- <-]. by split. }
  pose proof (chan_Get_cleaner _ _ _ _ _ Hget) as Hclean1. rewrite Hclean in Hclean1.
  destruct (valid_assign x (set_shardIndex procPin) h1 Hx)
    as (a & o & -> & Ho & Hassign & Hderef).
  pose proof (lookup_lt_Some _ _ _ Ho) as Ha.
  destruct (testCleaner_resets (Some a) (<[a := set_shardIndex procPin o]> h1))
    as (h2 & o2 & Hcl & _ & Hd2 & ->).
  { exists a. by rewrite length_insert. }
  destruct (ChannelBasedPoolFacts.chan_Put_room s1 (Some a)
              (<[a := set_shardIndex procPin o]> h1) h2 Hwf1 Hroom)
    as (s' & Hput & Hwf' & Hres' & Hcap' & _).
  { by rewrite Hclean1. }
  eexists (Some a), _, _,
    {| ShardedChannelBasedPool.shards :=
         <[Z.to_nat procPin := s']> (ShardedChannelBasedPool.shards p) |}, h2, s'.
  split.
  { unfold ShardedChannelBasedPool.Get.
    rewrite (proj2 (index_slice_Ok _ _ _) (conj Hpin Hs)). cbn [mbind outcome_bind].
    rewrite Hget. cbn [mbind outcome_bind]. rewrite Hassign. done. }
  split.
  { rewrite (sch_Put_routed _ _ _ (set_shardIndex procPin o) s1); [|exact Hderef|done|
      cbn [ShardedChannelBasedPool.shards set_shardIndex shardIndex];
      by rewrite list_lookup_insert_eq by done].
    rewrite Hput. cbn [mbind outcome_bind ShardedChannelBasedPool.shards set_shardIndex shardIndex].
    by rewrite list_insert_insert_eq. }
  split; [done|]. split; [done|]. split; [congruence|]. rewrite Hres'.
  split; [by rewrite last_snoc|]. split; [|split; [|exact Hd2]].
  - intros y l Hyl. destruct (Hcons y l Hyl) as [<- ->]. done.
  - intros Hr. by rewrite (Hnil Hr).
Qed.

(** X8. [Put] of a sharded pool sends an object back to the shard whose
    index [Get] wrote into it. For a processor [procPin] whose shard has
    capacity at least 1: [Get] followed by [Put] of the object returns
    normally, changes no shard but that of [procPin], and leaves the object
    as the newest resident of that shard. A shard that held objects holds
    the same ones afterwards, the ring buffer and channel shards with the
    oldest moved to the back, the atomic shard in the same order; an empty
    shard holds the newly allocated object. The channel pool's [Put] has
    also run [testCleaner], so the object's [shardIndex] reads [-1] again. *)
Theorem sharded_put_returns_to_shard
    (p1 : ShardedMutexRingBufferPool.t) (p2 : ShardedChannelBasedPool.t)
    (p3 : ShardedAtomicBasedPool.t)
    (s1 : MutexRingBufferPool.t) (s2 : ChannelBasedPool.t) (s3 : AtomicBasedPool.t)
    (procPin : Z) (h : heap) :
  0 <= procPin ->
  ShardedMutexRingBufferPool.wf p1 h -> ShardedChannelBasedPool.wf p2 h ->
  ShardedAtomicBasedPool.wf p3 h ->
  ShardedMutexRingBufferPool.shards p1 !! Z.to_nat procPin = Some s1 ->
  ShardedChannelBasedPool.shards p2 !! Z.to_nat procPin = Some s2 ->
  ShardedAtomicBasedPool.shards p3 !! Z.to_nat procPin = Some s3 ->
  0 < MutexRingBufferPool.capacity s1 -> 0 < ChannelBasedPool.capacity s2 ->
  0 < AtomicBasedPool.capacity s3 ->
  ChannelBasedPool.cleaner s2 = testCleaner ->
  (exists x q h' q' s',
      ShardedMutexRingBufferPool.Get p1 procPin h = Ok (x, q, h') /\
      ShardedMutexRingBufferPool.Put q x h' = Ok q' /\
      ShardedMutexRingBufferPool.shards q' = <[Z.to_nat procPin := s']> (ShardedMutexRingBufferPool.shards p1) /\
      MutexRingBufferPool.capacity s' = MutexRingBufferPool.capacity s1 /\
      last (MutexRingBufferPool.resident s') = Some x /\
      (forall y l, MutexRingBufferPool.resident s1 = y :: l ->
       x = y /\ MutexRingBufferPool.resident s' = l ++ [y]) /\
      (MutexRingBufferPool.resident s1 = [] -> MutexRingBufferPool.resident s' = [x])) /\
  (exists x q h' q' h'' s',
      ShardedChannelBasedPool.Get p2 procPin h = Ok (x, q, h') /\
      ShardedChannelBasedPool.Put q x h' = Ok (q', h'') /\
      ShardedChannelBasedPool.shards q' = <[Z.to_nat procPin := s']> (ShardedChannelBasedPool.shards p2) /\
      ChannelBasedPool.capacity s' = ChannelBasedPool.capacity s2 /\
      last (ChannelBasedPool.resident s') = Some x /\
      (forall y l, ChannelBasedPool.resident s2 = y :: l ->
       x = y /\ ChannelBasedPool.resident s' = l ++ [y]) /\
      deref x h'' = Ok {| ID := 0; Data := ""; shardIndex := -1 |} /\
      (ChannelBasedPool.resident s2 = [] -> ChannelBasedPool.resident s' = [x])) /\
  (exists x q h' q' s',
      ShardedAtomicBasedPool.Get p3 procPin h = Ok (x, q, h') /\
      ShardedAtomicBasedPool.Put q x h' = Ok q' /\
      ShardedAtomicBasedPool.shards q' = <[Z.to_nat procPin := s']> (ShardedAtomicBasedPool.shards p3) /\
      AtomicBasedPool.capacity s' = AtomicBasedPool.capacity s3 /\
      last (AtomicBasedPool.resident s') = Some x /\
      (AtomicBasedPool.resident s3 <> [] ->
       AtomicBasedPool.resident s' = AtomicBasedPool.resident s3) /\
      (AtomicBasedPool.resident s3 = [] -> AtomicBasedPool.resident s' = [x])).
Proof.
  intros Hpin Hwf1 Hwf2 Hwf3 Hs1 Hs2 Hs3 Hc1 Hc2 Hc3 Hclean.
  pose proof (proj1 (Forall_lookup _ _) Hwf1 _ _ Hs1) as (Hw1 & Hf1 & Hv1).
  pose proof (proj1 (Forall_lookup _ _) Hwf2 _ _ Hs2) as (Hw2 & Hf2 & Hv2).
  pose proof (proj1 (Forall_lookup _ _) Hwf3 _ _ Hs3) as (Hw3 & Hf3 & Hv3).
  split; [|split].
  - destruct (smr_Get_Put p1 procPin h s1 Hpin Hs1 Hw1 Hf1 Hv1 Hc1)
      as (x & q & h' & q' & s' & Hget & Hput & Hsh & _ & Hcap & Hlast & Hord & Hnil).
    exists x, q, h', q', s'.
    split; [done|]. split; [done|]. split; [done|]. split; [done|]. split; [done|].
    split; [exact Hord|]. intros Hr. by apply Hnil.
  - destruct (sch_Get_Put p2 procPin h s2 Hpin Hs2 Hw2 Hf2 Hclean Hv2 Hc2)
      as (x & q & h' & q' & h'' & s' & Hget & Hput & Hsh & _ & Hcap & Hlast & Hord & Hnil & Hd).
    exists x, q, h', q', h'', s'.
    split; [done|]. split; [done|]. split; [done|]. split; [done|]. split; [done|].
    split; [exact Hord|]. split; [exact Hd|exact Hnil].
  - destruct (sab_Get_Put p3 procPin h s3 Hpin Hs3 Hw3 Hf3 Hv3 Hc3)
      as (x & q & h' & q' & s' & Hget & Hput & Hsh & _ & Hcap & Hlast & Hord & Hnil).
    exists x, q, h', q', s'.
    split; [done|]. split; [done|]. split; [done|]. split; [done|]. split; [done|].
    split; [exact Hord|]. intros Hr. by apply Hnil.
Qed.

Lemma sharded_put_returns_to_shard_witness :
  (0 <= 1 /\
   ShardedMutexRingBufferPool.wf fresh_sharded_mutex_ring fresh_heap /\
   ShardedChannelBasedPool.wf fresh_sharded_channel fresh_heap /\
   ShardedAtomicBasedPool.wf fresh_sharded_atomic fresh_heap /\
   ShardedMutexRingBufferPool.shards fresh_sharded_mutex_ring !! Z.to_nat 1
     = Some second_mutex_ring_shard /\
   ShardedChannelBasedPool.shards fresh_sharded_channel !! Z.to_nat 1
     = Some second_channel_shard /\
   ShardedAtomicBasedPool.shards fresh_sharded_atomic !! Z.to_nat 1
     = Some second_atomic_shard /\
   0 < MutexRingBufferPool.capacity second_mutex_ring_shard /\
   0 < ChannelBasedPool.capacity second_channel_shard /\
   0 < AtomicBasedPool.capacity second_atomic_shard /\
   ChannelBasedPool.cleaner second_channel_shard = testCleaner) /\

  (exists x q h' q' s',
      ShardedMutexRingBufferPool.Get fresh_sharded_mutex_ring 1 fresh_heap = Ok (x, q, h') /\
      ShardedMutexRingBufferPool.Put q x h' = Ok q' /\
      ShardedMutexRingBufferPool.shards q' = <[Z.to_nat 1 := s']> (ShardedMutexRingBufferPool.shards fresh_sharded_mutex_ring) /\
      MutexRingBufferPool.capacity s' = MutexRingBufferPool.capacity second_mutex_ring_shard /\
      last (MutexRingBufferPool.resident s') = Some x /\
      (forall y l, MutexRingBufferPool.resident second_mutex_ring_shard = y :: l ->
       x = y /\ MutexRingBufferPool.resident s' = l ++ [y]) /\
      (MutexRingBufferPool.resident second_mutex_ring_shard = [] -> MutexRingBufferPool.resident s' = [x])) /\
  (exists x q h' q' h'' s',
      ShardedChannelBasedPool.Get fresh_sharded_channel 1 fresh_heap = Ok (x, q, h') /\
      ShardedChannelBasedPool.Put q x h' = Ok (q', h'') /\
      ShardedChannelBasedPool.shards q' = <[Z.to_nat 1 := s']> (ShardedChannelBasedPool.shards fresh_sharded_channel) /\
      ChannelBasedPool.capacity s' = ChannelBasedPool.capacity second_channel_shard /\
      last (ChannelBasedPool.resident s') = Some x /\
      (forall y l, ChannelBasedPool.resident second_channel_shard = y :: l ->
       x = y /\ ChannelBasedPool.resident s' = l ++ [y]) /\
      deref x h'' = Ok {| ID := 0; Data := ""; shardIndex := -1 |} /\
      (ChannelBasedPool.resident second_channel_shard = [] -> ChannelBasedPool.resident s' = [x])) /\
  (exists x q h' q' s',
      ShardedAtomicBasedPool.Get fresh_sharded_atomic 1 fresh_heap = Ok (x, q, h') /\
      ShardedAtomicBasedPool.Put q x h' = Ok q' /\
      ShardedAtomicBasedPool.shards q' = <[Z.to_nat 1 := s']> (ShardedAtomicBasedPool.shards fresh_sharded_atomic) /\
      AtomicBasedPool.capacity s' = AtomicBasedPool.capacity second_atomic_shard /\
      last (AtomicBasedPool.resident s') = Some x /\
      (AtomicBasedPool.resident second_atomic_shard <> [] ->
       AtomicBasedPool.resident s' = AtomicBasedPool.resident second_atomic_shard) /\
      (AtomicBasedPool.resident second_atomic_shard = [] -> AtomicBasedPool.resident s' = [x])).
Proof.
  destruct fresh_sharded_pools_wf as (Hatomic & Hring & Hchannel).
  assert (0 <= 1) as Hpin by lia.
  assert (0 < MutexRingBufferPool.capacity second_mutex_ring_shard) as Hc1
    by (vm_compute; reflexivity).
  assert (0 < ChannelBasedPool.capacity second_channel_shard) as Hc2
    by (vm_compute; reflexivity).
  assert (0 < AtomicBasedPool.capacity second_atomic_shard) as Hc3
    by (vm_compute; reflexivity).
  split.
  { split; [exact Hpin|]. split; [exact Hring|]. split; [exact Hchannel|].
    split; [exact Hatomic|]. split; [reflexivity|]. split; [reflexivity|].
    split; [reflexivity|]. split; [exact Hc1|]. split; [exact Hc2|].
    split; [exact Hc3|reflexivity]. }
  exact (sharded_put_returns_to_shard fresh_sharded_mutex_ring fresh_sharded_channel
           fresh_sharded_atomic second_mutex_ring_shard second_channel_shard
           second_atomic_shard 1 fresh_heap Hpin Hring Hchannel Hatomic
           eq_refl eq_refl eq_refl Hc1 Hc2 Hc3 eq_refl).
Defined.

(** ** An empty shard *)

(** X9. A sharded [Get] looks at no shard but the one of the calling
    processor. When that shard is empty, the pools with a non-blocking
    [Get] (mutex ring buffer, channel, atomic) allocate a new object and
    leave every shard as it was, and the pools sharding a
    condition-variable pool wait, whatever the other shards hold. *)
Theorem sharded_get_no_stealing
    (p1 : ShardedMutexRingBufferPool.t) (s1 : MutexRingBufferPool.t)
    (p2 : ShardedChannelBasedPool.t) (s2 : ChannelBasedPool.t)
    (p3 : ShardedAtomicBasedPool.t) (s3 : AtomicBasedPool.t)
    (p4 : ShardedCondBasedPool.t) (s4 : RingBufferCondPool.t)
    (p5 : ShardedRingBufferCondPool.t) (s5 : RingBufferCondPool.t)
    (procPin : Z) (h : heap) :
  0 <= procPin ->
  ShardedMutexRingBufferPool.shards p1 !! Z.to_nat procPin = Some s1 ->
  MutexRingBufferPool.wf s1 -> MutexRingBufferPool.occupancy s1 = 0 ->
  ShardedChannelBasedPool.shards p2 !! Z.to_nat procPin = Some s2 ->
  ChannelBasedPool.wf s2 -> ChannelBasedPool.occupancy s2 = 0 ->
  ShardedAtomicBasedPool.shards p3 !! Z.to_nat procPin = Some s3 ->
  AtomicBasedPool.wf s3 -> AtomicBasedPool.occupancy s3 = 0 ->
  ShardedCondBasedPool.shards p4 !! Z.to_nat procPin = Some s4 ->
  RingBufferCondPool.wf s4 -> RingBufferCondPool.occupancy s4 = 0 ->
  ShardedRingBufferCondPool.shards p5 !! Z.to_nat procPin = Some s5 ->
  RingBufferCondPool.wf s5 -> RingBufferCondPool.occupancy s5 = 0 ->
  fresh_allocator (MutexRingBufferPool.allocator s1) ->
  fresh_allocator (ChannelBasedPool.allocator s2) ->
  fresh_allocator (AtomicBasedPool.allocator s3) ->
  (exists o,
      MutexRingBufferPool.allocator s1 h = (Some (length h), h ++ [o]) /\
      ShardedMutexRingBufferPool.Get p1 procPin h
        = Ok (Some (length h), p1, h ++ [set_shardIndex procPin o]) /\
      allocations (h ++ [set_shardIndex procPin o]) = S (allocations h)) /\
  (exists o,
      ChannelBasedPool.allocator s2 h = (Some (length h), h ++ [o]) /\
      ShardedChannelBasedPool.Get p2 procPin h
        = Ok (Some (length h), p2, h ++ [set_shardIndex procPin o]) /\
      allocations (h ++ [set_shardIndex procPin o]) = S (allocations h)) /\
  (exists o,
      AtomicBasedPool.allocator s3 h = (Some (length h), h ++ [o]) /\
      ShardedAtomicBasedPool.Get p3 procPin h
        = Ok (Some (length h), p3, h ++ [set_shardIndex procPin o]) /\
      allocations (h ++ [set_shardIndex procPin o]) = S (allocations h)) /\
  ShardedCondBasedPool.Get p4 procPin h = Blocked /\
  ShardedRingBufferCondPool.Get p5 procPin h = Blocked.
Proof.
  intros Hpin Hs1 Hw1 Ho1 Hs2 Hw2 Ho2 Hs3 Hw3 Ho3 Hs4 Hw4 Ho4 Hs5 Hw5 Ho5 Hf1 Hf2 Hf3.
  assert (forall s, RingBufferCondPool.wf s -> RingBufferCondPool.occupancy s = 0 ->
            RingBufferCondPool.resident s = []) as Hcond.
  { intros s [Hrb _] Hocc. by apply RingBufferFacts.contents_empty. }
  split; [|split; [|split; [|split]]].
  - rewrite MutexRingBufferPoolFacts.mrb_occupancy in Ho1 by done.
    apply length_zero_nil in Ho1.
    destruct (smr_Get_miss p1 procPin h s1 Hpin Hs1 Hw1 Ho1 Hf1) as (o & Ho & Hget).
    exists o. split; [done|]. split; [done|].
    unfold allocations. rewrite length_app. simpl. lia.
  - apply length_zero_nil in Ho2.
    destruct (sch_Get_miss p2 procPin h s2 Hpin Hs2 Hw2 Ho2 Hf2) as (o & Ho & Hget).
    exists o. split; [done|]. split; [done|].
    unfold allocations. rewrite length_app. simpl. lia.
  - unfold AtomicBasedPool.occupancy in Ho3.
    rewrite <- AtomicBasedPoolFacts.abp_resident_length in Ho3 by done.
    apply length_zero_nil in Ho3.
    destruct (sab_Get_miss p3 procPin h s3 Hpin Hs3 Hw3 Ho3 Hf3) as (o & Ho & Hget).
    exists o. split; [done|]. split; [done|].
    unfold allocations. rewrite length_app. simpl. lia.
  - apply (scb_Get_miss p4 procPin h s4 Hpin Hs4 Hw4). by apply Hcond.
  - apply (src_Get_miss p5 procPin h s5 Hpin Hs5 Hw5). by apply Hcond.
Qed.

Lemma drained_pools_wf :
  MutexRingBufferPool.wf drained_mutex_ring /\
  ChannelBasedPool.wf drained_channel /\
  AtomicBasedPool.wf drained_atomic.
Proof.
  split; [split; [exact drained_ring_wf|reflexivity]|].
  split; [unfold ChannelBasedPool.wf; simpl; lia|].
  unfold AtomicBasedPool.wf, int_max; simpl; lia.
Qed.

Lemma sharded_get_no_stealing_witness :
  (0 <= 0 /\
   ShardedMutexRingBufferPool.shards lopsided_sharded_mutex_ring !! Z.to_nat 0 = Some drained_mutex_ring /\
   MutexRingBufferPool.wf drained_mutex_ring /\ MutexRingBufferPool.occupancy drained_mutex_ring = 0 /\
   ShardedChannelBasedPool.shards lopsided_sharded_channel !! Z.to_nat 0 = Some drained_channel /\
   ChannelBasedPool.wf drained_channel /\ ChannelBasedPool.occupancy drained_channel = 0 /\
   ShardedAtomicBasedPool.shards lopsided_sharded_atomic !! Z.to_nat 0 = Some drained_atomic /\
   AtomicBasedPool.wf drained_atomic /\ AtomicBasedPool.occupancy drained_atomic = 0 /\
   ShardedCondBasedPool.shards lopsided_sharded_cond !! Z.to_nat 0 = Some drained_cond_ring /\
   RingBufferCondPool.wf drained_cond_ring /\ RingBufferCondPool.occupancy drained_cond_ring = 0 /\
   ShardedRingBufferCondPool.shards lopsided_sharded_ring_cond !! Z.to_nat 0 = Some drained_cond_ring /\
   RingBufferCondPool.wf drained_cond_ring /\ RingBufferCondPool.occupancy drained_cond_ring = 0 /\
   fresh_allocator (MutexRingBufferPool.allocator drained_mutex_ring) /\
   fresh_allocator (ChannelBasedPool.allocator drained_channel) /\
   fresh_allocator (AtomicBasedPool.allocator drained_atomic)) /\

  (exists o,
      MutexRingBufferPool.allocator drained_mutex_ring fresh_heap = (Some (length fresh_heap), fresh_heap ++ [o]) /\
      ShardedMutexRingBufferPool.Get lopsided_sharded_mutex_ring 0 fresh_heap
        = Ok (Some (length fresh_heap), lopsided_sharded_mutex_ring, fresh_heap ++ [set_shardIndex 0 o]) /\
      allocations (fresh_heap ++ [set_shardIndex 0 o]) = S (allocations fresh_heap)) /\
  (exists o,
      ChannelBasedPool.allocator drained_channel fresh_heap = (Some (length fresh_heap), fresh_heap ++ [o]) /\
      ShardedChannelBasedPool.Get lopsided_sharded_channel 0 fresh_heap
        = Ok (Some (length fresh_heap), lopsided_sharded_channel, fresh_heap ++ [set_shardIndex 0 o]) /\
      allocations (fresh_heap ++ [set_shardIndex 0 o]) = S (allocations fresh_heap)) /\
  (exists o,
      AtomicBasedPool.allocator drained_atomic fresh_heap = (Some (length fresh_heap), fresh_heap ++ [o]) /\
      ShardedAtomicBasedPool.Get lopsided_sharded_atomic 0 fresh_heap
        = Ok (Some (length fresh_heap), lopsided_sharded_atomic, fresh_heap ++ [set_shardIndex 0 o]) /\
      allocations (fresh_heap ++ [set_shardIndex 0 o]) = S (allocations fresh_heap)) /\
  ShardedCondBasedPool.Get lopsided_sharded_cond 0 fresh_heap = Blocked /\
  ShardedRingBufferCondPool.Get lopsided_sharded_ring_cond 0 fresh_heap = Blocked.
Proof.
  destruct drained_pools_wf as (Hw1 & Hw2 & Hw3).
  destruct drained_cond_pools_wf as [_ Hw4].
  assert (0 <= 0) as Hpin by lia.
  split.
  { split; [exact Hpin|].
    split; [reflexivity|]. split; [exact Hw1|]. split; [reflexivity|].
    split; [reflexivity|]. split; [exact Hw2|]. split; [reflexivity|].
    split; [reflexivity|]. split; [exact Hw3|]. split; [reflexivity|].
    split; [reflexivity|]. split; [exact Hw4|]. split; [reflexivity|].
    split; [reflexivity|]. split; [exact Hw4|]. split; [reflexivity|].
    split; [exact testAllocator_fresh|]. split; exact testAllocator_fresh. }
  exact (sharded_get_no_stealing
           lopsided_sharded_mutex_ring drained_mutex_ring
           lopsided_sharded_channel drained_channel
           lopsided_sharded_atomic drained_atomic
           lopsided_sharded_cond drained_cond_ring
           lopsided_sharded_ring_cond drained_cond_ring
           0 fresh_heap Hpin
           eq_refl Hw1 eq_refl eq_refl Hw2 eq_refl eq_refl Hw3 eq_refl
           eq_refl Hw4 eq_refl eq_refl Hw4 eq_refl
           testAllocator_fresh testAllocator_fresh testAllocator_fresh).
Defined.

(** ** The pool sharded by stack address *)

Lemma land_upper_bound (a b : Z) : 0 <= a -> 0 <= b -> 0 <= Z.land a b <= b.
Proof.
  intros Ha Hb. split; [apply Z.land_nonneg; by left|].
  assert (Z.land (Z.ldiff b a) (Z.land b a) = 0) as Hdisj.
  { apply Z.bits_inj'. intros n Hn. rewrite !Z.land_spec, Z.ldiff_spec, Z.bits_0.
    by destruct (Z.testbit a n), (Z.testbit b n). }
  pose proof (Z.add_nocarry_lxor _ _ Hdisj) as Hadd.
  rewrite (Z.lxor_lor _ _ Hdisj), Z.lor_ldiff_and in Hadd.
  assert (0 <= Z.ldiff b a) by (apply Z.ldiff_nonneg; by left).
  rewrite (Z.land_comm a b). lia.
Qed.

Lemma shard_id_mask (p : ShardedGoroutineIDPool.t) (addr : Z) :
  ShardedGoroutineIDPool.is_uintptr addr ->
  1 <= ShardedGoroutineIDPool.numShards p <= int_max ->
  ShardedGoroutineIDPool.shard_id p addr
    = Z.land (addr / 4096) (ShardedGoroutineIDPool.numShards p - 1).
Proof.
  intros [Ha0 Ha1] Hn. unfold ShardedGoroutineIDPool.shard_id.
  rewrite Z.shiftr_div_pow2 by lia. change (2 ^ 12) with 4096.
  assert (0 <= addr / 4096 < 2 ^ 52) as Hq.
  { split; [apply Z.div_pos; lia|]. apply Z.div_lt_upper_bound; lia. }
  rewrite wrap_id by (unfold is_int, int_min, int_max; lia).
  rewrite int_sub_small; [done|]. unfold is_int, int_min, int_max in *. lia.
Qed.

(** X10. [getShard] stays within the shard slice whatever the stack address
    and whatever the shard count [n >= 1]: its index
    [int(addr>>12) & (n-1)] lies in [0, n), so the access never panics.
    When [n] is a power of two the index is [(addr / 4096) mod n]. For any
    other [n] the mask [n-1] has a zero bit below its top bit, and a shard
    whose index has a bit outside the mask is never selected. *)
Theorem goroutine_id_shard_choice (p : ShardedGoroutineIDPool.t) (addr : Z) :
  ShardedGoroutineIDPool.is_uintptr addr ->
  1 <= ShardedGoroutineIDPool.numShards p <= int_max ->
  Z.of_nat (length (ShardedGoroutineIDPool.shards p)) = ShardedGoroutineIDPool.numShards p ->
  0 <= ShardedGoroutineIDPool.shard_id p addr < ShardedGoroutineIDPool.numShards p /\
  (exists s,
      ShardedGoroutineIDPool.shards p
        !! Z.to_nat (ShardedGoroutineIDPool.shard_id p addr) = Some s /\
      ShardedGoroutineIDPool.getShard p addr
        = Ok (ShardedGoroutineIDPool.shard_id p addr, s)) /\
  (forall k, 0 <= k -> ShardedGoroutineIDPool.numShards p = 2 ^ k ->
     ShardedGoroutineIDPool.shard_id p addr
       = (addr / 4096) mod ShardedGoroutineIDPool.numShards p) /\
  (forall i, 0 <= i < ShardedGoroutineIDPool.numShards p ->
     Z.land i (ShardedGoroutineIDPool.numShards p - 1) <> i ->
     ShardedGoroutineIDPool.shard_id p addr <> i).
Proof.
  intros Haddr Hn Hlen. pose proof (shard_id_mask p addr Haddr Hn) as Hid.
  assert (0 <= addr / 4096) as Hq by (destruct Haddr; apply Z.div_pos; lia).
  pose proof (land_upper_bound (addr / 4096) (ShardedGoroutineIDPool.numShards p - 1)
                Hq ltac:(lia)) as Hb.
  assert (0 <= ShardedGoroutineIDPool.shard_id p addr < ShardedGoroutineIDPool.numShards p)
    as Hrange by (rewrite Hid; lia).
  split; [exact Hrange|]. split; [|split].
  - destruct (index_slice_in (ShardedGoroutineIDPool.shards p)
                (ShardedGoroutineIDPool.shard_id p addr) ltac:(lia)) as (s & Hs & Hidx).
    exists s. split; [done|]. unfold ShardedGoroutineIDPool.getShard. by rewrite Hidx.
  - intros k Hk Hpow. rewrite Hid, Hpow.
    replace (2 ^ k - 1) with (Z.ones k) by (rewrite Z.ones_equiv; lia).
    by apply Z.land_ones.
  - intros i Hi Hmask Heq. apply Hmask. rewrite <- Heq, Hid.
    by rewrite <- Z.land_assoc, Z.land_diag.
Qed.

Lemma goroutine_id_shard_choice_witness :
  (ShardedGoroutineIDPool.is_uintptr 824633802752 /\
   1 <= ShardedGoroutineIDPool.numShards three_shard_pool <= int_max /\
   Z.of_nat (length (ShardedGoroutineIDPool.shards three_shard_pool))
     = ShardedGoroutineIDPool.numShards three_shard_pool) /\
  0 <= ShardedGoroutineIDPool.shard_id three_shard_pool 824633802752
    < ShardedGoroutineIDPool.numShards three_shard_pool /\
  (exists s,
      ShardedGoroutineIDPool.shards three_shard_pool
        !! Z.to_nat (ShardedGoroutineIDPool.shard_id three_shard_pool 824633802752) = Some s /\
      ShardedGoroutineIDPool.getShard three_shard_pool 824633802752
        = Ok (ShardedGoroutineIDPool.shard_id three_shard_pool 824633802752, s)) /\
  (forall k, 0 <= k -> ShardedGoroutineIDPool.numShards three_shard_pool = 2 ^ k ->
     ShardedGoroutineIDPool.shard_id three_shard_pool 824633802752
       = (824633802752 / 4096) mod ShardedGoroutineIDPool.numShards three_shard_pool) /\
  (forall i, 0 <= i < ShardedGoroutineIDPool.numShards three_shard_pool ->
     Z.land i (ShardedGoroutineIDPool.numShards three_shard_pool - 1) <> i ->
     ShardedGoroutineIDPool.shard_id three_shard_pool 824633802752 <> i).
Proof.
  assert (ShardedGoroutineIDPool.is_uintptr 824633802752) as Haddr
    by (unfold ShardedGoroutineIDPool.is_uintptr; lia).
  assert (1 <= ShardedGoroutineIDPool.numShards three_shard_pool <= int_max) as Hn
    by (unfold int_max; simpl; lia).
  split; [split; [exact Haddr|split; [exact Hn|reflexivity]]|].
  exact (goroutine_id_shard_choice three_shard_pool 824633802752 Haddr Hn eq_refl).
Defined.

Lemma sgi_getShard_ok (p : ShardedGoroutineIDPool.t) (addr : Z) :
  ShardedGoroutineIDPool.is_uintptr addr ->
  1 <= ShardedGoroutineIDPool.numShards p <= int_max ->
  Z.of_nat (length (ShardedGoroutineIDPool.shards p)) = ShardedGoroutineIDPool.numShards p ->
  exists s,
    ShardedGoroutineIDPool.shards p
      !! Z.to_nat (ShardedGoroutineIDPool.shard_id p addr) = Some s /\
    ShardedGoroutineIDPool.getShard p addr = Ok (ShardedGoroutineIDPool.shard_id p addr, s).
Proof.
  intros Haddr Hn Hlen. pose proof (shard_id_mask p addr Haddr Hn) as Hid.
  assert (0 <= addr / 4096) as Hq by (destruct Haddr; apply Z.div_pos; lia).
  pose proof (land_upper_bound (addr / 4096) (ShardedGoroutineIDPool.numShards p - 1)
                Hq ltac:(lia)) as Hb.
  destruct (index_slice_in (ShardedGoroutineIDPool.shards p)
              (ShardedGoroutineIDPool.shard_id p addr) ltac:(rewrite Hid; lia))
    as (s & Hs & Hidx).
  exists s. split; [done|]. unfold ShardedGoroutineIDPool.getShard. by rewrite Hidx.
Qed.

(** X11. [Get] and [Put] of the pool sharded by stack address return
    normally on every well-formed pool with at least one shard, for every
    stack address and every pointer handed to [Put], [nil] and objects
    whose [shardIndex] is [-1] included: the object is never dereferenced.
    [Get] writes to no object, so the heap keeps every object as it was and
    grows by at most the one allocation; both calls keep the pool well
    formed. *)
Theorem goroutine_id_pool_calls (p : ShardedGoroutineIDPool.t) (addr addr' : Z)
    (obj : ptr) (h : heap) :
  ShardedGoroutineIDPool.wf p ->
  1 <= ShardedGoroutineIDPool.numShards p <= int_max ->
  ShardedGoroutineIDPool.is_uintptr addr -> ShardedGoroutineIDPool.is_uintptr addr' ->
  Forall (fun s => fresh_allocator (MutexRingBufferPool.allocator s))
         (ShardedGoroutineIDPool.shards p) ->
  (exists x p' h',
      ShardedGoroutineIDPool.Get p addr h = Ok (x, p', h') /\
      ShardedGoroutineIDPool.wf p' /\
      ShardedGoroutineIDPool.numShards p' = ShardedGoroutineIDPool.numShards p /\
      (forall a o, h !! a = Some o -> h' !! a = Some o) /\
      (length h <= length h' <= S (length h))%nat) /\
  (exists p',
      ShardedGoroutineIDPool.Put p addr' obj = Ok p' /\
      ShardedGoroutineIDPool.wf p' /\
      ShardedGoroutineIDPool.numShards p' = ShardedGoroutineIDPool.numShards p).
Proof.
  intros [Hlen Hall] Hn Haddr Haddr' Hfresh. split.
  - destruct (sgi_getShard_ok p addr Haddr Hn Hlen) as (s & Hs & Hget).
    pose proof (proj1 (Forall_lookup _ _) Hall _ _ Hs) as Hwf.
    pose proof (proj1 (Forall_lookup _ _) Hfresh _ _ Hs) as Hfr.
    unfold ShardedGoroutineIDPool.Get. rewrite Hget. cbn [mbind outcome_bind].
    destruct (MutexRingBufferPool.resident s) as [|x l] eqn:Hres.
    + rewrite (MutexRingBufferPoolFacts.mrb_Get_empty s h Hwf Hres).
      destruct (Hfr h) as [o ->]. cbn [mbind outcome_bind fst snd].
      eexists _, _, _. split; [done|]. split.
      { split; simpl; [by rewrite length_insert|by apply Forall_insert]. }
      split; [done|]. split.
      * intros a o' Ha. by apply lookup_app_l_Some.
      * rewrite length_app. simpl. lia.
    + destruct (MutexRingBufferPoolFacts.mrb_Get_next s h x l Hwf Hres)
        as (s' & -> & Hwf' & _).
      cbn [mbind outcome_bind]. eexists _, _, _. split; [done|]. split.
      { split; simpl; [by rewrite length_insert|by apply Forall_insert]. }
      split; [done|]. split; [done|lia].
  - destruct (sgi_getShard_ok p addr' Haddr' Hn Hlen) as (s & Hs & Hget).
    pose proof (proj1 (Forall_lookup _ _) Hall _ _ Hs) as Hwf.
    unfold ShardedGoroutineIDPool.Put. rewrite Hget. cbn [mbind outcome_bind].
    destruct (Z.lt_ge_cases (Z.of_nat (length (MutexRingBufferPool.resident s)))
                (MutexRingBufferPool.capacity s)) as [Hroom|Hfull].
    + destruct (MutexRingBufferPoolFacts.mrb_Put_room s obj Hwf Hroom) as (s' & -> & Hwf' & _).
      cbn [mbind outcome_bind]. eexists. split; [done|]. split; [|done].
      split; simpl; [by rewrite length_insert|by apply Forall_insert].
    + rewrite (MutexRingBufferPoolFacts.mrb_Put_full s obj Hwf Hfull).
      cbn [mbind outcome_bind]. eexists. split; [done|]. split; [|done].
      split; simpl; [by rewrite length_insert|by apply Forall_insert].
Qed.

Lemma three_shard_pool_wf :
  ShardedGoroutineIDPool.wf three_shard_pool /\
  Forall (fun s => fresh_allocator (MutexRingBufferPool.allocator s))
         (ShardedGoroutineIDPool.shards three_shard_pool).
Proof.
  destruct drained_pools_wf as (Hdrained & _).
  assert (MutexRingBufferPool.wf second_mutex_ring_shard) as Hfull
    by (split; [exact (full_ring_wf 2 3)|reflexivity]).
  split.
  - split; [reflexivity|]. by repeat constructor.
  - repeat constructor; exact testAllocator_fresh.
Qed.

Lemma goroutine_id_pool_calls_witness :
  (ShardedGoroutineIDPool.wf three_shard_pool /\
   1 <= ShardedGoroutineIDPool.numShards three_shard_pool <= int_max /\
   ShardedGoroutineIDPool.is_uintptr 824633802752 /\
   ShardedGoroutineIDPool.is_uintptr 824633806848 /\
   Forall (fun s => fresh_allocator (MutexRingBufferPool.allocator s))
          (ShardedGoroutineIDPool.shards three_shard_pool)) /\

  (exists x p' h',
      ShardedGoroutineIDPool.Get three_shard_pool 824633802752 fresh_heap = Ok (x, p', h') /\
      ShardedGoroutineIDPool.wf p' /\
      ShardedGoroutineIDPool.numShards p' = ShardedGoroutineIDPool.numShards three_shard_pool /\
      (forall a o, fresh_heap !! a = Some o -> h' !! a = Some o) /\
      (length fresh_heap <= length h' <= S (length fresh_heap))%nat) /\
  (exists p',
      ShardedGoroutineIDPool.Put three_shard_pool 824633806848 nil_ptr = Ok p' /\
      ShardedGoroutineIDPool.wf p' /\
      ShardedGoroutineIDPool.numShards p' = ShardedGoroutineIDPool.numShards three_shard_pool).
Proof.
  destruct three_shard_pool_wf as [Hwf Hfresh].
  assert (ShardedGoroutineIDPool.is_uintptr 824633802752) as Haddr
    by (unfold ShardedGoroutineIDPool.is_uintptr; lia).
  assert (ShardedGoroutineIDPool.is_uintptr 824633806848) as Haddr'
    by (unfold ShardedGoroutineIDPool.is_uintptr; lia).
  assert (1 <= ShardedGoroutineIDPool.numShards three_shard_pool <= int_max) as Hn
    by (unfold int_max; simpl; lia).
  split; [split; [exact Hwf|split; [exact Hn|split; [exact Haddr|split;
    [exact Haddr'|exact Hfresh]]]]|].
  exact (goroutine_id_pool_calls three_shard_pool 824633802752 824633806848 nil_ptr
           fresh_heap Hwf Hn Haddr Haddr' Hfresh).
Defined.

(** ** A Put and a Get of the atomic pool that overlap *)

Lemma abp_step_PutLoad_room (p : AtomicBasedPool.t) (obj : ptr) (h : heap) :
  AtomicBasedPool.index p < AtomicBasedPool.capacity p ->
  AtomicBasedPool.step (AtomicBasedPool.PutLoad obj) p h
    = (AtomicBasedPool.PutCAS obj (AtomicBasedPool.index p), p, h).
Proof.
  intros Hroom. unfold AtomicBasedPool.step, AtomicBasedPool.Load.
  by destruct (Z.geb_spec (AtomicBasedPool.index p) (AtomicBasedPool.capacity p)); [lia|].
Qed.

Lemma abp_step_PutCAS_won (p : AtomicBasedPool.t) (obj : ptr) (h : heap) :
  is_int (AtomicBasedPool.index p + 1) ->
  AtomicBasedPool.step (AtomicBasedPool.PutCAS obj (AtomicBasedPool.index p)) p h
    = (AtomicBasedPool.PutSlot obj (AtomicBasedPool.index p),
       AtomicBasedPool.with_index p (AtomicBasedPool.index p + 1), h).
Proof.
  intros Hint. unfold AtomicBasedPool.step.
  by rewrite AtomicBasedPoolFacts.abp_CAS_same, int_add_small.
Qed.

Lemma abp_step_GetLoad_pos (p : AtomicBasedPool.t) (h : heap) :
  0 < AtomicBasedPool.index p ->
  AtomicBasedPool.step AtomicBasedPool.GetLoad p h
    = (AtomicBasedPool.GetCAS (AtomicBasedPool.index p), p, h).
Proof.
  intros Hpos. unfold AtomicBasedPool.step, AtomicBasedPool.Load.
  by destruct (Z.leb_spec (AtomicBasedPool.index p) 0); [lia|].
Qed.

Lemma abp_step_GetCAS_won (p : AtomicBasedPool.t) (h : heap) :
  is_int (AtomicBasedPool.index p - 1) ->
  AtomicBasedPool.step (AtomicBasedPool.GetCAS (AtomicBasedPool.index p)) p h
    = (AtomicBasedPool.GetSlot (AtomicBasedPool.index p),
       AtomicBasedPool.with_index p (AtomicBasedPool.index p - 1), h).
Proof.
  intros Hint. unfold AtomicBasedPool.step.
  by rewrite AtomicBasedPoolFacts.abp_CAS_same, int_sub_small.
Qed.

Lemma abp_step_GetSlot_read (p : AtomicBasedPool.t) (idx : Z) (x : ptr) (h : heap) :
  is_int (idx - 1) -> AtomicBasedPool.objects p !! Z.to_nat (idx - 1) = Some x ->
  0 <= idx - 1 ->
  AtomicBasedPool.step (AtomicBasedPool.GetSlot idx) p h = (AtomicBasedPool.GetDone x, p, h).
Proof.
  intros Hint Hx Hpos. unfold AtomicBasedPool.step. rewrite int_sub_small by done.
  by rewrite (proj2 (index_slice_Ok _ _ _) (conj Hpos Hx)).
Qed.

Lemma abp_step_PutSlot_write (p : AtomicBasedPool.t) (obj : ptr) (idx : Z) (h : heap) :
  0 <= idx < Z.of_nat (length (AtomicBasedPool.objects p)) ->
  AtomicBasedPool.step (AtomicBasedPool.PutSlot obj idx) p h
    = (AtomicBasedPool.PutDone,
       AtomicBasedPool.with_objects p (<[Z.to_nat idx := obj]> (AtomicBasedPool.objects p)), h).
Proof.
  intros Hidx. unfold AtomicBasedPool.step. by rewrite store_slice_Ok.
Qed.

(** X12. The atomic pool's [Put] publishes the new fill index before it
    writes the slot, and [Get] reads the slot after it has claimed the
    index. So when a [Get] runs between the two steps of a [Put] that found
    room, the [Get] returns the pointer that the slot above the fill index
    held before (after an earlier [Get], the object that [Get] handed out),
    and the object being put is written above the fill index: after both
    calls have returned the pool has the residents it had before and the
    object put is not among them. The same two calls one after the other
    hand the object put to the [Get]. *)
Theorem atomic_put_get_race (p : AtomicBasedPool.t) (obj : ptr) (h : heap) :
  AtomicBasedPool.wf p ->
  AtomicBasedPool.index p < AtomicBasedPool.capacity p ->
  exists stale cfg,
    AtomicBasedPool.objects p !! Z.to_nat (AtomicBasedPool.index p) = Some stale /\
    AtomicBasedPool.interleave
      [AtomicBasedPool.CallPut obj; AtomicBasedPool.CallGet;
       AtomicBasedPool.Sched 0; AtomicBasedPool.Sched 0;
       AtomicBasedPool.Sched 1; AtomicBasedPool.Sched 1; AtomicBasedPool.Sched 1;
       AtomicBasedPool.Sched 0]
      {| AtomicBasedPool.pool := p; AtomicBasedPool.mem := h;
         AtomicBasedPool.threads := [] |} = cfg /\
    AtomicBasedPool.threads cfg
      = [AtomicBasedPool.PutDone; AtomicBasedPool.GetDone stale] /\
    AtomicBasedPool.mem cfg = h /\
    AtomicBasedPool.index (AtomicBasedPool.pool cfg) = AtomicBasedPool.index p /\
    AtomicBasedPool.objects (AtomicBasedPool.pool cfg)
      = <[Z.to_nat (AtomicBasedPool.index p) := obj]> (AtomicBasedPool.objects p) /\
    AtomicBasedPool.resident (AtomicBasedPool.pool cfg) = AtomicBasedPool.resident p /\
    (exists p1 p2,
        AtomicBasedPool.Put p obj = Ok p1 /\
        AtomicBasedPool.Get p1 h = Ok (obj, p2, h)).
Proof.
  intros Hwf Hroom. pose proof Hwf as (Hlen & Hidx & Hcap).
  destruct (index_slice_in (AtomicBasedPool.objects p) (AtomicBasedPool.index p) ltac:(lia))
    as (stale & Hstale & _).
  exists stale. eexists. split; [exact Hstale|]. split; [reflexivity|].
  unfold AtomicBasedPool.interleave.
  cbn [fold_left AtomicBasedPool.fire AtomicBasedPool.threads AtomicBasedPool.pool
       AtomicBasedPool.mem app lookup list_lookup].
  rewrite abp_step_PutLoad_room by done.
  cbn [AtomicBasedPool.threads AtomicBasedPool.pool AtomicBasedPool.mem
       insert list_insert lookup list_lookup].
  rewrite abp_step_PutCAS_won by (unfold is_int, int_min, int_max in *; lia).
  cbn [AtomicBasedPool.threads AtomicBasedPool.pool AtomicBasedPool.mem
       insert list_insert lookup list_lookup].
  set (p1 := AtomicBasedPool.with_index p (AtomicBasedPool.index p + 1)).
  assert (AtomicBasedPool.index p1 = AtomicBasedPool.index p + 1) as Hi1 by done.
  rewrite (abp_step_GetLoad_pos p1) by lia.
  cbn [AtomicBasedPool.threads AtomicBasedPool.pool AtomicBasedPool.mem
       insert list_insert lookup list_lookup].
  rewrite (abp_step_GetCAS_won p1) by (unfold is_int, int_min, int_max in *; lia).
  cbn [AtomicBasedPool.threads AtomicBasedPool.pool AtomicBasedPool.mem
       insert list_insert lookup list_lookup].
  set (p2 := AtomicBasedPool.with_index p1 (AtomicBasedPool.index p1 - 1)).
  rewrite (abp_step_GetSlot_read p2 (AtomicBasedPool.index p1) stale);
    [|unfold is_int, int_min, int_max in *; lia
     |rewrite Hi1; by replace (AtomicBasedPool.index p + 1 - 1)
                        with (AtomicBasedPool.index p) by lia
     |lia].
  cbn [AtomicBasedPool.threads AtomicBasedPool.pool AtomicBasedPool.mem
       insert list_insert lookup list_lookup].
  rewrite (abp_step_PutSlot_write p2) by (simpl; lia).
  cbn [AtomicBasedPool.threads AtomicBasedPool.pool AtomicBasedPool.mem
       insert list_insert lookup list_lookup].
  split; [done|]. split; [done|].
  split; [simpl; lia|]. split; [done|]. split.
  - unfold AtomicBasedPool.resident. simpl.
    replace (AtomicBasedPool.index p + 1 - 1) with (AtomicBasedPool.index p) by lia.
    apply take_insert_ge. lia.
  - destruct (AtomicBasedPoolFacts.abp_Put_room p obj Hwf) as (q1 & Hput & Hwf1 & Hres1 & _).
    { rewrite AtomicBasedPoolFacts.abp_resident_length by done. lia. }
    destruct (AtomicBasedPoolFacts.abp_Get_next q1 h obj _ Hwf1 Hres1) as (q2 & Hget & _).
    by exists q1, q2.
Qed.

Lemma atomic_put_get_race_witness :
  (AtomicBasedPool.wf drained_atomic /\
   AtomicBasedPool.index drained_atomic < AtomicBasedPool.capacity drained_atomic) /\

  exists stale cfg,
    AtomicBasedPool.objects drained_atomic !! Z.to_nat (AtomicBasedPool.index drained_atomic) = Some stale /\
    AtomicBasedPool.interleave
      [AtomicBasedPool.CallPut (Some 1%nat); AtomicBasedPool.CallGet;
       AtomicBasedPool.Sched 0; AtomicBasedPool.Sched 0;
       AtomicBasedPool.Sched 1; AtomicBasedPool.Sched 1; AtomicBasedPool.Sched 1;
       AtomicBasedPool.Sched 0]
      {| AtomicBasedPool.pool := drained_atomic; AtomicBasedPool.mem := sample_heap;
         AtomicBasedPool.threads := [] |} = cfg /\
    AtomicBasedPool.threads cfg
      = [AtomicBasedPool.PutDone; AtomicBasedPool.GetDone stale] /\
    AtomicBasedPool.mem cfg = sample_heap /\
    AtomicBasedPool.index (AtomicBasedPool.pool cfg) = AtomicBasedPool.index drained_atomic /\
    AtomicBasedPool.objects (AtomicBasedPool.pool cfg)
      = <[Z.to_nat (AtomicBasedPool.index drained_atomic) := (Some 1%nat)]> (AtomicBasedPool.objects drained_atomic) /\
    AtomicBasedPool.resident (AtomicBasedPool.pool cfg) = AtomicBasedPool.resident drained_atomic /\
    (exists p1 p2,
        AtomicBasedPool.Put drained_atomic (Some 1%nat) = Ok p1 /\
        AtomicBasedPool.Get p1 sample_heap = Ok ((Some 1%nat), p2, sample_heap)).
Proof.
  destruct drained_pools_wf as (_ & _ & Hwf).
  assert (AtomicBasedPool.index drained_atomic < AtomicBasedPool.capacity drained_atomic)
    as Hroom by (vm_compute; reflexivity).
  split; [split; [exact Hwf|exact Hroom]|].
  exact (atomic_put_get_race drained_atomic (Some 1%nat) sample_heap Hwf Hroom).
Defined.

(** ** The earlier revision of the pools *)

Lemma earlier_atomic_Get_alloc (p : Earlier.AtomicBasedPool.t) (h : heap) :
  Earlier.AtomicBasedPool.index p <= 0 ->
  Earlier.AtomicBasedPool.Get p h
    = Ok ((Earlier.AtomicBasedPool.allocator p h).1, p,
          (Earlier.AtomicBasedPool.allocator p h).2).
Proof.
  intros Hidx. unfold Earlier.AtomicBasedPool.Get, Earlier.AtomicBasedPool.Get_loop,
    Earlier.AtomicBasedPool.LoadInt64.
  destruct (Z.leb_spec (Earlier.AtomicBasedPool.index p) 0); [|lia].
  by destruct (Earlier.AtomicBasedPool.allocator p h).
Qed.

Lemma earlier_atomic_gets (p : Earlier.AtomicBasedPool.t) (k : nat) (h : heap) :
  Earlier.AtomicBasedPool.index p <= 0 ->
  get_n Earlier.AtomicBasedPool.Get k p h
    = Ok ((alloc_n (Earlier.AtomicBasedPool.allocator p) k h).1, p,
          (alloc_n (Earlier.AtomicBasedPool.allocator p) k h).2).
Proof.
  intros Hidx. revert h. induction k as [|k IH]; intros h; [done|].
  cbn [get_n alloc_n]. rewrite earlier_atomic_Get_alloc by done.
  destruct (Earlier.AtomicBasedPool.allocator p h) as [obj h1].
  cbn [mbind outcome_bind fst snd]. rewrite IH.
  by destruct (alloc_n (Earlier.AtomicBasedPool.allocator p) k h1).
Qed.

(** X13. In the earlier revision the atomic pool's constructor fills the
    slots but leaves the fill index at zero. The pool it returns therefore
    behaves as an empty one: every [Get] calls the allocator and leaves the
    pool as it is, so [k] calls return [k] new objects and none of the
    pre-populated ones, and with capacity at least 1 the first [Put]
    overwrites the pre-populated object in slot 0. *)
Theorem earlier_atomic_pool_starts_empty (c : Z) (alloc : Allocator)
    (clean : option Cleaner) (h : heap) (k : nat) (x : ptr) :
  0 <= c <= int_max -> fresh_allocator alloc ->
  exists p0 h0,
    Earlier.NewAtomicBasedPool c alloc clean h = Ok (p0, h0) /\
    Earlier.AtomicBasedPool.objects p0 = Some <$> seq (length h) (Z.to_nat c) /\
    allocations h0 = (allocations h + Z.to_nat c)%nat /\
    Earlier.AtomicBasedPool.index p0 = 0 /\
    (exists hk,
        get_n Earlier.AtomicBasedPool.Get k p0 h0
          = Ok (Some <$> seq (length h0) k, p0, hk) /\
        allocations hk = (allocations h0 + k)%nat) /\
    (1 <= c -> forall h1,
        Earlier.clean_if_set clean x h0 = Ok h1 ->
        exists p1,
          Earlier.AtomicBasedPool.Put p0 x h0 = Ok (p1, h1) /\
          Earlier.AtomicBasedPool.index p1 = 1 /\
          Earlier.AtomicBasedPool.objects p1
            = <[0%nat := x]> (Earlier.AtomicBasedPool.objects p0)).
Proof.
  intros [Hc0 Hcmax] Hfresh.
  destruct (alloc_n_fresh alloc (Z.to_nat c) h Hfresh) as [Hobjs Hlen].
  eexists _, _. unfold Earlier.NewAtomicBasedPool, for_range.
  rewrite make_slice_Ok by done. cbn [mbind outcome_bind].
  rewrite (AtomicBasedPoolFacts.abp_fill alloc (Z.to_nat c) 0)
    by (rewrite length_replicate; lia).
  cbn [mbind outcome_bind]. split; [done|].
  rewrite drop_ge by (rewrite length_replicate; lia).
  rewrite take_0, app_nil_r. cbn [app Earlier.AtomicBasedPool.objects
    Earlier.AtomicBasedPool.index].
  split; [exact Hobjs|]. split; [exact Hlen|]. split; [done|]. split.
  - eexists. rewrite earlier_atomic_gets by (simpl; lia).
    cbn [Earlier.AtomicBasedPool.allocator].
    destruct (alloc_n_fresh alloc k (alloc_n alloc (Z.to_nat c) h).2 Hfresh) as [Hk Hlk].
    rewrite Hk. split; [done|]. exact Hlk.
  - intros Hc1 h1 Hclean. eexists. unfold Earlier.AtomicBasedPool.Put.
    cbn [Earlier.AtomicBasedPool.cleaner]. rewrite Hclean. cbn [mbind outcome_bind].
    cbn [Earlier.AtomicBasedPool.Put_loop]. unfold Earlier.AtomicBasedPool.LoadInt64.
    cbn [Earlier.AtomicBasedPool.index Earlier.AtomicBasedPool.capacity].
    destruct (Z.geb_spec 0 c); [lia|].
    unfold Earlier.AtomicBasedPool.CompareAndSwapInt64.
    cbn [Earlier.AtomicBasedPool.index Z.eqb].
    cbn [Earlier.AtomicBasedPool.with_index Earlier.AtomicBasedPool.objects].
    rewrite store_slice_Ok by (rewrite Hobjs, length_fmap, length_seq; lia).
    cbn [mbind outcome_bind]. done.
Qed.

Lemma earlier_atomic_pool_starts_empty_witness :
  (0 <= 2 <= int_max /\ fresh_allocator testAllocator) /\
  exists p0 h0,
    Earlier.NewAtomicBasedPool 2 testAllocator (Some testCleaner) [] = Ok (p0, h0) /\
    Earlier.AtomicBasedPool.objects p0 = Some <$> seq (length (@nil testObject)) (Z.to_nat 2) /\
    allocations h0 = (allocations [] + Z.to_nat 2)%nat /\
    Earlier.AtomicBasedPool.index p0 = 0 /\
    (exists hk,
        get_n Earlier.AtomicBasedPool.Get 3 p0 h0
          = Ok (Some <$> seq (length h0) 3, p0, hk) /\
        allocations hk = (allocations h0 + 3)%nat) /\
    (1 <= 2 -> forall h1,
        Earlier.clean_if_set (Some testCleaner) (Some 0%nat) h0 = Ok h1 ->
        exists p1,
          Earlier.AtomicBasedPool.Put p0 (Some 0%nat) h0 = Ok (p1, h1) /\
          Earlier.AtomicBasedPool.index p1 = 1 /\
          Earlier.AtomicBasedPool.objects p1
            = <[0%nat := Some 0%nat]> (Earlier.AtomicBasedPool.objects p0)).
Proof.
  assert (0 <= 2 <= int_max) as Hc by (unfold int_max; lia).
  split; [split; [exact Hc|exact testAllocator_fresh]|].
  exact (earlier_atomic_pool_starts_empty 2 testAllocator (Some testCleaner) [] 3
           (Some 0%nat) Hc testAllocator_fresh).
Defined.

Lemma erw_Put_cleaned (p : Earlier.RWMutexBasedPool.t) (x : ptr) (h h' : heap) :
  Earlier.RWMutexBasedPool.wf p ->
  Earlier.clean_if_set (Earlier.RWMutexBasedPool.cleaner p) x h = Ok h' ->
  Earlier.RWMutexBasedPool.Put p x h
    = Ok (Earlier.RWMutexBasedPool.with_state p
            (if len (Earlier.RWMutexBasedPool.objects p)
                <? slice_cap (Earlier.RWMutexBasedPool.objects p)
             then append (Earlier.RWMutexBasedPool.objects p) x
             else Earlier.RWMutexBasedPool.objects p) Unlocked, h').
Proof.
  intros [_ Hmu] Hclean. unfold Earlier.RWMutexBasedPool.Put.
  rewrite Hclean. cbn [mbind outcome_bind]. by rewrite Hmu.
Qed.

Lemma erw_Get_top (p : Earlier.RWMutexBasedPool.t) (x : ptr) (h : heap) :
  Earlier.RWMutexBasedPool.wf p ->
  len (Earlier.RWMutexBasedPool.objects p) < slice_cap (Earlier.RWMutexBasedPool.objects p) ->
  Earlier.RWMutexBasedPool.Get
    (Earlier.RWMutexBasedPool.with_state p
       (append (Earlier.RWMutexBasedPool.objects p) x) Unlocked) h
    = Ok (x, p, h).
Proof.
  intros [[Hlen Hcap] Hmu] Hroom. destruct p as [[el cp] m a cl].
  unfold len in *. simpl in *. subst m.
  unfold Earlier.RWMutexBasedPool.Get, append, len.
  cbn [Earlier.RWMutexBasedPool.mu Earlier.RWMutexBasedPool.with_state
       Earlier.RWMutexBasedPool.objects Lock mbind outcome_bind elems slice_cap].
  rewrite length_app. simpl length.
  destruct (Z.eqb_spec (Z.of_nat (length el + 1)) 0); [lia|].
  pose proof int_min_neg.
  rewrite int_sub_small by (unfold is_int; lia).
  replace (Z.of_nat (length el + 1) - 1) with (Z.of_nat (length el)) by lia.
  rewrite (proj2 (index_slice_Ok (el ++ [x]) (Z.of_nat (length el)) x));
    [|split; [lia|rewrite Nat2Z.id; by rewrite list_lookup_middle]].
  cbn [mbind outcome_bind]. unfold reslice. cbn [slice_cap elems].
  destruct (Z.ltb_spec (Z.of_nat (length el)) cp); [|lia].
  destruct (Z.leb_spec 0 (Z.of_nat (length el))); [|lia].
  destruct (Z.leb_spec (Z.of_nat (length el)) cp); [|lia].
  cbn [andb mbind outcome_bind Unlock Earlier.RWMutexBasedPool.allocator
       Earlier.RWMutexBasedPool.cleaner Earlier.RWMutexBasedPool.with_state].
  rewrite Nat2Z.id. by rewrite take_app_length.
Qed.

(** X14. The read/write-mutex slice pool of the earlier revision. Its
    constructor pre-populates the pool with [capacity] objects. [Put] runs
    the cleaner, when one is set, before it takes the lock and before it
    looks at the capacity: a panic of the cleaner is a panic of [Put], an
    object that finds the pool full is discarded after it has been
    cleaned, and an object that finds room becomes the newest resident and
    is what the next [Get] returns, which leaves the pool as it was before
    the [Put]. [Get] on the empty pool returns what the allocator
    returns. *)
Theorem earlier_rwmutex_pool_put_get (p : Earlier.RWMutexBasedPool.t) (x : ptr)
    (h : heap) (c : Z) (alloc : Allocator) (clean : option Cleaner) :
  Earlier.RWMutexBasedPool.wf p -> 0 <= c <= int_max ->
  (exists p0,
      Earlier.NewRWMutexBasedPool c alloc clean h
        = Ok (p0, (alloc_n alloc (Z.to_nat c) h).2) /\
      Earlier.RWMutexBasedPool.wf p0 /\
      Earlier.RWMutexBasedPool.resident p0 = (alloc_n alloc (Z.to_nat c) h).1 /\
      Earlier.RWMutexBasedPool.capacity p0 = c) /\
  (Earlier.clean_if_set (Earlier.RWMutexBasedPool.cleaner p) x h = Panic ->
   Earlier.RWMutexBasedPool.Put p x h = Panic) /\
  (forall h',
      Earlier.clean_if_set (Earlier.RWMutexBasedPool.cleaner p) x h = Ok h' ->
      (Z.of_nat (length (Earlier.RWMutexBasedPool.resident p))
         < Earlier.RWMutexBasedPool.capacity p ->
       exists p',
         Earlier.RWMutexBasedPool.Put p x h = Ok (p', h') /\
         Earlier.RWMutexBasedPool.wf p' /\
         Earlier.RWMutexBasedPool.resident p' = Earlier.RWMutexBasedPool.resident p ++ [x] /\
         Earlier.RWMutexBasedPool.Get p' h' = Ok (x, p, h')) /\
      (Earlier.RWMutexBasedPool.capacity p
         <= Z.of_nat (length (Earlier.RWMutexBasedPool.resident p)) ->
       Earlier.RWMutexBasedPool.Put p x h = Ok (p, h'))) /\
  (Earlier.RWMutexBasedPool.cleaner p = None ->
   Earlier.clean_if_set (Earlier.RWMutexBasedPool.cleaner p) x h = Ok h) /\
  (Earlier.RWMutexBasedPool.resident p = [] ->
   Earlier.RWMutexBasedPool.Get p h
     = Ok ((Earlier.RWMutexBasedPool.allocator p h).1, p,
           (Earlier.RWMutexBasedPool.allocator p h).2)).
Proof.
  intros Hwf [Hc0 Hcmax]. split; [|split; [|split; [|split]]].
  - eexists. unfold Earlier.NewRWMutexBasedPool, make_slice_cap, for_range.
    destruct (Z.ltb_spec c 0); [lia|]. cbn [mbind outcome_bind].
    rewrite MutexBasedPoolFacts.mbp_fill by (unfold len; simpl; lia).
    cbn [mbind outcome_bind elems slice_cap app]. split; [done|].
    unfold Earlier.RWMutexBasedPool.wf, Earlier.RWMutexBasedPool.resident,
      Earlier.RWMutexBasedPool.capacity, len. simpl.
    rewrite alloc_n_length. repeat split; (done || lia).
  - intros Hpanic. unfold Earlier.RWMutexBasedPool.Put. by rewrite Hpanic.
  - intros h' Hclean. rewrite (erw_Put_cleaned p x h h' Hwf Hclean).
    unfold Earlier.RWMutexBasedPool.resident, Earlier.RWMutexBasedPool.capacity.
    fold (len (Earlier.RWMutexBasedPool.objects p)). split.
    + intros Hroom.
      destruct (Z.ltb_spec (len (Earlier.RWMutexBasedPool.objects p))
                  (slice_cap (Earlier.RWMutexBasedPool.objects p))); [|lia].
      eexists. split; [done|]. split; [|split; [done|by apply erw_Get_top]].
      destruct Hwf as [[Hlen Hcap] Hmu].
      unfold Earlier.RWMutexBasedPool.wf, append, len in *. simpl.
      destruct (Z.ltb_spec (Z.of_nat (length (elems (Earlier.RWMutexBasedPool.objects p))))
                  (slice_cap (Earlier.RWMutexBasedPool.objects p))); [|lia].
      rewrite length_app. simpl. split; [lia|done].
    + intros Hfull.
      destruct (Z.ltb_spec (len (Earlier.RWMutexBasedPool.objects p))
                  (slice_cap (Earlier.RWMutexBasedPool.objects p))); [lia|].
      destruct Hwf as [_ Hmu]. destruct p as [s m a cl]. simpl in *. by subst m.
  - by intros ->.
  - intros Hnil. destruct Hwf as [_ Hmu].
    unfold Earlier.RWMutexBasedPool.Get, Earlier.RWMutexBasedPool.resident, len in *.
    rewrite Hmu, Hnil. cbn [Lock mbind outcome_bind length Z.of_nat Z.eqb].
    destruct (Earlier.RWMutexBasedPool.allocator p h) as [obj h1].
    cbn [mbind outcome_bind Unlock fst snd]. do 3 f_equal.
    destruct p as [s m a cl]. simpl in *. by subst m.
Qed.

Lemma earlier_rwmutex_pool_put_get_witness :
  (Earlier.RWMutexBasedPool.wf stocked_rwmutex_slice /\ 0 <= 3 <= int_max) /\

  (exists p0,
      Earlier.NewRWMutexBasedPool 3 testAllocator (Some testCleaner) stocked_heap
        = Ok (p0, (alloc_n testAllocator (Z.to_nat 3) stocked_heap).2) /\
      Earlier.RWMutexBasedPool.wf p0 /\
      Earlier.RWMutexBasedPool.resident p0 = (alloc_n testAllocator (Z.to_nat 3) stocked_heap).1 /\
      Earlier.RWMutexBasedPool.capacity p0 = 3) /\
  (Earlier.clean_if_set (Earlier.RWMutexBasedPool.cleaner stocked_rwmutex_slice) (Some 2%nat) stocked_heap = Panic ->
   Earlier.RWMutexBasedPool.Put stocked_rwmutex_slice (Some 2%nat) stocked_heap = Panic) /\
  (forall h',
      Earlier.clean_if_set (Earlier.RWMutexBasedPool.cleaner stocked_rwmutex_slice) (Some 2%nat) stocked_heap = Ok h' ->
      (Z.of_nat (length (Earlier.RWMutexBasedPool.resident stocked_rwmutex_slice))
         < Earlier.RWMutexBasedPool.capacity stocked_rwmutex_slice ->
       exists p',
         Earlier.RWMutexBasedPool.Put stocked_rwmutex_slice (Some 2%nat) stocked_heap = Ok (p', h') /\
         Earlier.RWMutexBasedPool.wf p' /\
         Earlier.RWMutexBasedPool.resident p' = Earlier.RWMutexBasedPool.resident stocked_rwmutex_slice ++ [(Some 2%nat)] /\
         Earlier.RWMutexBasedPool.Get p' h' = Ok ((Some 2%nat), stocked_rwmutex_slice, h')) /\
      (Earlier.RWMutexBasedPool.capacity stocked_rwmutex_slice
         <= Z.of_nat (length (Earlier.RWMutexBasedPool.resident stocked_rwmutex_slice)) ->
       Earlier.RWMutexBasedPool.Put stocked_rwmutex_slice (Some 2%nat) stocked_heap = Ok (stocked_rwmutex_slice, h'))) /\
  (Earlier.RWMutexBasedPool.cleaner stocked_rwmutex_slice = None ->
   Earlier.clean_if_set (Earlier.RWMutexBasedPool.cleaner stocked_rwmutex_slice) (Some 2%nat) stocked_heap = Ok stocked_heap) /\
  (Earlier.RWMutexBasedPool.resident stocked_rwmutex_slice = [] ->
   Earlier.RWMutexBasedPool.Get stocked_rwmutex_slice stocked_heap
     = Ok ((Earlier.RWMutexBasedPool.allocator stocked_rwmutex_slice stocked_heap).1, stocked_rwmutex_slice,
           (Earlier.RWMutexBasedPool.allocator stocked_rwmutex_slice stocked_heap).2)).
Proof.
  assert (Earlier.RWMutexBasedPool.wf stocked_rwmutex_slice) as Hwf.
  { unfold Earlier.RWMutexBasedPool.wf, len, int_max; simpl. split; [lia|reflexivity]. }
  assert (0 <= 3 <= int_max) as Hc by (unfold int_max; lia).
  split; [split; [exact Hwf|exact Hc]|].
  exact (earlier_rwmutex_pool_put_get stocked_rwmutex_slice (Some 2%nat) stocked_heap 3
           testAllocator (Some testCleaner) Hwf Hc).
Defined.

(** ** The test cleaner *)

Lemma testCleaner_insert (a : nat) (o : testObject) (h : heap) :
  h !! a = Some o ->
  testCleaner (Some a) h = Ok (<[a := {| ID := 0; Data := ""; shardIndex := -1 |}]> h).
Proof.
  intros Ho. pose proof (lookup_lt_Some _ _ _ Ho) as Ha.
  unfold testCleaner, assign. rewrite Ho. cbn [mbind outcome_bind].
  rewrite list_lookup_insert_eq by done. cbn [mbind outcome_bind].
  rewrite list_lookup_insert_eq by (by rewrite length_insert).
  by rewrite !list_insert_insert_eq.
Qed.

(** X15. [testCleaner] resets the three fields of the object it is given
    and nothing else: every other object of the heap is as before, no
    object is allocated, and cleaning a second time changes nothing. On
    [nil], or on a pointer to no object, it panics. *)
Theorem test_cleaner_resets_one_object (obj bad : ptr) (h : heap) :
  valid obj h -> ~ valid bad h ->
  (exists h',
      testCleaner obj h = Ok h' /\
      deref obj h' = Ok {| ID := 0; Data := ""; shardIndex := -1 |} /\
      allocations h' = allocations h /\
      (forall other, other <> obj -> deref other h' = deref other h) /\
      testCleaner obj h' = Ok h') /\
  testCleaner bad h = Panic.
Proof.
  intros (a & -> & Ha) Hinvalid. split.
  - destruct (lookup_lt_is_Some_2 h a Ha) as [o Ho].
    rewrite (testCleaner_insert a o h Ho). eexists. split; [done|].
    split; [unfold deref; by rewrite list_lookup_insert_eq|].
    split; [apply length_insert|]. split.
    + intros [b|] Hne; [|done]. unfold deref.
      rewrite list_lookup_insert_ne; [done|]. by intros ->.
    + erewrite testCleaner_insert by (by rewrite list_lookup_insert_eq).
      by rewrite list_insert_insert_eq.
  - destruct bad as [b|]; [|done].
    unfold testCleaner, assign. destruct (h !! b) as [o|] eqn:Ho; [|done].
    exfalso. apply Hinvalid. exists b. split; [done|]. by eapply lookup_lt_Some.
Qed.

Lemma test_cleaner_resets_one_object_witness :
  (valid (Some 2%nat) stocked_heap /\ ~ valid nil_ptr stocked_heap) /\
  (exists h',
      testCleaner (Some 2%nat) stocked_heap = Ok h' /\
      deref (Some 2%nat) h' = Ok {| ID := 0; Data := ""; shardIndex := -1 |} /\
      allocations h' = allocations stocked_heap /\
      (forall other, other <> Some 2%nat -> deref other h' = deref other stocked_heap) /\
      testCleaner (Some 2%nat) h' = Ok h') /\
  testCleaner nil_ptr stocked_heap = Panic.
Proof.
  assert (valid (Some 2%nat) stocked_heap) as Hobj
    by (exists 2%nat; split; [reflexivity|simpl; lia]).
  assert (~ valid nil_ptr stocked_heap) as Hbad
    by (intros (a & Ha & _); discriminate Ha).
  split; [split; [exact Hobj|exact Hbad]|].
  exact (test_cleaner_resets_one_object (Some 2%nat) nil_ptr stocked_heap Hobj Hbad).
Defined.

(** ** Clients that return what they got *)

Lemma stamped_app (n : Z) (h : heap) (o : testObject) (y : ptr) :
  stamped n h y -> stamped n (h ++ [o]) y.
Proof.
  intros (oy & Hy & Hidx). exists oy. split; [|done].
  unfold deref in *. destruct y as [b|]; [|done].
  destruct (h !! b) eqn:Hb; [|done]. by rewrite (lookup_app_l_Some _ _ _ _ Hb).
Qed.

Lemma stamped_insert (n procPin : Z) (h : heap) (a : nat) (o : testObject) (y : ptr) :
  0 <= procPin < n -> stamped n h y ->
  stamped n (<[a := set_shardIndex procPin o]> h) y.
Proof.
  intros Hpin (oy & Hy & Hidx). unfold stamped, deref in *.
  destruct y as [b|]; [|done]. destruct (h !! b) as [ob|] eqn:Hb; [|done].
  injection Hy as ->. destruct (decide (a = b)) as [->|Hne].
  - exists (set_shardIndex procPin o).
    rewrite list_lookup_insert_eq by (by eapply lookup_lt_Some). by split.
  - exists oy. rewrite list_lookup_insert_ne by done. rewrite Hb. by split.
Qed.

Lemma smr_client_Get (p : ShardedMutexRingBufferPool.t) (procPin : Z) (h : heap) (held : list ptr) :
  ShardedMutexRingBufferPool.wf p h ->
  Forall (stamped (Z.of_nat (length (ShardedMutexRingBufferPool.shards p))) h) held ->
  0 <= procPin < Z.of_nat (length (ShardedMutexRingBufferPool.shards p)) ->
  exists x p' h',
    ShardedMutexRingBufferPool.Get p procPin h = Ok (x, p', h') /\
    ShardedMutexRingBufferPool.wf p' h' /\
    length (ShardedMutexRingBufferPool.shards p') = length (ShardedMutexRingBufferPool.shards p) /\
    Forall (stamped (Z.of_nat (length (ShardedMutexRingBufferPool.shards p))) h') (held ++ [x]).
Proof.
  intros Hwf Hheld Hpin.
  destruct (index_slice_in (ShardedMutexRingBufferPool.shards p) procPin Hpin) as (s & Hs & _).
  pose proof (proj1 (Forall_lookup _ _) Hwf _ _ Hs) as (Hswf & Hfresh & Hval).
  destruct (list_cases (MutexRingBufferPool.resident s)) as [Hres|(x & l & Hres)].
  - destruct (smr_Get_miss p procPin h s ltac:(lia) Hs Hswf Hres Hfresh) as (o & Ho & Hget).
    eexists _, _, _. split; [exact Hget|].
    split; [exact (smr_Get_wf p procPin h _ _ _ Hwf Hget)|]. split; [done|].
    apply Forall_app. split.
    + eapply Forall_impl; [exact Hheld|]. by apply stamped_app.
    + apply Forall_singleton. exists (set_shardIndex procPin o). split; [|done].
      unfold deref. rewrite lookup_app_r by lia. by rewrite Nat.sub_diag.
  - rewrite Hres in Hval. apply Forall_cons in Hval as [Hx _].
    destruct (smr_Get_hit p procPin h s x l ltac:(lia) Hs Hswf Hres Hx)
      as (s' & a & o & -> & Ho & Hget & _).
    eexists _, _, _. split; [exact Hget|].
    split; [exact (smr_Get_wf p procPin h _ _ _ Hwf Hget)|].
    split; [cbn [ShardedMutexRingBufferPool.shards]; by rewrite length_insert|].
    apply Forall_app. split.
    + eapply Forall_impl; [exact Hheld|]. intros y Hy. by eapply stamped_insert.
    + apply Forall_singleton. exists (set_shardIndex procPin o). split; [|done].
      unfold deref. rewrite list_lookup_insert_eq; [done|]. by eapply lookup_lt_Some.
Qed.

Lemma smr_client_Put (p : ShardedMutexRingBufferPool.t) (x : ptr) (h : heap) :
  ShardedMutexRingBufferPool.wf p h ->
  stamped (Z.of_nat (length (ShardedMutexRingBufferPool.shards p))) h x ->
  exists p',
    ShardedMutexRingBufferPool.Put p x h = Ok p' /\ ShardedMutexRingBufferPool.wf p' h /\
    length (ShardedMutexRingBufferPool.shards p') = length (ShardedMutexRingBufferPool.shards p).
Proof.
  intros Hwf (o & Ho & Hidx).
  destruct (index_slice_in (ShardedMutexRingBufferPool.shards p) (shardIndex o) Hidx) as (s & Hs & _).
  pose proof (proj1 (Forall_lookup _ _) Hwf _ _ Hs) as (Hswf & Hfresh & Hval).
  assert (valid x h) as Hx.
  { unfold deref in Ho. destruct x as [a|]; [|done]. exists a. split; [done|].
    destruct (h !! a) eqn:Ha; [|done]. by eapply lookup_lt_Some. }
  rewrite (smr_Put_routed p x h o s Ho ltac:(lia) Hs).
  destruct (Z.lt_ge_cases (Z.of_nat (length (MutexRingBufferPool.resident s))) (MutexRingBufferPool.capacity s))
    as [Hroom|Hfull].
  - destruct (MutexRingBufferPoolFacts.mrb_Put_room s x Hswf Hroom) as (s' & -> & Hwf' & Hres' & _ & Hal').
    cbn [mbind outcome_bind]. eexists. split; [done|].
    split; [|cbn [ShardedMutexRingBufferPool.shards]; by rewrite length_insert].
    unfold ShardedMutexRingBufferPool.wf. cbn [ShardedMutexRingBufferPool.shards]. apply Forall_insert; [done|].
    split; [done|]. split; [by rewrite Hal'|]. rewrite Hres'.
    apply Forall_app. split; [done|]. by apply Forall_singleton.
  - rewrite (MutexRingBufferPoolFacts.mrb_Put_full s x Hswf Hfull). cbn [mbind outcome_bind].
    eexists. split; [done|].
    split; [|cbn [ShardedMutexRingBufferPool.shards]; by rewrite length_insert].
    unfold ShardedMutexRingBufferPool.wf. cbn [ShardedMutexRingBufferPool.shards]. by apply Forall_insert.
Qed.

Lemma sab_client_Get (p : ShardedAtomicBasedPool.t) (procPin : Z) (h : heap) (held : list ptr) :
  ShardedAtomicBasedPool.wf p h ->
  Forall (stamped (Z.of_nat (length (ShardedAtomicBasedPool.shards p))) h) held ->
  0 <= procPin < Z.of_nat (length (ShardedAtomicBasedPool.shards p)) ->
  exists x p' h',
    ShardedAtomicBasedPool.Get p procPin h = Ok (x, p', h') /\
    ShardedAtomicBasedPool.wf p' h' /\
    length (ShardedAtomicBasedPool.shards p') = length (ShardedAtomicBasedPool.shards p) /\
    Forall (stamped (Z.of_nat (length (ShardedAtomicBasedPool.shards p))) h') (held ++ [x]).
Proof.
  intros Hwf Hheld Hpin.
  destruct (index_slice_in (ShardedAtomicBasedPool.shards p) procPin Hpin) as (s & Hs & _).
  pose proof (proj1 (Forall_lookup _ _) Hwf _ _ Hs) as (Hswf & Hfresh & Hval).
  destruct (list_cases_snoc (AtomicBasedPool.resident s)) as [Hres|(l & x & Hres)].
  - destruct (sab_Get_miss p procPin h s ltac:(lia) Hs Hswf Hres Hfresh) as (o & Ho & Hget).
    eexists _, _, _. split; [exact Hget|].
    split; [exact (sab_Get_wf p procPin h _ _ _ Hwf Hget)|]. split; [done|].
    apply Forall_app. split.
    + eapply Forall_impl; [exact Hheld|]. by apply stamped_app.
    + apply Forall_singleton. exists (set_shardIndex procPin o). split; [|done].
      unfold deref. rewrite lookup_app_r by lia. by rewrite Nat.sub_diag.
  - rewrite Hres in Hval. apply Forall_app in Hval as [_ Hx].
    apply Forall_cons in Hx as [Hx _].
    destruct (sab_Get_hit p procPin h s x l ltac:(lia) Hs Hswf Hres Hx)
      as (s' & a & o & -> & Ho & Hget & _).
    eexists _, _, _. split; [exact Hget|].
    split; [exact (sab_Get_wf p procPin h _ _ _ Hwf Hget)|].
    split; [cbn [ShardedAtomicBasedPool.shards]; by rewrite length_insert|].
    apply Forall_app. split.
    + eapply Forall_impl; [exact Hheld|]. intros y Hy. by eapply stamped_insert.
    + apply Forall_singleton. exists (set_shardIndex procPin o). split; [|done].
      unfold deref. rewrite list_lookup_insert_eq; [done|]. by eapply lookup_lt_Some.
Qed.

Lemma sab_client_Put (p : ShardedAtomicBasedPool.t) (x : ptr) (h : heap) :
  ShardedAtomicBasedPool.wf p h ->
  stamped (Z.of_nat (length (ShardedAtomicBasedPool.shards p))) h x ->
  exists p',
    ShardedAtomicBasedPool.Put p x h = Ok p' /\ ShardedAtomicBasedPool.wf p' h /\
    length (ShardedAtomicBasedPool.shards p') = length (ShardedAtomicBasedPool.shards p).
Proof.
  intros Hwf (o & Ho & Hidx).
  destruct (index_slice_in (ShardedAtomicBasedPool.shards p) (shardIndex o) Hidx) as (s & Hs & _).
  pose proof (proj1 (Forall_lookup _ _) Hwf _ _ Hs) as (Hswf & Hfresh & Hval).
  assert (valid x h) as Hx.
  { unfold deref in Ho. destruct x as [a|]; [|done]. exists a. split; [done|].
    destruct (h !! a) eqn:Ha; [|done]. by eapply lookup_lt_Some. }
  rewrite (sab_Put_routed p x h o s Ho ltac:(lia) Hs).
  destruct (Z.lt_ge_cases (Z.of_nat (length (AtomicBasedPool.resident s))) (AtomicBasedPool.capacity s))
    as [Hroom|Hfull].
  - destruct (AtomicBasedPoolFacts.abp_Put_room s x Hswf Hroom) as (s' & -> & Hwf' & Hres' & _ & Hal').
    cbn [mbind outcome_bind]. eexists. split; [done|].
    split; [|cbn [ShardedAtomicBasedPool.shards]; by rewrite length_insert].
    unfold ShardedAtomicBasedPool.wf. cbn [ShardedAtomicBasedPool.shards]. apply Forall_insert; [done|].
    split; [done|]. split; [by rewrite Hal'|]. rewrite Hres'.
    apply Forall_app. split; [done|]. by apply Forall_singleton.
  - rewrite (AtomicBasedPoolFacts.abp_Put_full s x Hswf Hfull). cbn [mbind outcome_bind].
    eexists. split; [done|].
    split; [|cbn [ShardedAtomicBasedPool.shards]; by rewrite length_insert].
    unfold ShardedAtomicBasedPool.wf. cbn [ShardedAtomicBasedPool.shards]. by apply Forall_insert.
Qed.

Section ClientRun.
Context {P : Type}.
Variable get : P -> Z -> heap -> outcome (ptr * P * heap).
Variable put : P -> ptr -> heap -> outcome P.
Variable inv : P -> heap -> Prop.
Variable len : P -> nat.

Hypothesis client_get : forall p procPin h held,
  inv p h -> Forall (stamped (Z.of_nat (len p)) h) held ->
  0 <= procPin < Z.of_nat (len p) ->
  exists x p' h',
    get p procPin h = Ok (x, p', h') /\ inv p' h' /\ len p' = len p /\
    Forall (stamped (Z.of_nat (len p)) h') (held ++ [x]).

Hypothesis client_put : forall p x h,
  inv p h -> stamped (Z.of_nat (len p)) h x ->
  exists p', put p x h = Ok p' /\ inv p' h /\ len p' = len p.

Lemma client_run_safe (cs : list client_call) (p : P) (h : heap) (got : list ptr) :
  inv p h -> Forall (stamped (Z.of_nat (len p)) h) got ->
  procs_below (Z.of_nat (len p)) cs ->
  exists got' p' h',
    run_client get put cs p h got = Ok (got', p', h') /\ inv p' h' /\
    len p' = len p /\ Forall (stamped (Z.of_nat (len p)) h') got'.
Proof.
  revert p h got. induction cs as [|c cs IH]; intros p h got Hinv Hgot Hprocs.
  - by exists got, p, h.
  - apply Forall_cons in Hprocs as [Hc Hcs]. destruct c as [procPin|k]; cbn [run_client].
    + destruct (client_get p procPin h got Hinv Hgot Hc)
        as (x & p1 & h1 & -> & Hinv1 & Hlen1 & Hgot1).
      cbn [mbind outcome_bind].
      destruct (IH p1 h1 (got ++ [x]) Hinv1 ltac:(by rewrite Hlen1) ltac:(by rewrite Hlen1))
        as (got' & p' & h' & Hrun & Hinv' & Hlen' & Hgot').
      exists got', p', h'. rewrite Hlen1 in *. by rewrite Hlen'.
    + destruct (got !! k) as [x|] eqn:Hk.
      * pose proof (proj1 (Forall_lookup _ _) Hgot _ _ Hk) as Hx.
        destruct (client_put p x h Hinv Hx) as (p1 & -> & Hinv1 & Hlen1).
        cbn [mbind outcome_bind].
        destruct (IH p1 h got Hinv1 ltac:(by rewrite Hlen1) ltac:(by rewrite Hlen1))
          as (got' & p' & h' & Hrun & Hinv' & Hlen' & Hgot').
        exists got', p', h'. rewrite Hlen1 in *. by rewrite Hlen'.
      * by apply IH.
Qed.

End ClientRun.

(** X16. A client that hands back to [Put] only objects it obtained from
    [Get] of the same pool never makes the sharded mutex ring buffer pool
    or the sharded atomic pool panic. From the pool as constructed, every
    sequence of [Get] calls on processors below the shard count and of
    [Put] calls of objects obtained earlier -- in any order, also an object
    put twice -- returns normally call by call, and every object obtained
    carries the index of an existing shard throughout. *)
Theorem sharded_clients_never_panic (gomaxprocs C numShards n : Z)
    (alloc : Allocator) (clean : Cleaner) (h : heap) (cs : list client_call) :
  is_int C -> n = resolve_numShards gomaxprocs numShards -> 1 <= n ->
  fresh_allocator alloc -> procs_below n cs ->
  (exists p0 h0 got p' h',
      NewShardedMutexRingBufferPool gomaxprocs C numShards alloc clean h = Ok (p0, h0) /\
      run_client ShardedMutexRingBufferPool.Get ShardedMutexRingBufferPool.Put
        cs p0 h0 [] = Ok (got, p', h') /\
      Z.of_nat (length (ShardedMutexRingBufferPool.shards p')) = n /\
      Forall (stamped n h') got) /\
  (exists p0 h0 got p' h',
      NewShardedAtomicBasedPool gomaxprocs C numShards alloc clean h = Ok (p0, h0) /\
      run_client ShardedAtomicBasedPool.Get ShardedAtomicBasedPool.Put
        cs p0 h0 [] = Ok (got, p', h') /\
      Z.of_nat (length (ShardedAtomicBasedPool.shards p')) = n /\
      Forall (stamped n h') got).
Proof.
  intros HC -> Hn Hfresh Hprocs. split.
  - destruct (smr_New_built gomaxprocs C numShards alloc clean h HC Hn Hfresh)
      as (p0 & h0 & Hnew & Hlen & Hall & _).
    assert (ShardedMutexRingBufferPool.wf p0 h0) as Hwf.
    { eapply Forall_impl; [exact Hall|]. intros s (Hs & Hal & Hval & _).
      split; [done|]. split; [by rewrite Hal|done]. }
    destruct (client_run_safe ShardedMutexRingBufferPool.Get ShardedMutexRingBufferPool.Put
                ShardedMutexRingBufferPool.wf
                (fun p => length (ShardedMutexRingBufferPool.shards p))
                smr_client_Get smr_client_Put cs p0 h0 [] Hwf
                ltac:(by apply Forall_nil) ltac:(cbv beta; by rewrite Hlen))
      as (got & p' & h' & Hrun & _ & Hlen' & Hgot).
    cbv beta in *. exists p0, h0, got, p', h'. split; [done|]. split; [done|].
    rewrite Hlen' in *. rewrite Hlen in *. by split.
  - destruct (sab_New_built gomaxprocs C numShards alloc clean h HC Hn Hfresh)
      as (p0 & h0 & Hnew & Hlen & Hall & _).
    assert (ShardedAtomicBasedPool.wf p0 h0) as Hwf.
    { eapply Forall_impl; [exact Hall|]. intros s (Hs & Hal & Hval & _).
      split; [done|]. split; [by rewrite Hal|done]. }
    destruct (client_run_safe ShardedAtomicBasedPool.Get ShardedAtomicBasedPool.Put
                ShardedAtomicBasedPool.wf
                (fun p => length (ShardedAtomicBasedPool.shards p))
                sab_client_Get sab_client_Put cs p0 h0 [] Hwf
                ltac:(by apply Forall_nil) ltac:(cbv beta; by rewrite Hlen))
      as (got & p' & h' & Hrun & _ & Hlen' & Hgot).
    cbv beta in *. exists p0, h0, got, p', h'. split; [done|]. split; [done|].
    rewrite Hlen' in *. rewrite Hlen in *. by split.
Qed.

Lemma sharded_clients_never_panic_witness :
  (is_int 4 /\ 2 = resolve_numShards 8 2 /\ 1 <= 2 /\ fresh_allocator testAllocator /\
   procs_below 2 [ClientGet 0; ClientGet 1; ClientGet 0; ClientGet 0; ClientPut 0; ClientPut 0; ClientPut 3; ClientGet 1; ClientPut 7]) /\

  (exists p0 h0 got p' h',
      NewShardedMutexRingBufferPool 8 4 2 testAllocator testCleaner [] = Ok (p0, h0) /\
      run_client ShardedMutexRingBufferPool.Get ShardedMutexRingBufferPool.Put
        [ClientGet 0; ClientGet 1; ClientGet 0; ClientGet 0; ClientPut 0; ClientPut 0; ClientPut 3; ClientGet 1; ClientPut 7] p0 h0 [] = Ok (got, p', h') /\
      Z.of_nat (length (ShardedMutexRingBufferPool.shards p')) = 2 /\
      Forall (stamped 2 h') got) /\
  (exists p0 h0 got p' h',
      NewShardedAtomicBasedPool 8 4 2 testAllocator testCleaner [] = Ok (p0, h0) /\
      run_client ShardedAtomicBasedPool.Get ShardedAtomicBasedPool.Put
        [ClientGet 0; ClientGet 1; ClientGet 0; ClientGet 0; ClientPut 0; ClientPut 0; ClientPut 3; ClientGet 1; ClientPut 7] p0 h0 [] = Ok (got, p', h') /\
      Z.of_nat (length (ShardedAtomicBasedPool.shards p')) = 2 /\
      Forall (stamped 2 h') got).
Proof.
  assert (is_int 4) as HC by (unfold is_int, int_min, int_max; lia).
  assert (1 <= 2) as Hn by lia.
  assert (procs_below 2 [ClientGet 0; ClientGet 1; ClientGet 0; ClientGet 0; ClientPut 0; ClientPut 0; ClientPut 3; ClientGet 1; ClientPut 7]) as Hprocs.
  { unfold procs_below.
    repeat (apply Forall_cons_2; [simpl; first [lia | exact I]|]).
    apply Forall_nil_2. }
  split; [split; [exact HC|split; [reflexivity|split; [exact Hn|split;
    [exact testAllocator_fresh|exact Hprocs]]]]|].
  exact (sharded_clients_never_panic 8 4 2 2 testAllocator testCleaner [] _
           HC eq_refl Hn testAllocator_fresh Hprocs).
Defined.

(** ** Get and Put of the stack-address pool on different shards *)

Lemma sgi_shard_id_range (p : ShardedGoroutineIDPool.t) (addr : Z) :
  ShardedGoroutineIDPool.is_uintptr addr ->
  1 <= ShardedGoroutineIDPool.numShards p <= int_max ->
  0 <= ShardedGoroutineIDPool.shard_id p addr < ShardedGoroutineIDPool.numShards p.
Proof.
  intros Haddr Hn. rewrite (shard_id_mask p addr Haddr Hn).
  assert (0 <= addr / 4096) as Hq by (destruct Haddr; apply Z.div_pos; lia).
  pose proof (land_upper_bound (addr / 4096) (ShardedGoroutineIDPool.numShards p - 1)
                Hq ltac:(lia)). lia.
Qed.

(** X17. The pool sharded by stack address picks the shard anew in [Put],
    from the address of [Put]'s own call, and keeps no record of where an
    object came from. When [Get] and [Put] resolve to the same shard, a
    [Get] of a resident object followed by [Put] of it moves that object to
    the back of the shard. When they resolve to different shards and the
    shard [Put] resolves to is full, the object is discarded: the shard
    [Get] took it from is one object short, and no other shard changed. *)
Theorem goroutine_id_put_other_shard (p : ShardedGoroutineIDPool.t) (addr addr' : Z)
    (h : heap) (s s' : MutexRingBufferPool.t) (x : ptr) (l : list ptr) :
  ShardedGoroutineIDPool.wf p ->
  1 <= ShardedGoroutineIDPool.numShards p <= int_max ->
  ShardedGoroutineIDPool.is_uintptr addr -> ShardedGoroutineIDPool.is_uintptr addr' ->
  ShardedGoroutineIDPool.shards p
    !! Z.to_nat (ShardedGoroutineIDPool.shard_id p addr) = Some s ->
  ShardedGoroutineIDPool.shards p
    !! Z.to_nat (ShardedGoroutineIDPool.shard_id p addr') = Some s' ->
  MutexRingBufferPool.resident s = x :: l ->
  exists s1 p1 p2,
    ShardedGoroutineIDPool.Get p addr h = Ok (x, p1, h) /\
    ShardedGoroutineIDPool.shards p1
      = <[Z.to_nat (ShardedGoroutineIDPool.shard_id p addr) := s1]>
          (ShardedGoroutineIDPool.shards p) /\
    MutexRingBufferPool.resident s1 = l /\
    ShardedGoroutineIDPool.Put p1 addr' x = Ok p2 /\
    (ShardedGoroutineIDPool.shard_id p addr' = ShardedGoroutineIDPool.shard_id p addr ->
     exists s2,
       ShardedGoroutineIDPool.shards p2
         = <[Z.to_nat (ShardedGoroutineIDPool.shard_id p addr) := s2]>
             (ShardedGoroutineIDPool.shards p) /\
       MutexRingBufferPool.resident s2 = l ++ [x]) /\
    (ShardedGoroutineIDPool.shard_id p addr' <> ShardedGoroutineIDPool.shard_id p addr ->
     MutexRingBufferPool.occupancy s' = MutexRingBufferPool.capacity s' ->
     p2 = p1).
Proof.
  intros [Hlen Hall] Hn Haddr Haddr' Hs Hs' Hres.
  pose proof (proj1 (Forall_lookup _ _) Hall _ _ Hs) as Hwf.
  pose proof (proj1 (Forall_lookup _ _) Hall _ _ Hs') as Hwf'.
  pose proof (lookup_lt_Some _ _ _ Hs) as Hlt.
  pose proof (lookup_lt_Some _ _ _ Hs') as Hlt'.
  destruct (sgi_getShard_ok p addr Haddr Hn Hlen) as (s0 & Hs0 & Hget).
  rewrite Hs in Hs0. injection Hs0 as <-.
  destruct (MutexRingBufferPoolFacts.mrb_Get_next s h x l Hwf Hres)
    as (s1 & Hsget & Hwf1 & Hres1 & Hcap1 & _).
  set (p1 := ShardedGoroutineIDPool.with_shard p (ShardedGoroutineIDPool.shard_id p addr) s1).
  assert (ShardedGoroutineIDPool.Get p addr h = Ok (x, p1, h)) as HGet.
  { unfold ShardedGoroutineIDPool.Get. rewrite Hget. cbn [mbind outcome_bind].
    by rewrite Hsget. }
  assert (forall a, ShardedGoroutineIDPool.shard_id p1 a = ShardedGoroutineIDPool.shard_id p a)
    as Hid by done.
  assert (Z.of_nat (length (ShardedGoroutineIDPool.shards p1))
          = ShardedGoroutineIDPool.numShards p1) as Hlen1
    by (simpl; by rewrite length_insert).
  destruct (sgi_getShard_ok p1 addr' Haddr' Hn Hlen1) as (t & Ht & Hget').
  rewrite Hid in Ht, Hget'.
  pose proof (sgi_shard_id_range p addr Haddr Hn) as [Hpos _].
  pose proof (sgi_shard_id_range p addr' Haddr' Hn) as [Hpos' _].
  destruct (decide (ShardedGoroutineIDPool.shard_id p addr'
                    = ShardedGoroutineIDPool.shard_id p addr)) as [Heq|Hne].
  - rewrite Heq in Ht, Hget'. cbn [ShardedGoroutineIDPool.shards p1
      ShardedGoroutineIDPool.with_shard] in Ht.
    rewrite list_lookup_insert_eq in Ht by done. injection Ht as <-.
    destruct (MutexRingBufferPoolFacts.mrb_Put_room s1 x Hwf1) as (s2 & Hput & _ & Hres2 & _).
    { rewrite Hres1, Hcap1.
      pose proof (MutexRingBufferPoolFacts.mrb_occupancy s Hwf) as Hocc.
      destruct Hwf as [(_ & _ & Hsize & _) _]. unfold MutexRingBufferPool.occupancy,
        RingBuffer.Size, MutexRingBufferPool.capacity in *. rewrite Hres in Hocc.
      simpl in Hocc. lia. }
    exists s1, p1, (ShardedGoroutineIDPool.with_shard p1
                      (ShardedGoroutineIDPool.shard_id p addr) s2).
    split; [done|]. split; [done|]. split; [done|]. split.
    { unfold ShardedGoroutineIDPool.Put. rewrite Hget'. cbn [mbind outcome_bind].
      by rewrite Hput. }
    split; [|done]. intros _. exists s2. split; [|by rewrite Hres2, Hres1].
    cbn [ShardedGoroutineIDPool.shards ShardedGoroutineIDPool.with_shard p1].
    by rewrite list_insert_insert_eq.
  - cbn [ShardedGoroutineIDPool.shards p1 ShardedGoroutineIDPool.with_shard] in Ht.
    rewrite list_lookup_insert_ne in Ht by (intros Hz; apply Hne; lia).
    rewrite Hs' in Ht. injection Ht as <-.
    destruct (Z.lt_ge_cases (Z.of_nat (length (MutexRingBufferPool.resident s')))
                (MutexRingBufferPool.capacity s')) as [Hroom|Hfull].
    + destruct (MutexRingBufferPoolFacts.mrb_Put_room s' x Hwf' Hroom) as (s2 & Hput & _).
      exists s1, p1, (ShardedGoroutineIDPool.with_shard p1
                        (ShardedGoroutineIDPool.shard_id p addr') s2).
      split; [done|]. split; [done|]. split; [done|]. split.
      { unfold ShardedGoroutineIDPool.Put. rewrite Hget'. cbn [mbind outcome_bind].
        by rewrite Hput. }
      split; [done|]. intros _ Hocc.
      rewrite MutexRingBufferPoolFacts.mrb_occupancy in Hocc by done. lia.
    + exists s1, p1, p1.
      split; [done|]. split; [done|]. split; [done|]. split; [|done].
      unfold ShardedGoroutineIDPool.Put. rewrite Hget'. cbn [mbind outcome_bind].
      rewrite (MutexRingBufferPoolFacts.mrb_Put_full s' x Hwf' Hfull).
      cbn [mbind outcome_bind]. f_equal.
      unfold p1, ShardedGoroutineIDPool.with_shard.
      cbn [ShardedGoroutineIDPool.shards ShardedGoroutineIDPool.numShards]. f_equal.
      apply list_insert_id. rewrite list_lookup_insert_ne by (intros Hz; apply Hne; lia).
      done.
Qed.

Lemma goroutine_id_put_other_shard_witness :
  (ShardedGoroutineIDPool.wf two_shard_pool /\
   1 <= ShardedGoroutineIDPool.numShards two_shard_pool <= int_max /\
   ShardedGoroutineIDPool.is_uintptr 824633802752 /\
   ShardedGoroutineIDPool.is_uintptr 824633806848 /\
   ShardedGoroutineIDPool.shards two_shard_pool
     !! Z.to_nat (ShardedGoroutineIDPool.shard_id two_shard_pool 824633802752)
     = Some stocked_mutex_ring /\
   ShardedGoroutineIDPool.shards two_shard_pool
     !! Z.to_nat (ShardedGoroutineIDPool.shard_id two_shard_pool 824633806848)
     = Some second_mutex_ring_shard /\
   MutexRingBufferPool.resident stocked_mutex_ring = Some 0%nat :: [Some 1%nat]) /\

  exists s1 p1 p2,
    ShardedGoroutineIDPool.Get two_shard_pool 824633802752 stocked_heap = Ok ((Some 0%nat), p1, stocked_heap) /\
    ShardedGoroutineIDPool.shards p1
      = <[Z.to_nat (ShardedGoroutineIDPool.shard_id two_shard_pool 824633802752) := s1]>
          (ShardedGoroutineIDPool.shards two_shard_pool) /\
    MutexRingBufferPool.resident s1 = [Some 1%nat] /\
    ShardedGoroutineIDPool.Put p1 824633806848 (Some 0%nat) = Ok p2 /\
    (ShardedGoroutineIDPool.shard_id two_shard_pool 824633806848 = ShardedGoroutineIDPool.shard_id two_shard_pool 824633802752 ->
     exists s2,
       ShardedGoroutineIDPool.shards p2
         = <[Z.to_nat (ShardedGoroutineIDPool.shard_id two_shard_pool 824633802752) := s2]>
             (ShardedGoroutineIDPool.shards two_shard_pool) /\
       MutexRingBufferPool.resident s2 = [Some 1%nat] ++ [(Some 0%nat)]) /\
    (ShardedGoroutineIDPool.shard_id two_shard_pool 824633806848 <> ShardedGoroutineIDPool.shard_id two_shard_pool 824633802752 ->
     MutexRingBufferPool.occupancy second_mutex_ring_shard = MutexRingBufferPool.capacity second_mutex_ring_shard ->
     p2 = p1).
Proof.
  assert (ShardedGoroutineIDPool.wf two_shard_pool) as Hwf.
  { destruct stocked_pools_wf as (Hstocked & _).
    split; [reflexivity|]. apply Forall_cons_2; [exact Hstocked|].
    apply Forall_cons_2; [|apply Forall_nil_2].
    split; [exact (full_ring_wf 2 3)|reflexivity]. }
  assert (1 <= ShardedGoroutineIDPool.numShards two_shard_pool <= int_max) as Hn
    by (unfold int_max; simpl; lia).
  assert (ShardedGoroutineIDPool.is_uintptr 824633802752) as Haddr
    by (unfold ShardedGoroutineIDPool.is_uintptr; lia).
  assert (ShardedGoroutineIDPool.is_uintptr 824633806848) as Haddr'
    by (unfold ShardedGoroutineIDPool.is_uintptr; lia).
  split; [split; [exact Hwf|split; [exact Hn|split; [exact Haddr|split; [exact Haddr'|
    split; [reflexivity|split; reflexivity]]]]]|].
  exact (goroutine_id_put_other_shard two_shard_pool 824633802752 824633806848 stocked_heap
           stocked_mutex_ring second_mutex_ring_shard (Some 0%nat) [Some 1%nat]
           Hwf Hn Haddr Haddr' eq_refl eq_refl eq_refl).
Defined.

(** ** The benchmark loop *)

Section Loop.
Context {P : Type}.
Variable get : P -> heap -> outcome (ptr * P * heap).
Variable put : P -> ptr -> heap -> outcome (P * heap).
Variable full : P -> heap -> Prop.

Hypothesis trip : forall p h,
  full p h ->
  exists p' h',
    round_trip get put (p, h) = Ok (p', h') /\ full p' h' /\ length h' = length h.

Lemma loop_round_trips (n : nat) (i : Z) (p : P) (h : heap) :
  full p h ->
  exists p' h',
    for_range_from i n (fun _ => round_trip get put) (p, h) = Ok (p', h') /\
    full p' h' /\ length h' = length h.
Proof.
  revert i p h. induction n as [|n IH]; intros i p h Hfull.
  - by exists p, h.
  - cbn [for_range_from]. destruct (trip p h Hfull) as (p1 & h1 & -> & Hfull1 & Hlen1).
    cbn [mbind outcome_bind].
    destruct (IH (i + 1) p1 h1 Hfull1) as (p' & h' & Hrun & Hfull' & Hlen').
    exists p', h'. split; [done|]. split; [done|]. lia.
Qed.

End Loop.

Lemma chan_trip (alloc : Allocator) (k : Z) (p : ChannelBasedPool.t) (h : heap) :
  1 <= k ->
  chan_built alloc k p h /\ ChannelBasedPool.cleaner p = testCleaner ->
  exists p' h',
    round_trip ChannelBasedPool.Get ChannelBasedPool.Put (p, h) = Ok (p', h') /\
    (chan_built alloc k p' h' /\ ChannelBasedPool.cleaner p' = testCleaner) /\
    length h' = length h.
Proof.
  intros Hk [(Hwf & Hal & Hval & Hcap & Hlen) Hclean].
  destruct (ChannelBasedPool.resident p) as [|x l] eqn:Hres; [simpl in Hlen; lia|].
  destruct (ChannelBasedPoolFacts.chan_Get_next p h x l Hwf Hres)
    as (p1 & Hget & Hwf1 & Hres1 & Hcap1 & Hal1).
  pose proof (chan_Get_cleaner _ _ _ _ _ Hget) as Hclean1.
  apply Forall_cons in Hval as [Hx Hl].
  destruct (testCleaner_resets x h Hx) as (h' & o & Hcl & Hlen' & _).
  destruct (ChannelBasedPoolFacts.chan_Put_room p1 x h h' Hwf1)
    as (p' & Hput & Hwf' & Hres' & Hcap' & Hal' & Hclean').
  { rewrite Hres1, Hcap1, Hcap. simpl in Hlen. lia. }
  { by rewrite Hclean1, Hclean. }
  exists p', h'. unfold round_trip. cbn [fst snd]. rewrite Hget.
  cbn [mbind outcome_bind]. split; [exact Hput|]. split; [|done].
  split; [|congruence]. split; [done|]. split; [congruence|].
  rewrite Hres', Hres1. split.
  - apply Forall_app. split; [|apply Forall_singleton];
      [eapply Forall_valid_mono; [exact Hl|lia]|eapply valid_mono; [exact Hx|lia]].
  - split; [congruence|]. rewrite length_app. simpl in *. lia.
Qed.

Lemma rbc_trip (alloc : Allocator) (k : Z) (p : RingBufferCondPool.t) (h : heap) :
  1 <= k -> rbc_built alloc k p h ->
  exists p' h',
    round_trip (get_pure RingBufferCondPool.Get) (put_pure RingBufferCondPool.Put) (p, h)
      = Ok (p', h') /\
    rbc_built alloc k p' h' /\ length h' = length h.
Proof.
  intros Hk (Hwf & Hal & Hval & Hcap & Hlen).
  destruct (RingBufferCondPool.resident p) as [|x l] eqn:Hres; [simpl in Hlen; lia|].
  destruct (RingBufferCondPoolFacts.rbc_Get_next p x l Hwf Hres)
    as (p1 & Hget & Hwf1 & Hres1 & Hcap1 & Hal1).
  destruct (RingBufferCondPoolFacts.rbc_Put_room p1 x Hwf1)
    as (p' & Hput & Hwf' & Hres' & Hcap' & Hal').
  { rewrite Hres1, Hcap1, Hcap. simpl in Hlen. lia. }
  exists p', h. unfold round_trip, get_pure, put_pure. cbn [fst snd]. rewrite Hget.
  cbn [mbind outcome_bind]. rewrite Hput. cbn [mbind outcome_bind].
  split; [done|]. split; [|done].
  split; [done|]. split; [congruence|]. rewrite Hres', Hres1.
  apply Forall_cons in Hval as [Hx Hl]. split.
  - apply Forall_app. split; [done|by apply Forall_singleton].
  - split; [congruence|]. rewrite length_app. simpl in *. lia.
Qed.

Lemma cbp_trip (k : Z) (p : CondBasedPool.t) (h : heap) :
  1 <= k ->
  CondBasedPool.wf p /\ CondBasedPool.capacity p = k
    /\ Z.of_nat (length (CondBasedPool.resident p)) = k ->
  exists p' h',
    round_trip (get_pure CondBasedPool.Get) (put_pure CondBasedPool.Put) (p, h)
      = Ok (p', h') /\
    (CondBasedPool.wf p' /\ CondBasedPool.capacity p' = k
       /\ Z.of_nat (length (CondBasedPool.resident p')) = k) /\
    length h' = length h.
Proof.
  intros Hk (Hwf & Hcap & Hlen).
  destruct (snoc_cases (CondBasedPool.resident p) ltac:(lia)) as (l & x & Hres).
  destruct (CondBasedPoolFacts.cbp_Get_next p x l Hwf Hres)
    as (p1 & Hget & Hwf1 & Hres1 & Hcap1 & Hal1).
  destruct (CondBasedPoolFacts.cbp_Put_room p1 x Hwf1)
    as (p' & Hput & Hwf' & Hres' & Hcap' & Hal').
  { rewrite Hres1, Hcap1, Hcap. rewrite Hres, length_app in Hlen. simpl in Hlen. lia. }
  exists p', h. unfold round_trip, get_pure, put_pure. cbn [fst snd]. rewrite Hget.
  cbn [mbind outcome_bind]. rewrite Hput. cbn [mbind outcome_bind].
  split; [done|]. split; [|done].
  split; [done|]. split; [congruence|]. by rewrite Hres', Hres1, <- Hres.
Qed.

(** X18. The benchmark loop [obj := pool.Get(); pool.Put(obj)], run by one
    goroutine on a pool of capacity at least 1 as constructed, never gets
    stuck on the pools that can wait: on the channel pool (with
    [testCleaner]) no [Put] finds the channel full, on the two
    condition-variable pools no [Get] finds the pool empty. Every iteration
    returns, none calls the allocator, and the pool is full again after
    each. *)
Theorem benchmark_loop_never_waits (c : Z) (alloc : Allocator) (clean : Cleaner)
    (h : heap) (n : nat) :
  1 <= c <= int_max -> fresh_allocator alloc ->
  (exists p0 h0 p' h',
      NewChannelBasedPool c alloc testCleaner h = Ok (p0, h0) /\
      round_trips ChannelBasedPool.Get ChannelBasedPool.Put n (p0, h0) = Ok (p', h') /\
      allocations h' = allocations h0 /\
      ChannelBasedPool.occupancy p' = c) /\
  (exists p0 h0 p' h',
      NewRingBufferCondPool c alloc clean h = Ok (p0, h0) /\
      round_trips (get_pure RingBufferCondPool.Get) (put_pure RingBufferCondPool.Put)
        n (p0, h0) = Ok (p', h') /\
      allocations h' = allocations h0 /\
      RingBufferCondPool.occupancy p' = c) /\
  (exists p0 h0 p' h',
      NewCondBasedPool c alloc clean h = Ok (p0, h0) /\
      round_trips (get_pure CondBasedPool.Get) (put_pure CondBasedPool.Put)
        n (p0, h0) = Ok (p', h') /\
      allocations h' = allocations h0 /\
      CondBasedPool.occupancy p' = c).
Proof.
  intros Hc Hfresh. split; [|split].
  - destruct (chan_New_built alloc testCleaner c h Hfresh Hc) as (p0 & h0 & Hnew & Hbuilt & _).
    assert (ChannelBasedPool.cleaner p0 = testCleaner) as Hclean.
    { destruct (ChannelBasedPoolFacts.chan_New c alloc testCleaner h ltac:(lia))
        as (q & Hq & _ & _ & _ & _ & Hcl). rewrite Hq in Hnew. by injection Hnew as <- _. }
    destruct (loop_round_trips ChannelBasedPool.Get ChannelBasedPool.Put
                (fun p h => chan_built alloc c p h /\ ChannelBasedPool.cleaner p = testCleaner)
                (fun p h => chan_trip alloc c p h ltac:(lia))
                n 0 p0 h0 (conj Hbuilt Hclean))
      as (p' & h' & Hrun & [(_ & _ & _ & _ & Hlen') _] & Hh).
    exists p0, h0, p', h'. split; [done|]. split; [exact Hrun|]. by split.
  - destruct (rbc_New_built alloc clean c h Hfresh Hc) as (p0 & h0 & Hnew & Hbuilt & _).
    destruct (loop_round_trips (get_pure RingBufferCondPool.Get)
                (put_pure RingBufferCondPool.Put) (rbc_built alloc c)
                (fun p h => rbc_trip alloc c p h ltac:(lia))
                n 0 p0 h0 Hbuilt)
      as (p' & h' & Hrun & (Hwf' & _ & _ & _ & Hlen') & Hh).
    exists p0, h0, p', h'. split; [done|]. split; [exact Hrun|]. split; [done|].
    unfold RingBufferCondPool.occupancy, RingBuffer.Size.
    by rewrite <- (RingBufferFacts.contents_length _ (proj1 Hwf')).
  - destruct (CondBasedPoolFacts.cbp_New c alloc clean h ltac:(lia))
      as (p0 & Hnew & Hwf & Hres & Hcap & _).
    destruct (loop_round_trips (get_pure CondBasedPool.Get) (put_pure CondBasedPool.Put)
                (fun p (_ : heap) => CondBasedPool.wf p /\ CondBasedPool.capacity p = c
                   /\ Z.of_nat (length (CondBasedPool.resident p)) = c)
                (fun p h => cbp_trip c p h ltac:(lia))
                n 0 p0 (alloc_n alloc (Z.to_nat c) h).2)
      as (p' & h' & Hrun & (_ & _ & Hlen') & Hh).
    { split; [done|]. split; [done|]. rewrite Hres, alloc_n_length. lia. }
    eexists p0, _, p', h'. split; [done|]. split; [exact Hrun|]. split; [done|].
    by rewrite CondBasedPoolFacts.cbp_occupancy.
Qed.

Lemma benchmark_loop_never_waits_witness :
  (1 <= 3 <= int_max /\ fresh_allocator testAllocator) /\

  (exists p0 h0 p' h',
      NewChannelBasedPool 3 testAllocator testCleaner [] = Ok (p0, h0) /\
      round_trips ChannelBasedPool.Get ChannelBasedPool.Put 5%nat (p0, h0) = Ok (p', h') /\
      allocations h' = allocations h0 /\
      ChannelBasedPool.occupancy p' = 3) /\
  (exists p0 h0 p' h',
      NewRingBufferCondPool 3 testAllocator testCleaner [] = Ok (p0, h0) /\
      round_trips (get_pure RingBufferCondPool.Get) (put_pure RingBufferCondPool.Put)
        5%nat (p0, h0) = Ok (p', h') /\
      allocations h' = allocations h0 /\
      RingBufferCondPool.occupancy p' = 3) /\
  (exists p0 h0 p' h',
      NewCondBasedPool 3 testAllocator testCleaner [] = Ok (p0, h0) /\
      round_trips (get_pure CondBasedPool.Get) (put_pure CondBasedPool.Put)
        5%nat (p0, h0) = Ok (p', h') /\
      allocations h' = allocations h0 /\
      CondBasedPool.occupancy p' = 3).
Proof.
  assert (1 <= 3 <= int_max) as Hc by (unfold int_max; lia).
  split; [split; [exact Hc|exact testAllocator_fresh]|].
  exact (benchmark_loop_never_waits 3 testAllocator testCleaner [] 5 Hc testAllocator_fresh).
Defined.

(** ** The benchmark loop on the sharded pools *)

Lemma smr_pinned_trip (alloc : Allocator) (k : Z) (p : ShardedMutexRingBufferPool.t)
    (h : heap) (procPin : Z) :
  1 <= k ->
  Forall (fun s => mrb_built alloc k s h) (ShardedMutexRingBufferPool.shards p) ->
  0 <= procPin < Z.of_nat (length (ShardedMutexRingBufferPool.shards p)) ->
  exists p' h',
    round_trip (fun p h => ShardedMutexRingBufferPool.Get p procPin h) (put_read ShardedMutexRingBufferPool.Put)
      (p, h) = Ok (p', h') /\
    Forall (fun s => mrb_built alloc k s h') (ShardedMutexRingBufferPool.shards p') /\
    length h' = length h /\
    length (ShardedMutexRingBufferPool.shards p') = length (ShardedMutexRingBufferPool.shards p).
Proof.
  intros Hk Hfull Hpin.
  destruct (index_slice_in (ShardedMutexRingBufferPool.shards p) procPin Hpin) as (s & Hs & _).
  pose proof (proj1 (Forall_lookup _ _) Hfull _ _ Hs) as (Hwf & Hal & Hval & Hcap & Hlen).
  pose proof (lookup_lt_Some _ _ _ Hs) as Hlt.
  destruct (MutexRingBufferPool.resident s) as [|x l] eqn:Hres; [simpl in Hlen; lia|].
  apply Forall_cons in Hval as [Hx Hl].
  destruct (smr_Get_hit p procPin h s x l ltac:(lia) Hs Hwf Hres Hx)
    as (s1 & a & o & -> & Ho & Hget & Hwf1 & Hres1 & Hcap1 & Hal1).
  pose proof (lookup_lt_Some _ _ _ Ho) as Ha.
  destruct (MutexRingBufferPoolFacts.mrb_Put_room s1 (Some a) Hwf1)
    as (s' & Hput & Hwf' & Hres' & Hcap' & Hal').
  { rewrite Hres1, Hcap1, Hcap. simpl in Hlen. lia. }
  eexists {| ShardedMutexRingBufferPool.shards :=
               <[Z.to_nat procPin := s']> (ShardedMutexRingBufferPool.shards p) |}, _.
  split.
  { unfold round_trip, put_read. cbn [fst snd]. rewrite Hget. cbn [mbind outcome_bind].
    rewrite (smr_Put_routed _ _ _ (set_shardIndex procPin o) s1); [|
      unfold deref; by rewrite list_lookup_insert_eq by done|simpl; lia|
      cbn [ShardedMutexRingBufferPool.shards set_shardIndex shardIndex];
      by rewrite list_lookup_insert_eq by done].
    rewrite Hput. cbn [mbind outcome_bind ShardedMutexRingBufferPool.shards set_shardIndex shardIndex].
    by rewrite list_insert_insert_eq. }
  split; [|split; [apply length_insert|cbn [ShardedMutexRingBufferPool.shards]; apply length_insert]].
  cbn [ShardedMutexRingBufferPool.shards]. apply Forall_insert.
  - eapply Forall_impl; [exact Hfull|]. intros s0 Hs0.
    eapply mrb_built_mono; [exact Hs0|]. by rewrite length_insert.
  - split; [done|]. split; [congruence|]. rewrite Hres', Hres1. split.
    + apply Forall_app. split; [|apply Forall_singleton; by apply valid_insert].
      eapply Forall_impl; [exact Hl|]. intros y Hy. by apply valid_insert.
    + split; [congruence|]. rewrite length_app. simpl in Hlen. simpl. lia.
Qed.

Lemma sab_pinned_trip (alloc : Allocator) (k : Z) (p : ShardedAtomicBasedPool.t)
    (h : heap) (procPin : Z) :
  1 <= k ->
  Forall (fun s => abp_built alloc k s h) (ShardedAtomicBasedPool.shards p) ->
  0 <= procPin < Z.of_nat (length (ShardedAtomicBasedPool.shards p)) ->
  exists p' h',
    round_trip (fun p h => ShardedAtomicBasedPool.Get p procPin h) (put_read ShardedAtomicBasedPool.Put)
      (p, h) = Ok (p', h') /\
    Forall (fun s => abp_built alloc k s h') (ShardedAtomicBasedPool.shards p') /\
    length h' = length h /\
    length (ShardedAtomicBasedPool.shards p') = length (ShardedAtomicBasedPool.shards p).
Proof.
  intros Hk Hfull Hpin.
  destruct (index_slice_in (ShardedAtomicBasedPool.shards p) procPin Hpin) as (s & Hs & _).
  pose proof (proj1 (Forall_lookup _ _) Hfull _ _ Hs) as (Hwf & Hal & Hval & Hcap & Hlen).
  pose proof (lookup_lt_Some _ _ _ Hs) as Hlt.
  destruct (snoc_cases (AtomicBasedPool.resident s) ltac:(lia)) as (l & x & Hres).
  rewrite Hres in Hval. apply Forall_app in Hval as [Hl Hx].
  apply Forall_cons in Hx as [Hx _].
  destruct (sab_Get_hit p procPin h s x l ltac:(lia) Hs Hwf Hres Hx)
    as (s1 & a & o & -> & Ho & Hget & Hwf1 & Hres1 & Hcap1 & Hal1).
  pose proof (lookup_lt_Some _ _ _ Ho) as Ha.
  destruct (AtomicBasedPoolFacts.abp_Put_room s1 (Some a) Hwf1)
    as (s' & Hput & Hwf' & Hres' & Hcap' & Hal').
  { rewrite Hres1, Hcap1, Hcap. rewrite Hres, length_app in Hlen. simpl in Hlen. lia. }
  eexists {| ShardedAtomicBasedPool.shards :=
               <[Z.to_nat procPin := s']> (ShardedAtomicBasedPool.shards p) |}, _.
  split.
  { unfold round_trip, put_read. cbn [fst snd]. rewrite Hget. cbn [mbind outcome_bind].
    rewrite (sab_Put_routed _ _ _ (set_shardIndex procPin o) s1); [|
      unfold deref; by rewrite list_lookup_insert_eq by done|simpl; lia|
      cbn [ShardedAtomicBasedPool.shards set_shardIndex shardIndex];
      by rewrite list_lookup_insert_eq by done].
    rewrite Hput. cbn [mbind outcome_bind ShardedAtomicBasedPool.shards set_shardIndex shardIndex].
    by rewrite list_insert_insert_eq. }
  split; [|split; [apply length_insert|cbn [ShardedAtomicBasedPool.shards]; apply length_insert]].
  cbn [ShardedAtomicBasedPool.shards]. apply Forall_insert.
  - eapply Forall_impl; [exact Hfull|]. intros s0 Hs0.
    eapply abp_built_mono; [exact Hs0|]. by rewrite length_insert.
  - split; [done|]. split; [congruence|]. rewrite Hres', Hres1. split.
    + apply Forall_app. split; [|apply Forall_singleton; by apply valid_insert].
      eapply Forall_impl; [exact Hl|]. intros y Hy. by apply valid_insert.
    + split; [congruence|]. rewrite length_app. rewrite Hres, length_app in Hlen. simpl in Hlen. simpl. lia.
Qed.

Lemma scb_Put_routed (p : ShardedCondBasedPool.t) (x : ptr) (h : heap) (o : testObject)
    (s : RingBufferCondPool.t) :
  deref x h = Ok o -> 0 <= shardIndex o ->
  ShardedCondBasedPool.shards p !! Z.to_nat (shardIndex o) = Some s ->
  ShardedCondBasedPool.Put p x h
    = (s' ← RingBufferCondPool.Put s x;
       Ok {| ShardedCondBasedPool.shards :=
               <[Z.to_nat (shardIndex o) := s']> (ShardedCondBasedPool.shards p) |}).
Proof.
  intros Hx Hi Hs. unfold ShardedCondBasedPool.Put. rewrite Hx. cbn [mbind outcome_bind].
  by rewrite (proj2 (index_slice_Ok _ _ _) (conj Hi Hs)).
Qed.

Lemma scb_pinned_trip (alloc : Allocator) (k : Z) (p : ShardedCondBasedPool.t)
    (h : heap) (procPin : Z) :
  1 <= k ->
  Forall (fun s => rbc_built alloc k s h) (ShardedCondBasedPool.shards p) ->
  0 <= procPin < Z.of_nat (length (ShardedCondBasedPool.shards p)) ->
  exists p' h',
    round_trip (fun p h => ShardedCondBasedPool.Get p procPin h) (put_read ShardedCondBasedPool.Put)
      (p, h) = Ok (p', h') /\
    Forall (fun s => rbc_built alloc k s h') (ShardedCondBasedPool.shards p') /\
    length h' = length h /\
    length (ShardedCondBasedPool.shards p') = length (ShardedCondBasedPool.shards p).
Proof.
  intros Hk Hfull Hpin.
  destruct (index_slice_in (ShardedCondBasedPool.shards p) procPin Hpin) as (s & Hs & _).
  pose proof (proj1 (Forall_lookup _ _) Hfull _ _ Hs) as (Hwf & Hal & Hval & Hcap & Hlen).
  pose proof (lookup_lt_Some _ _ _ Hs) as Hlt.
  destruct (RingBufferCondPool.resident s) as [|x l] eqn:Hres; [simpl in Hlen; lia|].
  apply Forall_cons in Hval as [Hx Hl].
  destruct (scb_Get_hit p procPin h s x l ltac:(lia) Hs Hwf Hres Hx)
    as (s1 & a & o & -> & Ho & Hget & Hwf1 & Hres1 & Hcap1 & Hal1).
  pose proof (lookup_lt_Some _ _ _ Ho) as Ha.
  destruct (RingBufferCondPoolFacts.rbc_Put_room s1 (Some a) Hwf1)
    as (s' & Hput & Hwf' & Hres' & Hcap' & Hal').
  { rewrite Hres1, Hcap1, Hcap. simpl in Hlen. lia. }
  eexists {| ShardedCondBasedPool.shards :=
               <[Z.to_nat procPin := s']> (ShardedCondBasedPool.shards p) |}, _.
  split.
  { unfold round_trip, put_read. cbn [fst snd]. rewrite Hget. cbn [mbind outcome_bind].
    rewrite (scb_Put_routed _ _ _ (set_shardIndex procPin o) s1); [|
      unfold deref; by rewrite list_lookup_insert_eq by done|simpl; lia|
      cbn [ShardedCondBasedPool.shards set_shardIndex shardIndex];
      by rewrite list_lookup_insert_eq by done].
    rewrite Hput. cbn [mbind outcome_bind ShardedCondBasedPool.shards set_shardIndex shardIndex].
    by rewrite list_insert_insert_eq. }
  split; [|split; [apply length_insert|cbn [ShardedCondBasedPool.shards]; apply length_insert]].
  cbn [ShardedCondBasedPool.shards]. apply Forall_insert.
  - eapply Forall_impl; [exact Hfull|]. intros s0 Hs0.
    eapply rbc_built_mono; [exact Hs0|]. by rewrite length_insert.
  - split; [done|]. split; [congruence|]. rewrite Hres', Hres1. split.
    + apply Forall_app. split; [|apply Forall_singleton; by apply valid_insert].
      eapply Forall_impl; [exact Hl|]. intros y Hy. by apply valid_insert.
    + split; [congruence|]. rewrite length_app. simpl in Hlen. simpl. lia.
Qed.

Lemma src_Put_routed (p : ShardedRingBufferCondPool.t) (x : ptr) (h : heap) (o : testObject)
    (s : RingBufferCondPool.t) :
  deref x h = Ok o -> 0 <= shardIndex o ->
  ShardedRingBufferCondPool.shards p !! Z.to_nat (shardIndex o) = Some s ->
  ShardedRingBufferCondPool.Put p x h
    = (s' ← RingBufferCondPool.Put s x;
       Ok {| ShardedRingBufferCondPool.shards :=
               <[Z.to_nat (shardIndex o) := s']> (ShardedRingBufferCondPool.shards p) |}).
Proof.
  intros Hx Hi Hs. unfold ShardedRingBufferCondPool.Put. rewrite Hx. cbn [mbind outcome_bind].
  by rewrite (proj2 (index_slice_Ok _ _ _) (conj Hi Hs)).
Qed.

Lemma src_pinned_trip (alloc : Allocator) (k : Z) (p : ShardedRingBufferCondPool.t)
    (h : heap) (procPin : Z) :
  1 <= k ->
  Forall (fun s => rbc_built alloc k s h) (ShardedRingBufferCondPool.shards p) ->
  0 <= procPin < Z.of_nat (length (ShardedRingBufferCondPool.shards p)) ->
  exists p' h',
    round_trip (fun p h => ShardedRingBufferCondPool.Get p procPin h) (put_read ShardedRingBufferCondPool.Put)
      (p, h) = Ok (p', h') /\
    Forall (fun s => rbc_built alloc k s h') (ShardedRingBufferCondPool.shards p') /\
    length h' = length h /\
    length (ShardedRingBufferCondPool.shards p') = length (ShardedRingBufferCondPool.shards p).
Proof.
  intros Hk Hfull Hpin.
  destruct (index_slice_in (ShardedRingBufferCondPool.shards p) procPin Hpin) as (s & Hs & _).
  pose proof (proj1 (Forall_lookup _ _) Hfull _ _ Hs) as (Hwf & Hal & Hval & Hcap & Hlen).
  pose proof (lookup_lt_Some _ _ _ Hs) as Hlt.
  destruct (RingBufferCondPool.resident s) as [|x l] eqn:Hres; [simpl in Hlen; lia|].
  apply Forall_cons in Hval as [Hx Hl].
  destruct (src_Get_hit p procPin h s x l ltac:(lia) Hs Hwf Hres Hx)
    as (s1 & a & o & -> & Ho & Hget & Hwf1 & Hres1 & Hcap1 & Hal1).
  pose proof (lookup_lt_Some _ _ _ Ho) as Ha.
  destruct (RingBufferCondPoolFacts.rbc_Put_room s1 (Some a) Hwf1)
    as (s' & Hput & Hwf' & Hres' & Hcap' & Hal').
  { rewrite Hres1, Hcap1, Hcap. simpl in Hlen. lia. }
  eexists {| ShardedRingBufferCondPool.shards :=
               <[Z.to_nat procPin := s']> (ShardedRingBufferCondPool.shards p) |}, _.
  split.
  { unfold round_trip, put_read. cbn [fst snd]. rewrite Hget. cbn [mbind outcome_bind].
    rewrite (src_Put_routed _ _ _ (set_shardIndex procPin o) s1); [|
      unfold deref; by rewrite list_lookup_insert_eq by done|simpl; lia|
      cbn [ShardedRingBufferCondPool.shards set_shardIndex shardIndex];
      by rewrite list_lookup_insert_eq by done].
    rewrite Hput. cbn [mbind outcome_bind ShardedRingBufferCondPool.shards set_shardIndex shardIndex].
    by rewrite list_insert_insert_eq. }
  split; [|split; [apply length_insert|cbn [ShardedRingBufferCondPool.shards]; apply length_insert]].
  cbn [ShardedRingBufferCondPool.shards]. apply Forall_insert.
  - eapply Forall_impl; [exact Hfull|]. intros s0 Hs0.
    eapply rbc_built_mono; [exact Hs0|]. by rewrite length_insert.
  - split; [done|]. split; [congruence|]. rewrite Hres', Hres1. split.
    + apply Forall_app. split; [|apply Forall_singleton; by apply valid_insert].
      eapply Forall_impl; [exact Hl|]. intros y Hy. by apply valid_insert.
    + split; [congruence|]. rewrite length_app. simpl in Hlen. simpl. lia.
Qed.

Lemma sch_pinned_trip (alloc : Allocator) (k : Z) (p : ShardedChannelBasedPool.t)
    (h : heap) (procPin : Z) :
  1 <= k ->
  Forall (fun s => chan_built alloc k s h /\ ChannelBasedPool.cleaner s = testCleaner)
         (ShardedChannelBasedPool.shards p) ->
  0 <= procPin < Z.of_nat (length (ShardedChannelBasedPool.shards p)) ->
  exists p' h',
    round_trip (fun p h => ShardedChannelBasedPool.Get p procPin h)
      ShardedChannelBasedPool.Put (p, h) = Ok (p', h') /\
    Forall (fun s => chan_built alloc k s h' /\ ChannelBasedPool.cleaner s = testCleaner)
           (ShardedChannelBasedPool.shards p') /\
    length h' = length h /\
    length (ShardedChannelBasedPool.shards p') = length (ShardedChannelBasedPool.shards p).
Proof.
  intros Hk Hfull Hpin.
  destruct (index_slice_in (ShardedChannelBasedPool.shards p) procPin Hpin) as (s & Hs & Hidx).
  pose proof (proj1 (Forall_lookup _ _) Hfull _ _ Hs)
    as [(Hwf & Hal & Hval & Hcap & Hlen) Hclean].
  pose proof (lookup_lt_Some _ _ _ Hs) as Hlt.
  destruct (ChannelBasedPool.resident s) as [|x l] eqn:Hres; [simpl in Hlen; lia|].
  apply Forall_cons in Hval as [Hx Hl].
  destruct (ChannelBasedPoolFacts.chan_Get_next s h x l Hwf Hres)
    as (s1 & Hget & Hwf1 & Hres1 & Hcap1 & Hal1).
  pose proof (chan_Get_cleaner _ _ _ _ _ Hget) as Hclean1.
  destruct (valid_assign x (set_shardIndex procPin) h Hx)
    as (a & o & -> & Ho & Hassign & Hderef).
  pose proof (lookup_lt_Some _ _ _ Ho) as Ha.
  destruct (testCleaner_resets (Some a) (<[a := set_shardIndex procPin o]> h))
    as (h2 & o2 & Hcl & Hlen2 & _).
  { exists a. by rewrite length_insert. }
  rewrite length_insert in Hlen2.
  destruct (ChannelBasedPoolFacts.chan_Put_room s1 (Some a)
              (<[a := set_shardIndex procPin o]> h) h2 Hwf1)
    as (s' & Hput & Hwf' & Hres' & Hcap' & Hal' & Hclean').
  { rewrite Hres1, Hcap1, Hcap. simpl in Hlen. lia. }
  { by rewrite Hclean1, Hclean. }
  exists {| ShardedChannelBasedPool.shards :=
              <[Z.to_nat procPin := s']> (ShardedChannelBasedPool.shards p) |}, h2.
  split.
  { unfold round_trip. cbn [fst snd]. unfold ShardedChannelBasedPool.Get at 1.
    rewrite Hidx. cbn [mbind outcome_bind]. rewrite Hget. cbn [mbind outcome_bind].
    rewrite Hassign. cbn [mbind outcome_bind].
    rewrite (sch_Put_routed _ _ _ (set_shardIndex procPin o) s1); [|exact Hderef|simpl; lia|
      cbn [ShardedChannelBasedPool.shards set_shardIndex shardIndex];
      by rewrite list_lookup_insert_eq by done].
    rewrite Hput. cbn [mbind outcome_bind ShardedChannelBasedPool.shards set_shardIndex shardIndex].
    by rewrite list_insert_insert_eq. }
  split; [|split; [done|cbn [ShardedChannelBasedPool.shards]; apply length_insert]].
  cbn [ShardedChannelBasedPool.shards]. apply Forall_insert.
  - eapply Forall_impl; [exact Hfull|]. intros s0 [Hs0 Hc0]. split; [|done].
    eapply chan_built_mono; [exact Hs0|lia].
  - split; [|congruence]. split; [done|]. split; [congruence|]. rewrite Hres', Hres1. split.
    + apply Forall_app. split; [|apply Forall_singleton].
      * eapply Forall_valid_mono; [exact Hl|lia].
      * eapply valid_mono; [exact Hx|lia].
    + split; [congruence|]. rewrite length_app. simpl in *. lia.
Qed.

Lemma sch_New_built_clean (gomaxprocs C numShards : Z) (alloc : Allocator) (h : heap) :
  is_int C -> 1 <= resolve_numShards gomaxprocs numShards -> fresh_allocator alloc ->
  exists p h',
    NewShardedChannelBasedPool gomaxprocs C numShards alloc testCleaner h = Ok (p, h') /\
    Z.of_nat (length (ShardedChannelBasedPool.shards p))
      = resolve_numShards gomaxprocs numShards /\
    Forall (fun s => chan_built alloc
                       (Z.max (C ÷ resolve_numShards gomaxprocs numShards) 1) s h'
                     /\ ChannelBasedPool.cleaner s = testCleaner)
           (ShardedChannelBasedPool.shards p).
Proof.
  intros HC Hn Hfresh. set (n := resolve_numShards gomaxprocs numShards) in *.
  destruct (int_quot_pos C n HC Hn) as [Hq Hqint].
  assert (1 <= Z.max (C ÷ n) 1 <= int_max) as Hk
    by (unfold is_int, int_max in *; lia).
  unfold NewShardedChannelBasedPool. fold n. rewrite Hq. cbn [mbind outcome_bind].
  replace (if C ÷ n <? 1 then 1 else C ÷ n) with (Z.max (C ÷ n) 1)
    by (destruct (Z.ltb_spec (C ÷ n) 1); lia).
  destruct (sharded_build (fun k => NewChannelBasedPool k alloc testCleaner)
              (fun k s h => chan_built alloc k s h
                            /\ ChannelBasedPool.cleaner s = testCleaner))
    with (n := n) (k := Z.max (C ÷ n) 1) (h := h)
    as (shards & h' & -> & Hlen & Hall & Hh); [| |done|done|].
  - intros k s h0 h1 [Hb Hc] Hle. split; [|done]. by eapply chan_built_mono.
  - intros k h0 Hk0.
    destruct (chan_New_built alloc testCleaner k h0 Hfresh Hk0) as (s & h1 & Hnew & Hb & Hh).
    exists s, h1. split; [done|]. split; [|done]. split; [done|].
    destruct (ChannelBasedPoolFacts.chan_New k alloc testCleaner h0 ltac:(lia))
      as (q & Hq' & _ & _ & _ & _ & Hcl). rewrite Hq' in Hnew. by injection Hnew as <- _.
  - cbn [mbind outcome_bind]. by eexists _, _.
Qed.

Section PinnedLoop.
Context {P : Type}.
Variable get : P -> Z -> heap -> outcome (ptr * P * heap).
Variable put : P -> ptr -> heap -> outcome (P * heap).
Variable full : P -> heap -> Prop.
Variable len : P -> nat.

Hypothesis pinned_trip : forall p h procPin,
  full p h -> 0 <= procPin < Z.of_nat (len p) ->
  exists p' h',
    round_trip (fun p h => get p procPin h) put (p, h) = Ok (p', h') /\
    full p' h' /\ length h' = length h /\ len p' = len p.

Lemma pinned_loop (procPins : list Z) (p : P) (h : heap) :
  full p h -> Forall (fun procPin => 0 <= procPin < Z.of_nat (len p)) procPins ->
  exists p' h',
    pinned_round_trips get put procPins (p, h) = Ok (p', h') /\
    full p' h' /\ length h' = length h /\ len p' = len p.
Proof.
  revert p h. induction procPins as [|procPin rest IH]; intros p h Hfull Hpins.
  - by exists p, h.
  - apply Forall_cons in Hpins as [Hpin Hrest]. cbn [pinned_round_trips].
    destruct (pinned_trip p h procPin Hfull Hpin) as (p1 & h1 & -> & Hfull1 & Hh1 & Hlen1).
    cbn [mbind outcome_bind].
    destruct (IH p1 h1 Hfull1 ltac:(by rewrite Hlen1)) as (p' & h' & Hrun & Hfull' & Hh' & Hlen').
    exists p', h'. split; [done|]. split; [done|]. split; [lia|congruence].
Qed.

End PinnedLoop.

(** X19. The benchmark loop on a sharded pool as constructed, run by one
    goroutine that may be on a different processor at every iteration: as
    long as the processor ids stay below the shard count, every
    [obj := pool.Get(); pool.Put(obj)] returns -- no index is out of range,
    no channel [Put] and no condition-variable [Get] waits -- the allocator
    is never called, and every shard is full again after each iteration.
    The channel variant is taken with [testCleaner], which its [Put]
    runs. *)
Theorem sharded_benchmark_loop (gomaxprocs C numShards n : Z) (procPins : list Z)
    (alloc : Allocator) (clean : Cleaner) (h : heap) :
  is_int C -> n = resolve_numShards gomaxprocs numShards -> 1 <= n ->
  fresh_allocator alloc -> Forall (fun procPin => 0 <= procPin < n) procPins ->
  (exists p0 h0 p' h',
      NewShardedMutexRingBufferPool gomaxprocs C numShards alloc clean h = Ok (p0, h0) /\
      pinned_round_trips ShardedMutexRingBufferPool.Get (put_read ShardedMutexRingBufferPool.Put) procPins (p0, h0)
        = Ok (p', h') /\
      allocations h' = allocations h0 /\
      Forall (fun s => MutexRingBufferPool.occupancy s = MutexRingBufferPool.capacity s) (ShardedMutexRingBufferPool.shards p')) /\
  (exists p0 h0 p' h',
      NewShardedChannelBasedPool gomaxprocs C numShards alloc testCleaner h = Ok (p0, h0) /\
      pinned_round_trips ShardedChannelBasedPool.Get ShardedChannelBasedPool.Put procPins (p0, h0)
        = Ok (p', h') /\
      allocations h' = allocations h0 /\
      Forall (fun s => ChannelBasedPool.occupancy s = ChannelBasedPool.capacity s) (ShardedChannelBasedPool.shards p')) /\
  (exists p0 h0 p' h',
      NewShardedAtomicBasedPool gomaxprocs C numShards alloc clean h = Ok (p0, h0) /\
      pinned_round_trips ShardedAtomicBasedPool.Get (put_read ShardedAtomicBasedPool.Put) procPins (p0, h0)
        = Ok (p', h') /\
      allocations h' = allocations h0 /\
      Forall (fun s => AtomicBasedPool.occupancy s = AtomicBasedPool.capacity s) (ShardedAtomicBasedPool.shards p')) /\
  (exists p0 h0 p' h',
      NewShardedCondBasedPool gomaxprocs C numShards alloc clean h = Ok (p0, h0) /\
      pinned_round_trips ShardedCondBasedPool.Get (put_read ShardedCondBasedPool.Put) procPins (p0, h0)
        = Ok (p', h') /\
      allocations h' = allocations h0 /\
      Forall (fun s => RingBufferCondPool.occupancy s = RingBufferCondPool.capacity s) (ShardedCondBasedPool.shards p')) /\
  (exists p0 h0 p' h',
      NewShardedRingBufferCondPool gomaxprocs C numShards alloc clean h = Ok (p0, h0) /\
      pinned_round_trips ShardedRingBufferCondPool.Get (put_read ShardedRingBufferCondPool.Put) procPins (p0, h0)
        = Ok (p', h') /\
      allocations h' = allocations h0 /\
      Forall (fun s => RingBufferCondPool.occupancy s = RingBufferCondPool.capacity s) (ShardedRingBufferCondPool.shards p')).
Proof.
  intros HC -> Hn Hfresh Hpins.
  set (k := Z.max (C ÷ resolve_numShards gomaxprocs numShards) 1).
  assert (1 <= k) as Hk by (unfold k; lia).
  split.
  { destruct (smr_New_built gomaxprocs C numShards alloc clean h HC Hn Hfresh)
      as (p0 & h0 & Hnew & Hlen & Hall & _).
    destruct (pinned_loop ShardedMutexRingBufferPool.Get (put_read ShardedMutexRingBufferPool.Put)
                (fun p h => Forall (fun s => mrb_built alloc k s h) (ShardedMutexRingBufferPool.shards p))
                (fun p => length (ShardedMutexRingBufferPool.shards p))
                (fun p h procPin => smr_pinned_trip alloc k p h procPin Hk)
                procPins p0 h0 Hall ltac:(cbv beta; by rewrite Hlen))
      as (p' & h' & Hrun & Hfull' & Hh & _).
    exists p0, h0, p', h'. split; [done|]. split; [exact Hrun|]. split; [exact Hh|].
    eapply Forall_impl; [exact Hfull'|]. intros s (Hwf & _ & _ & Hcap & Hres).
    rewrite MutexRingBufferPoolFacts.mrb_occupancy by done. congruence. }
  split.
  { destruct (sch_New_built_clean gomaxprocs C numShards alloc h HC Hn Hfresh)
      as (p0 & h0 & Hnew & Hlen & Hall).
    destruct (pinned_loop ShardedChannelBasedPool.Get ShardedChannelBasedPool.Put
                (fun p h => Forall (fun s => chan_built alloc k s h
                                             /\ ChannelBasedPool.cleaner s = testCleaner)
                                   (ShardedChannelBasedPool.shards p))
                (fun p => length (ShardedChannelBasedPool.shards p))
                (fun p h procPin => sch_pinned_trip alloc k p h procPin Hk)
                procPins p0 h0 Hall ltac:(cbv beta; by rewrite Hlen))
      as (p' & h' & Hrun & Hfull' & Hh & _).
    exists p0, h0, p', h'. split; [done|]. split; [exact Hrun|]. split; [exact Hh|].
    eapply Forall_impl; [exact Hfull'|]. intros s [(Hwf & _ & _ & Hcap & Hres) _].
    unfold ChannelBasedPool.occupancy. unfold ChannelBasedPool.resident in Hres. congruence. }
  split.
  { destruct (sab_New_built gomaxprocs C numShards alloc clean h HC Hn Hfresh)
      as (p0 & h0 & Hnew & Hlen & Hall & _).
    destruct (pinned_loop ShardedAtomicBasedPool.Get (put_read ShardedAtomicBasedPool.Put)
                (fun p h => Forall (fun s => abp_built alloc k s h) (ShardedAtomicBasedPool.shards p))
                (fun p => length (ShardedAtomicBasedPool.shards p))
                (fun p h procPin => sab_pinned_trip alloc k p h procPin Hk)
                procPins p0 h0 Hall ltac:(cbv beta; by rewrite Hlen))
      as (p' & h' & Hrun & Hfull' & Hh & _).
    exists p0, h0, p', h'. split; [done|]. split; [exact Hrun|]. split; [exact Hh|].
    eapply Forall_impl; [exact Hfull'|]. intros s (Hwf & _ & _ & Hcap & Hres).
    unfold AtomicBasedPool.occupancy. rewrite <- AtomicBasedPoolFacts.abp_resident_length by done. congruence. }
  split.
  { destruct (scb_New_built gomaxprocs C numShards alloc clean h HC Hn Hfresh)
      as (p0 & h0 & Hnew & Hlen & Hall & _).
    destruct (pinned_loop ShardedCondBasedPool.Get (put_read ShardedCondBasedPool.Put)
                (fun p h => Forall (fun s => rbc_built alloc k s h) (ShardedCondBasedPool.shards p))
                (fun p => length (ShardedCondBasedPool.shards p))
                (fun p h procPin => scb_pinned_trip alloc k p h procPin Hk)
                procPins p0 h0 Hall ltac:(cbv beta; by rewrite Hlen))
      as (p' & h' & Hrun & Hfull' & Hh & _).
    exists p0, h0, p', h'. split; [done|]. split; [exact Hrun|]. split; [exact Hh|].
    eapply Forall_impl; [exact Hfull'|]. intros s (Hwf & _ & _ & Hcap & Hres).
    unfold RingBufferCondPool.occupancy, RingBuffer.Size. rewrite <- (RingBufferFacts.contents_length _ (proj1 Hwf)). unfold RingBufferCondPool.resident in Hres. congruence. }
  destruct (src_New_built gomaxprocs C numShards alloc clean h HC Hn Hfresh)
      as (p0 & h0 & Hnew & Hlen & Hall & _).
    destruct (pinned_loop ShardedRingBufferCondPool.Get (put_read ShardedRingBufferCondPool.Put)
                (fun p h => Forall (fun s => rbc_built alloc k s h) (ShardedRingBufferCondPool.shards p))
                (fun p => length (ShardedRingBufferCondPool.shards p))
                (fun p h procPin => src_pinned_trip alloc k p h procPin Hk)
                procPins p0 h0 Hall ltac:(cbv beta; by rewrite Hlen))
      as (p' & h' & Hrun & Hfull' & Hh & _).
    exists p0, h0, p', h'. split; [done|]. split; [exact Hrun|]. split; [exact Hh|].
    eapply Forall_impl; [exact Hfull'|]. intros s (Hwf & _ & _ & Hcap & Hres).
    unfold RingBufferCondPool.occupancy, RingBuffer.Size. rewrite <- (RingBufferFacts.contents_length _ (proj1 Hwf)). unfold RingBufferCondPool.resident in Hres. congruence.
Qed.

Lemma sharded_benchmark_loop_witness :
  (is_int 8 /\ 4 = resolve_numShards 4 0 /\ 1 <= 4 /\ fresh_allocator testAllocator /\
   Forall (fun procPin => 0 <= procPin < 4) [0; 3; 3; 1; 0; 2; 3]) /\

  (exists p0 h0 p' h',
      NewShardedMutexRingBufferPool 4 8 0 testAllocator testCleaner [] = Ok (p0, h0) /\
      pinned_round_trips ShardedMutexRingBufferPool.Get (put_read ShardedMutexRingBufferPool.Put) [0; 3; 3; 1; 0; 2; 3] (p0, h0)
        = Ok (p', h') /\
      allocations h' = allocations h0 /\
      Forall (fun s => MutexRingBufferPool.occupancy s = MutexRingBufferPool.capacity s) (ShardedMutexRingBufferPool.shards p')) /\
  (exists p0 h0 p' h',
      NewShardedChannelBasedPool 4 8 0 testAllocator testCleaner [] = Ok (p0, h0) /\
      pinned_round_trips ShardedChannelBasedPool.Get ShardedChannelBasedPool.Put [0; 3; 3; 1; 0; 2; 3] (p0, h0)
        = Ok (p', h') /\
      allocations h' = allocations h0 /\
      Forall (fun s => ChannelBasedPool.occupancy s = ChannelBasedPool.capacity s) (ShardedChannelBasedPool.shards p')) /\
  (exists p0 h0 p' h',
      NewShardedAtomicBasedPool 4 8 0 testAllocator testCleaner [] = Ok (p0, h0) /\
      pinned_round_trips ShardedAtomicBasedPool.Get (put_read ShardedAtomicBasedPool.Put) [0; 3; 3; 1; 0; 2; 3] (p0, h0)
        = Ok (p', h') /\
      allocations h' = allocations h0 /\
      Forall (fun s => AtomicBasedPool.occupancy s = AtomicBasedPool.capacity s) (ShardedAtomicBasedPool.shards p')) /\
  (exists p0 h0 p' h',
      NewShardedCondBasedPool 4 8 0 testAllocator testCleaner [] = Ok (p0, h0) /\
      pinned_round_trips ShardedCondBasedPool.Get (put_read ShardedCondBasedPool.Put) [0; 3; 3; 1; 0; 2; 3] (p0, h0)
        = Ok (p', h') /\
      allocations h' = allocations h0 /\
      Forall (fun s => RingBufferCondPool.occupancy s = RingBufferCondPool.capacity s) (ShardedCondBasedPool.shards p')) /\
  (exists p0 h0 p' h',
      NewShardedRingBufferCondPool 4 8 0 testAllocator testCleaner [] = Ok (p0, h0) /\
      pinned_round_trips ShardedRingBufferCondPool.Get (put_read ShardedRingBufferCondPool.Put) [0; 3; 3; 1; 0; 2; 3] (p0, h0)
        = Ok (p', h') /\
      allocations h' = allocations h0 /\
      Forall (fun s => RingBufferCondPool.occupancy s = RingBufferCondPool.capacity s) (ShardedRingBufferCondPool.shards p')).
Proof.
  assert (is_int 8) as HC by (unfold is_int, int_min, int_max; lia).
  assert (1 <= 4) as Hn by lia.
  assert (Forall (fun procPin => 0 <= procPin < 4) [0; 3; 3; 1; 0; 2; 3]) as Hpins.
  { repeat (apply Forall_cons_2; [lia|]). apply Forall_nil_2. }
  split; [split; [exact HC|split; [reflexivity|split; [exact Hn|split;
    [exact testAllocator_fresh|exact Hpins]]]]|].
  exact (sharded_benchmark_loop 4 8 0 4 _ testAllocator testCleaner []
           HC eq_refl Hn testAllocator_fresh Hpins).
Defined.

(** ** Concurrent Gets on the atomic pool *)

Lemma bind_insert_split {A B : Type} (f : A -> list B) (l : list A) (i : nat) (x : A) :
  l !! i = Some x ->
  exists L R,
    l ≫= f = L ++ f x ++ R /\ forall y, <[i := y]> l ≫= f = L ++ f y ++ R.
Proof.
  intros Hx. exists (take i l ≫= f), (drop (S i) l ≫= f). split.
  - rewrite <- (take_drop_middle l i x Hx) at 1. by rewrite bind_app, bind_cons.
  - intros y. rewrite insert_take_drop by (by eapply lookup_lt_Some).
    by rewrite bind_app, bind_cons.
Qed.

Lemma NoDup_insert_middle {A : Type} (L R : list A) (x : A) :
  NoDup (L ++ R) -> x ∉ L ++ R -> NoDup (L ++ [x] ++ R).
Proof.
  intros Hnd Hx. apply NoDup_app in Hnd as (HL & HLR & HR).
  apply not_elem_of_app in Hx as [HxL HxR].
  apply NoDup_app. split; [done|]. split.
  - intros y Hy [->%list_elem_of_singleton|HyR]%elem_of_app; [done|by eapply HLR].
  - apply NoDup_cons. by split.
Qed.

Lemma claimable_grow (objs : list ptr) (h0 : heap) (index index' : Z) (h h' : heap)
    (x : ptr) :
  0 <= index' <= index -> (length h <= length h')%nat ->
  claimable objs h0 index h x -> claimable objs h0 index' h' x.
Proof.
  intros Hidx Hlen [Hx|(a & -> & Ha)].
  - left. apply list_elem_of_lookup in Hx as [j Hj]. rewrite lookup_drop in Hj.
    apply list_elem_of_lookup.
    exists (Z.to_nat index - Z.to_nat index' + j)%nat. rewrite lookup_drop.
    rewrite <- Hj. f_equal. lia.
  - right. exists a. split; [done|lia].
Qed.

(** The step changed neither the pool, the heap nor what is held. *)
Ltac kept :=
  split; [done|]; split; [done|]; split; [done|]; split; [done|];
  split; [done|]; split; [done|]; split; [done|]; split; done.

Lemma gets_step_inv (alloc : Allocator) (objs : list ptr) (h0 : heap)
    (p : AtomicBasedPool.t) (h : heap) (th : AtomicBasedPool.pc) (L R : list ptr) :
  fresh_allocator alloc -> NoDup objs ->
  Forall (fun x => exists a, x = Some a /\ (a < length h0)%nat) objs ->
  AtomicBasedPool.wf p -> AtomicBasedPool.objects p = objs ->
  AtomicBasedPool.allocator p = alloc ->
  AtomicBasedPool.pc_ok p th -> in_get th ->
  NoDup (L ++ holds objs th ++ R) ->
  Forall (claimable objs h0 (AtomicBasedPool.index p) h) (L ++ holds objs th ++ R) ->
  (length h0 <= length h)%nat ->
  exists th' p' h',
    AtomicBasedPool.step th p h = (th', p', h') /\
    AtomicBasedPool.wf p' /\ AtomicBasedPool.objects p' = objs /\
    AtomicBasedPool.allocator p' = alloc /\
    AtomicBasedPool.capacity p' = AtomicBasedPool.capacity p /\
    AtomicBasedPool.pc_ok p' th' /\ in_get th' /\
    NoDup (L ++ holds objs th' ++ R) /\
    Forall (claimable objs h0 (AtomicBasedPool.index p') h') (L ++ holds objs th' ++ R) /\
    (length h0 <= length h')%nat.
Proof.
  intros Hfresh Hndo Hold Hwf Hobjs Hal Hok Hin Hnd Hclaim Hlen.
  pose proof Hwf as (Hlo & Hidx & Hcap).
  assert (forall x, x ∈ objs -> exists a, x = Some a /\ (a < length h0)%nat) as Holdx
    by (by apply Forall_forall).
  destruct th as [|idx|idx|obj|obj idx|obj idx|obj| |]; try done.
  - (* GetLoad *)
    unfold AtomicBasedPool.step, AtomicBasedPool.Load.
    destruct (Z.leb_spec (AtomicBasedPool.index p) 0) as [Hempty|Hpos].
    + rewrite Hal. destruct (Hfresh h) as [o Ho]. rewrite Ho.
      eexists _, _, _. split; [reflexivity|].
      split; [done|]. split; [done|]. split; [done|]. split; [done|].
      split; [done|]. split; [done|].
      cbn [holds app] in *. split; [|split].
      * apply NoDup_insert_middle; [done|]. intros Hx.
        pose proof (proj1 (Forall_forall _ _) Hclaim _ Hx) as [Hd|(a & [= <-] & Ha)]; [|lia].
        apply list_elem_of_lookup in Hd as [j Hj]. rewrite lookup_drop in Hj.
        apply list_elem_of_lookup_2 in Hj. destruct (Holdx _ Hj) as (a & [= <-] & Ha). lia.
      * apply Forall_app in Hclaim as [HL HR]. apply Forall_app. split; [|apply Forall_cons; split].
        -- eapply Forall_impl; [exact HL|]. intros x. apply claimable_grow; [lia|].
           rewrite length_app. simpl. lia.
        -- right. exists (length h). split; [done|]. rewrite length_app. simpl. lia.
        -- eapply Forall_impl; [exact HR|]. intros x. apply claimable_grow; [lia|].
           rewrite length_app. simpl. lia.
      * rewrite length_app. simpl. lia.
    + eexists _, _, _. split; [reflexivity|].
      split; [done|]. split; [done|]. split; [done|]. split; [done|].
      split; [simpl; lia|]. split; [done|]. split; [done|]. by split.
  - (* GetCAS *)
    simpl in Hok. unfold AtomicBasedPool.step, AtomicBasedPool.CompareAndSwap.
    destruct (Z.eqb_spec (AtomicBasedPool.index p) idx) as [Heq|Hne].
    + rewrite int_sub_small by (unfold is_int, int_min, int_max in *; lia).
      destruct (lookup_lt_is_Some_2 objs (Z.to_nat (idx - 1)) ltac:(rewrite <- Hobjs; lia))
        as [x Hx].
      eexists _, _, _. split; [reflexivity|].
      split; [unfold AtomicBasedPool.wf; simpl; lia|].
      split; [done|]. split; [done|]. split; [done|].
      split; [simpl; lia|]. split; [done|].
      cbn [holds app AtomicBasedPool.index AtomicBasedPool.with_index] in *.
      rewrite Hx. split; [|split; [|done]].
      * apply NoDup_insert_middle; [done|]. intros Hxin.
        pose proof (proj1 (Forall_forall _ _) Hclaim _ Hxin) as [Hd|(a & -> & Ha)].
        -- apply list_elem_of_lookup in Hd as [j Hj]. rewrite lookup_drop in Hj.
           pose proof (NoDup_lookup _ _ _ _ Hndo Hx Hj). lia.
        -- apply list_elem_of_lookup_2 in Hx. destruct (Holdx _ Hx) as (b & [= <-] & Hb). lia.
      * apply Forall_app in Hclaim as [HL HR]. apply Forall_app. split; [|apply Forall_cons; split].
        -- eapply Forall_impl; [exact HL|]. intros y. apply claimable_grow; lia.
        -- left. apply list_elem_of_lookup. exists 0%nat. rewrite lookup_drop.
           by rewrite Nat.add_0_r.
        -- eapply Forall_impl; [exact HR|]. intros y. apply claimable_grow; lia.
    + eexists _, _, _. split; [reflexivity|]. kept.
  - (* GetSlot *)
    simpl in Hok. unfold AtomicBasedPool.step.
    rewrite int_sub_small by (unfold is_int, int_min, int_max in *; lia).
    destruct (index_slice_in (AtomicBasedPool.objects p) (idx - 1) ltac:(lia))
      as (x & Hx & ->).
    rewrite Hobjs in Hx. cbn [holds] in *. rewrite Hx in *.
    eexists _, _, _. split; [reflexivity|]. kept.
  - (* GetDone *)
    eexists _, _, _. split; [reflexivity|]. kept.
Qed.

Lemma gets_fire_inv (alloc : Allocator) (objs : list ptr) (h0 : heap)
    (c : AtomicBasedPool.config) (e : AtomicBasedPool.event) :
  fresh_allocator alloc -> NoDup objs ->
  Forall (fun x => exists a, x = Some a /\ (a < length h0)%nat) objs ->
  gets_inv alloc objs h0 c ->
  match e with AtomicBasedPool.CallPut _ => False | _ => True end ->
  gets_inv alloc objs h0 (AtomicBasedPool.fire c e).
Proof.
  intros Hfresh Hndo Hold (Hwf & Hobjs & Hal & Hths & Hnd & Hclaim & Hlen) He.
  destruct e as [|obj|i]; [|done|].
  - unfold gets_inv, AtomicBasedPool.fire.
    cbn [AtomicBasedPool.pool AtomicBasedPool.mem AtomicBasedPool.threads].
    rewrite bind_app. cbn [mbind list_bind holds app]. rewrite app_nil_r.
    split; [done|]. split; [done|]. split; [done|].
    split; [|done]. apply Forall_app. split; [done|]. by apply Forall_singleton.
  - unfold AtomicBasedPool.fire.
    destruct (AtomicBasedPool.threads c !! i) as [th|] eqn:Hth;
      [|by unfold gets_inv].
    pose proof (proj1 (Forall_lookup _ _) Hths _ _ Hth) as [Hok Hin].
    destruct (bind_insert_split (holds objs) _ i th Hth) as (L & R & Hsplit & Hsplit').
    rewrite Hsplit in Hnd, Hclaim.
    destruct (gets_step_inv alloc objs h0 _ _ th L R Hfresh Hndo Hold Hwf Hobjs Hal Hok Hin
                Hnd Hclaim Hlen)
      as (th' & p' & h' & -> & Hwf' & Hobjs' & Hal' & Hcap' & Hok' & Hin' & Hnd' & Hclaim' & Hlen').
    unfold gets_inv. cbn [AtomicBasedPool.pool AtomicBasedPool.mem AtomicBasedPool.threads].
    rewrite Hsplit'.
    split; [done|]. split; [done|]. split; [done|]. split; [|done].
    apply Forall_insert; [|done].
    eapply Forall_impl; [exact Hths|]. intros th0 [Hok0 Hin0]. split; [|done].
    by eapply AtomicBasedPoolFacts.abp_pc_ok_cap.
Qed.

Lemma gets_interleave_inv (alloc : Allocator) (objs : list ptr) (h0 : heap)
    (es : list AtomicBasedPool.event) (c : AtomicBasedPool.config) :
  fresh_allocator alloc -> NoDup objs ->
  Forall (fun x => exists a, x = Some a /\ (a < length h0)%nat) objs ->
  gets_inv alloc objs h0 c -> gets_only es ->
  gets_inv alloc objs h0 (AtomicBasedPool.interleave es c).
Proof.
  intros Hfresh Hndo Hold. revert c. induction es as [|e es IH]; intros c Hinv Hes; [done|].
  apply Forall_cons in Hes as [He Hes]. unfold AtomicBasedPool.interleave.
  cbn [fold_left]. apply IH; [|done]. by apply gets_fire_inv.
Qed.

Lemma returned_sublist (objs : list ptr) (ths : list AtomicBasedPool.pc) :
  returned ths `sublist_of` (ths ≫= holds objs).
Proof.
  unfold returned. induction ths as [|th ths IH]; [done|].
  rewrite !bind_cons. apply sublist_app; [|done].
  destruct th; cbn [holds]; try done. apply sublist_nil_l.
Qed.

(** X20. While goroutines only call [Get] on an atomic pool as constructed,
    however the scheduler interleaves their atomic operations, no two calls
    return the same object: the compare-and-swap gives each index to one
    caller only, and an object allocated for an empty pool is new. No call
    panics, every object returned is one of the heap, and the fill index
    stays within [0, capacity]. With a [Put] running in between this
    fails, as the section on overlapping calls shows. *)
Theorem concurrent_gets_return_distinct_objects (c : Z) (alloc : Allocator)
    (clean : Cleaner) (h : heap) (es : list AtomicBasedPool.event) :
  0 <= c <= int_max -> fresh_allocator alloc -> gets_only es ->
  exists p0 h0,
    NewAtomicBasedPool c alloc clean h = Ok (p0, h0) /\
    let cfg := AtomicBasedPool.interleave es
                 {| AtomicBasedPool.pool := p0; AtomicBasedPool.mem := h0;
                    AtomicBasedPool.threads := [] |} in
    NoDup (returned (AtomicBasedPool.threads cfg)) /\
    Forall (fun obj => valid obj (AtomicBasedPool.mem cfg))
           (returned (AtomicBasedPool.threads cfg)) /\
    (AtomicBasedPool.Crashed ∉ AtomicBasedPool.threads cfg) /\
    0 <= AtomicBasedPool.index (AtomicBasedPool.pool cfg) <= c.
Proof.
  intros Hc Hfresh Hes.
  destruct (AtomicBasedPoolFacts.abp_New c alloc clean h Hc)
    as (p0 & Hnew & Hwf & Hres & Hcap & Halloc & _ & Hidx).
  set (h0 := (alloc_n alloc (Z.to_nat c) h).2) in *.
  assert (AtomicBasedPool.objects p0 = (alloc_n alloc (Z.to_nat c) h).1) as Hobjs.
  { rewrite <- Hres. unfold AtomicBasedPool.resident. symmetry. apply take_ge.
    destruct Hwf as (Hlen & _). lia. }
  pose proof (alloc_n_NoDup alloc (Z.to_nat c) h Hfresh) as Hnd.
  destruct (alloc_n_valid alloc (Z.to_nat c) h Hfresh) as [Hold _]. fold h0 in Hold.
  rewrite <- Hobjs in Hnd, Hold.
  exists p0, h0. split; [done|]. cbv zeta.
  set (c0 := {| AtomicBasedPool.pool := p0; AtomicBasedPool.mem := h0;
                AtomicBasedPool.threads := [] |}).
  assert (gets_inv alloc (AtomicBasedPool.objects p0) h0 c0) as Hinv0.
  { unfold gets_inv, c0. simpl. split; [done|]. split; [done|]. split; [done|].
    split; [done|]. split; [apply NoDup_nil_2|]. split; [done|lia]. }
  destruct (gets_interleave_inv alloc _ h0 es c0 Hfresh Hnd Hold Hinv0 Hes)
    as (Hwf' & Hobjs' & _ & Hths & Hnd' & Hclaim & Hlen').
  pose proof (returned_sublist (AtomicBasedPool.objects p0)
                (AtomicBasedPool.threads (AtomicBasedPool.interleave es c0))) as Hsub.
  split; [by eapply sublist_NoDup|]. split; [|split].
  - apply Forall_forall. intros x Hx.
    pose proof (elem_of_sublist _ _ _ Hx Hsub) as Hx'.
    pose proof (proj1 (Forall_forall _ _) Hclaim _ Hx') as [Hd|(a & -> & Ha)].
    + apply list_elem_of_lookup in Hd as [j Hj]. rewrite lookup_drop in Hj.
      apply list_elem_of_lookup_2 in Hj.
      pose proof (proj1 (Forall_forall _ _) Hold _ Hj) as Hv.
      eapply valid_mono; [exact Hv|lia].
    + exists a. split; [done|lia].
  - intros Hcrash. by pose proof (proj1 (Forall_forall _ _) Hths _ Hcrash) as [Hok _].
  - destruct (AtomicBasedPoolFacts.abp_interleave_ok es c0 Hwf ltac:(by apply Forall_nil))
      as (_ & _ & Hcap').
    destruct Hwf' as (_ & Hi & _). simpl in Hcap'. lia.
Qed.

Lemma concurrent_gets_return_distinct_objects_witness :
  (0 <= 2 <= int_max /\ fresh_allocator testAllocator /\
   gets_only [AtomicBasedPool.CallGet; AtomicBasedPool.CallGet; AtomicBasedPool.CallGet; AtomicBasedPool.Sched 0; AtomicBasedPool.Sched 1; AtomicBasedPool.Sched 1; AtomicBasedPool.Sched 0; AtomicBasedPool.Sched 2; AtomicBasedPool.Sched 1; AtomicBasedPool.Sched 0; AtomicBasedPool.Sched 0; AtomicBasedPool.Sched 0; AtomicBasedPool.Sched 2; AtomicBasedPool.Sched 2; AtomicBasedPool.Sched 2]) /\

  exists p0 h0,
    NewAtomicBasedPool 2 testAllocator testCleaner [] = Ok (p0, h0) /\
    let cfg := AtomicBasedPool.interleave [AtomicBasedPool.CallGet; AtomicBasedPool.CallGet; AtomicBasedPool.CallGet; AtomicBasedPool.Sched 0; AtomicBasedPool.Sched 1; AtomicBasedPool.Sched 1; AtomicBasedPool.Sched 0; AtomicBasedPool.Sched 2; AtomicBasedPool.Sched 1; AtomicBasedPool.Sched 0; AtomicBasedPool.Sched 0; AtomicBasedPool.Sched 0; AtomicBasedPool.Sched 2; AtomicBasedPool.Sched 2; AtomicBasedPool.Sched 2]
                 {| AtomicBasedPool.pool := p0; AtomicBasedPool.mem := h0;
                    AtomicBasedPool.threads := [] |} in
    NoDup (returned (AtomicBasedPool.threads cfg)) /\
    Forall (fun obj => valid obj (AtomicBasedPool.mem cfg))
           (returned (AtomicBasedPool.threads cfg)) /\
    (AtomicBasedPool.Crashed ∉ AtomicBasedPool.threads cfg) /\
    0 <= AtomicBasedPool.index (AtomicBasedPool.pool cfg) <= 2.
Proof.
  assert (0 <= 2 <= int_max) as Hc by (unfold int_max; lia).
  assert (gets_only [AtomicBasedPool.CallGet; AtomicBasedPool.CallGet; AtomicBasedPool.CallGet; AtomicBasedPool.Sched 0; AtomicBasedPool.Sched 1; AtomicBasedPool.Sched 1; AtomicBasedPool.Sched 0; AtomicBasedPool.Sched 2; AtomicBasedPool.Sched 1; AtomicBasedPool.Sched 0; AtomicBasedPool.Sched 0; AtomicBasedPool.Sched 0; AtomicBasedPool.Sched 2; AtomicBasedPool.Sched 2; AtomicBasedPool.Sched 2]) as Hes.
  { unfold gets_only. repeat (apply Forall_cons_2; [exact I|]). apply Forall_nil_2. }
  split; [split; [exact Hc|split; [exact testAllocator_fresh|exact Hes]]|].
  exact (concurrent_gets_return_distinct_objects 2 testAllocator testCleaner [] _
           Hc testAllocator_fresh Hes).
Defined.
